(* ===== verification/_CoqProject ===== *)
-Q . S2P
Prelude.v
Json.v
JsonWriter.v
JsonReader.v
JsonRef.v
JsonArena.v
JsonAccess.v
JsonBytes.v
Base64.v
Wire.v
Probe.v
CbRegistry.v
HandleTable.v
HandleCore.v
HandleSpec.v
HandleTheorems.v
Paths.v
Gpgdir.v
Lookup.v
Server.v
Mtree.v
Dispatch.v
DispatchTheorems.v
Connection.v
ConnectionTheorems.v
Ends.v
Uthash.v
Peer.v
Blocks.v
ServerBlocks.v
Cache.v
CacheTheorems.v
Groups.v
GroupTheorems.v
ClientState.v
Client.v
ClientCalls.v
ClientPurge.v
ClientTheorems.v
Bridge.v
ClientBlocks.v
ClientFields.v
ClientMtree.v
Lock.v
ClientThreads.v
ClientLocal.v
Invalidate.v
Process.v
Session.v
