(* ===== verification/Prelude.v ===== *)
(** * alpmrpc, verified: the root of the development

    alpmrpc lets a native Windows program use libalpm in an MSYS2 process over
    a named pipe.  A request is a JSON text in a frame of its own; the server
    looks the method up, runs a handler that calls libalpm, and answers with a
    JSON text.  libalpm's objects stay in the server: the client holds ids,
    which a handle table resolves.  libalpm may call back in the middle of a
    call; the callback travels to the client as a frame of its own, and the
    client may send requests before it answers.

    ** The files

    Each file names the C file it models at its top.  Bottom up:

    - Prelude.v (this file): outcomes of C code, machine integers, C strings,
      the allocator, the growth loop of buffers, bit fields, tactics.
    - Json.v: JSON trees, the canonical text of a tree, reads of a tree: the
      specification the next files are held to.
    - JsonWriter.v: the writer of src/common/arpc_json.c ([aj_w]): a growing
      buffer and a sticky error.  [emits] is the contract of a write, used by
      everything that writes.
    - JsonReader.v: the parser and the accessors of the same file, over the
      arena of nodes and the string buffer.  JsonRef.v: a parser of trees, its
      progress, bounds and round trip.  JsonArena.v: the simulation of the
      reference parser by the arena parser; [reads] says that a node stands
      for a tree.  JsonAccess.v: the accessors are reads of the tree.
      JsonBytes.v: parsed strings are bytes.
    - Base64.v: src/common/arpc_b64.c.
    - Wire.v: src/common/arpc_wire.c: identities, the name of the endpoint,
      frames over handles that transfer in pieces ([HandleOps] are the calls,
      [Handle] and [Connected] what is promised of them), and the order in
      which bytes cross a handle ([moves]; [Logged] is a handle that keeps it).

    The server:

    - CbRegistry.v: the callback registry of src/server/arpc_callbacks.c.
    - HandleTable.v: the handle table of src/server/arpc_server.c, two
      open-addressed indexes over one array.  Probe.v: linear probing.
      HandleCore.v: the invariant of the arrays.  HandleSpec.v: the table as a
      finite map and the refinement, operation by operation.
      HandleTheorems.v: programs of operations, and the properties.
    - Paths.v, Gpgdir.v, Mtree.v: src/server/arpc_paths.c, arpc_gpgdir.c and
      arpc_mtree.c.
    - Lookup.v: [strcmp] and [bsearch].
    - Server.v: the request and response runtime of arpc_server.c that
      handlers are written against.
    - Dispatch.v: the dispatcher of arpc_server.c, the infrastructure methods
      and the callback transport of arpc_callbacks.c; DispatchTheorems.v: what
      is answered.
    - Connection.v: [arpc_conn_exchange] and [serve_connection] of
      src/server/main.c; ConnectionTheorems.v: callbacks, nested requests.
      Ends.v: the loops of a connection are never cut off, whatever the heap
      does.
    - Invalidate.v: src/server/arpc_invalidate.c, the hooks around the calls
      in which libalpm frees objects on its own.
    - Process.v: [main] of src/server/main.c, with its options, the loop that
      accepts connections, [--stop] and [--stdio].

    The client:

    - Uthash.v: what is relied on of uthash, and of the placement of blocks.
    - Peer.v: the identity check of arpc_wire.c on handles and blocks of
      memory, which both ends use; it implements the functions of Wire.v.
    - Blocks.v: the heap that texts, documents and writers are blocks of.
      ServerBlocks.v: dispatch and connection with it.  ClientBlocks.v: the
      call cycle with it, up to [arpc_end].
    - Cache.v: the cache of borrowed strings and lists of
      src/client/arpc_client.c; CacheTheorems.v: its invariant and what
      callers may rely on.  Groups.v, GroupTheorems.v: the groups of packages
      and their columns.
    - ClientState.v: the variables of the process, the registry of
      src/client/arpc_callbacks.c, and Windows ([Win]).  Client.v: finding and
      starting a server, connecting, building a request, exchanging frames,
      dispatching callbacks, checking and reading the reply.  ClientCalls.v:
      a whole stub, and what it sends and reads.  ClientPurge.v: what goes
      with an object, and with a handle, of all the client keeps.
      ClientTheorems.v: the exchange with its callbacks, connecting, and that
      a call ends.
    - ClientFields.v: the batched fields.  ClientMtree.v:
      src/client/arpc_mtree.c.  ClientLocal.v: src/client/arpc_local.c.
    - Lock.v: threads that share a lock, as steps of a machine under a
      schedule, for any code.  ClientThreads.v: the functions of the client
      that take the lock, step by step, and [DllMain].

    Both together:

    - Bridge.v: a call from the stub to the handler and back, a callback from
      the hook to the caller's function and back.
    - Session.v: a whole conversation, calls and callbacks nested to any
      depth, over the pipe between the two processes.

    ** State

    The C keeps its state in file-scope variables.  Here it is passed: [aj_w]
    and [aj_doc] for the JSON code, [htab] for the handle table, [cbregs] for
    the registry, [gpg] for the gpgme record, and [server], which gathers
    them with the sequence number, the connection, the path style, the
    shutdown flag, the world of libalpm and the pipe; on the other side
    [client], with the pipe, the identity, the registry, the last error, the
    [cache] and the [groups].  Objects that are linked, shared and freed --
    cache entries, their strings, groups, slots -- live in finite maps from
    addresses, so that a read of one that is gone is undefined.  An [outcome]
    is the result of a function: [Undef] marks undefined behaviour -- an
    access out of bounds or to what was freed, a signed overflow -- and
    [NoFuel] a loop that was cut off, so a theorem that gives [Ret] or [Fail]
    rules both out.  Other pointers are indices, addresses or, for strings,
    the bytes themselves; the position of a [char *] in a text is the rest of
    the text.

    ** Parameters

    What is not under src/ is a parameter: which requests the heap grants
    ([Allocator]) and where ([Placement]), Windows' transfers
    ([HandleOps]), processes and pipes ([Win] for the client, [WinServer] for
    the server), its processes and their tokens ([Security], which gives what
    the others take of a token), Cygwin's path conversion ([Cygwin]), libalpm
    ([Gpgme] with gpgme, [Libalpm] for the hooks), libarchive
    ([Archive] and, in the client, [ReadArchive]), uthash ([Uthash]), the
    generated method table, callback names and installers ([Generated]), the
    client's generated callbacks ([Stubs]) and its generated stubs where
    threads are concerned ([GeneratedStubs]), its callbacks and the server's
    methods where blocks are ([StubBlocks], [MethodBlocks]), what a refused
    text leaves in a document ([Leftovers]), CRITICAL_SECTION
    ([CriticalSection]) and handle tags ([Tags]).  What is
    relied on is a class of its own beside each ([Handle], [Connected],
    [SecurityOk], [GpgmeOk], [Steady], [SmallArchive], [TotalAllocator],
    [PlacementOk], [UthashOk], [UthashTotal], [LibalpmOk], [ReadArchiveOk],
    [CriticalSectionOk], [GeneratedLocked], [StubBlocksOk], [MethodBlocksOk])
    or a hypothesis of the theorem, and a witness shows that it can hold.
    Handlers and the callers' functions are not in the repository, so theorems quantify over
    them: they take the transport as an argument, and the knot is tied in
    Connection.v and in Client.v.

    ** What is shown

    The JSON parser returns on every text, inside its buffers, what the
    reference parser does; the writer writes the canonical text or leaves its
    error set; the two are inverse, and so are the base64 coders and the
    frames.  The handle table behaves as a map from ids to objects under any
    sequence of operations; ids are not reused, dropping an owner drops
    exactly what is under it, and after a call in which libalpm frees on its
    own no id leads to what it may have freed, as long as what is about to die
    could be noted.  gpgme is at the directory a call goes by when the call is
    made, an error pending or not.  A handler reads what the
    request says and what it writes comes back, under the id of the request,
    as the canonical text of its members.  Requests that arrive during a
    callback are answered in order, and a callback takes only its own answer;
    a connection ends.  A server serves its own user at its own elevation
    only, by a check that closes and frees all it opened, makes no pipe but
    under its endpoint's name and with the descriptor that says so, and leaves
    when it is asked to, in whichever way Windows tells it of the client.

    The client connects to a server of its own user or to none; it sends what
    the stub was given, serves callbacks in order until the reply comes, each
    answered before a byte of the next frame is read, and takes only the reply
    to its request; a call ends.  Its cache is memory
    safe, releases everything once, and hands out the same pointer as long as
    the owner lives; letting go of an object or a handle takes what is under
    it and nothing else; slots of packages never dangle; one round trip reads
    a field of a whole list; an open archive has its buffer, as long as the
    note of which buffer it is could be made.  Put together: the
    handler runs on the trees of the stub's arguments and the stub reads what
    the handler left; a callback reaches the function registered for it, and
    its value gets back.  A conversation of any length and depth, over the
    pipe, does what the two ends do when each is handed to the other as a
    function, and no end waits for a frame the other does not send.  Threads
    that call through the client take turns, whatever the schedule; closing an
    mtree, which is not wholly under the lock, does not.

    On both sides each frame, document, answer, request and reply is freed
    once and not read after, and the heap is left as it was, with one
    exception: [call_frees] says what [arpc_invoke] leaks when memory runs out.
    The last property states another thing that happens where the code does not
    look whether memory ran out: a success reply with a text cut off.
    [handle_drop_owner_correct] has a drop that is not done, [hooks_correct]
    ids that outlive what libalpm freed, [mtree_streams_safe] an archive whose
    buffer is gone; [gpgdir_follow_refused] and [response_column_unchecked]
    are of the same kind.  Where a property needs memory its statement says
    which, and its comment that it does.

    ** Bounds and fuel

    [double_until] and the growth loop of the writer run at most 64 times, as
    a [size_t] has 64 bits.  The parser takes four steps per byte of text, and
    [parse_fuel] is more than that; probe loops visit each cell at most once,
    and are given as much fuel as there are cells; base64 loops are
    structural.  The walks up the owners take eight steps in the C too.  An
    exchange costs one unit of fuel per frame received, on either side, and
    its fuel is an argument: as many rounds as the pipe has bytes are enough,
    as a frame has five bytes or more.  The client looks for a server it
    started 400 times, so 401 rounds are enough; connecting nests in itself
    once, through [set_path_style], so a depth of 2 is enough.  [--stop] looks
    200 times.  [--stdio] takes at least a byte of its input each round
    ([Process.stdio_ends]).  The loop that accepts connections runs for as
    long as clients come, so its fuel is the number of rounds looked at.  A
    schedule of threads is a list, of any length.  A handle table that has
    given out fewer than 2^39 ids is assumed where the sequence number
    matters, texts of at most [ARPC_MAX_FRAME] bytes where they come from a
    frame.

    ** What is not modelled

    What the heap grants is told by the size asked for alone: within one run a
    size that was granted once is granted always.  So [find_owned] does not
    miss a live entry whose long key it has no room to build, and the cache
    never has two live entries of one key, which the C can make then.  Reads
    and writes are functions: one that waits for a peer that stays silent is
    not represented, so that a call or a connection ends means that its loops
    are bounded, not that the other end answers.

    What is written to stderr and the counters that are only logged.  Outside
    ClientThreads.v the client's lock is not there: a stub holds it for the
    whole of a call, so calls are taken one at a time.  The two ends of a pipe
    are run each on the texts the other sends, not step by step in turns.
    Functions that only free: [arpc_free_list], [drop_none].  Blocks that one
    function takes and frees are not followed: the parser's string buffer,
    base64, the mtree.  The generated stubs and handlers, which are not in the
    repository, the generator (tools/gen), the tests and the vendored
    alpm_list.c, which is pacman's. *)

From stdpp Require Export base list numbers strings option fin_maps gmap.
From Stdlib Require Export ZArith Lia.

Global Open Scope Z_scope.

(** ** Outcomes of C code

    [Ret a]   the function returned [a];
    [Fail]    the function reported its failure (-1, 0 or NULL, as it does);
    [Undef]   an access out of bounds or a signed overflow: undefined behaviour;
    [NoFuel]  the bound of the model on a loop was reached. *)
Inductive outcome (A : Type) : Type :=
| Ret (a : A)
| Fail
| Undef
| NoFuel.
Arguments Ret {A} a.
Arguments Fail {A}.
Arguments Undef {A}.
Arguments NoFuel {A}.

#[export] Instance outcome_ret : MRet outcome := fun A => Ret.
#[export] Instance outcome_bind : MBind outcome := fun A B f m =>
  match m with
  | Ret a => f a
  | Fail => Fail
  | Undef => Undef
  | NoFuel => NoFuel
  end.

(** [m] neither runs into undefined behaviour nor out of fuel. *)
Definition defined {A} (m : outcome A) : Prop := m <> Undef /\ m <> NoFuel.

Lemma bind_ret {A B} (a : A) (f : A -> outcome B) : (Ret a ≫= f) = f a.
Proof. done. Qed.

Lemma bind_Ret_inv {A B} (m : outcome A) (f : A -> outcome B) (b : B) :
  m ≫= f = Ret b -> exists a, m = Ret a /\ f a = Ret b.
Proof. destruct m; simpl; naive_solver. Qed.

(** ** Machine integers *)

Definition u64 (z : Z) : Z := z mod 18446744073709551616.
Definition u32 (z : Z) : Z := z mod 4294967296.
Definition i64_min : Z := -9223372036854775808.
Definition i64_max : Z := 9223372036854775807.
Definition i32_max : Z := 2147483647.
(** The conversion of a [uint64_t] to [long long]. *)
Definition i64_of_u64 (z : Z) : Z :=
  if z <=? i64_max then z else z - 18446744073709551616.

Lemma u64_small z : 0 <= z < 18446744073709551616 -> u64 z = z.
Proof. apply Z.mod_small. Qed.
Lemma u32_small z : 0 <= z < 4294967296 -> u32 z = z.
Proof. apply Z.mod_small. Qed.
Lemma u64_range z : 0 <= u64 z < 18446744073709551616.
Proof. by apply Z.mod_pos_bound. Qed.
Lemma u32_range z : 0 <= u32 z < 4294967296.
Proof. by apply Z.mod_pos_bound. Qed.

(** A 64-bit id survives the trip through [long long] and back. *)
Lemma u64_i64_of_u64 z :
  0 <= z < 18446744073709551616 -> u64 (i64_of_u64 z) = z.
Proof.
  intros Hz. unfold u64, i64_of_u64, i64_max.
  destruct (Z.leb_spec z 9223372036854775807).
  - by apply Z.mod_small.
  - rewrite Zminus_mod, Z_mod_same_full, Z.sub_0_r, Zmod_mod.
    by apply Z.mod_small.
Qed.

Lemma i64_of_u64_range z : 0 <= z < 18446744073709551616 -> i64_min <= i64_of_u64 z <= i64_max.
Proof.
  intros Hz. unfold i64_of_u64, i64_min, i64_max. destruct (Z.leb_spec z 9223372036854775807); lia.
Qed.

(** [ARPC_MAX_FRAME] of src/common/arpc_wire.h: no longer text is parsed. *)
Definition ARPC_MAX_FRAME : Z := 64 * 1024 * 1024.

(** ** Bytes and C strings *)

Definition is_byte (c : Z) : Prop := 0 <= c < 256.
Abbreviation is_bytes := (Forall is_byte).

(** The bytes of a literal of the source. *)
Fixpoint lit (s : string) : list Z :=
  match s with
  | EmptyString => []
  | String a s' => Z.of_N (Ascii.N_of_ascii a) :: lit s'
  end.

(** The same with a backquote standing for the double quote. *)
Definition qlit (s : string) : list Z := (fun c => if c =? 96 then 34 else c) <$> lit s.

(** What a [char *] denotes: the bytes up to the first NUL. *)
Fixpoint cstr (s : list Z) : list Z :=
  match s with
  | [] => []
  | c :: s' => if c =? 0 then [] else c :: cstr s'
  end.

(** [strlen] *)
Definition strlen (s : list Z) : Z := Z.of_nat (length (cstr s)).
(** [!strcmp(a, b)] *)
Definition streq (a b : list Z) : bool := bool_decide (cstr a = cstr b).

(** A string with no NUL in it, of bytes: what a [char *] can carry whole. *)
Definition no_nul (s : list Z) : Prop := Forall (fun c => 0 < c < 256) s.

#[export] Instance is_byte_dec c : Decision (is_byte c).
Proof. unfold is_byte. apply _. Defined.
#[export] Instance no_nul_dec s : Decision (no_nul s).
Proof. unfold no_nul. apply _. Defined.

Abbreviation len l := (Z.of_nat (length l)).

Lemma cstr_no_nul s : no_nul s -> cstr s = s.
Proof.
  induction 1 as [|c s Hc _ IH]; [done|]. simpl.
  destruct (Z.eqb_spec c 0); [lia|]. by rewrite IH.
Qed.

Lemma cstr_app_nul s t : no_nul s -> cstr (s ++ 0 :: t) = s.
Proof.
  induction 1 as [|c s Hc _ IH]; [done|]. simpl.
  destruct (Z.eqb_spec c 0); [lia|]. by rewrite IH.
Qed.

Lemma cstr_nul_app s t : cstr (s ++ 0 :: t) = cstr s.
Proof. induction s as [|c s IH]; [done|]. simpl. by rewrite IH. Qed.

Lemma cstr_idemp s : cstr (cstr s) = cstr s.
Proof.
  induction s as [|c s IH]; [done|]. simpl.
  destruct (Z.eqb_spec c 0) as [|Hc]; [done|]. simpl.
  apply Z.eqb_neq in Hc. by rewrite Hc, IH.
Qed.

Lemma cstr_length s : (length (cstr s) <= length s)%nat.
Proof. induction s as [|c s IH]; simpl; [lia|]. case_match; simpl; lia. Qed.

Lemma no_nul_is_bytes s : no_nul s -> is_bytes s.
Proof. intros H. eapply Forall_impl; [exact H|]. unfold is_byte. lia. Qed.

(** ** Allocation

    The heap is the platform's: which requests [malloc], [calloc] and
    [realloc] grant is a parameter of every definition that allocates. *)
Class Allocator := { grants : Z -> bool }.

(** A heap that never refuses. *)
Class TotalAllocator `(A : Allocator) : Prop := grants_all n : grants n = true.

Definition ample : Allocator := {| grants := fun _ => true |}.
#[export] Instance ample_total : TotalAllocator ample.
Proof. done. Qed.

(** The growth loop of the buffers that do not watch for wrap-around:
    [while (cap < need) cap *= 2;] in [size_t]. *)
Fixpoint double_until (fuel : nat) (cap need : Z) : outcome Z :=
  match fuel with
  | O => NoFuel
  | S fuel => if cap <? need then double_until fuel (u64 (cap * 2)) need
              else Ret cap
  end.

Lemma double_until_spec k fuel cap need :
  0 < cap -> cap * 2 ^ Z.of_nat k <= 9223372036854775808 ->
  need <= cap * 2 ^ Z.of_nat k -> (k < fuel)%nat ->
  exists cap', double_until fuel cap need = Ret cap' /\
    need <= cap' /\ (cap' = cap \/ cap' < 2 * need) /\ cap <= cap' /\
    exists i, (i <= k)%nat /\ cap' = cap * 2 ^ Z.of_nat i.
Proof.
  revert fuel cap. induction k as [|k IH]; intros fuel cap Hcap Hmax Hneed Hf;
    (destruct fuel as [|fuel]; [lia|]); cbn [double_until].
  - destruct (Z.ltb_spec cap need); [lia|].
    exists cap. split_and!; [done|lia|lia|lia|]. exists 0%nat. lia.
  - destruct (Z.ltb_spec cap need).
    + rewrite Nat2Z.inj_succ, Z.pow_succ_r in Hmax, Hneed by lia.
      assert (1 <= 2 ^ Z.of_nat k) by (apply Zle_bool_imp_le; pose proof (Z.pow_pos_nonneg 2 (Z.of_nat k)); apply Z.leb_le; lia).
      rewrite u64_small by nia.
      destruct (IH fuel (cap * 2)) as (cap' & E & H1 & H2 & H3 & i & Hi & Ei); [lia|lia|lia|lia|].
      exists cap'. split_and!; [done|lia|lia|lia|].
      exists (S i). split; [lia|]. rewrite Nat2Z.inj_succ, Z.pow_succ_r by lia. lia.
    + exists cap. split_and!; [done|lia|lia|lia|]. exists 0%nat. lia.
Qed.

(** [buf[n++] = ...] for each byte of [bs], in a buffer of [cap] bytes of
    which [buf] are written. *)
Definition bput (cap : Z) (buf bs : list Z) : outcome (list Z) :=
  if len buf + len bs <=? cap then Ret (buf ++ bs) else Undef.

Lemma bput_ok cap buf bs : len buf + len bs <= cap -> bput cap buf bs = Ret (buf ++ bs).
Proof. unfold bput. intros. destruct (Z.leb_spec (len buf + len bs) cap); [done|lia]. Qed.

(** ** Bit fields *)

Lemma land_ones_mod x k : 0 <= k -> Z.land x (2 ^ k - 1) = x mod 2 ^ k.
Proof. intros. rewrite <- Z.land_ones by done. by rewrite Z.ones_equiv. Qed.

(** Fields that do not overlap add up. *)
Lemma lor_shiftl_add a b k : 0 <= k -> 0 <= b < 2 ^ k -> Z.lor (Z.shiftl a k) b = a * 2 ^ k + b.
Proof.
  intros Hk Hb. rewrite <- Z.shiftl_mul_pow2 by done.
  rewrite <- Z.lxor_lor, <- Z.add_nocarry_lxor; try done.
  all: apply Z.bits_inj'; intros n Hn; rewrite Z.land_spec, Z.bits_0.
  all: destruct (Z.lt_ge_cases n k) as [Hlt|Hge]; [by rewrite Z.shiftl_spec_low|].
  all: assert (b < 2 ^ n) by (eapply Z.lt_le_trans; [apply Hb|]; apply Z.pow_le_mono_r; lia).
  all: rewrite (proj2 (Z.testbit_false b n Hn)); [by rewrite andb_comm|].
  all: rewrite Z.div_small by lia; done.
Qed.

(** ** Checking a fact about bytes by running through them *)

Definition all_below (n : nat) (f : Z -> bool) : bool := forallb f (Z.of_nat <$> seq 0 n).

Lemma all_below_elim n f c : all_below n f = true -> 0 <= c < Z.of_nat n -> f c = true.
Proof.
  intros H Hc. unfold all_below in H. rewrite forallb_forall in H. apply H.
  apply list_elem_of_In, list_elem_of_fmap. exists (Z.to_nat c). split; [lia|].
  apply elem_of_seq. lia.
Qed.

(** ** Tactics *)

(** Splits the conditionals on integer tests, leaving facts [lia] reads. *)
Ltac zcase :=
  match goal with
  | |- context [?a =? ?b] => destruct (Z.eqb_spec a b)
  | |- context [?a <? ?b] => destruct (Z.ltb_spec a b)
  | |- context [?a <=? ?b] => destruct (Z.leb_spec a b)
  end.

(** Turns boolean tests in the context into facts [lia] reads. *)
Ltac zbool :=
  repeat match goal with
  | H : _ && _ = true |- _ => apply andb_prop in H; destruct H
  | H : (_ =? _) = true |- _ => apply Z.eqb_eq in H
  | H : (_ =? _) = false |- _ => apply Z.eqb_neq in H
  | H : (_ <? _) = true |- _ => apply Z.ltb_lt in H
  | H : (_ <? _) = false |- _ => apply Z.ltb_ge in H
  | H : (_ <=? _) = true |- _ => apply Z.leb_le in H
  | H : (_ <=? _) = false |- _ => apply Z.leb_gt in H
  end.

(** Inverts a hypothesis [m ≫= f = Ret b] as far as it goes. *)
Ltac inv_bind :=
  repeat match goal with
  | H : _ ≫= _ = Ret _ |- _ =>
      let a := fresh "a" in let E := fresh "E" in
      apply bind_Ret_inv in H; destruct H as (a & E & H)
  | H : Ret _ = Ret _ |- _ => injection H as H
  end.

Create HintDb arpc.
#[export] Hint Resolve no_nul_is_bytes u64_range u32_range : arpc.
Create Rewrite HintDb arpc_len.
#[export] Hint Rewrite @length_app @length_cons @length_nil : arpc_len.
