(* ===== verification/Json.v ===== *)
(** * JSON documents, abstractly

    The trees the wire carries, the text the writer of
    src/common/arpc_json.c produces for each, and the reads of
    [aj_member], [aj_i64] and the rest as functions of the tree.  The writer
    (JsonWriter.v) and the parser (JsonReader.v, JsonArena.v) are related to
    this file; nothing in it is code of the program. *)

From S2P Require Import Prelude.

(** Arrays and objects share a constructor, as they share
    [parse_container_]: the key of an array's element is not looked at. *)
#[warnings="-register-all"]
Inductive json : Type :=
| JNull
| JBool (b : bool)
| JNum (z : Z)
| JStr (s : list Z)
| JCont (is_obj : bool) (kids : list (list Z * json)).

Definition JObj (kids : list (list Z * json)) : json := JCont true kids.
Definition JArr (l : list json) : json := JCont false ((fun v => ([], v)) <$> l).

(** Induction that reaches the elements of a container. *)
Section json_ind.
Variable P : json -> Prop.
Hypothesis Hnull : P JNull.
Hypothesis Hbool : forall b, P (JBool b).
Hypothesis Hnum : forall z, P (JNum z).
Hypothesis Hstr : forall s, P (JStr s).
Hypothesis Hcont : forall o kids, Forall (fun kv => P kv.2) kids -> P (JCont o kids).

Fixpoint json_rect_nested (j : json) : P j :=
  match j with
  | JNull => Hnull
  | JBool b => Hbool b
  | JNum z => Hnum z
  | JStr s => Hstr s
  | JCont o kids =>
      Hcont o kids
        ((fix go kids : Forall (fun kv => P kv.2) kids :=
            match kids with
            | [] => List.Forall_nil _
            | kv :: kids' => @List.Forall_cons _ _ kv kids' (json_rect_nested kv.2) (go kids')
            end) kids)
  end.
End json_ind.

(** ** The canonical text *)

Definition hexdig (d : Z) : Z := if d <? 10 then 48 + d else 97 + d - 10.

(** What the writer puts for one byte of a string. *)
Definition esc (c : Z) : list Z :=
  if c =? 34 then [92; 34]
  else if c =? 92 then [92; 92]
  else if c =? 8 then [92; 98]
  else if c =? 12 then [92; 102]
  else if c =? 10 then [92; 110]
  else if c =? 13 then [92; 114]
  else if c =? 9 then [92; 116]
  else if c <? 32 then [92; 117; 48; 48; hexdig (Z.shiftr c 4); hexdig (Z.land c 15)]
  else [c].

Definition escs (s : list Z) : list Z := s ≫= esc.
Definition render_str (s : list Z) : list Z := [34] ++ escs s ++ [34].

(** Decimal digits, most significant first, of [0 <= u < 10 ^ fuel]. *)
Fixpoint digits (fuel : nat) (u : Z) : list Z :=
  match fuel with
  | O => []
  | S fuel => (if u <? 10 then [] else digits fuel (u / 10)) ++ [48 + u mod 10]
  end.

Definition render_num (z : Z) : list Z :=
  (if z <? 0 then [45] else []) ++ digits 20 (Z.abs z).

Definition sep (comma : bool) : list Z := if comma then [44] else [].
Definition opening (o : bool) : Z := if o then 123 else 91.
Definition closing (o : bool) : Z := if o then 125 else 93.
Definition render_key (k : list Z) : list Z := render_str k ++ [58].

Fixpoint render (j : json) : list Z :=
  match j with
  | JNull => lit "null"
  | JBool b => lit (if b then "true" else "false")
  | JNum z => render_num z
  | JStr s => render_str s
  | JCont o kids =>
      [opening o] ++
      (fix go (c : bool) (kids : list (list Z * json)) : list Z :=
         match kids with
         | [] => []
         | (k, v) :: kids' =>
             sep c ++ (if o then render_key k else []) ++ render v ++ go true kids'
         end) false kids ++
      [closing o]
  end.

(** The elements of a container; [c] says whether a comma comes first. *)
Fixpoint render_kids (o c : bool) (kids : list (list Z * json)) : list Z :=
  match kids with
  | [] => []
  | (k, v) :: kids' =>
      sep c ++ (if o then render_key k else []) ++ render v ++ render_kids o true kids'
  end.

Lemma render_cont o kids :
  render (JCont o kids) = [opening o] ++ render_kids o false kids ++ [closing o].
Proof.
  cbn [render]. f_equal. f_equal. generalize false.
  induction kids as [|[k v] kids IH]; intros c; [done|]. cbn [render_kids].
  by rewrite <- IH.
Qed.

(** ** Well-formed trees: what the wire can carry *)

Fixpoint wf_json (j : json) : Prop :=
  match j with
  | JNull | JBool _ => True
  | JNum z => i64_min <= z <= i64_max
  | JStr s => no_nul s
  | JCont o kids =>
      (fix go kids := match kids with
                      | [] => True
                      | kv :: kids' =>
                          (if o then no_nul kv.1 else kv.1 = []) /\ wf_json kv.2 /\ go kids'
                      end) kids
  end.

Lemma wf_json_cont o kids :
  wf_json (JCont o kids) <->
  Forall (fun kv => (if o then no_nul kv.1 else kv.1 = []) /\ wf_json kv.2) kids.
Proof.
  induction kids as [|kv kids IH]; [done|].
  rewrite Forall_cons, <- IH. cbn. tauto.
Qed.

(** How many containers are open at the deepest point. *)
Fixpoint jdepth (j : json) : Z :=
  match j with
  | JCont _ kids =>
      1 + (fix go kids := match kids with
                          | [] => 0
                          | kv :: kids' => Z.max (jdepth kv.2) (go kids')
                          end) kids
  | _ => 0
  end.

Fixpoint kids_depth (kids : list (list Z * json)) : Z :=
  match kids with
  | [] => 0
  | kv :: kids' => Z.max (jdepth kv.2) (kids_depth kids')
  end.

Lemma jdepth_cont o kids : jdepth (JCont o kids) = 1 + kids_depth kids.
Proof.
  done.
Qed.

Lemma jdepth_nonneg j : 0 <= jdepth j.
Proof.
  induction j as [| | | |o kids IH] using json_rect_nested; try (cbn; lia).
  rewrite jdepth_cont. induction IH; cbn; lia.
Qed.

(** ** Reading a tree *)

(** The members of an object and the elements of an array. *)
Definition kids_of (j : json) : list (list Z * json) :=
  match j with JCont _ kids => kids | _ => [] end.

(** The first member under [key], comparing as [strcmp] does. *)
Fixpoint first_member (kids : list (list Z * json)) (key : list Z) : option json :=
  match kids with
  | [] => None
  | (k, v) :: kids' => if streq k key then Some v else first_member kids' key
  end.

(** [aj_member] *)
Definition t_member (j : option json) (key : list Z) : option json :=
  match j with
  | Some (JCont true kids) => first_member kids key
  | _ => None
  end.

(** [aj_elem] *)
Definition t_elem (j : option json) (i : Z) : option json :=
  match j with
  | Some (JCont _ kids) => if i <? 0 then None else snd <$> kids !! Z.to_nat i
  | _ => None
  end.

Definition t_kids (j : option json) : list json :=
  match j with Some (JCont _ kids) => kids.*2 | _ => [] end.

(** [aj_i64], [aj_str], [aj_is_null] *)
Definition t_i64 (j : option json) (dflt : Z) : Z :=
  match j with
  | Some (JNum z) => z
  | Some (JBool b) => if b then 1 else 0
  | _ => dflt
  end.

Definition t_str (j : option json) : option (list Z) :=
  match j with Some (JStr s) => Some (cstr s) | _ => None end.

Definition t_is_null (j : option json) : bool :=
  match j with None | Some JNull => true | _ => false end.
