(* ===== verification/JsonWriter.v ===== *)
(** * The JSON writer of src/common/arpc_json.c

    A growing buffer written by operations that check the room once and then
    write unchecked: the unchecked writes are [Undef] when they would leave
    the buffer.  The theorems: no operation ever leaves it, an operation
    either appends exactly the text of Json.v or leaves the sticky error set,
    and over a heap that grants every request a document of any reasonable
    size is written whole. *)

From S2P Require Import Prelude Json.

(** [aj_w].  [w_buf] holds the [len] bytes written; [w_cap] is 0 exactly when
    [buf] is NULL. *)
Record aj_w := AjW {
  w_buf : list Z;
  w_cap : Z;
  w_err : bool;
  w_comma : bool
}.

Definition w_len (w : aj_w) : Z := Z.of_nat (length (w_buf w)).

Definition set_err (w : aj_w) : aj_w := AjW (w_buf w) (w_cap w) true (w_comma w).
Definition set_comma (w : aj_w) (c : bool) : aj_w := AjW (w_buf w) (w_cap w) (w_err w) c.
Definition set_cap (w : aj_w) (cap : Z) : aj_w := AjW (w_buf w) cap (w_err w) (w_comma w).
Definition set_buf (w : aj_w) (b : list Z) : aj_w := AjW b (w_cap w) (w_err w) (w_comma w).

Definition ajw_init : aj_w := AjW [] 0 false false.
Definition ajw_free (w : aj_w) : aj_w := ajw_init.

Section Writer.
Context {A : Allocator}.

(** The loop of [wgrow]: doubles until [need] fits, [Fail] on wrap-around. *)
Fixpoint wgrow_loop (fuel : nat) (cap need : Z) : outcome Z :=
  match fuel with
  | O => NoFuel
  | S fuel =>
      if cap <? need then
        let next := u64 (cap * 2) in
        if next <? cap then Fail else wgrow_loop fuel next need
      else Ret cap
  end.

(** Ensure room for [need] more bytes plus the terminating NUL. *)
Definition wgrow (w : aj_w) (need : Z) : outcome (aj_w * bool) :=
  if w_err w then Ret (w, false)
  else if u64 (w_len w + need + 1) <=? w_cap w then Ret (w, true)
  else
    let cap := if w_cap w =? 0 then 256 else w_cap w in
    match wgrow_loop 64 cap (u64 (w_len w + need + 1)) with
    | Ret cap => if grants cap then Ret (set_cap w cap, true)
                 else Ret (set_err w, false)
    | Fail => Ret (set_err w, false)
    | Undef => Undef
    | NoFuel => NoFuel
    end.

Definition ajw_reserve (w : aj_w) (bytes : Z) : outcome (aj_w * bool) := wgrow w bytes.

(** These write without checking; every caller reserves first. *)
Definition wraw_ (w : aj_w) (s : list Z) : outcome aj_w :=
  if w_len w + Z.of_nat (length s) + 1 <=? w_cap w then Ret (set_buf w (w_buf w ++ s))
  else Undef.

Definition wputc_ (w : aj_w) (c : Z) : outcome aj_w :=
  if w_len w + 2 <=? w_cap w then Ret (set_buf w (w_buf w ++ [c])) else Undef.

Definition wput (w : aj_w) (s : list Z) : outcome aj_w :=
  '(w, ok) ← wgrow w (Z.of_nat (length s));
  if ok : bool then wraw_ w s else Ret w.

Definition ajw_raw (w : aj_w) (s : list Z) : outcome aj_w :=
  '(w, ok) ← wgrow w (Z.of_nat (length s));
  w ← (if ok : bool then wraw_ w s else Ret w);
  Ret (set_comma w true).

Definition wsep (w : aj_w) : outcome aj_w :=
  if w_comma w then
    '(w, ok) ← wgrow w 1;
    if ok : bool then
      w ← wputc_ w 44;
      Ret (set_comma w true)
    else Ret w
  else Ret (set_comma w true).

Definition wopen (w : aj_w) (c : Z) : outcome aj_w :=
  w ← wsep w;
  '(w, ok) ← wgrow w 1;
  if ok : bool then
    w ← wputc_ w c;
    Ret (set_comma w false)
  else Ret w.

Definition wclose (w : aj_w) (c : Z) : outcome aj_w :=
  '(w, ok) ← wgrow w 1;
  if ok : bool then
    w ← wputc_ w c;
    Ret (set_comma w true)
  else Ret w.

Definition ajw_obj_begin (w : aj_w) : outcome aj_w := wopen w 123.
Definition ajw_obj_end (w : aj_w) : outcome aj_w := wclose w 125.
Definition ajw_arr_begin (w : aj_w) : outcome aj_w := wopen w 91.
Definition ajw_arr_end (w : aj_w) : outcome aj_w := wclose w 93.

Definition HEXDIG : list Z := lit "0123456789abcdef".

(** The switch of [wstr_escaped], for the byte that stopped a run. *)
Definition wescape (w : aj_w) (c : Z) : outcome aj_w :=
  if c =? 34 then wraw_ w [92; 34]
  else if c =? 92 then wraw_ w [92; 92]
  else if c =? 8 then wraw_ w [92; 98]
  else if c =? 12 then wraw_ w [92; 102]
  else if c =? 10 then wraw_ w [92; 110]
  else if c =? 13 then wraw_ w [92; 114]
  else if c =? 9 then wraw_ w [92; 116]
  else wraw_ w [92; 117; 48; 48;
                nth (Z.to_nat (Z.shiftr c 4)) HEXDIG 0;
                nth (Z.to_nat (Z.land c 15)) HEXDIG 0].

(** The loop of [wstr_escaped]: [run] is what lies between the C pointers
    [run] and [p].  The flag is false when the function returned early. *)
Fixpoint wstr_loop (run p : list Z) (w : aj_w) : outcome (aj_w * bool) :=
  let c := match p with [] => 0 | c :: _ => c end in
  if (32 <=? c) && negb (c =? 34) && negb (c =? 92) then
    match p with
    | [] => Ret (w, true)
    | c :: p' => wstr_loop (run ++ [c]) p' w
    end
  else
    '(w, ok) ← (if Z.of_nat (length run) =? 0 then Ret (w, true)
                else '(w, ok) ← wgrow w (Z.of_nat (length run));
                     if ok : bool then w ← wraw_ w run; Ret (w, true)
                     else Ret (w, false));
    if ok : bool then
      if c =? 0 then Ret (w, true)
      else
        '(w, ok) ← wgrow w 6;
        if ok : bool then
          w ← wescape w c;
          match p with
          | [] => Ret (w, true)
          | _ :: p' => wstr_loop [] p' w
          end
        else Ret (w, false)
    else Ret (w, false).

Definition wstr_escaped (w : aj_w) (s : list Z) : outcome aj_w :=
  '(w, ok) ← wgrow w (u64 (strlen s + 2));
  if ok : bool then
    w ← wputc_ w 34;
    '(w, ok) ← wstr_loop [] s w;
    if ok : bool then
      '(w, ok) ← wgrow w 1;
      if ok : bool then wputc_ w 34 else Ret w
    else Ret w
  else Ret w.

Definition ajw_key (w : aj_w) (key : list Z) : outcome aj_w :=
  w ← wsep w;
  w ← wstr_escaped w key;
  '(w, ok) ← wgrow w 1;
  if ok : bool then
    w ← wputc_ w 58;
    Ret (set_comma w false)
  else Ret w.

Definition ajw_null (w : aj_w) : outcome aj_w :=
  w ← wsep w;
  wput w (lit "null").

(** [ajw_str]: [None] is the NULL pointer. *)
Definition ajw_str (w : aj_w) (s : option (list Z)) : outcome aj_w :=
  match s with
  | None => ajw_null w
  | Some s => w ← wsep w; wstr_escaped w s
  end.

(** The digits of [u], least significant first, as [tmp] receives them;
    [tmp] has 24 places. *)
Fixpoint i64_digits (fuel : nat) (tmp : list Z) (u : Z) : outcome (list Z) :=
  match fuel with
  | O => NoFuel
  | S fuel =>
      if Z.of_nat (length tmp) <? 24 then
        let tmp := tmp ++ [48 + u mod 10] in
        let u := u / 10 in
        if u =? 0 then Ret tmp else i64_digits fuel tmp u
      else Undef
  end.

Definition ajw_i64 (w : aj_w) (v : Z) : outcome aj_w :=
  w ← wsep w;
  '(w, ok) ← wgrow w 24;
  if ok : bool then
    let u := if v <? 0 then u64 (- (v + 1) + 1) else v in
    tmp ← i64_digits 21 [] u;
    wraw_ w ((if v <? 0 then [45] else []) ++ rev tmp)
  else Ret w.

End Writer.

(** ** The invariant, and what an operation promises *)

(** The buffer is NULL, or a power of two of at least 256 bytes that has room
    for the terminating NUL. *)
Definition winv (w : aj_w) : Prop :=
  (w_cap w = 0 /\ w_buf w = []) \/
  (w_len w < w_cap w /\ exists k : nat, (8 <= k <= 63)%nat /\ w_cap w = 2 ^ Z.of_nat k).

(** Room for [n] bytes and the NUL. *)
Definition room (w : aj_w) (n : Z) : Prop := w_len w + n + 1 <= w_cap w.

Definition comma_is (w : aj_w) (c : bool) : Prop := w_err w = false -> w_comma w = c.

Section Emits.
Context {A : Allocator}.

(** [m], run on [w], stays in bounds and either appends [out] or ends with
    the sticky error set, which over a heap that grants everything it does
    not. *)
Definition emits (m : outcome aj_w) (w : aj_w) (out : list Z) (c : bool) : Prop :=
  exists w', m = Ret w' /\ winv w' /\
    (w_err w' = false -> w_err w = false /\ w_buf w' = w_buf w ++ out /\ w_comma w' = c) /\
    (TotalAllocator A -> w_err w = false -> w_len w + len out <= 2 ^ 61 -> w_err w' = false).

(** The same for the operations that also say whether they succeeded. *)
Definition emits_ok (m : outcome (aj_w * bool)) (w : aj_w) (out : list Z) : Prop :=
  exists w' ok, m = Ret (w', ok) /\ winv w' /\ w_comma w' = w_comma w /\
    (if ok then w_err w' = false /\ w_buf w' = w_buf w ++ out else w_err w' = true) /\
    (TotalAllocator A -> w_len w + len out <= 2 ^ 61 -> ok = true).

Lemma winv_init : winv ajw_init.
Proof. by left. Qed.

Lemma winv_set_comma w c : winv w -> winv (set_comma w c).
Proof. done. Qed.

Lemma winv_set_err w : winv w -> winv (set_err w).
Proof. done. Qed.

Lemma wgrow_loop_spec (k fuel : nat) need :
  (k <= 63)%nat -> (64 - k <= fuel)%nat ->
  (wgrow_loop fuel (2 ^ Z.of_nat k) need = Fail /\ 2 ^ 63 < need) \/
  exists i, (k <= i <= 63)%nat /\ wgrow_loop fuel (2 ^ Z.of_nat k) need = Ret (2 ^ Z.of_nat i) /\
            need <= 2 ^ Z.of_nat i.
Proof.
  revert k. induction fuel as [|fuel IH]; intros k Hk Hf; [lia|]. cbn [wgrow_loop].
  destruct (Z.ltb_spec (2 ^ Z.of_nat k) need) as [Hlt|Hge].
  - destruct (decide (k = 63)%nat) as [->|Hne].
    { left. change (u64 (2 ^ Z.of_nat 63 * 2)) with 0. change (2 ^ Z.of_nat 63) with (2 ^ 63) in *.
      destruct (Z.ltb_spec 0 (2 ^ 63)); [done|lia]. }
    assert (E : u64 (2 ^ Z.of_nat k * 2) = 2 ^ Z.of_nat (S k)).
    { rewrite Nat2Z.inj_succ, Z.pow_succ_r, Z.mul_comm by lia. apply u64_small.
      split; [apply Z.mul_nonneg_nonneg; [lia|apply Z.pow_nonneg; lia]|].
      rewrite <- Z.pow_succ_r by lia. change 18446744073709551616 with (2 ^ 64).
      apply Z.pow_lt_mono_r; lia. }
    rewrite E. destruct (Z.ltb_spec (2 ^ Z.of_nat (S k)) (2 ^ Z.of_nat k)) as [Hbad|_].
    { exfalso. assert (2 ^ Z.of_nat k <= 2 ^ Z.of_nat (S k)) by (apply Z.pow_le_mono_r; lia). lia. }
    destruct (IH (S k)) as [[H1 H2]|(i & Hi & H1 & H2)]; [lia|lia| |].
    + by left.
    + right. exists i. split; [lia|]. done.
  - right. exists k. split; [lia|]. done.
Qed.

Lemma winv_bound w : winv w -> 0 <= w_len w <= 2 ^ 63 - 1 /\ 0 <= w_cap w <= 2 ^ 63.
Proof.
  unfold w_len. intros [[H1 H2]|[H1 (k & Hk & H2)]].
  - rewrite H1, H2. simpl. lia.
  - assert (2 ^ Z.of_nat k <= 2 ^ 63) by (apply Z.pow_le_mono_r; lia).
    assert (0 <= 2 ^ Z.of_nat k) by (apply Z.pow_nonneg; lia). unfold w_len in *. lia.
Qed.

Lemma winv_exp w : winv w -> exists k : nat, (8 <= k <= 63)%nat /\
  (if w_cap w =? 0 then 256 else w_cap w) = 2 ^ Z.of_nat k /\ w_len w < 2 ^ Z.of_nat k.
Proof.
  intros [[H1 H2]|[H1 (k & Hk & H2)]].
  - exists 8%nat. split; [lia|]. unfold w_len. rewrite H1, H2. done.
  - exists k. split; [lia|]. assert (0 < 2 ^ Z.of_nat k) by (apply Z.pow_pos_nonneg; lia).
    destruct (Z.eqb_spec (w_cap w) 0); lia.
Qed.

(** [wgrow] never wraps, and what it says it reserved is there. *)
Lemma wgrow_spec w need :
  winv w -> 0 <= need <= 2 ^ 62 ->
  exists w' ok, wgrow w need = Ret (w', ok) /\ winv w' /\
    w_buf w' = w_buf w /\ w_comma w' = w_comma w /\
    (if ok : bool then w_err w = false /\ w_err w' = false /\ room w' need
     else w_err w' = true) /\
    (TotalAllocator A -> w_err w = false -> w_len w + need <= 2 ^ 62 -> ok = true).
Proof.
  intros Hw Hn. unfold wgrow, room. pose proof (winv_bound w Hw) as [Hl Hc].
  destruct (w_err w) eqn:He; [by exists w, false|].
  rewrite u64_small by lia.
  destruct (Z.leb_spec (w_len w + need + 1) (w_cap w)) as [Hfit|Hgrow].
  { by exists w, true. }
  destruct (winv_exp w Hw) as (k & Hk & -> & Hlk).
  destruct (wgrow_loop_spec k 64 (w_len w + need + 1)) as [[E Hbig]|(i & Hi & E & Hfit)]; [lia|lia| |];
    rewrite E.
  { exists (set_err w), false. split_and!; try done. intros _ _ ?. lia. }
  destruct (grants (2 ^ Z.of_nat i)) eqn:Hg.
  - exists (set_cap w (2 ^ Z.of_nat i)), true. split_and!; try done.
    right. unfold w_len in *. cbn. split; [lia|]. exists i. split; [lia|done].
  - exists (set_err w), false. split_and!; try done.
    intros Ht _ _. by rewrite (Ht (2 ^ Z.of_nat i)) in Hg.
Qed.

(** ** Composing operations *)

Lemma emits_bind m w f o1 c1 o2 c2 :
  emits m w o1 c1 ->
  (forall w1, winv w1 -> comma_is w1 c1 -> emits (f w1) w1 o2 c2) ->
  emits (m ≫= f) w (o1 ++ o2) c2.
Proof.
  intros (w1 & -> & Hw1 & H1 & T1) H2.
  destruct (H2 w1 Hw1) as (w2 & E2 & Hw2 & H2' & T2); [by intros ?; apply H1|].
  exists w2. split_and!; [done|done| |].
  - intros Herr. destruct (H2' Herr) as (He1 & Hb2 & Hc2). destruct (H1 He1) as (He & Hb1 & _).
    split_and!; [done| |done]. by rewrite Hb2, Hb1, <- app_assoc.
  - intros Ht He Hlen. rewrite length_app in Hlen. assert (He1 : w_err w1 = false) by (apply T1; auto; lia).
    apply T2; auto. destruct (H1 He1) as (_ & Hb & _). unfold w_len in *.
    rewrite Hb, length_app. lia.
Qed.

Lemma emits_out m w o o' c : emits m w o c -> o = o' -> emits m w o' c.
Proof. by intros ? ->. Qed.

Lemma emits_comma w c : winv w -> emits (Ret (set_comma w c)) w [] c.
Proof.
  intros Hw. exists (set_comma w c). split_and!; try done. cbn. by rewrite app_nil_r.
Qed.

Lemma emits_ret w c : winv w -> comma_is w c -> emits (Ret w) w [] c.
Proof.
  intros Hw Hc. exists w. split_and!; try done. rewrite app_nil_r. auto.
Qed.

(** Reserve, then write unchecked. *)
Lemma emits_grow w need f out c0 c :
  winv w -> comma_is w c0 -> 0 <= need <= 2 ^ 61 ->
  (forall w', winv w' -> room w' need -> w_err w' = false -> w_comma w' = c0 ->
     emits (f w') w' out c) ->
  emits ('(w', ok) ← wgrow w need; if ok : bool then f w' else Ret w') w out c.
Proof.
  intros Hw Hcm Hn Hf.
  destruct (wgrow_spec w need) as (w1 & ok & E & Hw1 & Hb & Hc & Hok & Ht); [done|lia|].
  rewrite E. cbn. destruct ok.
  - destruct Hok as (He & He1 & Hroom).
    destruct (Hf w1 Hw1 Hroom He1) as (w2 & E2 & Hw2 & H2 & T2); [by rewrite Hc, Hcm|].
    exists w2. split_and!; [done|done| |].
    + intros Herr. destruct (H2 Herr) as (_ & Hb2 & Hc2). by rewrite Hb2, Hb.
    + intros Htot _ Hlen. apply T2; [done|done|]. unfold w_len in *. by rewrite Hb.
  - exists w1. split_and!; [done|done|congruence|].
    intros Htot He Hlen. specialize (Ht Htot He). unfold w_len in *.
    assert (false = true) by (apply Ht; lia). done.
Qed.

Lemma winv_app w s : winv w -> room w (len s) -> winv (set_buf w (w_buf w ++ s)).
Proof.
  unfold room, winv, w_len. cbn. rewrite length_app. intros [[H1 H2]|[H1 H2]] Hr; cbn in *.
  - rewrite H1, H2 in Hr. cbn in Hr. lia.
  - right. split; [lia|done].
Qed.

Lemma emits_wraw w s c :
  winv w -> room w (len s) -> w_err w = false -> w_comma w = c -> emits (wraw_ w s) w s c.
Proof.
  intros Hw Hr He Hc. unfold wraw_. unfold room in Hr.
  destruct (Z.leb_spec (w_len w + len s + 1) (w_cap w)); [|lia].
  exists (set_buf w (w_buf w ++ s)). split_and!; [done|by apply winv_app|done|done].
Qed.

Lemma wputc_wraw w c : wputc_ w c = wraw_ w [c].
Proof. unfold wputc_, wraw_. change (len [c]) with 1. by rewrite <- Z.add_assoc. Qed.

Lemma room_le w n m : room w m -> n <= m -> room w n.
Proof. unfold room. lia. Qed.
End Emits.

Create HintDb emits.
#[export] Hint Resolve winv_set_comma winv_set_err winv_init emits_comma : emits.


(** ** Each operation appends its text *)

Section Operations.
Context {A : Allocator}.

Lemma emits_wput w s c :
  winv w -> comma_is w c -> len s <= 2 ^ 61 -> emits (wput w s) w s c.
Proof.
  intros Hw Hc Hs. unfold wput. apply (emits_grow _ _ _ _ c); [done|done|lia|].
  intros w' Hw' Hr He Hcm. by apply emits_wraw.
Qed.

(** Reserve one byte, put it, and leave the comma flag at [c']. *)
Lemma emits_put1 w b c c' :
  winv w -> comma_is w c ->
  emits ('(w, ok) ← wgrow w 1;
         if ok : bool then w ← wputc_ w b; Ret (set_comma w c') else Ret w) w [b] c'.
Proof.
  intros Hw Hc. apply (emits_grow _ _ _ _ c); [done|done|lia|].
  intros w' Hw' Hr He Hcm. rewrite wputc_wraw. change [b] with ([b] ++ []).
  eapply emits_bind; [by apply emits_wraw|]. intros. by apply emits_comma.
Qed.

Lemma emits_wsep w c : winv w -> comma_is w c -> emits (wsep w) w (sep c) true.
Proof.
  intros Hw Hc. unfold wsep.
  destruct (w_comma w) eqn:Ec.
  - destruct c; [by apply (emits_put1 _ _ true)|].
    (* only an errored writer disagrees with [c] *)
    assert (He : w_err w = true).
    { destruct (w_err w) eqn:He; [done|]. unfold comma_is in Hc. rewrite Hc in Ec; done. }
    unfold wgrow. rewrite He. cbn. exists w. split_and!; [done|done|congruence|congruence].
  - destruct c; [|by apply emits_comma].
    assert (He : w_err w = true).
    { destruct (w_err w) eqn:He; [done|]. unfold comma_is in Hc. rewrite Hc in Ec; done. }
    exists (set_comma w true). split_and!; [done|done|cbn; congruence|congruence].
Qed.

Lemma emits_wopen w b c :
  winv w -> comma_is w c -> emits (wopen w b) w (sep c ++ [b]) false.
Proof.
  intros Hw Hc. eapply emits_bind; [by apply emits_wsep|].
  intros. by apply (emits_put1 _ _ true).
Qed.

Lemma emits_wclose w b c : winv w -> comma_is w c -> emits (wclose w b) w [b] true.
Proof. apply emits_put1. Qed.

Lemma emits_raw w s c :
  winv w -> comma_is w c -> len s <= 2 ^ 61 -> emits (ajw_raw w s) w s true.
Proof.
  intros Hw Hc Hs.
  assert (E : ajw_raw w s = (w ← wput w s; Ret (set_comma w true))).
  { unfold ajw_raw, wput. by destruct (wgrow w (len s)) as [[]| | |]. }
  rewrite E. eapply emits_out; [eapply emits_bind; [by apply emits_wput|]|by rewrite app_nil_r].
  intros. by apply emits_comma.
Qed.

Lemma emits_null w c : winv w -> comma_is w c -> emits (ajw_null w) w (sep c ++ lit "null") true.
Proof.
  intros Hw Hc. eapply emits_bind; [by apply emits_wsep|].
  intros. apply emits_wput; [done|done|cbn; lia].
Qed.

(** *** Strings *)

Lemma esc_clean c : 32 <= c -> c <> 34 -> c <> 92 -> esc c = [c].
Proof. intros. unfold esc. repeat (zcase; [lia|]). done. Qed.

Lemma wescape_esc w c :
  0 < c < 256 -> (32 <=? c) && negb (c =? 34) && negb (c =? 92) = false ->
  wescape w c = wraw_ w (esc c).
Proof.
  intros Hc Hstop. unfold wescape, esc. repeat (zcase; [done|]).
  zcase; [|cbn in Hstop; lia]. do 6 f_equal;
  [|f_equal]; refine (proj1 (Z.eqb_eq _ _) _);
  [refine (all_below_elim 32 (fun c => nth (Z.to_nat (Z.shiftr c 4)) HEXDIG 0 =? hexdig (Z.shiftr c 4)) c _ _)
  |refine (all_below_elim 32 (fun c => nth (Z.to_nat (Z.land c 15)) HEXDIG 0 =? hexdig (Z.land c 15)) c _ _)];
  (reflexivity || lia).
Qed.

Lemma esc_length c : (length (esc c) <= 6)%nat.
Proof. unfold esc. repeat case_match; cbn; lia. Qed.

Lemma esc_length_pos c : (1 <= length (esc c))%nat.
Proof. unfold esc. repeat case_match; cbn; lia. Qed.

Lemma escs_app s t : escs (s ++ t) = escs s ++ escs t.
Proof. apply bind_app. Qed.

Lemma escs_length s : (length s <= length (escs s))%nat.
Proof.
  induction s as [|c s IH]; [done|]. cbn. rewrite length_app.
  pose proof (esc_length_pos c). unfold escs in IH. cbn in *. lia.
Qed.

Lemma emits_ok_ret w : winv w -> w_err w = false -> emits_ok (Ret (w, true)) w [].
Proof. intros. exists w, true. split_and!; try done. by rewrite app_nil_r. Qed.

Lemma emits_ok_bind m w f o1 o2 :
  emits_ok m w o1 ->
  (forall w1, winv w1 -> w_err w1 = false -> emits_ok (f w1) w1 o2) ->
  emits_ok ('(w, ok) ← m; if ok : bool then f w else Ret (w, false)) w (o1 ++ o2).
Proof.
  intros (w1 & ok & -> & Hw1 & Hc1 & H1 & T1) H2. cbn. destruct ok.
  - destruct H1 as [He Hb]. destruct (H2 w1 Hw1 He) as (w2 & ok & -> & Hw2 & Hc2 & H2' & T2).
    exists w2, ok. split_and!; [done|done|congruence| |].
    + destruct ok; [|done]. destruct H2' as [He2 Hb2]. by rewrite Hb2, Hb, <- app_assoc.
    + intros Ht Hlen. rewrite length_app in Hlen. apply T2; [done|].
      unfold w_len in *. rewrite Hb, length_app. lia.
  - exists w1, false. split_and!; try done. intros Ht Hlen. rewrite length_app in Hlen.
    apply T1; [done|lia].
Qed.

Lemma emits_ok_grow w need f out :
  winv w -> w_err w = false -> 0 <= need <= 2 ^ 61 ->
  (forall w', winv w' -> room w' need -> w_err w' = false -> emits_ok (f w') w' out) ->
  emits_ok ('(w', ok) ← wgrow w need; if ok : bool then f w' else Ret (w', false)) w out.
Proof.
  intros Hw He Hn Hf.
  destruct (wgrow_spec w need) as (w1 & ok & E & Hw1 & Hb & Hc & Hok & Ht); [done|lia|].
  rewrite E. cbn. destruct ok.
  - destruct Hok as (_ & He1 & Hroom).
    destruct (Hf w1 Hw1 Hroom He1) as (w2 & ok & E2 & Hw2 & Hc2 & H2 & T2).
    exists w2, ok. split_and!; [done|done|congruence| |].
    + destruct ok; [|done]. by rewrite <- Hb.
    + intros Htot Hlen. apply T2; [done|]. unfold w_len in *. by rewrite Hb.
  - exists w1, false. split_and!; [done|done|done|done|].
    intros Htot Hlen. apply (Ht Htot He). lia.
Qed.

Lemma emits_ok_raw w s :
  winv w -> room w (len s) -> w_err w = false ->
  emits_ok (w ← wraw_ w s; Ret (w, true)) w s.
Proof.
  intros Hw Hr He. unfold wraw_. unfold room in Hr.
  destruct (Z.leb_spec (w_len w + len s + 1) (w_cap w)); [|lia]. cbn.
  exists (set_buf w (w_buf w ++ s)), true. split_and!; try done. by apply winv_app.
Qed.

Lemma wraw_ok w s : room w (len s) -> wraw_ w s = Ret (set_buf w (w_buf w ++ s)).
Proof.
  unfold room, wraw_. intros. destruct (Z.leb_spec (w_len w + len s + 1) (w_cap w)); [done|lia].
Qed.

Lemma emits_after w s m o c :
  emits m (set_buf w (w_buf w ++ s)) o c -> emits m w (s ++ o) c.
Proof.
  intros (w' & -> & Hw' & H & T). exists w'. split_and!; [done|done| |].
  - intros He. destruct (H He) as (? & Hb & ?). split_and!; [done| |done]. rewrite Hb; cbn; by rewrite <- app_assoc.
  - intros Ht He Hl. apply T; [done|done|]. rewrite length_app in Hl. unfold w_len in *. cbn.
    rewrite length_app. lia.
Qed.

Lemma emits_ok_after w s m o :
  emits_ok m (set_buf w (w_buf w ++ s)) o -> emits_ok m w (s ++ o).
Proof.
  intros (w' & ok & -> & Hw' & Hc & H & T). exists w', ok. split_and!; [done|done|done| |].
  - destruct ok; [|done]. destruct H as [? Hb]. split; [done|]. rewrite Hb; cbn; by rewrite <- app_assoc.
  - intros Ht Hl. apply T; [done|]. rewrite length_app in Hl. unfold w_len in *. cbn.
    rewrite length_app. lia.
Qed.

Lemma emits_ok_then m w f o1 o2 c :
  emits_ok m w o1 -> w_err w = false ->
  (forall w', winv w' -> w_err w' = false -> w_comma w' = w_comma w -> emits (f w') w' o2 c) ->
  emits ('(w', ok) ← m; if ok : bool then f w' else Ret w') w (o1 ++ o2) c.
Proof.
  intros (w1 & ok & -> & Hw1 & Hc1 & H1 & T1) He H2. cbn. destruct ok.
  - destruct H1 as [He1 Hb1]. destruct (H2 w1 Hw1 He1 Hc1) as (w2 & -> & Hw2 & H2' & T2).
    exists w2. split_and!; [done|done| |].
    + intros He2. destruct (H2' He2) as (_ & Hb2 & Hc2). by rewrite Hb2, Hb1, <- app_assoc.
    + intros Ht _ Hl. rewrite length_app in Hl. apply T2; [done|done|]. unfold w_len in *.
      rewrite Hb1, length_app. lia.
  - exists w1. split_and!; [done|done|congruence|].
    intros Ht _ Hl. rewrite length_app in Hl. assert (false = true) by (apply T1; [done|lia]). done.
Qed.

(** Flushing the run that precedes [c]. *)
Lemma emits_ok_flush w run :
  winv w -> w_err w = false -> len run <= 2 ^ 61 ->
  emits_ok (if Z.of_nat (length run) =? 0 then Ret (w, true)
            else '(w, ok) ← wgrow w (Z.of_nat (length run));
                 if ok : bool then w ← wraw_ w run; Ret (w, true)
                 else Ret (w, false)) w run.
Proof.
  intros Hw He Hrun. destruct (Z.eqb_spec (len run) 0) as [E|E].
  - assert (run = []) as -> by (destruct run; [done|cbn in E; lia]). by apply emits_ok_ret.
  - apply emits_ok_grow; [done|done|lia|]. intros. by apply emits_ok_raw.
Qed.

Lemma escs_clean run : Forall (fun c => 32 <= c /\ c <> 34 /\ c <> 92) run -> escs run = run.
Proof.
  induction 1 as [|c run (H1 & H2 & H3) _ IH]; [done|]. unfold escs in *. cbn.
  by rewrite IH, esc_clean.
Qed.

Definition clean (c : Z) : Prop := 32 <= c /\ c <> 34 /\ c <> 92.

Lemma emits_ok_loop run p w :
  winv w -> w_err w = false -> Forall clean run -> is_bytes p ->
  len run + len p <= 2 ^ 61 ->
  emits_ok (wstr_loop run p w) w (run ++ escs (cstr p)).
Proof.
  revert run w. induction p as [|c p IH]; intros run w Hw He Hrun Hp Hlen; cbn [wstr_loop].
  { cbn. eapply (emits_ok_bind _ _ (fun w => Ret (w, true))); [by apply emits_ok_flush; [..|cbn in Hlen; lia]|].
    intros. by apply emits_ok_ret. }
  apply Forall_cons in Hp as [Hc Hp]. cbn [length] in Hlen. cbn [cstr].
  destruct ((32 <=? c) && negb (c =? 34) && negb (c =? 92)) eqn:Hrunning.
  - assert (Hcl : clean c) by (unfold clean; lia).
    destruct (Z.eqb_spec c 0); [unfold clean in Hcl; lia|].
    assert (E : run ++ escs (c :: cstr p) = (run ++ [c]) ++ escs (cstr p)).
    { unfold escs. cbn. rewrite esc_clean by (unfold clean in Hcl; lia). by rewrite <- app_assoc. }
    rewrite E. apply IH; try done; [|rewrite length_app; cbn; lia].
    apply Forall_app. by split; [|apply Forall_singleton].
  - apply (emits_ok_bind _ _ _ run); [apply emits_ok_flush; [done|done|lia]|].
    intros w1 Hw1 He1. destruct (Z.eqb_spec c 0) as [->|Hnz]; [by apply emits_ok_ret|].
    apply emits_ok_grow; [done|done|lia|]. intros w2 Hw2 Hr2 He2.
    unfold is_byte in Hc. rewrite wescape_esc by (done || lia).
    change (escs (c :: cstr p)) with (esc c ++ escs (cstr p)).
    pose proof (esc_length c) as Hesc.
    assert (Hr : room w2 (len (esc c))) by (eapply room_le; [done|lia]).
    rewrite wraw_ok by done. apply emits_ok_after, IH; try done; [by apply winv_app|cbn; lia].
Qed.

(** A string of bytes, in quotes and escaped: what [wstr_escaped] appends
    is the text of Json.v. *)
Lemma emits_wstr w s c :
  winv w -> comma_is w c -> is_bytes s -> len s <= 2 ^ 60 ->
  emits (wstr_escaped w s) w (render_str (cstr s)) c.
Proof.
  intros Hw Hcm Hs Hlen. unfold wstr_escaped, strlen, render_str. pose proof (cstr_length s) as Hcl.
  pose proof (escs_length (cstr s)) as Hel.
  rewrite u64_small by lia. apply (emits_grow _ _ _ _ c); [done|done|lia|].
  intros w1 Hw1 Hr1 He1 Hc1. rewrite wputc_wraw, wraw_ok by (eapply room_le; [done|cbn; lia]).
  apply emits_after, emits_ok_then; [|done|].
  { apply (emits_ok_loop []); try done; [|cbn; lia].
    apply winv_app; [done|]. eapply room_le; [done|cbn; lia]. }
  intros w2 Hw2 He2 Hc2. apply (emits_grow _ _ _ _ c); [done| |lia|].
  { intros _. by rewrite Hc2. }
  intros. rewrite wputc_wraw. by apply emits_wraw.
Qed.

Lemma emits_key w k c :
  winv w -> comma_is w c -> is_bytes k -> len k <= 2 ^ 60 ->
  emits (ajw_key w k) w (sep c ++ render_key (cstr k)) false.
Proof.
  intros Hw Hc Hk Hlen. eapply emits_bind; [by apply emits_wsep|].
  intros w1 Hw1 Hc1. eapply emits_bind; [by apply emits_wstr|].
  intros. by apply (emits_put1 _ _ true).
Qed.

Lemma emits_str w s c :
  winv w -> comma_is w c -> is_bytes s -> len s <= 2 ^ 60 ->
  emits (ajw_str w (Some s)) w (sep c ++ render_str (cstr s)) true.
Proof.
  intros Hw Hc Hs Hlen. eapply emits_bind; [by apply emits_wsep|].
  intros. by apply emits_wstr.
Qed.

(** *** Integers *)

Lemma digits_length n u : (length (digits n u) <= n)%nat.
Proof.
  revert u. induction n as [|n IH]; intros u; [done|]. cbn [digits].
  rewrite length_app. specialize (IH (u / 10)). destruct (u <? 10); cbn; lia.
Qed.

Lemma i64_digits_spec n fuel tmp u :
  (1 <= n <= fuel)%nat -> 0 <= u < 10 ^ Z.of_nat n -> (length tmp + n <= 24)%nat ->
  i64_digits fuel tmp u = Ret (tmp ++ rev (digits n u)).
Proof.
  revert fuel tmp u. induction n as [|n IH]; intros fuel tmp u Hn Hu Ht; [lia|].
  destruct fuel as [|fuel]; [lia|]. cbn [i64_digits digits].
  destruct (Z.ltb_spec (len tmp) 24); [|lia]. rewrite rev_app_distr. cbn [rev app].
  rewrite Nat2Z.inj_succ, Z.pow_succ_r in Hu by lia.
  destruct (Z.ltb_spec u 10) as [Hs|Hb].
  - rewrite (Z.div_small u 10) by lia. done.
  - assert (1 <= u / 10) by (apply Z.div_le_lower_bound; lia).
    destruct (Z.eqb_spec (u / 10) 0); [lia|].
    assert (n <> 0)%nat by (intros ->; cbn in Hu; lia).
    rewrite (IH fuel).
    + by rewrite <- app_assoc.
    + lia.
    + split; [lia|]. apply Z.div_lt_upper_bound; lia.
    + rewrite length_app. cbn. lia.
Qed.

Lemma emits_i64 w v c :
  winv w -> comma_is w c -> i64_min <= v <= i64_max ->
  emits (ajw_i64 w v) w (sep c ++ render_num v) true.
Proof.
  intros Hw Hc Hv. unfold i64_min, i64_max in Hv.
  eapply emits_bind; [by apply emits_wsep|]. intros w1 Hw1 Hc1.
  apply (emits_grow _ _ _ _ true); [done|done|lia|]. intros w2 Hw2 Hr2 He2 Hc2.
  assert (Hu : (if v <? 0 then u64 (- (v + 1) + 1) else v) = Z.abs v).
  { destruct (Z.ltb_spec v 0); [rewrite u64_small by lia|]; lia. }
  rewrite Hu, (i64_digits_spec 20); [|lia|lia|cbn; lia].
  cbn [mbind outcome_bind app]. rewrite rev_involutive. unfold render_num.
  pose proof (digits_length 20 (Z.abs v)). apply emits_wraw; [done| |done|done].
  eapply room_le; [done|]. rewrite length_app. destruct (v <? 0); cbn [length]; lia.
Qed.

End Operations.

(** ** Whole documents

    The discipline every caller of the writer follows: a container is opened,
    each member is a key and a value, each element a value, and it is closed. *)

Section Documents.
Context {A : Allocator}.

Fixpoint ajw_json (w : aj_w) (j : json) : outcome aj_w :=
  match j with
  | JNull => ajw_null w
  | JBool b => ajw_raw w (lit (if b then "true" else "false"))
  | JNum z => ajw_i64 w z
  | JStr s => ajw_str w (Some s)
  | JCont o kids =>
      w ← (if o then ajw_obj_begin w else ajw_arr_begin w);
      w ← (fix go (w : aj_w) (kids : list (list Z * json)) : outcome aj_w :=
             match kids with
             | [] => Ret w
             | (k, v) :: kids' =>
                 w ← (if o then ajw_key w k else Ret w);
                 w ← ajw_json w v;
                 go w kids'
             end) w kids;
      (if o then ajw_obj_end w else ajw_arr_end w)
  end.

(** No booleans -- the protocol writes none -- and no string beyond any
    buffer's size. *)
Fixpoint writable (j : json) : Prop :=
  match j with
  | JBool _ => False
  | JStr s => len s <= 2 ^ 60
  | JCont _ kids =>
      (fix go kids := match kids with
                      | [] => True
                      | kv :: kids' => len kv.1 <= 2 ^ 60 /\ writable kv.2 /\ go kids'
                      end) kids
  | _ => True
  end.

Definition ajw_kids (o : bool) : aj_w -> list (list Z * json) -> outcome aj_w :=
  fix go w kids :=
    match kids with
    | [] => Ret w
    | (k, v) :: kids' =>
        w ← (if o then ajw_key w k else Ret w);
        w ← ajw_json w v;
        go w kids'
    end.

Lemma ajw_json_cont w o kids :
  ajw_json w (JCont o kids) =
    (w ← (if o then ajw_obj_begin w else ajw_arr_begin w);
     w ← ajw_kids o w kids;
     (if o then ajw_obj_end w else ajw_arr_end w)).
Proof. done. Qed.

Lemma writable_cont o kids :
  writable (JCont o kids) <-> Forall (fun kv => len kv.1 <= 2 ^ 60 /\ writable kv.2) kids.
Proof.
  induction kids as [|kv kids IH]; [done|].
  rewrite Forall_cons, <- IH. cbn. tauto.
Qed.

Lemma render_str_nonempty s : 2 <= len (render_str s).
Proof. unfold render_str. rewrite !length_app. cbn. lia. Qed.

(** A key, or nothing, then a value: one member or element. *)
Lemma emits_member (o : bool) k v w c :
  winv w -> comma_is w c -> (if o then no_nul k else k = []) -> len k <= 2 ^ 60 ->
  (forall w1 c1, winv w1 -> comma_is w1 c1 -> emits (ajw_json w1 v) w1 (sep c1 ++ render v) true) ->
  emits (w ← (if o then ajw_key w k else Ret w); ajw_json w v) w
        (sep c ++ (if o then render_key k else []) ++ render v) true.
Proof.
  intros Hw Hc Hk Hlen Hv. destruct o.
  - rewrite app_assoc. eapply emits_bind.
    { eapply emits_out; [apply emits_key; eauto with arpc|by rewrite cstr_no_nul]. }
    intros w1 Hw1 Hc1. by apply (Hv w1 false).
  - eapply emits_out; [eapply emits_bind; [by apply emits_ret|]|by rewrite app_nil_l].
    intros w1 Hw1 Hc1. by apply Hv.
Qed.

Lemma emits_kids o kids w c :
  Forall (fun kv => (if o : bool then no_nul kv.1 else kv.1 = []) /\ len kv.1 <= 2 ^ 60 /\
    forall w1 c1, winv w1 -> comma_is w1 c1 ->
      emits (ajw_json w1 kv.2) w1 (sep c1 ++ render kv.2) true) kids ->
  winv w -> comma_is w c ->
  emits (ajw_kids o w kids) w (render_kids o c kids) (match kids with [] => c | _ => true end).
Proof.
  intros Hkids. revert w c. induction Hkids as [|[k v] kids (Hk & Hlen & Hv) _ IH]; intros w c Hw Hc.
  - by apply emits_ret.
  - assert (E : ajw_kids o w ((k, v) :: kids) =
      (w ← (if o then ajw_key w k else Ret w); ajw_json w v) ≫= fun w => ajw_kids o w kids).
    { cbn. by destruct (if o then ajw_key w k else Ret w). }
    rewrite E. eapply emits_out.
    + eapply emits_bind; [by apply (emits_member o k v _ c)|].
      intros w1 Hw1 Hc1. specialize (IH w1 true Hw1 Hc1). by destruct kids.
    + cbn [render_kids]. by rewrite <- !app_assoc.
Qed.

Lemma emits_json j w c :
  wf_json j -> writable j -> winv w -> comma_is w c ->
  emits (ajw_json w j) w (sep c ++ render j) true.
Proof.
  revert w c. induction j as [|b|z|s|o kids IH] using json_rect_nested; intros w c Hwf Hwr Hw Hc.
  - apply emits_null; done.
  - destruct Hwr.
  - by apply emits_i64.
  - cbn in Hwf, Hwr. cbn [ajw_json render].
    eapply emits_out; [apply emits_str; eauto with arpc|by rewrite cstr_no_nul].
  - apply wf_json_cont in Hwf. apply writable_cont in Hwr.
    rewrite ajw_json_cont, render_cont, app_assoc.
    eapply emits_bind; [destruct o; by apply emits_wopen|].
    intros w1 Hw1 Hc1. eapply emits_bind.
    2: { intros w2 Hw2 Hc2. destruct o; eapply emits_wclose; done. }
    apply emits_kids; [|done|done].
    rewrite Forall_forall in *. intros kv Hkv. naive_solver.
Qed.
End Documents.

(** ** Calls in any order

    A caller that misuses the writer -- closing what is not open, a key in an
    array -- gets bad text, never a write out of bounds. *)

Inductive wop :=
| OpKey (k : list Z) | OpStr (s : option (list Z)) | OpI64 (v : Z) | OpNull
| OpRaw (s : list Z) | OpOpen (o : bool) | OpClose (o : bool) | OpReserve (n : Z).

(** What fits the C types: strings of bytes, a [long long], a request that
    does not wrap. *)
Definition wop_ok (op : wop) : Prop :=
  match op with
  | OpKey s | OpStr (Some s) => is_bytes s /\ len s <= 2 ^ 60
  | OpI64 v => i64_min <= v <= i64_max
  | OpRaw s => len s <= 2 ^ 60
  | OpReserve n => 0 <= n <= 2 ^ 60
  | _ => True
  end.

#[export] Instance wop_ok_dec op : Decision (wop_ok op).
Proof. destruct op as [k|[s|]| | | | | |]; cbn; apply _. Defined.

Section Sequences.
Context {A : Allocator}.

Definition wstep (w : aj_w) (op : wop) : outcome aj_w :=
  match op with
  | OpKey k => ajw_key w k
  | OpStr s => ajw_str w s
  | OpI64 v => ajw_i64 w v
  | OpNull => ajw_null w
  | OpRaw s => ajw_raw w s
  | OpOpen o => if o then ajw_obj_begin w else ajw_arr_begin w
  | OpClose o => if o then ajw_obj_end w else ajw_arr_end w
  | OpReserve n => '(w, _) ← ajw_reserve w n; Ret w
  end.

Fixpoint wrun (ops : list wop) (w : aj_w) : outcome aj_w :=
  match ops with
  | [] => Ret w
  | op :: ops => w ← wstep w op; wrun ops w
  end.

(** What one call appends, and the comma flag after it. *)
Definition wop_text (c : bool) (op : wop) : list Z * bool :=
  match op with
  | OpKey k => (sep c ++ render_key (cstr k), false)
  | OpStr (Some s) => (sep c ++ render_str (cstr s), true)
  | OpStr None | OpNull => (sep c ++ lit "null", true)
  | OpI64 v => (sep c ++ render_num v, true)
  | OpRaw s => (s, true)
  | OpOpen o => (sep c ++ [opening o], false)
  | OpClose o => ([closing o], true)
  | OpReserve _ => ([], c)
  end.

Fixpoint wops_text (c : bool) (ops : list wop) : list Z :=
  match ops with
  | [] => []
  | op :: ops => (wop_text c op).1 ++ wops_text (wop_text c op).2 ops
  end.

(** Reserving is not part of the text, but it may fail: [emits] then says
    nothing of the text either. *)
Definition plain (op : wop) : bool := match op with OpReserve _ => false | _ => true end.

Lemma wstep_emits w op c :
  wop_ok op -> plain op = true -> winv w -> comma_is w c ->
  emits (wstep w op) w (wop_text c op).1 (wop_text c op).2.
Proof.
  intros Hop Hp Hw Hc. destruct op as [k|[s|]|v| |s|o|o|n]; cbn [wop_ok plain] in Hop, Hp; destruct_and?; [..|done].
  - by apply emits_key.
  - by apply emits_str.
  - by apply emits_null.
  - by apply emits_i64.
  - by apply emits_null.
  - eapply emits_raw; [done..|cbn [wop_text fst]; lia].
  - destruct o; by apply emits_wopen.
  - destruct o; eapply emits_wclose; done.
Qed.

Lemma wstep_reserve w n :
  winv w -> 0 <= n <= 2 ^ 60 ->
  exists w', wstep w (OpReserve n) = Ret w' /\ winv w' /\ w_buf w' = w_buf w /\
    w_comma w' = w_comma w /\ (w_err w' = false -> w_err w = false).
Proof.
  intros Hw Hn. cbn. unfold ajw_reserve.
  destruct (wgrow_spec w n Hw) as (w' & ok & -> & Hw' & Hb & Hcm & Hok & _); [lia|].
  exists w'. split_and!; try done. destruct ok; [tauto|congruence].
Qed.

(** Any calls in any order: the text is the concatenation of theirs, unless
    the sticky error is set at the end. *)
Lemma wrun_spec ops w c :
  Forall wop_ok ops -> winv w -> comma_is w c ->
  exists w', wrun ops w = Ret w' /\ winv w' /\
    (w_err w' = false -> w_err w = false /\ w_buf w' = w_buf w ++ wops_text c ops).
Proof.
  intros Hops. revert w c. induction Hops as [|op ops Hop _ IH]; intros w c Hw Hc.
  - exists w. rewrite app_nil_r. done.
  - cbn [wrun wops_text]. destruct (plain op) eqn:Hp.
    + destruct (wstep_emits w op c) as (w1 & -> & Hw1 & H1 & _); [done..|].
      destruct (IH w1 (wop_text c op).2 Hw1) as (w2 & E & Hw2 & H2); [by intros He; apply H1 in He as (_ & _ & ?)|].
      exists w2. split_and!; [done..|]. intros He.
      destruct (H2 He) as [He1 Hb2]. destruct (H1 He1) as (He0 & Hb1 & _).
      by rewrite Hb2, Hb1, <- app_assoc.
    + destruct op as [| | | | | | |n]; try done.
      destruct (wstep_reserve w n Hw Hop) as (w1 & -> & Hw1 & Hb & Hcm & He1).
      destruct (IH w1 c Hw1) as (w2 & E & Hw2 & H2).
      { intros He. rewrite Hcm. auto. }
      exists w2. split_and!; [done..|]. intros He. destruct (H2 He) as [He' Hb2].
      rewrite Hb2, Hb. auto.
Qed.

(** The room the calls ask for without writing it. *)
Fixpoint reserved (ops : list wop) : Z :=
  match ops with
  | [] => 0
  | OpReserve n :: ops => n + reserved ops
  | _ :: ops => reserved ops
  end.

Lemma reserved_nonneg ops : Forall wop_ok ops -> 0 <= reserved ops.
Proof. induction 1 as [|[] ops Hop _ IH]; cbn in *; lia. Qed.

(** Over a heap that grants everything the text is always there. *)
Lemma wrun_total `{!TotalAllocator A} ops w c :
  Forall wop_ok ops -> winv w -> w_err w = false -> comma_is w c ->
  w_len w + len (wops_text c ops) + reserved ops <= 2 ^ 61 ->
  exists w', wrun ops w = Ret w' /\ w_err w' = false.
Proof.
  intros Hops. revert w c. induction Hops as [|op ops Hop Hops IH]; intros w c Hw He Hc Hlen.
  - by exists w.
  - pose proof (reserved_nonneg _ Hops) as Hr0. cbn [wrun wops_text] in *. rewrite length_app in Hlen.
    destruct (plain op) eqn:Hp.
    + assert (E : reserved (op :: ops) = reserved ops) by (by destruct op). rewrite E in Hlen.
      destruct (wstep_emits w op c) as (w1 & -> & Hw1 & H1 & Ht); [done..|].
      assert (He1 : w_err w1 = false) by (apply Ht; [done|done|lia]).
      destruct (H1 He1) as (_ & Hb & Hc1). apply (IH w1 (wop_text c op).2); [done|done|by intros _|].
      unfold w_len in *. rewrite Hb, length_app. lia.
    + destruct op as [| | | | | | |n]; try done. cbn [wop_ok wop_text fst snd length reserved wstep] in *.
      unfold ajw_reserve. destruct (wgrow_spec w n Hw) as (w1 & ok & -> & Hw1 & Hb & Hcm & Hok & Ht); [lia|].
      cbn [mbind outcome_bind]. rewrite Ht in Hok by (done || lia). destruct Hok as (_ & He1 & _).
      apply (IH w1 c); [done|done| |].
      * intros _. rewrite Hcm. by apply Hc.
      * unfold w_len in *. rewrite Hb. lia.
Qed.
End Sequences.

(** ** Properties *)

Section WriterTheorems.
Context {A : Allocator}.

(** Whatever calls a caller makes to the JSON writer, in whatever order,
    no call writes outside the buffer, overflows the size or loops; and the
    writer ends either with the sticky error set or with exactly the text of
    the calls, separators and escapes included, one after the other. *)
Theorem writer_sequences ops :
  Forall wop_ok ops ->
  exists w, wrun ops ajw_init = Ret w /\ w_len w <= w_cap w /\
    (w_err w = true \/ w_buf w = wops_text false ops).
Proof.
  intros Hops. destruct (wrun_spec ops ajw_init false Hops winv_init) as (w & -> & Hw & H); [done|].
  exists w. split_and!; [done| |].
  - unfold w_len. destruct Hw as [[-> ->]|[Hlt _]]; [done|unfold w_len in Hlt; lia].
  - destruct (w_err w); [by left|right]. by apply H.
Qed.

(** C20. Writing a tree as the callers do leaves, unless the heap refused,
    the canonical text of the tree; a heap that grants everything never
    leads to the sticky error. *)
Theorem writer_document j :
  wf_json j -> writable j ->
  exists w, ajw_json ajw_init j = Ret w /\
    (w_err w = false -> w_buf w = render j) /\
    (TotalAllocator A -> len (render j) <= 2 ^ 61 -> w_err w = false).
Proof.
  intros Hwf Hwr. destruct (emits_json j ajw_init false Hwf Hwr winv_init) as (w & -> & _ & H & T); [done|].
  exists w. split_and!; [done| |].
  - intros He. by apply H.
  - intros Ht Hlen. by apply T.
Qed.
End WriterTheorems.

Definition sample_ops : list wop :=
  [OpOpen true; OpKey (lit "id"); OpI64 (-9223372036854775808); OpKey (lit "a\"); OpReserve 100;
   OpStr (Some (lit "x/y")); OpClose false; OpNull].

Lemma writer_sequences_witness :
  exists w, wrun (A:=ample) sample_ops ajw_init = Ret w /\ w_len w <= w_cap w /\
    (w_err w = true \/ w_buf w = wops_text false sample_ops).
Proof.
  apply (writer_sequences (A:=ample) sample_ops).
  apply (bool_decide_unpack (Forall wop_ok sample_ops)). vm_compute. exact I.
Defined.

Definition sample_json : json :=
  JObj [(lit "id", JNum 7); (lit "ok", JArr [JNull; JStr (lit "a\b"); JCont true []])].

Lemma writer_document_witness :
  exists w, ajw_json (A:=ample) ajw_init sample_json = Ret w /\
    (w_err w = false -> w_buf w = render sample_json) /\
    (TotalAllocator ample -> len (render sample_json) <= 2 ^ 61 -> w_err w = false).
Proof.
  apply (writer_document (A:=ample) sample_json).
  - apply wf_json_cont. repeat constructor; cbn; unfold no_nul, i64_min, i64_max; try lia;
      repeat constructor; lia.
  - cbn. lia.
Defined.
