(* ===== verification/JsonReader.v ===== *)
(** * The JSON reader of src/common/arpc_json.c

    The recursive-descent parser that fills an arena of nodes linked by
    index, with every string decoded into one buffer, and the accessors that
    walk it.  Bytes of the text beyond [end], writes beyond a buffer, signed
    overflow of the node count and indexes outside the arena are [Undef].
    JsonRef.v and JsonArena.v hold the theorems. *)

From S2P Require Import Prelude.

(** ** The document *)

Inductive aj_type := AJ_NULL | AJ_BOOL | AJ_NUM | AJ_STR | AJ_ARR | AJ_OBJ.

#[export] Instance aj_type_eq_dec : EqDecision aj_type.
Proof. solve_decision. Defined.

(** The [str] and [key] pointers: while parsing they hold an integer cast to
    a pointer, [PInt 0] being NULL; afterwards an address in [sbuf]. *)
Inductive ptr := PInt (z : Z) | PBuf (off : Z).

Definition is_null (p : ptr) : bool := match p with PInt 0 => true | _ => false end.
(** [(intptr_t)p] *)
Definition int_of (p : ptr) : Z := match p with PInt z => z | PBuf off => off end.

Record aj_node := AjNode {
  n_type : aj_type;
  n_num : Z;
  n_str : ptr;
  n_key : ptr;
  n_first_child : Z;
  n_next_sibling : Z
}.

Record aj_doc := AjDoc {
  d_nodes : list aj_node;
  d_cap : Z;
  d_sbuf : list Z;
  d_scap : Z;
  d_ok : bool
}.

Definition d_count (d : aj_doc) : Z := Z.of_nat (length (d_nodes d)).
Definition d_slen (d : aj_doc) : Z := Z.of_nat (length (d_sbuf d)).

Definition doc0 : aj_doc := AjDoc [] 0 [] 0 false.

Definition set_num (v : Z) (n : aj_node) : aj_node :=
  AjNode (n_type n) v (n_str n) (n_key n) (n_first_child n) (n_next_sibling n).
Definition set_str (p : ptr) (n : aj_node) : aj_node :=
  AjNode (n_type n) (n_num n) p (n_key n) (n_first_child n) (n_next_sibling n).
Definition set_key (p : ptr) (n : aj_node) : aj_node :=
  AjNode (n_type n) (n_num n) (n_str n) p (n_first_child n) (n_next_sibling n).
Definition set_first_child (i : Z) (n : aj_node) : aj_node :=
  AjNode (n_type n) (n_num n) (n_str n) (n_key n) i (n_next_sibling n).
Definition set_next_sibling (i : Z) (n : aj_node) : aj_node :=
  AjNode (n_type n) (n_num n) (n_str n) (n_key n) (n_first_child n) i.

Definition set_nodes (d : aj_doc) (l : list aj_node) : aj_doc :=
  AjDoc l (d_cap d) (d_sbuf d) (d_scap d) (d_ok d).

(** [&d->nodes[i]] for an [i] that is in range. *)
Definition node_at (d : aj_doc) (i : Z) : outcome aj_node :=
  if i <? 0 then Undef
  else match d_nodes d !! Z.to_nat i with Some n => Ret n | None => Undef end.

(** An assignment to a field of [d->nodes[i]]. *)
Definition upd_node (d : aj_doc) (i : Z) (f : aj_node -> aj_node) : outcome aj_doc :=
  n ← node_at d i;
  Ret (set_nodes d (<[Z.to_nat i := f n]> (d_nodes d))).

(** The bytes [d->sbuf + off] points at. *)
Definition sbuf_str (d : aj_doc) (off : Z) : list Z := cstr (drop (Z.to_nat off) (d_sbuf d)).

(** ** The parser's state *)

Record aj_p := AjP {
  p_rest : list Z;       (* the text from [p] to [end] *)
  p_d : aj_doc;
  p_depth : Z
}.

Definition set_rest (p : aj_p) (r : list Z) : aj_p := AjP r (p_d p) (p_depth p).
Definition set_d (p : aj_p) (d : aj_doc) : aj_p := AjP (p_rest p) d (p_depth p).
Definition set_depth (p : aj_p) (n : Z) : aj_p := AjP (p_rest p) (p_d p) n.

Definition AJ_MAX_DEPTH : Z := 256.
Definition sizeof_aj_node : Z := 40.

Section Reader.
Context {A : Allocator}.

(** A new zeroed node of type [t]; its index. *)
Definition node_new (d : aj_doc) (t : aj_type) : outcome (aj_doc * Z) :=
  cap ← (if d_count d =? d_cap d then
           let cap := if d_cap d =? 0 then 32 else d_cap d * 2 in
           if i32_max <? cap then Undef
           else if grants (cap * sizeof_aj_node) then Ret cap else Fail
         else Ret (d_cap d));
  Ret (AjDoc (d_nodes d ++ [AjNode t 0 (PInt 0) (PInt 0) (-1) (-1)]) cap
             (d_sbuf d) (d_scap d) (d_ok d),
       d_count d).

(** Append [s] and a NUL to [sbuf]; the offset of the copy. *)
Definition sbuf_put (d : aj_doc) (s : list Z) : outcome (aj_doc * Z) :=
  let need := d_slen d + Z.of_nat (length s) + 1 in
  cap ← (if d_scap d <? need then
           cap ← double_until 64 (if d_scap d =? 0 then 256 else u64 (d_scap d * 2)) need;
           if grants cap then Ret cap else Fail
         else Ret (d_scap d));
  Ret (AjDoc (d_nodes d) (d_cap d) (d_sbuf d ++ s ++ [0]) cap (d_ok d), d_slen d).

Definition is_ws (c : Z) : bool := (c =? 32) || (c =? 9) || (c =? 10) || (c =? 13).

Fixpoint skip_ws (r : list Z) : list Z :=
  match r with
  | c :: r' => if is_ws c then skip_ws r' else r
  | [] => []
  end.

(** One hex digit, -1 for anything else. *)
Definition hexval (c : Z) : Z :=
  if (48 <=? c) && (c <=? 57) then c - 48
  else if (97 <=? c) && (c <=? 102) then c - 97 + 10
  else if (65 <=? c) && (c <=? 70) then c - 65 + 10
  else -1.

(** The loop of [hex4]: [k] digits to go, read from [s]. *)
Fixpoint hex_loop (k : nat) (v : Z) (s : list Z) : outcome Z :=
  match k with
  | O => Ret v
  | S k =>
      match s with
      | [] => Undef
      | c :: s' => if hexval c =? -1 then Ret (-1)
                   else hex_loop k (v * 16 + hexval c) s'
      end
  end.
Definition hex4 (s : list Z) : outcome Z := hex_loop 4 0 s.

(** The bytes [utf8_put] writes for a code point. *)
Definition utf8 (cp : Z) : list Z :=
  if cp <? 128 then [cp]
  else if cp <? 2048 then
    [Z.lor 192 (Z.shiftr cp 6); Z.lor 128 (Z.land cp 63)]
  else if cp <? 65536 then
    [Z.lor 224 (Z.shiftr cp 12); Z.lor 128 (Z.land (Z.shiftr cp 6) 63);
     Z.lor 128 (Z.land cp 63)]
  else
    [Z.lor 240 (Z.shiftr cp 18); Z.lor 128 (Z.land (Z.shiftr cp 12) 63);
     Z.lor 128 (Z.land (Z.shiftr cp 6) 63); Z.lor 128 (Z.land cp 63)].

(** The [\u] case of the switch: [r] is the text after the [u]. *)
Definition str_unicode (r : list Z) (cap : Z) (tmp : list Z) : outcome (list Z * list Z) :=
  if Z.of_nat (length r) <? 4 then Fail
  else
    hi ← hex4 r;
    if hi <? 0 then Fail
    else
      let r := drop 4 r in
      if (55296 <=? hi) && (hi <=? 56319) && (6 <=? Z.of_nat (length r)) &&
         (nth 0 r 0 =? 92) && (nth 1 r 0 =? 117) then
        lo ← hex4 (drop 2 r);
        if (56320 <=? lo) && (lo <=? 57343) then
          let cp := 65536 + Z.shiftl (hi - 55296) 10 + (lo - 56320) in
          tmp ← bput cap tmp (utf8 cp);
          Ret (drop 6 r, tmp)
        else
          tmp ← bput cap tmp (utf8 hi);
          Ret (r, tmp)
      else
        tmp ← bput cap tmp (utf8 hi);
        Ret (r, tmp).

(** The escape after a backslash: [r] is the text after it. *)
Definition str_escape (r : list Z) (cap : Z) (tmp : list Z) : outcome (list Z * list Z) :=
  match r with
  | [] => Fail
  | c :: r' =>
      let put b := tmp ← bput cap tmp [b]; Ret (r', tmp) in
      if c =? 34 then put 34
      else if c =? 92 then put 92
      else if c =? 47 then put 47
      else if c =? 98 then put 8
      else if c =? 102 then put 12
      else if c =? 110 then put 10
      else if c =? 114 then put 13
      else if c =? 116 then put 9
      else if c =? 117 then str_unicode r' cap tmp
      else Fail
  end.

(** The loop of [parse_string_raw], from after the opening quote. *)
Fixpoint str_loop (fuel : nat) (r : list Z) (cap : Z) (tmp : list Z)
  : outcome (list Z * list Z) :=
  match fuel with
  | O => NoFuel
  | S fuel =>
      match r with
      | [] => Ret ([], tmp)
      | c :: r' =>
          if c =? 34 then Ret (r, tmp)
          else
            cap ← (if cap <? Z.of_nat (length tmp) + 5 then
                     let ncap := u64 (cap * 2) in
                     if grants ncap then
                       if Z.of_nat (length tmp) <=? ncap then Ret ncap else Undef
                     else Fail
                   else Ret cap);
            '(r, tmp) ← (if negb (c =? 92) then
                           if c <? 32 then Fail
                           else tmp ← bput cap tmp [c]; Ret (r', tmp)
                         else str_escape r' cap tmp);
            str_loop fuel r cap tmp
      end
  end.

Definition parse_string_raw (p : aj_p) : outcome (aj_p * Z) :=
  match p_rest p with
  | c :: r =>
      if c =? 34 then
        '(r, tmp) ← str_loop (S (length r)) r 256 [];
        match r with
        | c :: r =>
            if c =? 34 then
              '(d, off) ← sbuf_put (p_d p) tmp;
              Ret (AjP r d (p_depth p), off)
            else Fail
        | [] => Fail
        end
      else Fail
  | [] => Fail
  end.

Definition is_digit (c : Z) : bool := (48 <=? c) && (c <=? 57).

(** The digits of a number, accumulated unsigned. *)
Fixpoint num_loop (r : list Z) (u : Z) : outcome (list Z * Z) :=
  match r with
  | c :: r' =>
      if is_digit c then
        let d := c - 48 in
        if (18446744073709551615 - d) / 10 <? u then Fail
        else num_loop r' (u64 (u * 10 + d))
      else Ret (r, u)
  | [] => Ret ([], u)
  end.

(** The value of a number from the sign and the magnitude. *)
Definition num_value (neg : bool) (u : Z) : outcome Z :=
  if neg then
    if i64_max + 1 <? u then Fail
    else if u =? i64_max + 1 then Ret i64_min
    else Ret (- u)
  else
    if i64_max <? u then Fail else Ret u.

(** A number: the text after it and its value. *)
Definition parse_num (r : list Z) : outcome (list Z * Z) :=
  let c := nth 0 r 0 in
  let neg := c =? 45 in
  let r := if neg then drop 1 r else r in
  match r with
  | [] => Fail
  | c :: _ =>
      if negb (is_digit c) then Fail
      else
        '(r, u) ← num_loop r 0;
        match r with
        | c :: _ => if (c =? 46) || (c =? 101) || (c =? 69) then Fail
                    else v ← num_value neg u; Ret (r, v)
        | [] => v ← num_value neg u; Ret (r, v)
        end
  end.

(** [(size_t)(end - p) >= n && !memcmp(p, s, n)] *)
Definition starts (s r : list Z) : bool := bool_decide (take (length s) r = s).

(** A leaf: a new node and the assignment to its [num]. *)
Definition new_leaf (p : aj_p) (r : list Z) (t : aj_type) (v : Z) : outcome (aj_p * Z) :=
  '(d, n) ← node_new (p_d p) t;
  d ← upd_node d n (set_num v);
  Ret (AjP r d (p_depth p), n).

Fixpoint parse_value (fuel : nat) (p : aj_p) : outcome (aj_p * Z) :=
  match fuel with
  | O => NoFuel
  | S fuel =>
      let r := skip_ws (p_rest p) in
      let p := set_rest p r in
      match r with
      | [] => Fail
      | c :: _ =>
          if c =? 123 then parse_container fuel p true
          else if c =? 91 then parse_container fuel p false
          else if c =? 34 then
            '(p, off) ← parse_string_raw p;
            '(d, n) ← node_new (p_d p) AJ_STR;
            d ← upd_node d n (set_str (PInt off));
            Ret (set_d p d, n)
          else if starts (lit "true") r then new_leaf p (drop 4 r) AJ_BOOL 1
          else if starts (lit "false") r then new_leaf p (drop 5 r) AJ_BOOL 0
          else if starts (lit "null") r then
            '(d, n) ← node_new (p_d p) AJ_NULL;
            Ret (AjP (drop 4 r) d (p_depth p), n)
          else if (c =? 45) || is_digit c then
            '(r, v) ← parse_num r;
            new_leaf p r AJ_NUM v
          else Fail
      end
  end

with parse_container (fuel : nat) (p : aj_p) (is_obj : bool) : outcome (aj_p * Z) :=
  match fuel with
  | O => NoFuel
  | S fuel =>
      if AJ_MAX_DEPTH <=? p_depth p then Fail
      else
        '(p, self) ← parse_container_ fuel (set_depth p (p_depth p + 1)) is_obj;
        Ret (set_depth p (p_depth p - 1), self)
  end

with parse_container_ (fuel : nat) (p : aj_p) (is_obj : bool) : outcome (aj_p * Z) :=
  match fuel with
  | O => NoFuel
  | S fuel =>
      '(d, self) ← node_new (p_d p) (if is_obj then AJ_OBJ else AJ_ARR);
      let p := set_d (set_rest p (skip_ws (drop 1 (p_rest p)))) d in
      let close := if is_obj then 125 else 93 in
      match p_rest p with
      | c :: r => if c =? close then Ret (set_rest p r, self)
                  else parse_members fuel p is_obj self (-1)
      | [] => parse_members fuel p is_obj self (-1)
      end
  end

(** The [for (;;)] loop of [parse_container_]. *)
with parse_members (fuel : nat) (p : aj_p) (is_obj : bool) (self prev : Z)
  : outcome (aj_p * Z) :=
  match fuel with
  | O => NoFuel
  | S fuel =>
      let close := if is_obj then 125 else 93 in
      '(p, koff) ← (if is_obj then
                      '(p, koff) ← parse_string_raw (set_rest p (skip_ws (p_rest p)));
                      match skip_ws (p_rest p) with
                      | c :: r => if c =? 58 then Ret (set_rest p r, koff) else Fail
                      | [] => Fail
                      end
                    else Ret (p, -1));
      '(p, child) ← parse_value fuel p;
      d ← (if is_obj then upd_node (p_d p) child (set_key (PInt (koff + 1)))
           else Ret (p_d p));
      d ← (if prev <? 0 then upd_node d self (set_first_child child)
           else upd_node d prev (set_next_sibling child));
      match skip_ws (p_rest p) with
      | c :: r =>
          if c =? 44 then parse_members fuel (AjP r d (p_depth p)) is_obj self child
          else if c =? close then Ret (AjP r d (p_depth p), self)
          else Fail
      | [] => Fail
      end
  end.

(** The last pass of [aj_parse]: offsets become pointers. *)
Definition fix_node (n : aj_node) : aj_node :=
  let n := if bool_decide (n_type n = AJ_STR) then set_str (PBuf (int_of (n_str n))) n else n in
  if is_null (n_key n) then n else set_key (PBuf (int_of (n_key n) - 1)) n.

(** Enough fuel for any text: see [JsonRef.ref_value_fuel]. *)
Definition parse_fuel (text : list Z) : nat := 4 * length text + 4.

Definition aj_parse (text : list Z) : outcome aj_doc :=
  '(p, root) ← parse_value (parse_fuel text) (AjP text doc0 0);
  if negb (root =? 0) then Fail
  else
    match skip_ws (p_rest p) with
    | [] => let d := p_d p in
            Ret (AjDoc (fix_node <$> d_nodes d) (d_cap d) (d_sbuf d) (d_scap d) true)
    | _ => Fail
    end.
End Reader.

Definition aj_free (d : aj_doc) : aj_doc := doc0.

(** ** Accessors

    The loops over siblings are bounded by the number of nodes. *)

(** [at]: NULL out of range. *)
Definition at_ (d : aj_doc) (i : Z) : option aj_node :=
  if (i <? 0) || (d_count d <=? i) then None else d_nodes d !! Z.to_nat i.

Definition is_container (n : aj_node) : bool :=
  bool_decide (n_type n = AJ_ARR \/ n_type n = AJ_OBJ).

(** The C string at a pointer. *)
Definition str_at (d : aj_doc) (p : ptr) : list Z :=
  match p with PBuf off => sbuf_str d off | PInt _ => [] end.

Fixpoint member_loop (fuel : nat) (d : aj_doc) (i : Z) (key : list Z) : outcome Z :=
  match fuel with
  | O => NoFuel
  | S fuel =>
      if i <? 0 then Ret (-1)
      else
        n ← node_at d i;
        if negb (is_null (n_key n)) && streq (str_at d (n_key n)) key then Ret i
        else member_loop fuel d (n_next_sibling n) key
  end.

Definition aj_member (d : aj_doc) (obj : Z) (key : list Z) : outcome Z :=
  match at_ d obj with
  | Some o => if bool_decide (n_type o = AJ_OBJ)
              then member_loop (S (length (d_nodes d))) d (n_first_child o) key
              else Ret (-1)
  | None => Ret (-1)
  end.

Fixpoint elem_loop (fuel : nat) (d : aj_doc) (i index : Z) : outcome Z :=
  match fuel with
  | O => NoFuel
  | S fuel =>
      if i <? 0 then Ret i
      else if index =? 0 then Ret i
      else n ← node_at d i; elem_loop fuel d (n_next_sibling n) (index - 1)
  end.

Definition aj_elem (d : aj_doc) (arr index : Z) : outcome Z :=
  match at_ d arr with
  | Some a => if negb (is_container a) || (index <? 0) then Ret (-1)
              else elem_loop (S (length (d_nodes d))) d (n_first_child a) index
  | None => Ret (-1)
  end.

Definition aj_first (d : aj_doc) (container : Z) : Z :=
  match at_ d container with
  | Some a => if is_container a then n_first_child a else -1
  | None => -1
  end.

Definition aj_next (d : aj_doc) (node : Z) : Z :=
  match at_ d node with Some n => n_next_sibling n | None => -1 end.

Fixpoint count_loop (fuel : nat) (d : aj_doc) (i n : Z) : outcome Z :=
  match fuel with
  | O => NoFuel
  | S fuel =>
      if i <? 0 then Ret n
      else nd ← node_at d i; count_loop fuel d (n_next_sibling nd) (n + 1)
  end.

Definition aj_count (d : aj_doc) (container : Z) : outcome Z :=
  match at_ d container with
  | Some a => if is_container a
              then count_loop (S (length (d_nodes d))) d (n_first_child a) 0
              else Ret 0
  | None => Ret 0
  end.

Definition aj_i64 (d : aj_doc) (node dflt : Z) : Z :=
  match at_ d node with
  | Some n => if bool_decide (n_type n = AJ_NUM \/ n_type n = AJ_BOOL) then n_num n else dflt
  | None => dflt
  end.

(** [aj_str]: the C string the pointer denotes, [None] for the default. *)
Definition aj_str (d : aj_doc) (node : Z) : option (list Z) :=
  match at_ d node with
  | Some n => if bool_decide (n_type n = AJ_STR) then Some (str_at d (n_str n)) else None
  | None => None
  end.

Definition aj_is_null (d : aj_doc) (node : Z) : bool :=
  match at_ d node with
  | Some n => bool_decide (n_type n = AJ_NULL)
  | None => true
  end.
