(* ===== verification/JsonRef.v ===== *)
(** * The reference parser

    The same language as [aj_parse], read straight into the trees of Json.v:
    no arena, no buffers, no allocation.  JsonArena.v proves the parser of
    the source equal to it; here it is shown to return on every text within
    the fuel the model gives it and to read back everything the writer
    writes. *)

From S2P Require Import Prelude Json JsonReader.

(** ** The functions *)

Definition ref_unicode (r : list Z) : outcome (list Z * list Z) :=
  if Z.of_nat (length r) <? 4 then Fail
  else
    hi ← hex4 r;
    if hi <? 0 then Fail
    else
      let r := drop 4 r in
      if (55296 <=? hi) && (hi <=? 56319) && (6 <=? Z.of_nat (length r)) &&
         (nth 0 r 0 =? 92) && (nth 1 r 0 =? 117) then
        lo ← hex4 (drop 2 r);
        if (56320 <=? lo) && (lo <=? 57343)
        then Ret (drop 6 r, utf8 (65536 + Z.shiftl (hi - 55296) 10 + (lo - 56320)))
        else Ret (r, utf8 hi)
      else Ret (r, utf8 hi).

Definition ref_escape (r : list Z) : outcome (list Z * list Z) :=
  match r with
  | [] => Fail
  | c :: r' =>
      if c =? 34 then Ret (r', [34])
      else if c =? 92 then Ret (r', [92])
      else if c =? 47 then Ret (r', [47])
      else if c =? 98 then Ret (r', [8])
      else if c =? 102 then Ret (r', [12])
      else if c =? 110 then Ret (r', [10])
      else if c =? 114 then Ret (r', [13])
      else if c =? 116 then Ret (r', [9])
      else if c =? 117 then ref_unicode r'
      else Fail
  end.

(** The characters of a string up to the closing quote, which is left. *)
Fixpoint ref_chars (fuel : nat) (r : list Z) : outcome (list Z * list Z) :=
  match fuel with
  | O => NoFuel
  | S fuel =>
      match r with
      | [] => Ret ([], [])
      | c :: r' =>
          if c =? 34 then Ret (r, [])
          else
            '(r, s) ← (if negb (c =? 92) then if c <? 32 then Fail else Ret (r', [c])
                       else ref_escape r');
            '(r, t) ← ref_chars fuel r;
            Ret (r, s ++ t)
      end
  end.

Definition ref_string (r : list Z) : outcome (list Z * list Z) :=
  match r with
  | c :: r =>
      if c =? 34 then
        '(r, s) ← ref_chars (S (length r)) r;
        match r with
        | c :: r => if c =? 34 then Ret (r, s) else Fail
        | [] => Fail
        end
      else Fail
  | [] => Fail
  end.

Fixpoint ref_value (fuel : nat) (depth : Z) (r : list Z) : outcome (list Z * json) :=
  match fuel with
  | O => NoFuel
  | S fuel =>
      let r := skip_ws r in
      match r with
      | [] => Fail
      | c :: _ =>
          if c =? 123 then ref_container fuel depth r true
          else if c =? 91 then ref_container fuel depth r false
          else if c =? 34 then '(r, s) ← ref_string r; Ret (r, JStr s)
          else if starts (lit "true") r then Ret (drop 4 r, JBool true)
          else if starts (lit "false") r then Ret (drop 5 r, JBool false)
          else if starts (lit "null") r then Ret (drop 4 r, JNull)
          else if (c =? 45) || is_digit c then '(r, v) ← parse_num r; Ret (r, JNum v)
          else Fail
      end
  end

with ref_container (fuel : nat) (depth : Z) (r : list Z) (o : bool) : outcome (list Z * json) :=
  match fuel with
  | O => NoFuel
  | S fuel => if AJ_MAX_DEPTH <=? depth then Fail else ref_container_ fuel (depth + 1) r o
  end

with ref_container_ (fuel : nat) (depth : Z) (r : list Z) (o : bool) : outcome (list Z * json) :=
  match fuel with
  | O => NoFuel
  | S fuel =>
      let r := skip_ws (drop 1 r) in
      let all := '(r, kids) ← ref_members fuel depth r o; Ret (r, JCont o kids) in
      match r with
      | c :: r' => if c =? closing o then Ret (r', JCont o []) else all
      | [] => all
      end
  end

with ref_members (fuel : nat) (depth : Z) (r : list Z) (o : bool)
  : outcome (list Z * list (list Z * json)) :=
  match fuel with
  | O => NoFuel
  | S fuel =>
      '(r, k) ← (if o then
                   '(r, k) ← ref_string (skip_ws r);
                   match skip_ws r with
                   | c :: r => if c =? 58 then Ret (r, k) else Fail
                   | [] => Fail
                   end
                 else Ret (r, []));
      '(r, v) ← ref_value fuel depth r;
      match skip_ws r with
      | c :: r =>
          if c =? 44 then
            '(r, kids) ← ref_members fuel depth r o;
            Ret (r, (k, v) :: kids)
          else if c =? closing o then Ret (r, [(k, v)])
          else Fail
      | [] => Fail
      end
  end.

Definition ref_parse (text : list Z) : outcome json :=
  '(r, j) ← ref_value (parse_fuel text) 0 text;
  match skip_ws r with [] => Ret j | _ => Fail end.

(** ** Progress: every step consumes text *)

(** [m] returns within the text: what is left is at least [k] bytes shorter
    than [n], and [m] has no other way out than failing. *)
Definition shrinks {B} (n k : nat) (m : outcome (list Z * B)) : Prop :=
  match m with
  | Ret (r, _) => (length r + k <= n)%nat
  | Fail => True
  | _ => False
  end.

Lemma shrinks_bind {B C} n k n' k' (m : outcome (list Z * B)) (f : list Z * B -> outcome (list Z * C)) :
  shrinks n k m -> (forall r b, (length r + k <= n)%nat -> shrinks n' k' (f (r, b))) ->
  shrinks n' k' (m ≫= f).
Proof. destruct m as [[r b]| | |]; cbn; auto; done. Qed.

Lemma shrinks_weaken {B} n k n' k' (m : outcome (list Z * B)) :
  shrinks n k m -> (n + k' <= n' + k)%nat -> shrinks n' k' m.
Proof. destruct m as [[r b]| | |]; cbn; auto; lia. Qed.

Lemma skip_ws_length r : (length (skip_ws r) <= length r)%nat.
Proof. induction r as [|c r IH]; [done|]. cbn. destruct (is_ws c); cbn; lia. Qed.

Lemma hex_loop_defined k v s :
  (k <= length s)%nat -> exists z, hex_loop k v s = Ret z.
Proof.
  revert v s. induction k as [|k IH]; intros v s Hk; [by eexists|].
  destruct s as [|c s]; cbn in Hk; [lia|]. cbn. destruct (hexval c =? -1); [by eexists|].
  apply IH. lia.
Qed.

Lemma hex4_defined s : (4 <= length s)%nat -> exists z, hex4 s = Ret z.
Proof. apply hex_loop_defined. Qed.

Lemma ref_unicode_shrinks r : shrinks (length r) 4 (ref_unicode r).
Proof.
  unfold ref_unicode. destruct (Z.ltb_spec (len r) 4) as [|Hr]; [done|].
  destruct (hex4_defined r) as [hi ->]; [lia|]. cbn [mbind outcome_bind].
  destruct (hi <? 0); [done|].
  destruct ((55296 <=? hi) && (hi <=? 56319) && (6 <=? len (drop 4 r)) &&
            (nth 0 (drop 4 r) 0 =? 92) && (nth 1 (drop 4 r) 0 =? 117)) eqn:E.
  - zbool. rewrite length_drop in *.
    destruct (hex4_defined (drop 2 (drop 4 r))) as [lo ->]; [rewrite !length_drop; lia|].
    cbn [mbind outcome_bind]. destruct (_ && _); cbn; rewrite ?length_drop; lia.
  - cbn. rewrite length_drop. lia.
Qed.

Lemma ref_escape_shrinks r : shrinks (length r) 1 (ref_escape r).
Proof.
  destruct r as [|c r]; [done|]. cbn [ref_escape].
  repeat (case_match; [cbn; lia|]). case_match; [|done].
  eapply shrinks_weaken; [apply ref_unicode_shrinks|cbn; lia].
Qed.

Lemma ref_chars_shrinks fuel r :
  (length r < fuel)%nat -> shrinks (length r) 0 (ref_chars fuel r).
Proof.
  revert r. induction fuel as [|fuel IH]; intros r Hf; [lia|]. cbn [ref_chars].
  destruct r as [|c r]; [cbn; lia|]. cbn in Hf. destruct (c =? 34); [cbn; lia|].
  apply (shrinks_bind (length r) 0).
  - destruct (negb (c =? 92)); [destruct (c <? 32); [done|cbn; lia]|].
    eapply shrinks_weaken; [apply ref_escape_shrinks|lia].
  - intros r' s Hr. apply (shrinks_bind (length r') 0); [apply IH; lia|].
    intros. cbn. lia.
Qed.

Lemma ref_string_shrinks r : shrinks (length r) 2 (ref_string r).
Proof.
  destruct r as [|c r]; [done|]. cbn [ref_string]. destruct (c =? 34); [|done].
  eapply shrinks_bind; [apply ref_chars_shrinks; lia|].
  intros [|c' r'] s Hr; [done|]. cbn in *. destruct (c' =? 34); [cbn; lia|done].
Qed.

Lemma num_loop_shrinks r u : shrinks (length r) 0 (num_loop r u).
Proof.
  revert u. induction r as [|c r IH]; intros u; [cbn; lia|]. cbn [num_loop].
  destruct (is_digit c); [|cbn; lia]. case_match; [done|].
  eapply shrinks_weaken; [apply IH|cbn; lia].
Qed.

Lemma num_value_shrinks neg u (r : list Z) n k :
  (length r + k <= n)%nat -> shrinks n k (v ← num_value neg u; Ret (r, v)).
Proof. intros. unfold num_value. repeat case_match; done. Qed.

Lemma parse_num_shrinks r : shrinks (length r) 1 (parse_num r).
Proof.
  unfold parse_num. set (neg := _ =? 45). set (r1 := if neg then _ else _).
  assert (H1 : (length r1 <= length r)%nat) by (subst r1; destruct neg; rewrite ?length_drop; lia).
  destruct r1 as [|c r1]; [done|]. destruct (is_digit c) eqn:Hd; [|done]. cbn [negb].
  apply (shrinks_bind (length r) 1).
  - cbn [num_loop]. rewrite Hd. case_match; [done|].
    eapply shrinks_weaken; [apply num_loop_shrinks|cbn in *; lia].
  - intros [|c' r'] u Hr; [by apply num_value_shrinks|].
    case_match; [done|]. by apply num_value_shrinks.
Qed.

(** *** Fuel: four steps per byte are enough *)

Lemma starts_length s r : starts s r = true -> (length s <= length r)%nat.
Proof.
  unfold starts. intros H. apply bool_decide_eq_true in H.
  rewrite <- H, length_take. lia.
Qed.

Lemma ref_progress fuel :
  (forall depth r, (4 * length r + 1 <= fuel)%nat -> shrinks (length r) 1 (ref_value fuel depth r)) /\
  (forall depth r o, (1 <= length r)%nat -> (4 * length r <= fuel)%nat ->
     shrinks (length r) 1 (ref_container fuel depth r o)) /\
  (forall depth r o, (1 <= length r)%nat -> (4 * length r - 1 <= fuel)%nat ->
     shrinks (length r) 1 (ref_container_ fuel depth r o)) /\
  (forall depth r o, (4 * length r + 2 <= fuel)%nat -> shrinks (length r) 1 (ref_members fuel depth r o)).
Proof.
  induction fuel as [|fuel (IHv & IHc & IHc_ & IHm)]; [split_and!; intros; lia|].
  split_and!.
  - intros depth r Hf. cbn [ref_value]. pose proof (skip_ws_length r) as Hs.
    destruct (skip_ws r) as [|c r1] eqn:Er; [done|]. rewrite <- Er in *. assert (1 <= length (skip_ws r))%nat by (rewrite Er; cbn; lia).
    destruct (c =? 123); [eapply shrinks_weaken; [apply IHc; lia|lia]|].
    destruct (c =? 91); [eapply shrinks_weaken; [apply IHc; lia|lia]|].
    destruct (c =? 34).
    { eapply shrinks_bind; [apply ref_string_shrinks|]. intros. cbn. lia. }
    destruct (starts (lit "true") (skip_ws r)) eqn:E1; [apply starts_length in E1; cbn in *; rewrite length_drop; lia|].
    destruct (starts (lit "false") (skip_ws r)) eqn:E2; [apply starts_length in E2; cbn in *; rewrite length_drop; lia|].
    destruct (starts (lit "null") (skip_ws r)) eqn:E3; [apply starts_length in E3; cbn in *; rewrite length_drop; lia|].
    destruct (_ || _); [|done]. eapply shrinks_bind; [apply parse_num_shrinks|]. intros. cbn. lia.
  - intros depth r o Hr Hf. cbn [ref_container]. case_match; [done|]. apply IHc_; lia.
  - intros depth r o Hr Hf. cbn [ref_container_]. destruct r as [|c0 r]; [cbn in Hr; lia|].
    change (drop 1 (c0 :: r)) with r. cbn in Hf. pose proof (skip_ws_length r) as Hs.
    assert (Hall : shrinks (length (c0 :: r)) 1
      ('(r, kids) ← ref_members fuel depth (skip_ws r) o; Ret (r, JCont o kids))).
    { eapply shrinks_bind; [apply IHm; lia|]. intros. cbn. lia. }
    destruct (skip_ws r) as [|c r1]; [exact Hall|]. case_match; [cbn in *; lia|exact Hall].
  - intros depth r o Hf. cbn [ref_members]. apply (shrinks_bind (length r) 0).
    { destruct o; [|cbn; lia]. pose proof (skip_ws_length r) as Hs.
      eapply shrinks_bind; [apply ref_string_shrinks|]. intros r1 k Hr1.
      pose proof (skip_ws_length r1) as Hs1. destruct (skip_ws r1) as [|c r2]; [done|].
      case_match; [cbn in *; lia|done]. }
    intros r1 k Hr1. eapply shrinks_bind; [apply IHv; lia|]. intros r2 v Hr2.
    pose proof (skip_ws_length r2) as Hs2. destruct (skip_ws r2) as [|c r3]; [done|]. cbn in Hs2.
    case_match; [|case_match; [cbn; lia|done]].
    eapply shrinks_bind; [apply IHm; lia|]. intros. cbn. lia.
Qed.

(** The reference parser returns on every text: a tree or a refusal. *)
Lemma ref_parse_defined text : defined (ref_parse text).
Proof.
  unfold ref_parse. pose proof (proj1 (ref_progress (parse_fuel text)) 0 text) as H.
  unfold parse_fuel in *. specialize (H ltac:(lia)).
  destruct (ref_value _ 0 text) as [[r j]| | |]; cbn in *; try done.
  destruct (skip_ws r); done.
Qed.

(** ** Reading back what the writer wrote *)

(** What may follow a number without becoming part of it. *)
Definition num_stop (rest : list Z) : Prop :=
  match rest with
  | [] => True
  | c :: _ => is_digit c = false /\ c <> 46 /\ c <> 101 /\ c <> 69
  end.

Lemma hexval_hexdig d : 0 <= d < 16 -> hexval (hexdig d) = d.
Proof.
  intros Hd. apply Z.eqb_eq.
  exact (all_below_elim 16 (fun d => hexval (hexdig d) =? d) d eq_refl Hd).
Qed.

Lemma hex4_esc c t :
  0 <= c < 32 -> hex4 ([48; 48; hexdig (Z.shiftr c 4); hexdig (Z.land c 15)] ++ t) = Ret c.
Proof.
  intros Hc. rewrite Z.shiftr_div_pow2 by lia. change (Z.land c 15) with (Z.land c (Z.ones 4)).
  rewrite Z.land_ones by lia. change (2 ^ 4) with 16.
  assert (0 <= c / 16 < 16) by (split; [apply Z.div_pos|apply Z.div_lt_upper_bound]; lia).
  pose proof (Z.mod_pos_bound c 16 ltac:(lia)).
  unfold hex4. cbn [app hex_loop]. rewrite !hexval_hexdig by lia.
  change (hexval 48) with 0. cbn [Z.eqb].
  destruct (Z.eqb_spec (c / 16) (-1)); [lia|]. destruct (Z.eqb_spec (c mod 16) (-1)); [lia|].
  f_equal. pose proof (Z.div_mod c 16). lia.
Qed.

Lemma ref_unicode_esc c t :
  0 <= c < 32 ->
  ref_unicode ([48; 48; hexdig (Z.shiftr c 4); hexdig (Z.land c 15)] ++ t) = Ret (t, [c]).
Proof.
  intros Hc. unfold ref_unicode. rewrite hex4_esc by done. cbn [mbind outcome_bind].
  rewrite length_app. destruct (Z.ltb_spec (Z.of_nat (length [48; 48; hexdig (Z.shiftr c 4); hexdig (Z.land c 15)] + length t)) 4) as [H|_]; [cbn in H; lia|].
  destruct (Z.ltb_spec c 0); [lia|]. destruct (Z.leb_spec 55296 c); [lia|].
  cbn. unfold utf8. destruct (Z.ltb_spec c 128); [|lia]. by rewrite drop_0.
Qed.

(** One character, escaped, is read back as itself. *)
Lemma ref_chars_esc fuel c t :
  0 < c < 256 ->
  ref_chars (S fuel) (esc c ++ t) = '(r, s) ← ref_chars fuel t; Ret (r, c :: s).
Proof.
  intros Hc. unfold esc. repeat (zcase; [by subst|]). zcase.
  - change ([92; 117; 48; 48; hexdig (Z.shiftr c 4); hexdig (Z.land c 15)] ++ t)
      with (92 :: 117 :: ([48; 48; hexdig (Z.shiftr c 4); hexdig (Z.land c 15)] ++ t)).
    cbn [ref_chars ref_escape Z.eqb negb Pos.eqb]. by rewrite ref_unicode_esc by lia.
  - cbn [app ref_chars]. destruct (Z.eqb_spec c 34); [lia|]. destruct (Z.eqb_spec c 92); [lia|].
    cbn [negb]. destruct (Z.ltb_spec c 32); [lia|done].
Qed.

Lemma ref_chars_escs fuel s t :
  no_nul s -> (length s < fuel)%nat -> ref_chars fuel (escs s ++ 34 :: t) = Ret (34 :: t, s).
Proof.
  intros Hs. revert fuel. induction Hs as [|c s Hc _ IH]; intros fuel Hf.
  - destruct fuel; [lia|done].
  - destruct fuel as [|fuel]; [lia|]. change (escs (c :: s)) with (esc c ++ escs s).
    rewrite <- app_assoc, ref_chars_esc by done. rewrite IH by (cbn in Hf; lia). done.
Qed.

Lemma length_escs_lower s : (length s <= length (escs s))%nat.
Proof.
  induction s as [|c s IH]; [done|]. unfold escs in *. cbn. rewrite length_app.
  assert (1 <= length (esc c))%nat by (unfold esc; repeat case_match; cbn; lia). lia.
Qed.

Lemma ref_string_render s t : no_nul s -> ref_string (render_str s ++ t) = Ret (t, s).
Proof.
  intros Hs. unfold render_str. rewrite <- !app_assoc. cbn [app ref_string Z.eqb Pos.eqb].
  rewrite ref_chars_escs; [done|done|].
  rewrite length_app. pose proof (length_escs_lower s). cbn. lia.
Qed.

(** *** Numbers *)

Lemma digits_digit n u : Forall (fun c => is_digit c = true) (digits n u).
Proof.
  revert u. induction n as [|n IH]; intros u; [done|]. cbn [digits].
  apply Forall_app. split; [by destruct (u <? 10)|]. apply Forall_singleton.
  unfold is_digit. pose proof (Z.mod_pos_bound u 10 ltac:(lia)). lia.
Qed.

Lemma digits_head n u : exists c l, digits (S n) u = c :: l /\ is_digit c = true.
Proof.
  pose proof (digits_digit (S n) u) as H. destruct (digits (S n) u) as [|c l] eqn:E.
  - cbn in E. by destruct (if u <? 10 then [] else digits n (u / 10)).
  - apply Forall_cons in H as [H _]. by exists c, l.
Qed.

Lemma num_loop_digits n u r :
  0 <= u < 10 ^ Z.of_nat n -> u <= 9223372036854775808 -> (1 <= n)%nat ->
  num_loop (digits n u ++ r) 0 = num_loop r u.
Proof.
  revert u r. induction n as [|n IH]; intros u r Hu Hmax Hn; [lia|].
  rewrite Nat2Z.inj_succ, Z.pow_succ_r in Hu by lia.
  pose proof (Z.mod_pos_bound u 10 ltac:(lia)) as Hm.
  pose proof (Z.div_mod u 10 ltac:(lia)) as Hdm.
  assert (Hstep : forall a, a = u / 10 -> num_loop ((48 + u mod 10) :: r) a = num_loop r u).
  { intros a ->. cbn [num_loop]. unfold is_digit.
    destruct (Z.leb_spec 48 (48 + u mod 10)); [|lia]. destruct (Z.leb_spec (48 + u mod 10) 57); [|lia].
    cbn [andb]. replace (48 + u mod 10 - 48) with (u mod 10) by lia.
    destruct (Z.ltb_spec ((18446744073709551615 - u mod 10) / 10) (u / 10)) as [Hbad|_].
    { assert (u / 10 <= (18446744073709551615 - u mod 10) / 10) by (apply Z.div_le_mono; lia). lia. }
    rewrite u64_small by lia. f_equal. lia. }
  cbn [digits]. destruct (Z.ltb_spec u 10) as [Hs|Hb].
  - cbn [app]. apply Hstep. rewrite Z.div_small; lia.
  - assert (1 <= u / 10) by (apply Z.div_le_lower_bound; lia).
    assert (n <> 0)%nat by (intros ->; cbn in Hu; lia).
    rewrite <- app_assoc, IH; [by apply Hstep| | |lia].
    + split; [lia|]. apply Z.div_lt_upper_bound; lia.
    + lia.
Qed.

Lemma num_loop_stop r u : num_stop r -> num_loop r u = Ret (r, u).
Proof. destruct r as [|c r]; [done|]. cbn. intros (-> & _). done. Qed.

Lemma num_value_ok z :
  i64_min <= z <= i64_max -> num_value (z <? 0) (Z.abs z) = Ret z.
Proof.
  unfold num_value, i64_min, i64_max. intros Hz. destruct (Z.ltb_spec z 0).
  - destruct (Z.ltb_spec (9223372036854775807 + 1) (Z.abs z)); [lia|].
    destruct (Z.eqb_spec (Z.abs z) (9223372036854775807 + 1)); f_equal; lia.
  - destruct (Z.ltb_spec 9223372036854775807 (Z.abs z)); [lia|]. f_equal. lia.
Qed.

(** The head of a number: a minus sign or a digit. *)
Lemma render_num_head z : exists c l, render_num z = c :: l /\ (c =? 45) || is_digit c = true.
Proof.
  unfold render_num. destruct (Z.ltb_spec z 0); [by eexists _, _|].
  destruct (digits_head 19 (Z.abs z)) as (c & l & E & Hc). rewrite E.
  exists c, l. rewrite Hc. by rewrite orb_true_r.
Qed.

Lemma parse_num_render z rest :
  i64_min <= z <= i64_max -> num_stop rest -> parse_num (render_num z ++ rest) = Ret (rest, z).
Proof.
  intros Hz Hstop. unfold parse_num, render_num. pose proof (num_value_ok z Hz) as Hv.
  assert (Hrest : forall neg u, num_value neg u = Ret z ->
    match rest with
    | c :: _ => if (c =? 46) || (c =? 101) || (c =? 69) then Fail
                else v ← num_value neg u; Ret (rest, v)
    | [] => v ← num_value neg u; Ret (rest, v)
    end = Ret (rest, z)).
  { intros neg u Hnv. rewrite Hnv. destruct rest as [|c rest]; [done|]. cbn in Hstop.
    destruct (Z.eqb_spec c 46); [lia|]. destruct (Z.eqb_spec c 101); [lia|].
    destruct (Z.eqb_spec c 69); [lia|done]. }
  destruct (digits_head 19 (Z.abs z)) as (c & l & E & Hc).
  assert (Hd : num_loop ((c :: l) ++ rest) 0 = Ret (rest, Z.abs z)).
  { rewrite <- E, num_loop_digits; [by apply num_loop_stop|unfold i64_min, i64_max in Hz; lia..]. }
  destruct (z <? 0) eqn:Hneg; rewrite E.
  - cbn [app nth Z.eqb Pos.eqb drop]. cbn [app] in Hd. rewrite Hc. cbn [negb]. rewrite Hd.
    cbn [mbind outcome_bind]. by apply Hrest.
  - cbn [app nth]. cbn [app] in Hd. assert ((c =? 45) = false) as -> by (unfold is_digit in Hc; lia).
    rewrite Hc. cbn [negb]. rewrite Hd. cbn [mbind outcome_bind]. by apply Hrest.
Qed.

(** *** Values *)

(** The head of a value is no white space and closes nothing. *)
Lemma render_head j : exists c l, render j = c :: l /\ is_ws c = false /\ c <> 93 /\ c <> 125.
Proof.
  destruct j as [|[]|z|s|[] kids]; try (by eexists _, _); [|by rewrite render_cont; eexists _, _..].
  destruct (render_num_head z) as (c & l & E & Hc). exists c, l. cbn [render].
  split; [done|]. unfold is_digit in Hc. unfold is_ws. lia.
Qed.

Lemma skip_ws_render j rest : skip_ws (render j ++ rest) = render j ++ rest.
Proof.
  destruct (render_head j) as (c & l & -> & Hws & _). cbn. by rewrite Hws.
Qed.

Lemma starts_head a s c r : starts (a :: s) (c :: r) = true -> a = c.
Proof. unfold starts. intros H. apply bool_decide_eq_true in H. cbn in H. congruence. Qed.

Lemma starts_head_ne a s c r : c <> a -> starts (a :: s) (c :: r) = false.
Proof.
  intros Hne. destruct (starts (a :: s) (c :: r)) eqn:E; [|done].
  apply starts_head in E. congruence.
Qed.

Lemma ref_value_num fuel depth z rest :
  i64_min <= z <= i64_max -> num_stop rest ->
  ref_value (S fuel) depth (render_num z ++ rest) = Ret (rest, JNum z).
Proof.
  intros Hz Hstop. cbn [ref_value]. rewrite (skip_ws_render (JNum z)). cbn [render].
  destruct (render_num_head z) as (c & l & E & Hc).
  pose proof (parse_num_render z rest Hz Hstop) as Hp. rewrite E in *. cbn [app] in *.
  assert (48 <= c <= 57 \/ c = 45) by (unfold is_digit in Hc; lia).
  destruct (Z.eqb_spec c 123); [lia|]. destruct (Z.eqb_spec c 91); [lia|].
  destruct (Z.eqb_spec c 34); [lia|].
  unfold lit; fold lit. rewrite !starts_head_ne by (cbn; lia). rewrite Hc, Hp. done.
Qed.

Lemma render_kids_true o k v kids :
  render_kids o true ((k, v) :: kids) = 44 :: render_kids o false ((k, v) :: kids).
Proof. done. Qed.

Lemma render_kids_head o k v kids rest :
  exists c l, render_kids o false ((k, v) :: kids) ++ rest = c :: l /\ is_ws c = false /\ c <> closing o.
Proof.
  destruct (render_head v) as (c & l & E & Hws & H1 & H2). destruct o; cbn [render_kids sep app].
  - by eexists _, _.
  - rewrite E. eexists c, _. split; [done|]. split; [done|]. cbn. lia.
Qed.

Lemma ref_members_key fuel depth (o : bool) k r :
  (if o then no_nul k else k = []) ->
  ref_members (S fuel) depth ((if o then render_key k else []) ++ r) o =
    '(r, v) ← ref_value fuel depth r;
    match skip_ws r with
    | c :: r =>
        if c =? 44 then '(r, kids) ← ref_members fuel depth r o; Ret (r, (k, v) :: kids)
        else if c =? closing o then Ret (r, [(k, v)])
        else Fail
    | [] => Fail
    end.
Proof.
  intros Hk. cbn [ref_members]. destruct o.
  - unfold render_key. rewrite <- app_assoc.
    rewrite (skip_ws_render (JStr k)). cbn [render]. rewrite ref_string_render by done. done.
  - by subst k.
Qed.

Section Roundtrip.
Variable o : bool.
Variables (depth : Z).

(** The elements of a container, given that each reads back by itself. *)
Lemma ref_members_render kids k v fuel rest :
  Forall (fun kv => (if o then no_nul kv.1 else kv.1 = []) /\
    forall fuel rest, num_stop rest -> (4 * length (render kv.2 ++ rest) + 1 <= fuel)%nat ->
      ref_value fuel depth (render kv.2 ++ rest) = Ret (rest, kv.2)) ((k, v) :: kids) ->
  (4 * length (render_kids o false ((k, v) :: kids) ++ closing o :: rest) + 2 <= fuel)%nat ->
  ref_members fuel depth (render_kids o false ((k, v) :: kids) ++ closing o :: rest) o =
    Ret (rest, (k, v) :: kids).
Proof.
  revert k v fuel. induction kids as [|[k' v'] kids IH]; intros k v fuel Hall Hf;
    apply Forall_cons in Hall as [[Hk Hv] Hall]; cbn [fst snd] in *;
    (destruct fuel as [|fuel]; [lia|]);
    cbn [render_kids sep app] in *; rewrite <- !app_assoc in *; rewrite ref_members_key by done;
    rewrite length_app in Hf.
  - rewrite Hv; [| |lia]. 2: { cbn. destruct o; cbn; split_and!; [done|lia..]. }
    cbn. by destruct o.
  - change ([44] ++ (if o then render_key k' else []) ++ render v' ++ render_kids o true kids)
      with (44 :: render_kids o false ((k', v') :: kids)) in *.
    rewrite <- app_comm_cons in *. rewrite Hv; [|cbn; split_and!; [done|lia..]|lia].
    cbn [mbind outcome_bind skip_ws is_ws Z.eqb Pos.eqb orb].
    rewrite IH; [done|done|]. rewrite length_app in Hf. cbn [length] in Hf.
    rewrite !length_app in Hf |- *. lia.
Qed.
End Roundtrip.

Lemma ref_value_render j fuel depth rest :
  wf_json j -> depth + jdepth j <= AJ_MAX_DEPTH -> num_stop rest ->
  (4 * length (render j ++ rest) + 1 <= fuel)%nat ->
  ref_value fuel depth (render j ++ rest) = Ret (rest, j).
Proof.
  revert fuel depth rest.
  induction j as [|b|z|s|o kids IH] using json_rect_nested; intros fuel depth rest Hwf Hd Hstop Hf;
    (destruct fuel as [|fuel]; [lia|]).
  - cbn. by rewrite ?drop_0.
  - destruct b; cbn; by rewrite ?drop_0.
  - by apply ref_value_num.
  - cbn [ref_value]. rewrite (skip_ws_render (JStr s)). cbn [render].
    rewrite ref_string_render by done. done.
  - apply wf_json_cont in Hwf. rewrite jdepth_cont in Hd.
    rewrite length_app in Hf. pose proof (skip_ws_render (JCont o kids) rest) as Hws.
    cbn [ref_value]. rewrite Hws. rewrite render_cont in *. rewrite !length_app in Hf. cbn [length] in Hf.
    rewrite <- !app_assoc in *.
    assert (Hc : forall fuel', (4 * length (render_kids o false kids ++ closing o :: rest) + 2 <= fuel')%nat ->
      ref_container_ (S fuel') (depth + 1) ([opening o] ++ render_kids o false kids ++ [closing o] ++ rest) o
      = Ret (rest, JCont o kids)).
    { intros fuel' Hf'. cbn [ref_container_ app drop]. rewrite ?drop_0.
      destruct kids as [|[k v] kids].
      { cbn. by destruct o. }
      destruct (render_kids_head o k v kids (closing o :: rest)) as (c & l & E & Hw & Hcl).
      assert (Hsk : skip_ws (c :: l) = c :: l) by (cbn; by rewrite Hw).
      rewrite E, Hsk. destruct (Z.eqb_spec c (closing o)); [done|]. rewrite <- E.
      rewrite ref_members_render; [done| |done].
      rewrite Forall_forall in *. intros kv Hkv. destruct (Hwf kv Hkv) as [Hk Hv]. split; [done|].
      intros fuel'' rest' Hstop' Hf''. apply IH; try done.
      assert (jdepth kv.2 <= kids_depth ((k, v) :: kids)); [|lia].
      clear -Hkv. induction Hkv; cbn; lia. }
    destruct fuel as [|[|fuel]]; [cbn in Hf; lia|cbn in Hf; lia|].
    assert (0 <= kids_depth kids) by (clear; induction kids; cbn; lia).
    destruct o; cbn [app opening Z.eqb Pos.eqb ref_container];
      (destruct (Z.leb_spec AJ_MAX_DEPTH depth); [lia|]); apply Hc;
      rewrite length_app; cbn [length]; lia.
Qed.

(** The reference parser undoes the rendering. *)
Lemma ref_parse_render j :
  wf_json j -> jdepth j <= AJ_MAX_DEPTH -> ref_parse (render j) = Ret j.
Proof.
  intros Hwf Hd. unfold ref_parse, parse_fuel.
  rewrite <- (app_nil_r (render j)) at 2. rewrite ref_value_render; [done|done|lia|done|].
  rewrite app_nil_r. lia.
Qed.

(** ** What a parsed tree can be *)

(** Every integer fits a [long long], and the elements of arrays have no key. *)
Fixpoint in_range (j : json) : Prop :=
  match j with
  | JNum z => i64_min <= z <= i64_max
  | JCont o kids =>
      (fix go kids := match kids with
                      | [] => True
                      | kv :: kids' => (o = false -> kv.1 = []) /\ in_range kv.2 /\ go kids'
                      end) kids
  | _ => True
  end.

Lemma in_range_cont o kids :
  in_range (JCont o kids) <-> Forall (fun kv => (o = false -> kv.1 = []) /\ in_range kv.2) kids.
Proof. induction kids as [|kv kids IH]; [done|]. rewrite Forall_cons, <- IH. cbn. tauto. Qed.

Lemma num_loop_nonneg r u r' v : 0 <= u -> num_loop r u = Ret (r', v) -> 0 <= v.
Proof.
  revert u. induction r as [|c r IH]; intros u Hu; cbn [num_loop]; [by intros [= _ <-]|].
  destruct (is_digit c); [|by intros [= _ <-]]. case_match; [done|]. apply IH, u64_range.
Qed.

Lemma num_value_range neg u v : 0 <= u -> num_value neg u = Ret v -> i64_min <= v <= i64_max.
Proof. unfold num_value, i64_min, i64_max. intros Hu H. repeat case_match; zbool; simplify_eq; lia. Qed.

Lemma parse_num_range r r' v : parse_num r = Ret (r', v) -> i64_min <= v <= i64_max.
Proof.
  unfold parse_num. set (r1 := if _ : bool then _ else _). destruct r1 as [|c r1]; [done|].
  destruct (negb _); [done|]. intros H. inv_bind. destruct a as [r2 u].
  apply num_loop_nonneg in E; [|lia]. destruct r2 as [|c2 r2]; [|destruct (_ || _); [done|]];
    inv_bind; simplify_eq; by eapply num_value_range.
Qed.

Definition fits (depth : Z) (j : json) : Prop := depth + jdepth j <= AJ_MAX_DEPTH /\ in_range j.

(** The parser's depth counter bounds the depth of what it builds. *)
Lemma ref_fits fuel :
  (forall depth r r' j, depth <= AJ_MAX_DEPTH -> ref_value fuel depth r = Ret (r', j) -> fits depth j) /\
  (forall depth r o r' j, depth <= AJ_MAX_DEPTH -> ref_container fuel depth r o = Ret (r', j) -> fits depth j) /\
  (forall depth r o r' j, depth <= AJ_MAX_DEPTH -> ref_container_ fuel depth r o = Ret (r', j) ->
     fits (depth - 1) j) /\
  (forall depth r o r' kids, depth <= AJ_MAX_DEPTH -> ref_members fuel depth r o = Ret (r', kids) ->
     depth + kids_depth kids <= AJ_MAX_DEPTH /\ in_range (JCont o kids)).
Proof.
  induction fuel as [|fuel (IHv & IHc & IHc_ & IHm)]; [done|]. split_and!.
  - intros depth r r' j Hd. cbn [ref_value]. destruct (skip_ws r) as [|c r1]; [done|].
    destruct (c =? 123); [by apply IHc|]. destruct (c =? 91); [by apply IHc|].
    destruct (c =? 34).
    { intros H. inv_bind. destruct a as [r2 s]. simplify_eq. unfold fits. cbn. lia. }
    do 3 (destruct (starts _ _); [intros [= _ <-]; unfold fits; cbn; lia|]).
    destruct (_ || _); [|done]. intros H. inv_bind. destruct a as [r2 v]. simplify_eq.
    apply parse_num_range in E. unfold fits. cbn. lia.
  - intros depth r o r' j Hd. cbn [ref_container]. destruct (Z.leb_spec AJ_MAX_DEPTH depth); [done|].
    intros H'. apply IHc_ in H'; [|lia]. by replace (depth + 1 - 1) with depth in H' by lia.
  - intros depth r o r' j Hd. cbn [ref_container_]. set (r1 := skip_ws _).
    assert (Hall : ('(r, kids) ← ref_members fuel depth r1 o; Ret (r, JCont o kids)) = Ret (r', j) ->
      fits (depth - 1) j).
    { intros H. inv_bind. destruct a as [r2 kids]. simplify_eq. apply IHm in E as [E1 E2]; [|done].
      split; [rewrite jdepth_cont; lia|done]. }
    destruct r1 as [|c r2]; [exact Hall|]. case_match; [|exact Hall].
    intros [= _ <-]. split; [cbn; lia|done].
  - intros depth r o r' kids Hd H. cbn [ref_members] in H. inv_bind. destruct a as [r1 k].
    assert (Hk : o = false -> k = []) by (intros ->; by simplify_eq).
    inv_bind. destruct a as [r2 v]. apply IHv in E0 as [E1 E2]; [|done].
    destruct (skip_ws r2) as [|c r3]; [done|]. rewrite in_range_cont.
    case_match; [|case_match; [|done]].
    + inv_bind. destruct a as [r4 kids']. simplify_eq. apply IHm in E0 as [F1 F2]; [|done].
      apply in_range_cont in F2. cbn [kids_depth fst snd]. split; [lia|by constructor].
    + simplify_eq. cbn. split; [lia|]. constructor; [done|constructor].
Qed.

Lemma ref_parse_fits text j : ref_parse text = Ret j -> jdepth j <= AJ_MAX_DEPTH /\ in_range j.
Proof.
  unfold ref_parse. intros H. inv_bind. destruct a as [r j']. destruct (skip_ws r); [|done].
  simplify_eq. apply ref_fits in E; [|done]. exact E.
Qed.
