(* ===== verification/JsonArena.v ===== *)
(** * The arena parser is the reference parser

    [denotes] says which tree a range of arena nodes stands for.  The parser
    of the source, run on any text of at most [ARPC_MAX_FRAME] bytes, fails
    exactly where the reference parser does (or where the heap refuses), and
    otherwise leaves an arena that denotes the tree the reference returns; it
    never leaves its buffers and no [int] overflows.  The accessors are then
    the reads of the tree. *)

From S2P Require Import Prelude Json JsonReader JsonRef.

(** ** Simulation of a failing computation *)

Section Sim.
Context {A : Allocator}.

(** [m] does what the reference [s] does, except that it may also run out
    of memory; over a heap that grants everything it may not. *)
Definition sim {X Y} (R : X -> Y -> Prop) (m : outcome X) (s : outcome Y) : Prop :=
  match m, s with
  | Ret x, Ret y => R x y
  | Fail, Fail => True
  | Fail, _ => ~ TotalAllocator A
  | NoFuel, NoFuel => True
  | _, _ => False
  end.

Lemma sim_bind {X Y X' Y'} (R : X -> Y -> Prop) (Q : X' -> Y' -> Prop) m s f g :
  sim R m s -> (forall x y, R x y -> sim Q (f x) (g y)) -> sim Q (m ≫= f) (s ≫= g).
Proof.
  destruct m, s; cbn; auto; try done.
  intros Hn _. destruct (g a); done.
Qed.

Lemma sim_weaken {X Y} (R Q : X -> Y -> Prop) m s :
  sim R m s -> (forall x y, R x y -> Q x y) -> sim Q m s.
Proof. destruct m, s; cbn; auto. Qed.

Lemma sim_fail_oom {X Y} (R : X -> Y -> Prop) n s :
  grants n = false -> sim R (Fail : outcome X) (s : outcome Y).
Proof.
  intros Hg. assert (~ TotalAllocator A) by (intros Ht; by rewrite (Ht n) in Hg).
  by destruct s.
Qed.

(** A step of [m] alone: it returns, or the heap refused. *)
Definition returns {X} (R : X -> Prop) (m : outcome X) : Prop :=
  match m with
  | Ret x => R x
  | Fail => ~ TotalAllocator A
  | _ => False
  end.

Lemma sim_bind_l {X X' Y'} (R : X -> Prop) (Q : X' -> Y' -> Prop) m f s :
  returns R m -> (forall x, R x -> sim Q (f x) s) -> sim Q (m ≫= f) s.
Proof. destruct m; cbn; auto; try done. intros Hn _. by destruct s. Qed.

Lemma returns_bind {X X'} (R : X -> Prop) (Q : X' -> Prop) m f :
  returns R m -> (forall x, R x -> returns Q (f x)) -> returns Q (m ≫= f).
Proof. destruct m; cbn; auto; done. Qed.
End Sim.

Lemma bind_ret_r_outcome {X} (m : outcome X) : m ≫= Ret = m.
Proof. by destruct m. Qed.

Lemma bind_after {X Y W} (m : outcome X) (f : X -> outcome Y) (y : Y) (g : Y -> outcome W) :
  m ≫= f = Ret y -> (x ← m; f x ≫= g) = g y.
Proof. destruct m; cbn; try done. by intros ->. Qed.

(** ** Strings *)

Lemma utf8_length cp : (1 <= length (utf8 cp) <= 4)%nat.
Proof. unfold utf8. repeat case_match; cbn; lia. Qed.

Section Strings.
Context {A : Allocator}.

Definition str_rel (n : nat) (tmp : list Z) (x y : list Z * list Z) : Prop :=
  x.1 = y.1 /\ x.2 = tmp ++ y.2 /\ (length y.1 + length y.2 <= n)%nat.

(** One step of the loop keeps at most four bytes. *)
Definition step_rel (n : nat) (tmp : list Z) (x y : list Z * list Z) : Prop :=
  str_rel n tmp x y /\ (length y.2 <= 4)%nat.

Lemma str_unicode_sim r cap tmp :
  len tmp + 4 <= cap ->
  sim (step_rel (length r) tmp) (str_unicode r cap tmp) (ref_unicode r).
Proof.
  intros Hcap. unfold str_unicode, ref_unicode.
  assert (Hput : forall cp r', (length r' + 4 <= length r)%nat ->
    sim (step_rel (length r) tmp) (tmp ← bput cap tmp (utf8 cp); Ret (r', tmp)) (Ret (r', utf8 cp))).
  { intros cp r' Hr. pose proof (utf8_length cp). rewrite bput_ok by lia. cbn [mbind outcome_bind].
    unfold sim, step_rel, str_rel. cbn [fst snd]. split_and!; [done..|lia|lia]. }
  destruct (Z.ltb_spec (len r) 4); [done|].
  destruct (hex4_defined r) as [hi ->]; [lia|]. cbn [mbind outcome_bind].
  destruct (hi <? 0); [done|].
  assert (length (drop 4 r) + 4 <= length r)%nat by (rewrite length_drop; lia).
  destruct ((55296 <=? hi) && (hi <=? 56319) && (6 <=? len (drop 4 r)) &&
          (nth 0 (drop 4 r) 0 =? 92) && (nth 1 (drop 4 r) 0 =? 117)) eqn:E; [|by apply Hput].
  zbool. destruct (hex4_defined (drop 2 (drop 4 r))) as [lo ->]; [rewrite length_drop; lia|].
  cbn [mbind outcome_bind]. destruct (_ && _); apply Hput; rewrite ?length_drop in *; lia.
Qed.

Lemma str_escape_sim r cap tmp :
  len tmp + 4 <= cap ->
  sim (step_rel (length r) tmp) (str_escape r cap tmp) (ref_escape r).
Proof.
  intros Hcap. destruct r as [|c r]; [done|]. cbn [str_escape ref_escape].
  assert (Hput : forall b, sim (step_rel (length (c :: r)) tmp)
    (tmp ← bput cap tmp [b]; Ret (r, tmp)) (Ret (r, [b]))).
  { intros b. rewrite bput_ok by (cbn [length]; lia).
    unfold step_rel, str_rel. cbn. split_and!; [done..|lia|lia]. }
  repeat (case_match; [apply Hput|]). case_match; [|done].
  eapply sim_weaken; [by apply str_unicode_sim|].
  unfold step_rel, str_rel. cbn. intros x y ((? & ? & ?) & ?). split_and!; [done..|lia|lia].
Qed.

(** The buffer of [parse_string_raw] always has the room the loop assumes. *)
Lemma str_loop_sim fuel r cap tmp :
  256 <= cap <= 2 ^ 30 -> len tmp + len r <= 2 ^ 26 -> len tmp <= cap ->
  sim (str_rel (length r) tmp) (str_loop fuel r cap tmp) (ref_chars fuel r).
Proof.
  revert r cap tmp. induction fuel as [|fuel IH]; intros r cap tmp Hcap Hlen Ht; [done|].
  cbn [str_loop ref_chars]. destruct r as [|c r].
  { cbn. unfold str_rel. cbn. rewrite app_nil_r. split_and!; [done..|lia]. }
  destruct (c =? 34). { cbn. unfold str_rel. cbn. rewrite app_nil_r. split_and!; [done..|lia]. }
  cbn [length] in Hlen.
  apply (sim_bind_l (fun cap' => 256 <= cap' <= 2 ^ 30 /\ len tmp + 5 <= cap')).
  { destruct (Z.ltb_spec cap (len tmp + 5)); [|cbn; lia]. rewrite u64_small by lia.
    destruct (grants (cap * 2)) eqn:Hg; [|intros Htot; by rewrite (Htot (cap * 2)) in Hg].
    destruct (Z.leb_spec (len tmp) (cap * 2)); cbn; lia. }
  intros cap' [Hcap' Hroom]. apply (sim_bind (step_rel (length (c :: r)) tmp)).
  - destruct (negb (c =? 92)).
    + destruct (c <? 32); [done|]. rewrite bput_ok by (cbn [length]; lia).
      unfold step_rel, str_rel. cbn. split_and!; [done..|lia|lia].
    + eapply sim_weaken; [apply str_escape_sim; lia|].
      unfold step_rel, str_rel. cbn. intros x y ((? & ? & ?) & ?). split_and!; [done..|lia|lia].
  - intros [r1 t1] [r2 s] ((Hr & Hs & Hn) & H4). cbn [fst snd length] in *. subst r1 t1.
    rewrite <- (bind_ret_r_outcome (str_loop fuel r2 cap' (tmp ++ s))).
    apply (sim_bind (str_rel (length r2) (tmp ++ s))).
    + apply IH; [done| |]; rewrite length_app; lia.
    + intros [r3 t3] [r4 s4] (Hr & Hs & Hn'). cbn [fst snd] in *. subst r3 t3. cbn.
      unfold str_rel. cbn. rewrite length_app, <- app_assoc. split_and!; [done..|lia].
Qed.
End Strings.

(** ** What a range of nodes denotes *)

Definition body_eq (n n' : aj_node) : Prop :=
  n_type n = n_type n' /\ n_num n = n_num n' /\ n_str n = n_str n' /\
  n_first_child n = n_first_child n'.

(** [s] and its NUL are in [B] at [off]. *)
Definition str_in (B : list Z) (off : Z) (s : list Z) : Prop :=
  exists l r, B = l ++ s ++ 0 :: r /\ len l = off.

Section Denotes.
(** How a [str] and a [key] pointer refer to an offset: cast integers while
    parsing, addresses in [sbuf] afterwards. *)
Variables (sref kref : ptr -> Z -> Prop).
Variables (N : list aj_node) (B : list Z).

Inductive key_ok : bool -> aj_node -> list Z -> Prop :=
| key_obj n off k : kref (n_key n) off -> str_in B off k -> key_ok true n k
| key_arr n : key_ok false n [].

(** The nodes from [i] up to [hi] are the tree [j], its root at [i]; a
    container's children are the chain of siblings from its first child,
    each a range of its own, one after the other. *)
Inductive denotes : nat -> nat -> json -> Prop :=
| den_null i n : N !! i = Some n -> n_type n = AJ_NULL -> denotes i (i + 1) JNull
| den_bool i n b : N !! i = Some n -> n_type n = AJ_BOOL ->
    n_num n = (if b : bool then 1 else 0) -> denotes i (i + 1) (JBool b)
| den_num i n z : N !! i = Some n -> n_type n = AJ_NUM -> n_num n = z ->
    denotes i (i + 1) (JNum z)
| den_str i n off s : N !! i = Some n -> n_type n = AJ_STR -> sref (n_str n) off ->
    str_in B off s -> denotes i (i + 1) (JStr s)
| den_cont i hi n o kids : N !! i = Some n ->
    n_type n = (if o : bool then AJ_OBJ else AJ_ARR) ->
    chain o (n_first_child n) (i + 1) hi kids (-1) -> denotes i hi (JCont o kids)
(** The siblings from the link [l], ending at the link [l']. *)
with chain : bool -> Z -> nat -> nat -> list (list Z * json) -> Z -> Prop :=
| chain_nil o lo l : chain o l lo lo [] l
| chain_cons o i mid hi n k v kids l' : N !! i = Some n ->
    key_ok o n k -> denotes i mid v -> (i < mid)%nat ->
    chain o (n_next_sibling n) mid hi kids l' ->
    chain o (Z.of_nat i) i hi ((k, v) :: kids) l'.
End Denotes.

Scheme denotes_mut := Minimality for denotes Sort Prop
  with chain_mut := Minimality for chain Sort Prop.
Combined Scheme denotes_chain_ind from denotes_mut, chain_mut.

Lemma str_in_app B B' off s : str_in B off s -> str_in (B ++ B') off s.
Proof.
  intros (l & r & -> & H). exists l, (r ++ B'). by rewrite <- !app_assoc.
Qed.

Section DenotesFacts.
Variables (sref kref : ptr -> Z -> Prop).
Variables (N N' : list aj_node) (B B' : list Z).
Hypothesis Hstr : forall off s, str_in B off s -> str_in B' off s.

Lemma key_ok_mono o n k : key_ok kref B o n k -> key_ok kref B' o n k.
Proof. destruct 1; econstructor; eauto. Qed.

(** Only the nodes of the range matter, and of its root neither the key nor
    the sibling. *)
Lemma denotes_frame :
  (forall i hi j, denotes sref kref N B i hi j ->
     (forall n, N !! i = Some n -> exists n', N' !! i = Some n' /\ body_eq n n') ->
     (forall k n, (i < k < hi)%nat -> N !! k = Some n -> N' !! k = Some n) ->
     denotes sref kref N' B' i hi j) /\
  (forall o l lo hi kids l', chain sref kref N B o l lo hi kids l' ->
     (forall k n, (lo <= k < hi)%nat -> N !! k = Some n -> N' !! k = Some n) ->
     chain sref kref N' B' o l lo hi kids l').
Proof.
  apply (denotes_chain_ind sref kref N B
    (fun i hi j => (forall n, N !! i = Some n -> exists n', N' !! i = Some n' /\ body_eq n n') ->
       (forall k n, (i < k < hi)%nat -> N !! k = Some n -> N' !! k = Some n) ->
       denotes sref kref N' B' i hi j)
    (fun o l lo hi kids l' =>
       (forall k n, (lo <= k < hi)%nat -> N !! k = Some n -> N' !! k = Some n) ->
       chain sref kref N' B' o l lo hi kids l')).
  - intros i n Hn Ht Hroot _. destruct (Hroot n Hn) as (n' & Hn' & (E1 & _)).
    econstructor; [done|congruence].
  - intros i n b Hn Ht Hb Hroot _. destruct (Hroot n Hn) as (n' & Hn' & (E1 & E2 & _)).
    econstructor; [done|congruence..].
  - intros i n z Hn Ht Hb Hroot _. destruct (Hroot n Hn) as (n' & Hn' & (E1 & E2 & _)).
    econstructor; [done|congruence..].
  - intros i n off s Hn Ht Hs Hin Hroot _. destruct (Hroot n Hn) as (n' & Hn' & (E1 & _ & E3 & _)).
    econstructor; [done|congruence|by rewrite <- E3|auto].
  - intros i hi n o kids Hn Ht _ IH Hroot Hrest. destruct (Hroot n Hn) as (n' & Hn' & (E1 & _ & _ & E4)).
    econstructor; [done|congruence|]. rewrite <- E4. apply IH. intros k m Hk. apply Hrest. lia.
  - intros. constructor.
  - intros o i mid hi n k v kids l' Hn Hk _ IHv Hlt Hch IHch Hrest.
    assert (mid <= hi)%nat by (clear -Hch; induction Hch; lia).
    econstructor; [apply Hrest; [lia|done]|by apply key_ok_mono| |done|].
    + apply IHv.
      * intros m Hm. exists m. split; [apply Hrest; [lia|done]|done].
      * intros m x Hm. apply Hrest. lia.
    + apply IHch. intros m x Hm. apply Hrest. lia.
Qed.
End DenotesFacts.

(** ** Growing the arena *)

Definition raw_str (p : ptr) (off : Z) : Prop := p = PInt off.
Definition raw_key (p : ptr) (off : Z) : Prop := p = PInt (off + 1).

(** The buffers hold what is in them, and [n] more bytes of text can make
    neither outgrow a frame: [int] and [long] offsets stay in range, the
    32-bit [long] of mingw included. *)
Definition dinv (d : aj_doc) (n : nat) : Prop :=
  d_count d <= d_cap d <= 2 ^ 28 /\ d_slen d <= d_scap d <= 2 ^ 28 /\
  d_count d + Z.of_nat n <= ARPC_MAX_FRAME /\ d_slen d + Z.of_nat n <= ARPC_MAX_FRAME.

Lemma dinv_le d n m : dinv d n -> (m <= n)%nat -> dinv d m.
Proof. unfold dinv. lia. Qed.

(** [d'] has every node of [d], and more text in [sbuf]. *)
Definition ext (d d' : aj_doc) : Prop :=
  (forall k n, d_nodes d !! k = Some n -> d_nodes d' !! k = Some n) /\
  exists t, d_sbuf d' = d_sbuf d ++ t.

Lemma ext_refl d : ext d d.
Proof. split; [done|]. exists []. by rewrite app_nil_r. Qed.

Lemma ext_trans d1 d2 d3 : ext d1 d2 -> ext d2 d3 -> ext d1 d3.
Proof.
  intros [H1 [t1 E1]] [H2 [t2 E2]]. split; [auto|]. exists (t1 ++ t2).
  by rewrite E2, E1, <- app_assoc.
Qed.

Lemma ext_str_in d d' off s : ext d d' -> str_in (d_sbuf d) off s -> str_in (d_sbuf d') off s.
Proof. intros [_ [t ->]]. apply str_in_app. Qed.

Lemma ext_app d l cap : ext d (AjDoc (d_nodes d ++ l) cap (d_sbuf d) (d_scap d) (d_ok d)).
Proof.
  split; [|exists []; by rewrite app_nil_r]. cbn. intros k n H. by apply lookup_app_l_Some.
Qed.

Definition fresh_node (t : aj_type) : aj_node := AjNode t 0 (PInt 0) (PInt 0) (-1) (-1).

Section Growth.
Context {A : Allocator}.

Lemma node_new_ok d t n :
  dinv d n -> (1 <= n)%nat ->
  returns (fun '(d', i) => i = d_count d /\ d_nodes d' = d_nodes d ++ [fresh_node t] /\
             d_sbuf d' = d_sbuf d /\ dinv d' (n - 1)) (node_new d t).
Proof.
  intros Hd Hn. unfold node_new, dinv, ARPC_MAX_FRAME, i32_max, d_count, d_slen in *.
  apply (returns_bind (fun cap => len (d_nodes d) + 1 <= cap <= 2 ^ 28)).
  - destruct (Z.eqb_spec (len (d_nodes d)) (d_cap d)) as [E|E]; [|cbn; lia].
    set (cap := if d_cap d =? 0 then 32 else d_cap d * 2). cbn zeta.
    assert (Hcap : len (d_nodes d) + 1 <= cap <= 2 ^ 28)
      by (subst cap; destruct (Z.eqb_spec (d_cap d) 0); lia).
    destruct (Z.ltb_spec 2147483647 cap); [lia|].
    destruct (grants (cap * sizeof_aj_node)) eqn:Hg; [done|].
    intros Ht. by rewrite Ht in Hg.
  - intros cap Hcap. cbn. rewrite ?length_app. cbn. split_and!; try done; lia.
Qed.

Lemma sbuf_put_ok d s n :
  dinv d n -> (length s + 1 <= n)%nat ->
  returns (fun '(d', off) => off = d_slen d /\ d_nodes d' = d_nodes d /\
             d_sbuf d' = d_sbuf d ++ s ++ [0] /\ dinv d' (n - (length s + 1))) (sbuf_put d s).
Proof.
  intros Hd Hn. unfold sbuf_put, dinv, ARPC_MAX_FRAME, d_count, d_slen in *. cbn zeta.
  apply (returns_bind (fun cap => len (d_sbuf d) + len s + 1 <= cap <= 2 ^ 28)).
  - destruct (Z.ltb_spec (d_scap d) (len (d_sbuf d) + len s + 1)) as [Hlt|]; [|cbn; lia].
    set (start := if d_scap d =? 0 then 256 else u64 (d_scap d * 2)).
    assert (Hs : 0 < start <= 2 ^ 28).
    { subst start. destruct (Z.eqb_spec (d_scap d) 0); [lia|]. rewrite u64_small by lia. lia. }
    destruct (double_until_spec 27 64 start (len (d_sbuf d) + len s + 1)) as (cap & E & H1 & H2 & H3 & _);
      [lia|lia| |lia|].
    { change (2 ^ Z.of_nat 27) with 134217728. lia. }
    rewrite E. cbn. destruct (grants cap) eqn:Hg; [cbn; lia|].
    intros Ht. by rewrite Ht in Hg.
  - intros cap Hcap. cbn. rewrite ?length_app. cbn. split_and!; try done; lia.
Qed.

Lemma upd_node_ok d i n f :
  d_nodes d !! i = Some n ->
  upd_node d (Z.of_nat i) f = Ret (set_nodes d (<[i := f n]> (d_nodes d))).
Proof.
  intros H. unfold upd_node, node_at. destruct (Z.ltb_spec (Z.of_nat i) 0); [lia|].
  rewrite Nat2Z.id, H. done.
Qed.
End Growth.

(** ** Linking siblings *)

Abbreviation rdenotes := (denotes raw_str raw_key).
Abbreviation rchain := (chain raw_str raw_key).

Lemma denotes_lt sref kref N B i hi j : denotes sref kref N B i hi j -> (i < hi)%nat.
Proof.
  destruct 1 as [| | | |i hi n o kids _ _ Hch]; try lia.
  assert (i + 1 <= hi)%nat; [|lia]. clear -Hch. induction Hch; lia.
Qed.

Lemma chain_snoc sref kref N B o l lo i front n k v hi l' :
  chain sref kref N B o l lo i front (Z.of_nat i) ->
  N !! i = Some n -> key_ok kref B o n k -> denotes sref kref N B i hi v -> n_next_sibling n = l' ->
  chain sref kref N B o l lo hi (front ++ [(k, v)]) l'.
Proof.
  intros Hch Hn Hk Hv <-. remember (Z.of_nat i) as e eqn:He.
  induction Hch as [o lo l|o i0 mid hi0 n0 k0 v0 kids l' Hn0 Hk0 Hv0 Hlt _ IH]; subst.
  - cbn. econstructor; try done; [by eapply denotes_lt|constructor].
  - cbn. econstructor; try done. by apply IH.
Qed.

(** The state of the loop of [parse_container_]: the container opened at the
    end of [d0] has the children [done], the last of them at [prev]. *)
Definition members_inv (d0 : aj_doc) (o : bool) (done : list (list Z * json)) (prev : Z)
    (d : aj_doc) : Prop :=
  let i0 := length (d_nodes d0) in
  ext d0 d /\
  exists n0, d_nodes d !! i0 = Some n0 /\ n_type n0 = (if o then AJ_OBJ else AJ_ARR) /\
    n_next_sibling n0 = -1 /\
    ((prev = -1 /\ done = [] /\ n_first_child n0 = -1 /\ length (d_nodes d) = (i0 + 1)%nat) \/
     (exists pi front k0 v0 np, prev = Z.of_nat pi /\ done = front ++ [(k0, v0)] /\
        rchain (d_nodes d) (d_sbuf d) o (n_first_child n0) (i0 + 1) pi front (Z.of_nat pi) /\
        (i0 < pi)%nat /\ d_nodes d !! pi = Some np /\ key_ok raw_key (d_sbuf d) o np k0 /\
        n_next_sibling np = -1 /\ rdenotes (d_nodes d) (d_sbuf d) pi (length (d_nodes d)) v0)).

(** A string decoded between two children disturbs nothing. *)
Lemma members_inv_sbuf d0 o done prev d d' :
  members_inv d0 o done prev d -> ext d d' -> d_nodes d' = d_nodes d ->
  members_inv d0 o done prev d'.
Proof.
  intros [Hext (n0 & Hn0 & Ht & Hnx & Hcase)] He Hnodes.
  split; [by eapply ext_trans|]. exists n0. rewrite Hnodes.
  split_and!; [done..|].
  destruct Hcase as [?|(pi & front & k0 & v0 & np & ? & ? & Hch & ? & ? & Hk & ? & Hv)]; [by left|].
  right. exists pi, front, k0, v0, np.
  pose proof (denotes_frame raw_str raw_key (d_nodes d) (d_nodes d) (d_sbuf d) (d_sbuf d')
                (fun off s => ext_str_in d d' off s He)) as [Fd Fc].
  split_and!; try done.
  - apply Fc; auto.
  - eapply key_ok_mono; [|done]. intros. by eapply ext_str_in.
  - apply Fd; [done|..|auto]. intros m Hm. by exists m.
Qed.

(** With at least one child in place, the container is denoted whole. *)
Lemma members_inv_denotes d0 o done prev d :
  members_inv d0 o done prev d -> 0 <= prev ->
  rdenotes (d_nodes d) (d_sbuf d) (length (d_nodes d0)) (length (d_nodes d)) (JCont o done).
Proof.
  intros [_ (n0 & Hn0 & Ht & _ & Hcase)] Hprev.
  destruct Hcase as [[-> _]|(pi & front & k0 & v0 & np & _ & -> & Hch & _ & Hnp & Hk & Hnx & Hv)]; [lia|].
  econstructor; [done|done|]. by eapply chain_snoc.
Qed.

Section Link.
Context (d0 d d1 : aj_doc) (o : bool) (done : list (list Z * json)) (prev : Z).
Context (k : list Z) (koff : Z) (v : json) (nc : aj_node).
Let c := length (d_nodes d).
Hypothesis Hinv : members_inv d0 o done prev d.
Hypothesis Hext : ext d d1.
Hypothesis Hv : rdenotes (d_nodes d1) (d_sbuf d1) c (length (d_nodes d1)) v.
Hypothesis Hnc : d_nodes d1 !! c = Some nc.
Hypothesis Hnext : n_next_sibling nc = -1.
Hypothesis Hkey : if o then str_in (d_sbuf d1) koff k else k = [].

Let nc' := if o then set_key (PInt (koff + 1)) nc else nc.

(** The child with its key, as the arena is before it is linked. *)
Let d1' := set_nodes d1 (<[c := nc']> (d_nodes d1)).

Lemma link_key : (if o then upd_node d1 (Z.of_nat c) (set_key (PInt (koff + 1))) else Ret d1) = Ret d1'.
Proof.
  subst d1' nc'. destruct o; [by apply upd_node_ok|].
  rewrite list_insert_id by done. by destruct d1.
Qed.

Lemma link_key_ok : key_ok raw_key (d_sbuf d1) o nc' k.
Proof. subst nc'. destruct o; [by econstructor|subst k; constructor]. Qed.

(** [d2] has the nodes of [d1'] but for one before the child, of which the
    body or the links were rewritten. *)
Lemma link_child i m :
  (i < c)%nat ->
  rdenotes (<[i := m]> (d_nodes d1')) (d_sbuf d1) c (length (d_nodes d1)) v.
Proof.
  intros Hi. subst d1' nc'. cbn.
  apply (proj1 (denotes_frame raw_str raw_key (d_nodes d1) _ (d_sbuf d1) (d_sbuf d1)
    (fun _ _ H => H)) c _ v Hv).
  - intros n Hn. rewrite list_lookup_insert_ne by lia. rewrite Hnc in Hn. simplify_eq.
    rewrite list_lookup_insert_eq by (by eapply lookup_lt_Some). eexists. split; [reflexivity|].
    unfold body_eq. by destruct o.
  - intros x n Hx Hn. by rewrite !list_lookup_insert_ne by lia.
Qed.

Lemma link_old i m x n :
  (x < c)%nat -> x <> i -> d_nodes d !! x = Some n -> <[i := m]> (d_nodes d1') !! x = Some n.
Proof.
  intros Hx Hne Hn. subst d1'. cbn. rewrite !list_lookup_insert_ne by lia. by apply Hext.
Qed.

Lemma link_ext i m : (length (d_nodes d0) <= i)%nat -> ext d0 (set_nodes d1' (<[i := m]> (d_nodes d1'))).
Proof.
  intros Hi. destruct Hinv as [H0 _]. destruct (ext_trans _ _ _ H0 Hext) as [_ [t Ht]].
  split; [|exists t; done]. intros x n Hx. pose proof (lookup_lt_Some _ _ _ Hx).
  apply link_old; [|lia|by apply H0].
  assert (d_nodes d !! x = Some n) as Hd by (by apply H0). by apply lookup_lt_Some in Hd.
Qed.

Lemma link_spec :
  exists d2, (d ← (if o then upd_node d1 (Z.of_nat c) (set_key (PInt (koff + 1))) else Ret d1);
              if prev <? 0 then upd_node d (Z.of_nat (length (d_nodes d0))) (set_first_child (Z.of_nat c))
              else upd_node d prev (set_next_sibling (Z.of_nat c))) = Ret d2 /\
    members_inv d0 o (done ++ [(k, v)]) (Z.of_nat c) d2 /\
    length (d_nodes d2) = length (d_nodes d1) /\ d_cap d2 = d_cap d1 /\
    d_sbuf d2 = d_sbuf d1 /\ d_scap d2 = d_scap d1.
Proof.
  pose proof link_ext as Le. pose proof link_key_ok as Lk. pose proof link_child as Lc.
  pose proof link_old as Lo. rewrite link_key. cbn [mbind outcome_bind]. set (i0 := length (d_nodes d0)).
  pose proof Hinv as [H0 (n0 & Hn0 & Ht & Hnx & Hcase)]. fold i0 in Hn0.
  assert (Hi0 : (i0 < c)%nat) by (by apply lookup_lt_Some in Hn0).
  destruct Hcase as [(-> & -> & Hfc & Hlen)|(pi & front & k0 & v0 & np & -> & -> & Hch & Hpi & Hnp & Hk0 & Hnp1 & Hv0)].
  - cbn [Z.ltb Z.compare]. rewrite (upd_node_ok d1' i0 n0).
    2: { subst d1'. cbn. rewrite list_lookup_insert_ne by lia. by apply Hext. }
    eexists. split; [reflexivity|]. split; [|cbn; by rewrite !length_insert].
    split; [by apply Le|]. cbn. exists (set_first_child (Z.of_nat c) n0).
    rewrite list_lookup_insert_eq by (rewrite length_insert; apply lookup_lt_Some in Hnc; lia).
    split_and!; [done..|]. right. exists c, [], k, v, nc'.
    rewrite list_lookup_insert_ne by lia.
    rewrite list_lookup_insert_eq by (by apply lookup_lt_Some in Hnc).
    rewrite !length_insert. split_and!; try done.
    + replace c with (i0 + 1)%nat by lia. constructor.
    + subst nc'. by destruct o.
    + by apply Lc.
  - assert (Hpc : (pi < c)%nat) by (by apply lookup_lt_Some in Hnp).
    destruct (Z.ltb_spec (Z.of_nat pi) 0); [lia|]. rewrite (upd_node_ok d1' pi np).
    2: { subst d1'. cbn. rewrite list_lookup_insert_ne by lia. by apply Hext. }
    eexists. split; [reflexivity|]. split; [|cbn; by rewrite !length_insert].
    split; [apply Le; lia|]. cbn. exists n0.
    split; [apply Lo; [lia|lia|done]|]. split_and!; [done..|].
    right. exists c, (front ++ [(k0, v0)]), k, v, nc'.
    rewrite list_lookup_insert_ne by lia.
    rewrite list_lookup_insert_eq by (by apply lookup_lt_Some in Hnc).
    rewrite !length_insert.
    pose proof (denotes_frame raw_str raw_key (d_nodes d)
      (<[pi := set_next_sibling (Z.of_nat c) np]> (<[c := nc']> (d_nodes d1)))
      (d_sbuf d) (d_sbuf d1) (fun off s => ext_str_in d d1 off s Hext)) as [Fd Fc].
    split_and!; try done.
    + eapply chain_snoc; [|apply list_lookup_insert_eq; rewrite length_insert; apply lookup_lt_Some in Hnc; lia| | |done].
      * apply Fc; [done|]. intros x n Hx Hn. apply Lo; [lia|lia|done].
      * eapply key_ok_mono; [intros; by eapply ext_str_in|]. by destruct Hk0; econstructor.
      * apply Fd; [done| |].
        -- intros n Hn. rewrite Hnp in Hn. simplify_eq.
           rewrite list_lookup_insert_eq by (rewrite length_insert; apply lookup_lt_Some in Hnc; lia).
           by eexists.
        -- intros x n Hx Hn. apply Lo; [fold c in Hx; lia|lia|done].
    + subst nc'. by destruct o.
    + by apply Lc.
Qed.
End Link.

(** ** The parser simulates the reference parser *)

Section ParserSim.
Context {A : Allocator}.

Definition string_rel (p : aj_p) (x : aj_p * Z) (y : list Z * list Z) : Prop :=
  p_rest x.1 = y.1 /\ p_depth x.1 = p_depth p /\ ext (p_d p) (p_d x.1) /\
  d_nodes (p_d x.1) = d_nodes (p_d p) /\ str_in (d_sbuf (p_d x.1)) x.2 y.2 /\
  (length y.1 + 2 <= length (p_rest p))%nat /\
  dinv (p_d x.1) (length y.1 + 1).

Lemma parse_string_raw_sim p :
  dinv (p_d p) (length (p_rest p)) ->
  sim (string_rel p) (parse_string_raw p) (ref_string (p_rest p)).
Proof.
  intros Hd. unfold parse_string_raw, ref_string. destruct (p_rest p) as [|c r] eqn:Er; [done|].
  destruct (c =? 34); [|done]. unfold dinv, ARPC_MAX_FRAME in Hd. cbn [length] in Hd.
  apply (sim_bind (str_rel (length r) [])).
  { apply str_loop_sim; [lia|unfold d_count in *; cbn [length]; lia|cbn; lia]. }
  intros [r1 tmp] [r2 s] (Hr & Hs & Hn). cbn in *. subst r1 tmp.
  destruct r2 as [|c' r2]; [done|]. destruct (c' =? 34); [|done]. cbn in Hn.
  eapply sim_bind_l; [apply (sbuf_put_ok _ s (S (length r)))|].
  { unfold dinv, ARPC_MAX_FRAME. lia. }
  { lia. }
  intros [d off] (-> & Hnodes & Hsb & Hdi). cbn. unfold string_rel. cbn. rewrite Er. cbn.
  split_and!; try done; [|exists (d_sbuf (p_d p)), []|lia|eapply dinv_le; [done|lia]].
  - split; [by rewrite Hnodes|]. rewrite Hsb. by eexists.
  - by rewrite Hsb.
Qed.

(** What a parsed value leaves behind. *)
Definition val_rel (p : aj_p) (x : aj_p * Z) (y : list Z * json) : Prop :=
  let c := length (d_nodes (p_d p)) in
  let N := d_nodes (p_d x.1) in
  p_rest x.1 = y.1 /\ p_depth x.1 = p_depth p /\ x.2 = Z.of_nat c /\
  ext (p_d p) (p_d x.1) /\ dinv (p_d x.1) (length y.1) /\
  rdenotes N (d_sbuf (p_d x.1)) c (length N) y.2 /\
  exists n, N !! c = Some n /\ n_next_sibling n = -1.

Lemma new_leaf_sim p r t v j n :
  dinv (p_d p) n -> (length r + 1 <= n)%nat ->
  (forall N B i m, N !! i = Some m -> n_type m = t -> n_num m = v -> rdenotes N B i (i + 1) j) ->
  sim (val_rel p) (new_leaf p r t v) (Ret (r, j)).
Proof.
  intros Hd Hn Hj. unfold new_leaf.
  eapply sim_bind_l; [by apply (node_new_ok _ t n); [|lia]|].
  intros [d i] (-> & Hnodes & Hsb & Hdi). change (d_count ?d) with (len (d_nodes d)).
  assert (Hl : d_nodes d !! length (d_nodes (p_d p)) = Some (fresh_node t)).
  { rewrite Hnodes. by apply list_lookup_middle. }
  rewrite (upd_node_ok d _ (fresh_node t)) by done. cbn [mbind outcome_bind].
  rewrite Hnodes, insert_app_r_alt, Nat.sub_diag by lia. cbn.
  unfold val_rel. cbn. rewrite length_app. cbn. split_and!; try done.
  - split; [intros k m; apply lookup_app_l_Some|]. exists []. cbn. by rewrite Hsb, app_nil_r.
  - unfold dinv, d_count, d_slen in *. cbn. rewrite Hnodes, length_app in Hdi.
    rewrite length_app. cbn in *. lia.
  - eapply Hj; [by apply list_lookup_middle|done|done].
  - exists (set_num v (fresh_node t)). split; [by apply list_lookup_middle|done].
Qed.

Lemma val_rel_shift p p' x y :
  p_d p' = p_d p -> p_depth p' = p_depth p -> val_rel p' x y -> val_rel p x y.
Proof. unfold val_rel. intros -> ->. done. Qed.

(** A null is a leaf with nothing assigned. *)
Lemma new_null_leaf p r :
  ('(d, n) ← node_new (p_d p) AJ_NULL; Ret (AjP r d (p_depth p), n)) = new_leaf p r AJ_NULL 0.
Proof.
  unfold new_leaf, node_new. destruct (if d_count (p_d p) =? d_cap (p_d p) then _ else _); try done.
  cbn [mbind outcome_bind]. unfold d_count.
  rewrite (upd_node_ok _ (length (d_nodes (p_d p))) (fresh_node AJ_NULL));
    [|by apply list_lookup_middle].
  cbn [mbind outcome_bind d_nodes]. rewrite insert_app_r_alt, Nat.sub_diag by lia. done.
Qed.

Lemma new_str_sim p r :
  dinv (p_d p) (length r) -> p_rest p = r ->
  sim (val_rel p)
    ('(p, off) ← parse_string_raw p;
     '(d, n) ← node_new (p_d p) AJ_STR;
     d ← upd_node d n (set_str (PInt off));
     Ret (set_d p d, n))
    ('(r, s) ← ref_string r; Ret (r, JStr s)).
Proof.
  intros Hd <-. eapply sim_bind; [by apply parse_string_raw_sim|].
  intros [p1 off] [r1 s] (H1 & H2 & H3 & H4 & H5 & H6 & H7). cbn [fst snd] in *.
  eapply sim_bind_l; [apply (node_new_ok _ AJ_STR _ H7); lia|].
  intros [d i] (-> & Hnodes & Hsb & Hdi). change (d_count ?d) with (len (d_nodes d)).
  assert (Hl : d_nodes d !! length (d_nodes (p_d p1)) = Some (fresh_node AJ_STR)).
  { rewrite Hnodes. by apply list_lookup_middle. }
  rewrite (upd_node_ok d _ (fresh_node AJ_STR)) by done. cbn [mbind outcome_bind].
  rewrite Hnodes, insert_app_r_alt, Nat.sub_diag by lia. cbn.
  unfold val_rel. cbn. rewrite H4, length_app. cbn. split_and!; try done.
  - eapply ext_trans; [done|]. split; [intros k m; cbn; rewrite ?H4; apply lookup_app_l_Some|].
    cbn. exists []. by rewrite Hsb, app_nil_r.
  - unfold dinv, d_count, d_slen in *. cbn. rewrite Hnodes, length_app in Hdi. rewrite length_app.
    rewrite ?H4 in *. cbn in *. lia.
  - apply (den_str _ _ _ _ _ (set_str (PInt off) (fresh_node AJ_STR)) off);
      [by apply list_lookup_middle|done|done|by rewrite Hsb].
  - eexists. split; [by apply list_lookup_middle|done].
Qed.

(** What the loop over the members leaves behind: the whole container. *)
Definition members_rel (d0 : aj_doc) (p : aj_p) (o : bool) (done : list (list Z * json))
    (x : aj_p * Z) (y : list Z * list (list Z * json)) : Prop :=
  let N := d_nodes (p_d x.1) in
  p_rest x.1 = y.1 /\ p_depth x.1 = p_depth p /\ x.2 = Z.of_nat (length (d_nodes d0)) /\
  ext d0 (p_d x.1) /\ dinv (p_d x.1) (length y.1) /\
  rdenotes N (d_sbuf (p_d x.1)) (length (d_nodes d0)) (length N) (JCont o (done ++ y.2)) /\
  exists n, N !! length (d_nodes d0) = Some n /\ n_next_sibling n = -1.

Definition key_rel (p : aj_p) (o : bool) (x : aj_p * Z) (y : list Z * list Z) : Prop :=
  p_rest x.1 = y.1 /\ p_depth x.1 = p_depth p /\ ext (p_d p) (p_d x.1) /\
  d_nodes (p_d x.1) = d_nodes (p_d p) /\
  (if o then str_in (d_sbuf (p_d x.1)) x.2 y.2 else y.2 = []) /\
  (length y.1 <= length (p_rest p))%nat /\ dinv (p_d x.1) (length y.1).

Lemma key_sim p (o : bool) :
  dinv (p_d p) (length (p_rest p)) ->
  sim (key_rel p o)
    (if o then
       '(p, koff) ← parse_string_raw (set_rest p (skip_ws (p_rest p)));
       match skip_ws (p_rest p) with
       | c :: r => if c =? 58 then Ret (set_rest p r, koff) else Fail
       | [] => Fail
       end
     else Ret (p, -1))
    (if o then
       '(r, k) ← ref_string (skip_ws (p_rest p));
       match skip_ws r with
       | c :: r => if c =? 58 then Ret (r, k) else Fail
       | [] => Fail
       end
     else Ret (p_rest p, [])).
Proof.
  intros Hd. destruct o.
  - pose proof (skip_ws_length (p_rest p)) as Hs.
    eapply sim_bind; [apply (parse_string_raw_sim (set_rest p (skip_ws (p_rest p))));
                      by eapply dinv_le|].
    intros [p1 koff] [r1 k] (H1 & H2 & H3 & H4 & H5 & H6 & H7). cbn [fst snd] in *.
    rewrite H1. cbn in H2, H3, H4, H6. pose proof (skip_ws_length r1) as Hs1.
    destruct (skip_ws r1) as [|c r2]; [done|]. destruct (c =? 58); [|done].
    cbn in Hs1. unfold key_rel. cbn. split_and!; try done; [lia|].
    eapply dinv_le; [done|lia].
  - unfold key_rel. cbn. split_and!; try done. apply ext_refl.
Qed.

Definition value_ok (fuel : nat) : Prop := forall p,
  dinv (p_d p) (length (p_rest p)) ->
  sim (val_rel p) (parse_value fuel p) (ref_value fuel (p_depth p) (p_rest p)).
Definition container_ok (fuel : nat) : Prop := forall p o,
  dinv (p_d p) (length (p_rest p)) -> (1 <= length (p_rest p))%nat ->
  sim (val_rel p) (parse_container fuel p o) (ref_container fuel (p_depth p) (p_rest p) o).
Definition container__ok (fuel : nat) : Prop := forall p o,
  dinv (p_d p) (length (p_rest p)) -> (1 <= length (p_rest p))%nat ->
  sim (val_rel p) (parse_container_ fuel p o) (ref_container_ fuel (p_depth p) (p_rest p) o).
Definition members_ok (fuel : nat) : Prop := forall d0 p o done prev,
  dinv (p_d p) (length (p_rest p)) -> members_inv d0 o done prev (p_d p) ->
  sim (members_rel d0 p o done)
    (parse_members fuel p o (Z.of_nat (length (d_nodes d0))) prev)
    (ref_members fuel (p_depth p) (p_rest p) o).

Lemma value_step fuel : container_ok fuel -> value_ok (S fuel).
Proof.
  intros IHc p Hd. cbn [parse_value ref_value]. pose proof (skip_ws_length (p_rest p)) as Hs.
  destruct (skip_ws (p_rest p)) as [|c r1] eqn:Er; [done|].
  set (r := c :: r1) in *. set (p1 := set_rest p r).
  assert (Hd1 : dinv (p_d p1) (length r)) by (by eapply dinv_le).
  assert (Hp1 : forall x y, val_rel p1 x y -> val_rel p x y) by (intros; by eapply val_rel_shift).
  assert (Hcont : forall o, sim (val_rel p) (parse_container fuel p1 o) (ref_container fuel (p_depth p) r o)).
  { intros o. eapply sim_weaken; [|apply Hp1]. apply (IHc p1); [done|]. cbn. lia. }
  assert (Hleaf : forall t v j (s : list Z), starts s r = true -> (1 <= length s)%nat ->
    (forall N B i m, N !! i = Some m -> n_type m = t -> n_num m = v -> rdenotes N B i (i + 1) j) ->
    sim (val_rel p) (new_leaf p1 (drop (length s) r) t v) (Ret (drop (length s) r, j))).
  { intros t v j s Hst Hl Hj. apply starts_length in Hst.
    eapply sim_weaken; [|apply Hp1]. apply (new_leaf_sim p1 _ t v j (length r)); [done| |done].
    rewrite length_drop. lia. }
  destruct (c =? 123); [apply Hcont|]. destruct (c =? 91); [apply Hcont|].
  destruct (c =? 34); [eapply sim_weaken; [by apply (new_str_sim p1)|apply Hp1]|].
  destruct (starts (lit "true") r) eqn:E1.
  { apply (Hleaf _ _ _ _ E1); [cbn; lia|]. intros. by econstructor. }
  destruct (starts (lit "false") r) eqn:E2.
  { apply (Hleaf _ _ _ _ E2); [cbn; lia|]. intros. by econstructor. }
  destruct (starts (lit "null") r) eqn:E3.
  { pose proof (new_null_leaf p1 (drop 4 r)) as ->.
    apply (Hleaf _ _ _ _ E3); [cbn; lia|]. intros. by econstructor. }
  destruct (_ || _); [|done]. pose proof (parse_num_shrinks r) as Hsh.
  destruct (parse_num r) as [[r2 v]| | |]; try done. cbn [mbind outcome_bind].
  eapply sim_weaken; [|apply Hp1]. apply (new_leaf_sim p1 r2 AJ_NUM v (JNum v) (length r)); [done|done|].
  intros. by econstructor.
Qed.

Lemma container_step fuel : container__ok fuel -> container_ok (S fuel).
Proof.
  intros IHc_ p o Hd Hl. cbn [parse_container ref_container].
  destruct (AJ_MAX_DEPTH <=? p_depth p); [done|].
  rewrite <- (bind_ret_r_outcome (ref_container_ _ _ _ _)).
  eapply sim_bind; [by apply (IHc_ (set_depth p (p_depth p + 1)))|].
  intros [p1 i] [r j] (H1 & H2 & H3 & H4 & H5 & H6 & H7). cbn [fst snd] in *. cbn in H2.
  unfold val_rel. cbn. split_and!; try done. lia.
Qed.

(** A container just opened, with nothing in it. *)
Lemma members_inv_open d0 d (o : bool) :
  d_nodes d = d_nodes d0 ++ [fresh_node (if o then AJ_OBJ else AJ_ARR)] ->
  d_sbuf d = d_sbuf d0 -> members_inv d0 o [] (-1) d.
Proof.
  intros Hn Hs. split.
  - split; [intros k n; rewrite Hn; apply lookup_app_l_Some|]. exists []. by rewrite Hs, app_nil_r.
  - exists (fresh_node (if o then AJ_OBJ else AJ_ARR)). rewrite Hn.
    split_and!; [by apply list_lookup_middle|done..|]. left. rewrite length_app. done.
Qed.

Lemma container__step fuel : members_ok fuel -> container__ok (S fuel).
Proof.
  intros IHm p o Hd Hl. cbn [parse_container_ ref_container_].
  eapply sim_bind_l; [by apply (node_new_ok _ (if o then AJ_OBJ else AJ_ARR) (length (p_rest p)))|].
  intros [d i] (-> & Hnodes & Hsb & Hdi). cbn [set_d set_rest p_rest].
  destruct (p_rest p) as [|c0 r0] eqn:Er0; [cbn in Hl; lia|]. change (drop 1 (c0 :: r0)) with r0.
  pose proof (skip_ws_length r0) as Hs. pose proof (members_inv_open _ _ _ Hnodes Hsb) as Hopen.
  assert (Hall : forall r, (length r <= length r0)%nat ->
    sim (val_rel p) (parse_members fuel (set_d (set_rest p r) d) o (d_count (p_d p)) (-1))
      ('(r, kids) ← ref_members fuel (p_depth p) r o; Ret (r, JCont o kids))).
  { intros r Hr. rewrite <- (bind_ret_r_outcome (parse_members _ _ _ _ _)).
    eapply sim_bind.
    - apply (IHm (p_d p) (set_d (set_rest p r) d) o []); [|done].
      eapply dinv_le; [exact Hdi|cbn [length set_d set_rest p_rest]; lia].
    - intros [p1 i] [r1 kids] (H1 & H2 & H3 & H4 & H5 & H6 & H7). done. }
  destruct (skip_ws r0) as [|c r1] eqn:Er; [by apply Hall|]. unfold closing.
  destruct (c =? _); [|by apply Hall].
  destruct Hopen as [Hext (n0 & Hn0 & Ht & Hnx & [(_ & _ & Hfc & Hlen)|(pi & ? & ? & ? & ? & Hz & _)])]; [|lia].
  unfold val_rel. cbn. split_and!; try done; [|econstructor; [done|done|]|by exists n0].
  - eapply dinv_le; [exact Hdi|cbn [length] in *; lia].
  - rewrite Hfc, Hlen. constructor.
Qed.
Lemma members_step fuel : value_ok fuel -> members_ok fuel -> members_ok (S fuel).
Proof.
  intros IHv IHm d0 p o done prev Hd Hinv. cbn [parse_members ref_members].
  eapply sim_bind; [by apply key_sim|].
  intros [p1 koff] [r1 k] (H1 & H2 & H3 & H4 & H5 & H6 & H7). cbn [fst snd] in *. subst r1.
  pose proof (members_inv_sbuf _ _ _ _ _ _ Hinv H3 H4) as Hinv1.
  rewrite <- H2. eapply sim_bind; [by apply IHv|].
  intros [p2 c] [r2 v] (G1 & G2 & G3 & G4 & G5 & G6 & nc & G7 & G8). cbn [fst snd] in *. subst r2 c.
  destruct (link_spec d0 (p_d p1) (p_d p2) o done prev k koff v nc Hinv1 G4 G6 G7 G8)
    as (d2 & E2 & Hinv2 & L1 & L2 & L3 & L4).
  { destruct o; [|done]. by eapply ext_str_in. }
  erewrite (bind_after _ _ _ _ E2). unfold d_count in G5.
  assert (Hd2 : forall n, (n <= length (p_rest p2))%nat -> dinv d2 n).
  { intros n Hn. apply (dinv_le _ (length (p_rest p2))); [|done].
    unfold dinv, d_count, d_slen in *. by rewrite L1, L2, L3, L4. }
  pose proof (skip_ws_length (p_rest p2)) as Hs.
  destruct (skip_ws (p_rest p2)) as [|c r] eqn:Er; [done|]. cbn [length] in Hs. rewrite G2, H2.
  destruct (c =? 44).
  - rewrite <- (bind_ret_r_outcome (parse_members _ _ _ _ _)).
    eapply sim_bind; [apply (IHm d0 (AjP r d2 (p_depth p)) o (done ++ [(k, v)])); [apply Hd2; cbn; lia|done]|].
    intros [p3 i] [r3 kids] (K1 & K2 & K3 & K4 & K5 & K6 & K7). cbn [fst snd] in *.
    unfold members_rel. cbn. split_and!; try done. by rewrite <- app_assoc in K6.
  - unfold closing. destruct (c =? _); [|done]. unfold members_rel. cbn.
    pose proof Hinv2 as [He (n0 & Hn0 & _ & Hnx & _)]. split_and!; try done; [apply Hd2; lia|..|by eexists].
    eapply members_inv_denotes; [done|lia].
Qed.

Lemma parser_sim fuel : value_ok fuel /\ container_ok fuel /\ container__ok fuel /\ members_ok fuel.
Proof.
  induction fuel as [|fuel (IHv & IHc & IHc_ & IHm)]; [done|].
  split_and!; auto using value_step, container_step, container__step, members_step.
Qed.
End ParserSim.

(** ** The last pass: offsets become pointers *)

(** Both pointers of a finished document are addresses in [sbuf]. *)
Definition cooked (p : ptr) (off : Z) : Prop := p = PBuf off.

Lemma fix_node_type n : n_type (fix_node n) = n_type n.
Proof. unfold fix_node. repeat case_match; done. Qed.
Lemma fix_node_num n : n_num (fix_node n) = n_num n.
Proof. unfold fix_node. repeat case_match; done. Qed.
Lemma fix_node_first_child n : n_first_child (fix_node n) = n_first_child n.
Proof. unfold fix_node. repeat case_match; done. Qed.
Lemma fix_node_next_sibling n : n_next_sibling (fix_node n) = n_next_sibling n.
Proof. unfold fix_node. repeat case_match; done. Qed.

Lemma fix_node_str n off :
  n_type n = AJ_STR -> raw_str (n_str n) off -> cooked (n_str (fix_node n)) off.
Proof.
  intros Ht Hs. unfold fix_node. rewrite bool_decide_true by done.
  unfold raw_str in Hs. unfold cooked. case_match; cbn; by rewrite Hs.
Qed.

Lemma fix_node_key B o n k : key_ok raw_key B o n k -> key_ok cooked B o (fix_node n) k.
Proof.
  destruct 1 as [n off k Hk (l & r & HB & Hl)|]; [|constructor].
  apply (key_obj _ _ _ off); [|by exists l, r].
  unfold fix_node, cooked. set (n1 := if bool_decide _ then _ else _).
  assert (n_key n1 = PInt (off + 1)) as ->.
  { subst n1. by destruct (bool_decide _). }
  assert (is_null (PInt (off + 1)) = false) as ->.
  { unfold is_null. case_match; [lia|done..]. }
  cbn. f_equal. lia.
Qed.

Abbreviation cdenotes := (denotes cooked cooked).
Abbreviation cchain := (chain cooked cooked).

Lemma denotes_fix N B :
  (forall i hi j, rdenotes N B i hi j -> cdenotes (fix_node <$> N) B i hi j) /\
  (forall o l lo hi kids l', rchain N B o l lo hi kids l' ->
     cchain (fix_node <$> N) B o l lo hi kids l').
Proof.
  assert (HN : forall i n, N !! i = Some n -> (fix_node <$> N) !! i = Some (fix_node n)).
  { intros i n Hn. by rewrite list_lookup_fmap, Hn. }
  apply (denotes_chain_ind raw_str raw_key N B
    (fun i hi j => cdenotes (fix_node <$> N) B i hi j)
    (fun o l lo hi kids l' => cchain (fix_node <$> N) B o l lo hi kids l')).
  - intros i n Hn Ht. eapply den_null; [by apply HN|by rewrite fix_node_type].
  - intros i n b Hn Ht Hb. eapply den_bool; [by apply HN|by rewrite fix_node_type|by rewrite fix_node_num].
  - intros i n z Hn Ht Hz. eapply den_num; [by apply HN|by rewrite fix_node_type|by rewrite fix_node_num].
  - intros i n off s Hn Ht Hs Hin.
    eapply den_str; [by apply HN|by rewrite fix_node_type|by apply fix_node_str|done].
  - intros i hi n o kids Hn Ht _ IH.
    eapply den_cont; [by apply HN|by rewrite fix_node_type|by rewrite fix_node_first_child].
  - intros. constructor.
  - intros o i mid hi n k v kids l' Hn Hk _ IHv Hlt _ IHch.
    eapply chain_cons; [by apply HN|by apply fix_node_key|done|done|by rewrite fix_node_next_sibling].
Qed.

(** ** The whole parser *)

(** Node [i] of the document is the tree [j]; no node is [None]. *)
Definition reads (d : aj_doc) (i : Z) (j : option json) : Prop :=
  match j with
  | Some j => 0 <= i /\ exists hi, cdenotes (d_nodes d) (d_sbuf d) (Z.to_nat i) hi j
  | None => i = -1
  end.

(** The siblings from [i] on are the trees [l]. *)
Definition reads_from (d : aj_doc) (i : Z) (l : list json) : Prop :=
  exists o lo hi kids, cchain (d_nodes d) (d_sbuf d) o i lo hi kids (-1) /\
    (lo <= length (d_nodes d))%nat /\ kids.*2 = l.

Lemma dinv_doc0 n : Z.of_nat n <= ARPC_MAX_FRAME -> dinv doc0 n.
Proof. unfold dinv, doc0, d_count, d_slen. cbn. lia. Qed.

Section AjParse.
Context {A : Allocator}.

Lemma aj_parse_sim text :
  len text <= ARPC_MAX_FRAME ->
  sim (fun d j => reads d 0 (Some j) /\ d_ok d = true) (aj_parse text) (ref_parse text).
Proof.
  intros Hlen. unfold aj_parse, ref_parse.
  eapply sim_bind; [apply (proj1 (parser_sim (parse_fuel text)) (AjP text doc0 0)); by apply dinv_doc0|].
  intros [p root] [r j] (H1 & H2 & H3 & H4 & H5 & H6 & H7). cbn [fst snd] in *. subst r root.
  cbn [length d_nodes p_d doc0 Z.of_nat Z.eqb negb]. destruct (skip_ws (p_rest p)); [|done].
  cbn. split; [|done]. split; [done|]. eexists. by apply denotes_fix.
Qed.
End AjParse.

(** ** Properties *)

Section ParserTheorems.
Context {A : Allocator}.

(** C1. On every text a frame can carry the parser returns: it never reads
    past the text, writes past a buffer, overflows a count, or loops.  It
    succeeds only where the reference parser does, with an arena whose root
    is the tree the reference parser reads; and it fails only where the
    reference fails, or because the heap refused a request. *)
Theorem aj_parse_correct text :
  len text <= ARPC_MAX_FRAME ->
  (exists d j, aj_parse text = Ret d /\ ref_parse text = Ret j /\
     reads d 0 (Some j) /\ d_ok d = true) \/
  (aj_parse text = Fail /\ (ref_parse text = Fail \/ ~ TotalAllocator A)).
Proof.
  intros Hlen. pose proof (aj_parse_sim text Hlen) as H. pose proof (ref_parse_defined text) as [Hu Hf].
  destruct (aj_parse text) as [d| | |], (ref_parse text) as [j| | |]; cbn in H; try done; auto.
  left. exists d, j. destruct H. by split_and!.
Qed.

(** C39. What the parser accepts is bounded: no tree is nested deeper than
    [AJ_MAX_DEPTH] containers, and every number fits a [long long]. *)
Theorem aj_parse_bounds text d :
  len text <= ARPC_MAX_FRAME -> aj_parse text = Ret d ->
  exists j, reads d 0 (Some j) /\ jdepth j <= AJ_MAX_DEPTH /\ in_range j.
Proof.
  intros Hlen E. pose proof (aj_parse_sim text Hlen) as H. rewrite E in H.
  destruct (ref_parse text) as [j| | |] eqn:Er; try done. exists j.
  apply ref_parse_fits in Er. by destruct H.
Qed.
End ParserTheorems.

Definition sample_text : list Z := qlit "{ `id` : -12, `a\/`:[null,true, `x\u00e9`] } ".

Lemma aj_parse_correct_witness :
  (exists d j, aj_parse (A:=ample) sample_text = Ret d /\ ref_parse sample_text = Ret j /\
     reads d 0 (Some j) /\ d_ok d = true) \/
  (aj_parse (A:=ample) sample_text = Fail /\ (ref_parse sample_text = Fail \/ ~ TotalAllocator ample)).
Proof. apply (aj_parse_correct (A:=ample) sample_text). by vm_compute. Defined.

Definition sample_doc : aj_doc :=
  match aj_parse (A:=ample) sample_text with Ret d => d | _ => doc0 end.

Lemma aj_parse_bounds_witness :
  exists j, reads sample_doc 0 (Some j) /\ jdepth j <= AJ_MAX_DEPTH /\ in_range j.
Proof.
  apply (aj_parse_bounds (A:=ample) sample_text sample_doc); [by vm_compute|].
  vm_compute. reflexivity.
Defined.

Example sample_tree :
  ref_parse sample_text =
    Ret (JObj [(lit "id", JNum (-12)); (lit "a/", JArr [JNull; JBool true; JStr [120; 195; 169]])]).
Proof. vm_compute. reflexivity. Qed.
