(* ===== verification/JsonAccess.v ===== *)
(** * The accessors of a parsed document

    [reads d i j] (JsonArena.v): node [i] of the document is the tree [j],
    an index of [-1] being no node.  Each accessor of arpc_json.c is the
    matching read of the tree, so that the code above the JSON layer can be
    verified on trees; the walk with [aj_first] and [aj_next] is covered by
    [reads_from].  The reader and the writer together are the round trip. *)

From S2P Require Import Prelude Json JsonWriter JsonReader JsonRef JsonArena.

(** ** Bounds *)

Lemma denotes_chain_bound sref kref N B :
  (forall i hi j, denotes sref kref N B i hi j -> (i < hi <= length N)%nat) /\
  (forall o l lo hi kids l', chain sref kref N B o l lo hi kids l' ->
     (lo + length kids <= hi)%nat /\ ((lo <= length N)%nat -> (hi <= length N)%nat)).
Proof.
  apply (denotes_chain_ind sref kref N B
    (fun i hi j => (i < hi <= length N)%nat)
    (fun o l lo hi kids l' => (lo + length kids <= hi)%nat /\ ((lo <= length N)%nat -> (hi <= length N)%nat)));
    intros; repeat match goal with H : _ !! _ = Some _ |- _ => apply lookup_lt_Some in H end;
    cbn [length]; try lia.
Qed.

Section Accessors.
Context (d : aj_doc).

(** ** From an index to its node *)

Definition node_is (n : aj_node) (j : json) : Prop :=
  match j with
  | JNull => n_type n = AJ_NULL
  | JBool b => n_type n = AJ_BOOL /\ n_num n = (if b : bool then 1 else 0)
  | JNum z => n_type n = AJ_NUM /\ n_num n = z
  | JStr s => n_type n = AJ_STR /\ str_at d (n_str n) = cstr s
  | JCont o kids => n_type n = (if o : bool then AJ_OBJ else AJ_ARR) /\
      exists lo hi, cchain (d_nodes d) (d_sbuf d) o (n_first_child n) lo hi kids (-1) /\
        (lo <= length (d_nodes d))%nat
  end.

Lemma str_in_at off s : str_in (d_sbuf d) off s -> str_at d (PBuf off) = cstr s.
Proof.
  intros (l & r & E & H). unfold str_at, sbuf_str. rewrite <- H, Nat2Z.id, E, drop_app_length.
  apply cstr_nul_app.
Qed.

Lemma at_reads i j : reads d i (Some j) -> exists n, at_ d i = Some n /\ node_is n j.
Proof.
  intros [Hi [hi H]]. pose proof (proj1 (denotes_chain_bound _ _ _ _) _ _ _ H) as [Hlt Hle].
  assert (Hat : at_ d i = d_nodes d !! Z.to_nat i).
  { unfold at_, d_count. destruct (Z.ltb_spec i 0); [lia|].
    destruct (Z.leb_spec (len (d_nodes d)) i); [lia|done]. }
  rewrite Hat. destruct H as [i' n Hn|i' n b Hn|i' n z Hn|i' n off s Hn Ht Hs Hin|i' hi n o kids Hn Ht Hch];
    exists n; split; try done.
  - cbn. unfold cooked in Hs. by rewrite Hs, (str_in_at off s).
  - cbn. split; [done|]. exists (i' + 1)%nat, hi. split; [done|]. lia.
Qed.

Lemma at_none : at_ d (-1) = None.
Proof. done. Qed.

Lemma at_node_at i n : at_ d i = Some n -> node_at d i = Ret n.
Proof.
  unfold at_, node_at. destruct (i <? 0); [done|]. cbn [orb]. destruct (d_count d <=? i); [done|]. by intros ->.
Qed.

Lemma node_at_reads i n : d_nodes d !! i = Some n -> node_at d (Z.of_nat i) = Ret n.
Proof.
  intros H. unfold node_at. destruct (Z.ltb_spec (Z.of_nat i) 0); [lia|]. by rewrite Nat2Z.id, H.
Qed.

(** ** Scalars *)

Lemma aj_i64_reads i j dflt : reads d i j -> aj_i64 d i dflt = t_i64 j dflt.
Proof.
  destruct j as [j|]; [|by intros ->]. intros H. destruct (at_reads i j H) as (n & Hat & Hn).
  unfold aj_i64. rewrite Hat. destruct j as [|b| | |o]; cbn in *; destruct_and?; simplify_eq;
    case_bool_decide as Hb; try done; try tauto; try (destruct Hb; destruct o; congruence).
  all: destruct Hb; congruence.
Qed.

Lemma aj_str_reads i j : reads d i j -> aj_str d i = t_str j.
Proof.
  destruct j as [j|]; [|by intros ->]. intros H. destruct (at_reads i j H) as (n & Hat & Hn).
  unfold aj_str. rewrite Hat. destruct j as [|b| | |o]; cbn in *; destruct_and?;
    case_bool_decide; try congruence; destruct o; congruence.
Qed.

Lemma aj_is_null_reads i j : reads d i j -> aj_is_null d i = t_is_null j.
Proof.
  destruct j as [j|]; [|by intros ->]. intros H. destruct (at_reads i j H) as (n & Hat & Hn).
  unfold aj_is_null. rewrite Hat. destruct j as [|b| | |o]; cbn in *; destruct_and?;
    case_bool_decide; try congruence; destruct o; congruence.
Qed.

Lemma cont_reads i o kids :
  reads d i (Some (JCont o kids)) ->
  exists n, at_ d i = Some n /\ n_type n = (if o then AJ_OBJ else AJ_ARR) /\ is_container n = true /\
    exists lo hi, cchain (d_nodes d) (d_sbuf d) o (n_first_child n) lo hi kids (-1) /\
      (lo <= length (d_nodes d))%nat /\ (length kids <= length (d_nodes d))%nat.
Proof.
  intros H. destruct (at_reads _ _ H) as (n & Hat & Ht & lo & hi & Hch & Hlo).
  exists n. split_and!; [done..| |].
  - unfold is_container. rewrite bool_decide_true; [done|]. destruct o; auto.
  - exists lo, hi. pose proof (proj2 (denotes_chain_bound _ _ _ _) _ _ _ _ _ _ Hch). split_and!; [done..|lia].
Qed.

(** No container: whatever asks for one sees none. *)
Lemma leaf_reads i j :
  reads d i j -> (forall o kids, j <> Some (JCont o kids)) ->
  match at_ d i with Some n => is_container n = false | None => True end.
Proof.
  intros H Hj. destruct j as [j|]; [|by rewrite H]. destruct (at_reads _ _ H) as (n & -> & Hn).
  unfold is_container. apply bool_decide_false. intros Hc.
  destruct j; cbn in Hn; destruct_and?; try (destruct Hc; congruence).
Qed.

(** ** Containers *)

(** The first sibling of a chain, if there is one. *)
Lemma chain_head o i lo hi kids :
  cchain (d_nodes d) (d_sbuf d) o i lo hi kids (-1) -> reads d i (snd <$> head kids).
Proof.
  inversion 1 as [|? i0 mid ? n k v kids' ? Hn Hk Hv Hlt Hch]; subst; [done|]. cbn.
  split; [lia|]. rewrite Nat2Z.id. by eexists.
Qed.

Lemma member_loop_reads fuel i lo hi kids key :
  cchain (d_nodes d) (d_sbuf d) true i lo hi kids (-1) -> (length kids < fuel)%nat ->
  exists i', member_loop fuel d i key = Ret i' /\ reads d i' (first_member kids key).
Proof.
  intros Hch. remember true as o eqn:Eo. remember (-1) as e eqn:Ee. revert fuel.
  induction Hch as [|o i mid hi n k v kids l' Hn Hk Hv Hlt Hch IH];
    intros [|fuel] Hf; cbn [length] in Hf; try lia; subst; cbn [member_loop first_member].
  - exists (-1). done.
  - destruct (Z.ltb_spec (Z.of_nat i) 0); [lia|]. rewrite (node_at_reads _ _ Hn).
    cbn [mbind outcome_bind]. inversion Hk as [? off ? Hp Hin|]; subst. unfold cooked in Hp.
    rewrite Hp, (str_in_at _ _ Hin). unfold streq at 1. rewrite cstr_idemp. cbn [is_null negb andb].
    fold (streq k key). destruct (streq k key); [|by apply IH; [..|lia]].
    eexists. split; [done|]. split; [lia|]. rewrite Nat2Z.id. by eexists.
Qed.

Lemma aj_member_reads i j key :
  reads d i j -> exists i', aj_member d i key = Ret i' /\ reads d i' (t_member j key).
Proof.
  intros H. unfold aj_member.
  destruct j as [[| | | |o kids]|];
    try (destruct (at_reads _ _ H) as (n & -> & Hn); cbn in Hn; destruct_and?;
         rewrite bool_decide_false by congruence; by exists (-1)).
  2: { rewrite H. by exists (-1). }
  destruct (cont_reads _ _ _ H) as (n & -> & Ht & _ & lo & hi & Hch & _ & Hlen). destruct o.
  - rewrite bool_decide_true by done. eapply member_loop_reads; [done|lia].
  - rewrite bool_decide_false by congruence. by exists (-1).
Qed.

Lemma elem_loop_reads fuel o i lo hi kids index :
  cchain (d_nodes d) (d_sbuf d) o i lo hi kids (-1) -> (length kids < fuel)%nat -> 0 <= index ->
  exists i', elem_loop fuel d i index = Ret i' /\ reads d i' (snd <$> kids !! Z.to_nat index).
Proof.
  intros Hch. pose proof Hch as Hch0. remember (-1) as e eqn:Ee. revert fuel index.
  induction Hch as [|o i mid hi n k v kids l' Hn Hk Hv Hlt Hch IH];
    intros [|fuel] index Hf Hi; cbn [length] in Hf; try lia; subst; cbn [elem_loop].
  - exists (-1). done.
  - destruct (Z.ltb_spec (Z.of_nat i) 0); [lia|]. destruct (Z.eqb_spec index 0) as [->|].
    + eexists. split; [done|]. by apply chain_head in Hch0.
    + rewrite (node_at_reads _ _ Hn). cbn [mbind outcome_bind].
      destruct (IH eq_refl Hch fuel (index - 1)) as (i' & -> & Hr); [lia..|].
      exists i'. split; [done|]. by replace (Z.to_nat index) with (S (Z.to_nat (index - 1))) by lia.
Qed.

Lemma aj_elem_reads i j index :
  reads d i j -> exists i', aj_elem d i index = Ret i' /\ reads d i' (t_elem j index).
Proof.
  intros H. unfold aj_elem. pose proof (leaf_reads _ _ H) as Hleaf.
  destruct j as [[| | | |o kids]|]; cbn [t_elem];
    try (destruct (at_ d i) as [n|]; [rewrite Hleaf by done|]; by exists (-1)).
  destruct (cont_reads _ _ _ H) as (n & -> & _ & -> & lo & hi & Hch & _ & Hlen). cbn [negb orb].
  destruct (Z.ltb_spec index 0); [by exists (-1)|]. eapply elem_loop_reads; [done|lia..].
Qed.

Lemma count_loop_reads fuel o i lo hi kids c :
  cchain (d_nodes d) (d_sbuf d) o i lo hi kids (-1) -> (length kids < fuel)%nat ->
  count_loop fuel d i c = Ret (c + len kids).
Proof.
  intros Hch. remember (-1) as e eqn:Ee. revert fuel c.
  induction Hch as [|o i mid hi n k v kids l' Hn Hk Hv Hlt Hch IH];
    intros [|fuel] c Hf; cbn [length] in *; try lia; subst; cbn [count_loop].
  - cbn. f_equal. lia.
  - destruct (Z.ltb_spec (Z.of_nat i) 0); [lia|]. rewrite (node_at_reads _ _ Hn).
    cbn [mbind outcome_bind]. rewrite IH by (done || lia). f_equal. lia.
Qed.

Lemma aj_count_reads i j : reads d i j -> aj_count d i = Ret (len (t_kids j)).
Proof.
  intros H. unfold aj_count. pose proof (leaf_reads _ _ H) as Hleaf.
  destruct j as [[| | | |o kids]|]; cbn [t_kids];
    try (destruct (at_ d i) as [n|]; [rewrite Hleaf by done|]; done).
  destruct (cont_reads _ _ _ H) as (n & -> & _ & -> & lo & hi & Hch & _ & Hlen).
  rewrite (count_loop_reads _ _ _ _ _ _ _ Hch) by lia. by rewrite length_fmap.
Qed.

(** ** Walking the children *)

Lemma aj_first_reads i j : reads d i j -> reads_from d (aj_first d i) (t_kids j).
Proof.
  intros H. unfold aj_first. pose proof (leaf_reads _ _ H) as Hleaf.
  assert (Hnil : reads_from d (-1) []).
  { exists true, 0%nat, 0%nat, []. split_and!; [constructor|lia|done]. }
  destruct j as [[| | | |o kids]|]; cbn [t_kids];
    try (destruct (at_ d i) as [n|]; [rewrite Hleaf by done|]; done).
  destruct (cont_reads _ _ _ H) as (n & -> & _ & -> & lo & hi & Hch & Hlo & Hlen).
  by exists o, lo, hi, kids.
Qed.

Lemma reads_from_nil i : reads_from d i [] -> i = -1.
Proof.
  intros (o & lo & hi & [|] & Hch & _ & E); [|done]. by inversion Hch.
Qed.

Lemma reads_from_cons i j l :
  reads_from d i (j :: l) -> 0 <= i /\ reads d i (Some j) /\ reads_from d (aj_next d i) l.
Proof.
  intros (o & lo & hi & [|[k v] kids] & Hch & Hlo & E); [done|]. injection E as [= -> <-].
  pose proof (chain_head _ _ _ _ _ Hch) as Hr. cbn in Hr.
  inversion Hch as [|? i0 mid ? n ? ? ? ? Hn Hk Hv Hlt Hch']; subst. split_and!; [lia|done|].
  unfold aj_next, at_, d_count. pose proof (lookup_lt_Some _ _ _ Hn).
  destruct (Z.ltb_spec (Z.of_nat lo) 0); [lia|].
  destruct (Z.leb_spec (len (d_nodes d)) (Z.of_nat lo)); [lia|]. cbn [orb]. rewrite Nat2Z.id, Hn.
  pose proof (proj1 (denotes_chain_bound _ _ _ _) _ _ _ Hv).
  exists o, mid, hi, kids. split_and!; [done|lia|done].
Qed.
End Accessors.

(** ** Properties *)

Section WalkDef.
Context (d : aj_doc).

(** The loop the callers write:
    [for (int n = aj_first(d, c); n >= 0; n = aj_next(d, n))]. *)
Fixpoint aj_walk (fuel : nat) (n : Z) : outcome (list Z) :=
  match fuel with
  | O => NoFuel
  | S fuel =>
      if n <? 0 then Ret []
      else rest ← aj_walk fuel (aj_next d n); Ret (n :: rest)
  end.

Lemma aj_walk_reads l n :
  reads_from d n l ->
  exists ns, aj_walk (S (length l)) n = Ret ns /\ Forall2 (fun n j => reads d n (Some j)) ns l.
Proof.
  revert n. induction l as [|j l IH]; intros n H.
  - apply reads_from_nil in H as ->. by exists [].
  - destruct (reads_from_cons _ _ _ _ H) as (Hn & Hj & Hl). destruct (IH _ Hl) as (ns & E & Hns).
    change (length (j :: l)) with (S (length l)). revert E. generalize (S (length l)). intros f E.
    cbn [aj_walk]. destruct (Z.ltb_spec n 0); [lia|]. rewrite E. exists (n :: ns). split; [done|]. by constructor.
Qed.
End WalkDef.

(** The accessors are the reads of the tree the document stands for: the
    first member under a key, the element at an index, the count, the
    integer, string and null reads with their defaults, on every index that
    is a node or [-1]; an index of a tree is a node of that type and value;
    and none of the loops over siblings leaves the arena or runs on. *)
Theorem accessors_correct d i j :
  reads d i j ->
  (forall key, exists i', aj_member d i key = Ret i' /\ reads d i' (t_member j key)) /\
  (forall index, exists i', aj_elem d i index = Ret i' /\ reads d i' (t_elem j index)) /\
  aj_count d i = Ret (len (t_kids j)) /\
  (forall dflt, aj_i64 d i dflt = t_i64 j dflt) /\
  aj_str d i = t_str j /\ aj_is_null d i = t_is_null j /\
  (forall v, j = Some v -> exists n, at_ d i = Some n /\ node_is d n v).
Proof.
  intros H. split_and!; intros.
  - by apply aj_member_reads.
  - by apply aj_elem_reads.
  - by apply aj_count_reads.
  - by apply aj_i64_reads.
  - by apply aj_str_reads.
  - by apply aj_is_null_reads.
  - subst j. by apply at_reads.
Qed.

(** The loop with [aj_first] and [aj_next] visits every child of a node
    once, in the order of the text, and ends. *)
Theorem walk_correct d i j :
  reads d i j ->
  exists ns, aj_walk d (S (length (t_kids j))) (aj_first d i) = Ret ns /\
    Forall2 (fun n v => reads d n (Some v)) ns (t_kids j).
Proof. intros H. by apply aj_walk_reads, aj_first_reads. Qed.

(** What one side may send the other: a tree the writer writes whole and the
    parser takes. *)
Definition sendable (j : json) : Prop :=
  wf_json j /\ writable j /\ jdepth j <= AJ_MAX_DEPTH /\ len (render j) <= ARPC_MAX_FRAME.

(** C8. The writer and the parser are inverse: a tree with strings of bytes
    other than NUL, integers of a [long long] and at most [AJ_MAX_DEPTH]
    open containers, written by the writer and parsed by the parser, comes
    back whole, when both have the memory and the text fits a frame. *)
Theorem json_roundtrip `{A : Allocator, !TotalAllocator A} j :
  sendable j ->
  exists w d, ajw_json ajw_init j = Ret w /\ w_err w = false /\
    aj_parse (w_buf w) = Ret d /\ reads d 0 (Some j).
Proof.
  intros (Hwf & Hwr & Hd & Hlen).
  destruct (emits_json j ajw_init false Hwf Hwr winv_init) as (w & Ew & _ & H & T); [done|].
  assert (He : w_err w = false). { apply T; [done..|]. unfold ARPC_MAX_FRAME in Hlen. change (w_len ajw_init) with 0. change (len (sep false ++ render j)) with (len (render j)). lia. }
  destruct (H He) as (_ & Hb & _). cbn in Hb.
  pose proof (aj_parse_sim (render j) Hlen) as Hs. rewrite ref_parse_render in Hs by done.
  exists w. rewrite Hb. destruct (aj_parse (render j)) as [d| | |]; [|done..].
  exists d. by destruct Hs.
Qed.

Lemma sample_reads : reads sample_doc 0 (Some (JObj [(lit "id", JNum (-12));
  (lit "a/", JArr [JNull; JBool true; JStr [120; 195; 169]])])).
Proof.
  assert (Hl : len sample_text <= ARPC_MAX_FRAME) by (by vm_compute).
  pose proof (aj_parse_sim (A:=ample) sample_text Hl) as H.
  rewrite sample_tree in H. unfold sample_doc. destruct (aj_parse sample_text); by destruct H.
Defined.

Lemma accessors_correct_witness :
  exists i, aj_member sample_doc 0 (lit "a/") = Ret i /\
    aj_count sample_doc i = Ret 3.
Proof.
  destruct (accessors_correct sample_doc 0 _ sample_reads) as (Hm & _).
  destruct (Hm (lit "a/")) as (i & E & Hr). exists i. split; [exact E|].
  exact (proj1 (proj2 (proj2 (accessors_correct sample_doc i _ Hr)))).
Defined.

Lemma walk_correct_witness :
  exists ns, aj_walk sample_doc 3 (aj_first sample_doc 0) = Ret ns /\ length ns = 2%nat.
Proof.
  destruct (walk_correct sample_doc 0 _ sample_reads) as (ns & E & H).
  exists ns. split; [exact E|]. by apply Forall2_length in H.
Defined.

Lemma json_roundtrip_witness :
  exists w d, ajw_json (A:=ample) ajw_init sample_json = Ret w /\ w_err w = false /\
    aj_parse (A:=ample) (w_buf w) = Ret d /\ reads d 0 (Some sample_json).
Proof.
  apply (json_roundtrip (A:=ample) sample_json). split; [|split_and!; [cbn; lia|by vm_compute..]].
  apply wf_json_cont. repeat constructor; cbn; unfold no_nul, i64_min, i64_max; try lia;
    repeat constructor; lia.
Defined.
