(* ===== verification/JsonBytes.v ===== *)
(** * Strings the parser hands out are bytes

    A parsed text of bytes yields keys and strings of bytes, whatever escapes
    they came from: what lets a string of a request be written into a reply. *)

From S2P Require Import Prelude Json JsonReader JsonRef.

Fixpoint str_bytes (j : json) : Prop :=
  match j with
  | JStr s => is_bytes s
  | JCont o kids =>
      (fix go kids := match kids with
                      | [] => True
                      | kv :: kids' => is_bytes kv.1 /\ str_bytes kv.2 /\ go kids'
                      end) kids
  | _ => True
  end.

Lemma str_bytes_cont o kids :
  str_bytes (JCont o kids) <-> Forall (fun kv => is_bytes kv.1 /\ str_bytes kv.2) kids.
Proof. induction kids as [|kv kids IH]; [done|]. rewrite Forall_cons, <- IH. cbn. tauto. Qed.

(** ** Single bytes *)

Lemma is_byte_land a b : is_byte a -> 0 <= b -> is_byte (Z.land a b).
Proof.
  unfold is_byte. intros Ha Hb. split; [apply Z.land_nonneg; lia|].
  assert (E : Z.land (Z.land a b) (2 ^ 8 - 1) = Z.land a b).
  { rewrite (Z.land_comm a), <- Z.land_assoc, land_ones_mod by lia. by rewrite (Z.mod_small a) by lia. }
  rewrite <- E, land_ones_mod by lia. apply Z.mod_pos_bound. lia.
Qed.

Lemma is_byte_lor a b : is_byte a -> is_byte b -> is_byte (Z.lor a b).
Proof.
  unfold is_byte. intros Ha Hb.
  assert (E : Z.land (Z.lor a b) (2 ^ 8 - 1) = Z.lor a b).
  { rewrite Z.land_lor_distr_l, !land_ones_mod by lia. by rewrite !Z.mod_small by lia. }
  rewrite <- E, land_ones_mod by lia. by apply Z.mod_pos_bound.
Qed.

Lemma is_byte_low x : is_byte (Z.lor 128 (Z.land x 63)).
Proof.
  apply is_byte_lor; [by unfold is_byte|]. change 63 with (2 ^ 6 - 1). rewrite land_ones_mod by lia.
  pose proof (Z.mod_pos_bound x (2 ^ 6) ltac:(lia)). unfold is_byte. change (2 ^ 6) with 64 in *. lia.
Qed.

Lemma is_byte_high m x k n :
  is_byte m -> 0 <= k -> 0 <= x < n * 2 ^ k -> n <= 256 -> is_byte (Z.lor m (Z.shiftr x k)).
Proof.
  intros Hm Hk Hx Hn. apply is_byte_lor; [done|]. rewrite Z.shiftr_div_pow2 by done.
  assert (0 < 2 ^ k) by (by apply Z.pow_pos_nonneg). unfold is_byte.
  split; [apply Z.div_pos; lia|]. eapply Z.lt_le_trans; [|exact Hn]. apply Z.div_lt_upper_bound; lia.
Qed.

Lemma utf8_bytes cp : 0 <= cp < 2097152 -> is_bytes (utf8 cp).
Proof.
  intros Hcp. unfold utf8. zcase; [repeat constructor; unfold is_byte; lia|].
  zcase; [|zcase]; (apply Forall_cons; split; [|repeat constructor; apply is_byte_low]).
  - apply (is_byte_high _ _ _ 32); unfold is_byte; lia.
  - apply (is_byte_high _ _ _ 16); unfold is_byte; lia.
  - apply (is_byte_high _ _ _ 8); unfold is_byte; lia.
Qed.

Lemma hexval_range c : -1 <= hexval c < 16.
Proof. unfold hexval. repeat case_match; zbool; lia. Qed.

Lemma hex_loop_range k v s z :
  0 <= v -> hex_loop k v s = Ret z -> -1 <= z < (v + 1) * 16 ^ Z.of_nat k.
Proof.
  revert v s. induction k as [|k IH]; intros v s Hv; cbn [hex_loop].
  - intros [= <-]. lia.
  - destruct s as [|c s]; [done|]. pose proof (hexval_range c).
    rewrite Nat2Z.inj_succ, Z.pow_succ_r by lia. assert (0 < 16 ^ Z.of_nat k) by (apply Z.pow_pos_nonneg; lia).
    destruct (Z.eqb_spec (hexval c) (-1)); [intros [= <-]; nia|].
    intros E. apply IH in E; [|lia]. nia.
Qed.

(** ** The parser *)

(** What is left is bytes, and what came out has [P]. *)
Definition gives {B} (P : B -> Prop) (m : outcome (list Z * B)) : Prop :=
  match m with Ret (r, b) => is_bytes r /\ P b | _ => True end.

Lemma gives_bind {B C} (P : B -> Prop) (Q : C -> Prop) (m : outcome (list Z * B)) (f : list Z * B -> outcome (list Z * C)) :
  gives P m -> (forall r b, is_bytes r -> P b -> gives Q (f (r, b))) -> gives Q (m ≫= f).
Proof. destruct m as [[r b]| | |]; cbn; [|done..]. intros [? ?] Hf. by apply Hf. Qed.

Lemma skip_ws_bytes r : is_bytes r -> is_bytes (skip_ws r).
Proof. induction 1 as [|c r Hc Hr IH]; [done|]. cbn. destruct (is_ws c); [done|by constructor]. Qed.

Lemma ref_unicode_gives r : is_bytes r -> gives is_bytes (ref_unicode r).
Proof.
  intros Hr. unfold ref_unicode. destruct (_ <? 4); [done|].
  destruct (hex4 r) as [hi| | |] eqn:Eh; cbn [mbind outcome_bind]; [|done..].
  apply hex_loop_range in Eh; [|lia]. change ((0 + 1) * 16 ^ Z.of_nat 4) with 65536 in Eh.
  destruct (Z.ltb_spec hi 0); [done|].
  assert (Hd : is_bytes (drop 4 r)) by (by apply Forall_drop).
  assert (Hu : gives is_bytes (Ret (drop 4 r, utf8 hi))) by (split; [done|apply utf8_bytes; lia]).
  destruct (_ && _ && _ && _ && _) eqn:Eb; [|exact Hu]. zbool.
  destruct (hex4 (drop 2 (drop 4 r))) as [lo| | |] eqn:El; cbn [mbind outcome_bind]; [|done..].
  destruct ((56320 <=? lo) && (lo <=? 57343)) eqn:Ec; [|exact Hu]. zbool.
  split; [by apply Forall_drop|]. apply utf8_bytes. rewrite Z.shiftl_mul_pow2 by lia. change (2 ^ 10) with 1024. lia.
Qed.

Lemma ref_escape_gives r : is_bytes r -> gives is_bytes (ref_escape r).
Proof.
  intros Hr. destruct Hr as [|c r Hc Hr]; [done|]. cbn [ref_escape].
  repeat (case_match; [split; [done|by repeat constructor]|]).
  case_match; [by apply ref_unicode_gives|done].
Qed.

Lemma ref_chars_gives fuel r : is_bytes r -> gives is_bytes (ref_chars fuel r).
Proof.
  revert r. induction fuel as [|fuel IH]; intros r Hr; [done|]. cbn [ref_chars].
  destruct Hr as [|c r Hc Hr]; [done|]. destruct (c =? 34); [split; [by constructor|done]|].
  apply (gives_bind is_bytes).
  - destruct (negb _); [|by apply ref_escape_gives]. case_match; [done|]. split; [done|by constructor].
  - intros r1 s Hr1 Hs. apply (gives_bind is_bytes); [by apply IH|].
    intros r2 t Hr2 Ht. split; [done|by apply Forall_app].
Qed.

Lemma ref_string_gives r : is_bytes r -> gives is_bytes (ref_string r).
Proof.
  intros Hr. destruct Hr as [|c r Hc Hr]; [done|]. cbn [ref_string]. destruct (c =? 34); [|done].
  apply (gives_bind is_bytes); [by apply ref_chars_gives|]. intros r1 s Hr1 Hs.
  destruct Hr1 as [|c1 r1 ? ?]; [done|]. by case_match.
Qed.

Lemma num_loop_gives r u : is_bytes r -> gives (fun _ => True) (num_loop r u).
Proof.
  intros Hr. revert u. induction Hr as [|c r Hc Hr IH]; intros u; [done|]. cbn [num_loop].
  destruct (is_digit c); [|split; [by constructor|done]]. case_match; [done|]. apply IH.
Qed.

Lemma parse_num_gives r : is_bytes r -> gives (fun _ => True) (parse_num r).
Proof.
  intros Hr. unfold parse_num. set (neg := _ =? 45). set (r1 := if neg then _ else _).
  assert (H1 : is_bytes r1) by (subst r1; destruct neg; [by apply Forall_drop|done]).
  destruct r1 as [|c r1]; [done|]. destruct (negb _); [done|].
  apply (gives_bind (fun _ => True)); [by apply num_loop_gives|]. intros r2 u Hr2 _.
  destruct r2 as [|c2 r2]; [|case_match; [done|]]; by destruct (num_value neg u).
Qed.

Lemma ref_gives fuel :
  (forall depth r, is_bytes r -> gives str_bytes (ref_value fuel depth r)) /\
  (forall depth r o, is_bytes r -> gives str_bytes (ref_container fuel depth r o)) /\
  (forall depth r o, is_bytes r -> gives str_bytes (ref_container_ fuel depth r o)) /\
  (forall depth r o, is_bytes r -> gives (fun kids => str_bytes (JCont o kids)) (ref_members fuel depth r o)).
Proof.
  induction fuel as [|fuel (IHv & IHc & IHc_ & IHm)]; [done|]. split_and!.
  - intros depth r Hr. cbn [ref_value]. pose proof (skip_ws_bytes r Hr) as Hs.
    destruct (skip_ws r) as [|c r1] eqn:Er; [done|]. rewrite <- Er in *.
    destruct (c =? 123); [by apply IHc|]. destruct (c =? 91); [by apply IHc|].
    destruct (c =? 34); [by apply (gives_bind is_bytes); [by apply ref_string_gives|]|].
    do 3 (destruct (starts _ _); [split; [by apply Forall_drop|done]|]).
    destruct (_ || _); [|done]. by apply (gives_bind (fun _ => True)); [by apply parse_num_gives|].
  - intros depth r o Hr. cbn [ref_container]. case_match; [done|]. by apply IHc_.
  - intros depth r o Hr. cbn [ref_container_].
    assert (Hs : is_bytes (skip_ws (drop 1 r))) by (by apply skip_ws_bytes, Forall_drop).
    assert (Hall : gives str_bytes ('(r, kids) ← ref_members fuel depth (skip_ws (drop 1 r)) o; Ret (r, JCont o kids))).
    { eapply gives_bind; [by apply IHm|]. done. }
    destruct (skip_ws (drop 1 r)) as [|c r2]; [exact Hall|]. case_match; [|exact Hall].
    split; [by apply Forall_cons in Hs as [_ ?]|done].
  - intros depth r o Hr. cbn [ref_members]. apply (gives_bind is_bytes).
    + destruct o; [|done]. eapply gives_bind; [by apply ref_string_gives, skip_ws_bytes|].
      intros r1 k Hr1 Hk. pose proof (skip_ws_bytes r1 Hr1) as Hs. destruct Hs as [|c r2 ? ?]; [done|]. by case_match.
    + intros r1 k Hr1 Hk. eapply gives_bind; [by apply IHv|]. intros r2 v Hr2 Hv.
      pose proof (skip_ws_bytes r2 Hr2) as Hs. destruct Hs as [|c r3 ? Hr3]; [done|].
      case_match; [|case_match; [|done]].
      * eapply gives_bind; [by apply IHm|]. intros r4 kids Hr4 Hkids. split; [done|].
        apply str_bytes_cont. apply str_bytes_cont in Hkids. by constructor.
      * split; [done|]. by cbn.
Qed.

Lemma ref_parse_bytes text j : is_bytes text -> ref_parse text = Ret j -> str_bytes j.
Proof.
  unfold ref_parse. intros Ht H. inv_bind. destruct a as [r j']. destruct (skip_ws r); [|done].
  simplify_eq. pose proof (proj1 (ref_gives (parse_fuel text)) 0 text Ht) as Hg. rewrite E in Hg. apply Hg.
Qed.

(** ** Reading *)

Lemma t_member_bytes j key :
  match j with Some j => str_bytes j | None => True end ->
  match t_member j key with Some v => str_bytes v | None => True end.
Proof.
  destruct j as [[| | | |[] kids]|]; try done. rewrite str_bytes_cont. intros Hk. cbn [t_member].
  induction Hk as [|[k v] kids [_ Hv] _ IH]; [done|]. cbn. by destruct (streq k key).
Qed.

Lemma cstr_bytes s : is_bytes s -> is_bytes (cstr s).
Proof. induction 1; [done|]. cbn. case_match; [done|by constructor]. Qed.
