(* ===== verification/Base64.v ===== *)
(** * Base64: src/common/arpc_b64.c

    The encoder and the decoder as the code has them, with the writes into
    the output buffer checked.  The specification is the bit string: three
    bytes are twenty-four bits, read six at a time, and padded. *)

From S2P Require Import Prelude.

Definition B64 : list Z :=
  lit "ABCDEFGHIJKLMNOPQRSTUVWXYZabcdefghijklmnopqrstuvwxyz0123456789+/".

(** [B64[i]] for an [i] the mask [& 63] has put in range. *)
Definition b64char (i : Z) : Z := nth (Z.to_nat i) B64 0.

Section Base64.
Context {A : Allocator}.

(** The loop over whole groups: what is left of [src], and the output. *)
Fixpoint encode_loop (cap : Z) (src out : list Z) : outcome (list Z * list Z) :=
  match src with
  | a :: b :: c :: src' =>
      let v := Z.lor (Z.lor (Z.shiftl a 16) (Z.shiftl b 8)) c in
      out ← bput cap out [b64char (Z.land (Z.shiftr v 18) 63)];
      out ← bput cap out [b64char (Z.land (Z.shiftr v 12) 63)];
      out ← bput cap out [b64char (Z.land (Z.shiftr v 6) 63)];
      out ← bput cap out [b64char (Z.land v 63)];
      encode_loop cap src' out
  | _ => Ret (src, out)
  end.

(** [if (i < n)]: the one or two bytes after the whole groups. *)
Definition encode_tail (cap : Z) (src out : list Z) : outcome (list Z) :=
  match src with
  | [] => Ret out
  | a :: rest =>
      let rem := len src in
      let v := Z.shiftl a 16 in
      let v := if rem =? 2 then Z.lor v (Z.shiftl (nth 0 rest 0) 8) else v in
      out ← bput cap out [b64char (Z.land (Z.shiftr v 18) 63)];
      out ← bput cap out [b64char (Z.land (Z.shiftr v 12) 63)];
      out ← bput cap out [if rem =? 2 then b64char (Z.land (Z.shiftr v 6) 63) else 61];
      bput cap out [61]
  end.

(** The string; [Fail] is NULL. *)
Definition arpc_b64_encode (src : list Z) : outcome (list Z) :=
  let out_len := u64 (u64 (len src + 2) / 3 * 4) in
  let cap := u64 (out_len + 1) in
  if grants cap then
    '(src, out) ← encode_loop cap src [];
    out ← encode_tail cap src out;
    _ ← bput cap out [0];
    Ret out
  else Fail.

Definition b64val (c : Z) : Z :=
  if (65 <=? c) && (c <=? 90) then c - 65
  else if (97 <=? c) && (c <=? 122) then c - 97 + 26
  else if (48 <=? c) && (c <=? 57) then c - 48 + 52
  else if c =? 43 then 62
  else if c =? 47 then 63
  else -1.

(** [v[k]] for the character [c] of a group. *)
Definition decode_char (last : bool) (k c : Z) : outcome Z :=
  if last && (2 <=? k) && (c =? 61) then Ret 0
  else if b64val c <? 0 then Fail else Ret (b64val c).

(** [if (o < out_len) out[o++] = b] *)
Definition oput (out_len : Z) (out : list Z) (b : Z) : list Z :=
  if len out <? out_len then out ++ [b] else out.

(** The loop over the groups of four characters. *)
Fixpoint decode_loop (out_len : Z) (src out : list Z) : outcome (list Z) :=
  match src with
  | c0 :: c1 :: c2 :: c3 :: src' =>
      let last := match src' with [] => true | _ => false end in
      v0 ← decode_char last 0 c0;
      v1 ← decode_char last 1 c1;
      v2 ← decode_char last 2 c2;
      v3 ← decode_char last 3 c3;
      let w := Z.lor (Z.lor (Z.lor (Z.shiftl v0 18) (Z.shiftl v1 12)) (Z.shiftl v2 6)) v3 in
      let out := oput out_len out (Z.land (Z.shiftr w 16) 255) in
      let out := oput out_len out (Z.land (Z.shiftr w 8) 255) in
      let out := oput out_len out (Z.land w 255) in
      decode_loop out_len src' out
  | [] => Ret out
  | _ => Undef
  end.

(** How many padding characters end the string. *)
Definition decode_pad (s : list Z) : outcome Z :=
  let n := length s in
  if len s =? 0 then Ret 0
  else if nth (n - 1) s 0 =? 61 then Ret (if nth (n - 2) s 0 =? 61 then 2 else 1)
  else if nth (n - 2) s 0 =? 61 then Fail
  else Ret 0.

(** The bytes, and the length left in [*n]; [Fail] is NULL with [*n] 0. *)
Definition arpc_b64_decode (src : option (list Z)) : outcome (list Z * Z) :=
  match src with
  | None => Fail
  | Some src =>
      let s := cstr src in
      if negb (len s mod 4 =? 0) then Fail
      else
        pad ← decode_pad s;
        let out_len := len s / 4 * 3 - pad in
        if grants (if out_len =? 0 then 1 else out_len) then
          out ← decode_loop out_len s [];
          Ret (out, out_len)
        else Fail
  end.
End Base64.

(** ** The specification: six bits at a time *)

(** The bits of a number below [2 ^ n], most significant first. *)
Fixpoint bits (n : nat) (z : Z) : list bool :=
  match n with O => [] | S n => Z.testbit z (Z.of_nat n) :: bits n z end.

Definition of_bits (l : list bool) : Z := foldl (fun z b => 2 * z + Z.b2z b) 0 l.

(** Six bits to a character, zeros filling the last one. *)
Fixpoint sextets (l : list bool) : list Z :=
  match l with
  | a :: b :: c :: d :: e :: f :: l => b64char (of_bits [a; b; c; d; e; f]) :: sextets l
  | [] => []
  | l => [b64char (of_bits (take 6 (l ++ repeat false 5)))]
  end.

Definition b64_spec (src : list Z) : list Z :=
  let chars := sextets (src ≫= bits 8) in
  chars ++ repeat 61 (Z.to_nat (- len chars mod 4)).

Arguments b64char : simpl never.
Arguments of_bits : simpl never.

(** ** Groups *)

Lemma b64val_b64char i : 0 <= i < 64 -> b64val (b64char i) = i.
Proof.
  intros Hi. apply Z.eqb_eq.
  exact (all_below_elim 64 (fun i => b64val (b64char i) =? i) i eq_refl Hi).
Qed.

(** A digit is neither the padding character nor a NUL. *)
Lemma b64char_digit i : 0 <= i < 64 -> b64char i <> 61 /\ 0 < b64char i < 256.
Proof.
  intros Hi.
  pose proof (all_below_elim 64 (fun i => negb (b64char i =? 61) && (0 <? b64char i) && (b64char i <? 256))
                i eq_refl Hi) as H.
  cbn beta in H. zbool. apply negb_true_iff in H. zbool. lia.
Qed.

(** Three bytes as one number, and its four digits. *)
Definition word24 (a b c : Z) : Z := a * 65536 + b * 256 + c.
Definition sextet (k : Z) (v : Z) : Z := v / 2 ^ (6 * k) mod 64.

Lemma word24_lor a b c :
  is_byte b -> is_byte c -> Z.lor (Z.lor (Z.shiftl a 16) (Z.shiftl b 8)) c = word24 a b c.
Proof.
  unfold is_byte, word24. intros Hb Hc.
  rewrite (lor_shiftl_add a (Z.shiftl b 8) 16) by (rewrite ?Z.shiftl_mul_pow2; lia).
  rewrite Z.shiftl_mul_pow2 by lia. change (a * 2 ^ 16 + b * 2 ^ 8) with (a * (2 ^ 8 * 2 ^ 8) + b * 2 ^ 8).
  rewrite Z.mul_assoc, <- Z.mul_add_distr_r, <- Z.shiftl_mul_pow2 by lia.
  rewrite lor_shiftl_add by lia. lia.
Qed.

Lemma sextet_land v k : 0 <= k -> Z.land (Z.shiftr v (6 * k)) 63 = sextet k v.
Proof.
  intros. unfold sextet. change 63 with (2 ^ 6 - 1). rewrite land_ones_mod by lia.
  by rewrite Z.shiftr_div_pow2 by lia.
Qed.

Lemma sextet_land0 v : Z.land v 63 = sextet 0 v.
Proof. rewrite <- (sextet_land v 0) by lia. done. Qed.

Lemma sextet_range k v : 0 <= sextet k v < 64.
Proof. unfold sextet. by apply Z.mod_pos_bound. Qed.

Arguments word24 : simpl never.
Arguments sextet : simpl never.

Definition group (a b c : Z) : list Z :=
  let v := word24 a b c in
  [b64char (sextet 3 v); b64char (sextet 2 v); b64char (sextet 1 v); b64char (sextet 0 v)].

(** The whole groups, and the last one. *)
Fixpoint b64_text (src : list Z) : list Z :=
  match src with
  | a :: b :: c :: src => group a b c ++ b64_text src
  | [a; b] => take 3 (group a b 0) ++ [61]
  | [a] => take 2 (group a 0 0) ++ [61; 61]
  | [] => []
  end.

(** Induction three elements at a time. *)
Lemma three_ind (P : list Z -> Prop) :
  P [] -> (forall a, P [a]) -> (forall a b, P [a; b]) ->
  (forall a b c l, P l -> P (a :: b :: c :: l)) -> forall l, P l.
Proof.
  intros H0 H1 H2 H3 l. remember (length l) as n eqn:En. revert l En.
  induction (lt_wf n) as [n _ IH]. intros [|a [|b [|c l]]] ->; [done|auto..|].
  apply H3. by apply (IH (length l)); [cbn; lia|].
Qed.

Lemma b64_text_length src : len (b64_text src) = (len src + 2) / 3 * 4.
Proof.
  induction src as [| | |a b c src IH] using three_ind; [done..|].
  cbn [b64_text group app length] in *. rewrite !Nat2Z.inj_succ, IH.
  replace (Z.succ (Z.succ (Z.succ (len src))) + 2) with (len src + 2 + 1 * 3) by lia.
  rewrite Z.div_add by lia. lia.
Qed.

(** *** The encoder *)

Ltac bput_steps :=
  repeat (rewrite bput_ok by (rewrite ?length_app; cbn [length]; lia); cbn [mbind outcome_bind]).

Lemma group_lor a b c :
  is_byte b -> is_byte c ->
  let v := Z.lor (Z.lor (Z.shiftl a 16) (Z.shiftl b 8)) c in
  [b64char (Z.land (Z.shiftr v 18) 63); b64char (Z.land (Z.shiftr v 12) 63);
   b64char (Z.land (Z.shiftr v 6) 63); b64char (Z.land v 63)] = group a b c.
Proof.
  intros Hb Hc v. subst v. rewrite word24_lor by done. unfold group. cbn zeta.
  by rewrite (sextet_land _ 3), (sextet_land _ 2), (sextet_land _ 1), sextet_land0.
Qed.

Lemma byte0 : is_byte 0.
Proof. unfold is_byte. lia. Qed.

Lemma encode_tail_spec cap src out :
  is_bytes src -> (length src < 3)%nat -> len out + len (b64_text src) <= cap ->
  encode_tail cap src out = Ret (out ++ b64_text src).
Proof.
  intros Hs Hn Hcap. unfold encode_tail. destruct src as [|a [|b [|c src]]]; [by rewrite app_nil_r|..];
    cbn [b64_text group take app length] in Hcap; cbn [length] in Hn; try lia.
  - pose proof (group_lor a 0 0 byte0 byte0) as G. change (len [a] =? 2) with false.
    rewrite Z.lor_0_r, Z.lor_0_r in G. injection G as G3 G2 _ _. cbv beta iota zeta. rewrite G3, G2. bput_steps. by rewrite <- !app_assoc.
  - apply Forall_cons in Hs as [_ Hs]. apply Forall_cons in Hs as [Hb _].
    pose proof (group_lor a b 0 Hb byte0) as G. change (len [a; b] =? 2) with true.
    change (nth 0 [b] 0) with b.
    rewrite Z.lor_0_r in G. injection G as G3 G2 G1 _. cbv beta iota zeta. rewrite G3, G2, G1. bput_steps. by rewrite <- !app_assoc.
Qed.

Lemma encode_spec cap src out :
  is_bytes src -> len out + len (b64_text src) + 1 <= cap ->
  ('(src, out) ← encode_loop cap src out; out ← encode_tail cap src out; _ ← bput cap out [0]; Ret out)
  = Ret (out ++ b64_text src).
Proof.
  intros Hs. revert out. induction src as [|a|a b|a b c src IH] using three_ind; intros out Hcap.
  1-3: cbn [encode_loop mbind outcome_bind]; rewrite encode_tail_spec by (done || cbn [length]; lia);
    cbn [mbind outcome_bind]; rewrite bput_ok; [done|]; rewrite length_app; cbn [length]; lia.
  apply Forall_cons in Hs as [_ Hs]. apply Forall_cons in Hs as [Hb Hs]. apply Forall_cons in Hs as [Hc Hs].
  pose proof (group_lor a b c Hb Hc) as G. cbn [encode_loop b64_text] in *. cbn zeta in G.
  rewrite length_app in Hcap. injection G as -> -> -> ->. cbn [length group] in Hcap. bput_steps.
  rewrite IH; [|done|rewrite !length_app; cbn [length]; lia]. by rewrite <- !app_assoc.
Qed.

(** *** The bit-string specification *)

Section Bytes.
Context (a : Z) (Ha : is_byte a).

Let byte_all (f : Z -> bool) (H : all_below 256 f = true) : f a = true :=
  all_below_elim 256 f a H Ha.

Lemma hi6 : of_bits [Z.testbit a 7; Z.testbit a 6; Z.testbit a 5; Z.testbit a 4; Z.testbit a 3; Z.testbit a 2] = a / 4.
Proof. apply Z.eqb_eq, (byte_all (fun a => of_bits [Z.testbit a 7; Z.testbit a 6; Z.testbit a 5; Z.testbit a 4; Z.testbit a 3; Z.testbit a 2] =? a / 4)). by vm_compute. Qed.
Lemma lo6 : of_bits [Z.testbit a 5; Z.testbit a 4; Z.testbit a 3; Z.testbit a 2; Z.testbit a 1; Z.testbit a 0] = a mod 64.
Proof. apply Z.eqb_eq, (byte_all (fun a => of_bits [Z.testbit a 5; Z.testbit a 4; Z.testbit a 3; Z.testbit a 2; Z.testbit a 1; Z.testbit a 0] =? a mod 64)). by vm_compute. Qed.
Lemma lo2 : of_bits [Z.testbit a 1; Z.testbit a 0] = a mod 4.
Proof. apply Z.eqb_eq, (byte_all (fun a => of_bits [Z.testbit a 1; Z.testbit a 0] =? a mod 4)). by vm_compute. Qed.
Lemma hi2 : of_bits [Z.testbit a 7; Z.testbit a 6] = a / 64.
Proof. apply Z.eqb_eq, (byte_all (fun a => of_bits [Z.testbit a 7; Z.testbit a 6] =? a / 64)). by vm_compute. Qed.
Lemma lo4 : of_bits [Z.testbit a 3; Z.testbit a 2; Z.testbit a 1; Z.testbit a 0] = a mod 16.
Proof. apply Z.eqb_eq, (byte_all (fun a => of_bits [Z.testbit a 3; Z.testbit a 2; Z.testbit a 1; Z.testbit a 0] =? a mod 16)). by vm_compute. Qed.
Lemma hi4 : of_bits [Z.testbit a 7; Z.testbit a 6; Z.testbit a 5; Z.testbit a 4] = a / 16.
Proof. apply Z.eqb_eq, (byte_all (fun a => of_bits [Z.testbit a 7; Z.testbit a 6; Z.testbit a 5; Z.testbit a 4] =? a / 16)). by vm_compute. Qed.
End Bytes.

Lemma of_bits_app l l' : of_bits (l ++ l') = of_bits l * 2 ^ len l' + of_bits l'.
Proof.
  unfold of_bits. rewrite foldl_app. generalize (foldl (fun z b => 2 * z + Z.b2z b) 0 l).
  induction l' as [|b l' IH] using rev_ind; intros z; [cbn; lia|].
  rewrite !foldl_app, IH, length_app. cbn [foldl length]. rewrite Nat2Z.inj_add, Z.pow_add_r by lia.
  change (2 ^ Z.of_nat 1) with 2. lia.
Qed.

Lemma sextet_word24 a b c :
  is_byte a -> is_byte b -> is_byte c ->
  sextet 3 (word24 a b c) = a / 4 /\ sextet 2 (word24 a b c) = a mod 4 * 16 + b / 16 /\
  sextet 1 (word24 a b c) = b mod 16 * 4 + c / 64 /\ sextet 0 (word24 a b c) = c mod 64.
Proof.
  unfold sextet, word24, is_byte. intros Ha Hb Hc.
  change (2 ^ (6 * 3)) with 262144. change (2 ^ (6 * 2)) with 4096. change (2 ^ (6 * 1)) with 64.
  change (2 ^ (6 * 0)) with 1.
  split_and!; Z.to_euclidean_division_equations; lia.
Qed.

Lemma group_bits a b c l :
  is_byte a -> is_byte b -> is_byte c ->
  sextets (bits 8 a ++ bits 8 b ++ bits 8 c ++ l) = group a b c ++ sextets l.
Proof.
  intros Ha Hb Hc. cbn [bits app sextets]. unfold group. cbn zeta.
  change (Z.of_nat 0) with 0. change (Z.of_nat 1) with 1. change (Z.of_nat 2) with 2.
  change (Z.of_nat 3) with 3. change (Z.of_nat 4) with 4. change (Z.of_nat 5) with 5.
  change (Z.of_nat 6) with 6. change (Z.of_nat 7) with 7.
  pose proof (of_bits_app [Z.testbit a 1; Z.testbit a 0] [Z.testbit b 7; Z.testbit b 6; Z.testbit b 5; Z.testbit b 4]) as M1.
  pose proof (of_bits_app [Z.testbit b 3; Z.testbit b 2; Z.testbit b 1; Z.testbit b 0] [Z.testbit c 7; Z.testbit c 6]) as M2.
  cbn [app] in M1, M2. rewrite hi6, lo6, M1, M2, lo2, hi4, lo4, hi2 by done.
  cbn [length]. change (2 ^ Z.of_nat 4) with 16. change (2 ^ Z.of_nat 2) with 4.
  destruct (sextet_word24 a b c Ha Hb Hc) as (-> & -> & -> & ->). done.
Qed.

Lemma b64_text_spec src : is_bytes src -> b64_text src = b64_spec src.
Proof.
  intros Hs. unfold b64_spec. induction src as [|a|a b|a b c src IH] using three_ind; [done|..].
  - apply Forall_cons in Hs as [Ha _].
    pose proof (group_bits a 0 0 [] Ha byte0 byte0) as G. cbn in G. injection G as G3 G2 _ _.
    cbn. by rewrite <- G3, <- G2.
  - apply Forall_cons in Hs as [Ha Hs]. apply Forall_cons in Hs as [Hb _].
    pose proof (group_bits a b 0 [] Ha Hb byte0) as G. cbn in G. injection G as G3 G2 G1 _.
    cbn. by rewrite <- G3, <- G2, <- G1.
  - apply Forall_cons in Hs as [Ha Hs]. apply Forall_cons in Hs as [Hb Hs]. apply Forall_cons in Hs as [Hc Hs].
    change ((a :: b :: c :: src) ≫= bits 8) with (bits 8 a ++ bits 8 b ++ bits 8 c ++ (src ≫= bits 8)).
    rewrite group_bits, length_app by done. cbn [b64_text length group]. rewrite IH by done.
    rewrite <- app_assoc. do 2 f_equal. f_equal. f_equal.
    rewrite Nat2Z.inj_add. replace (- (Z.of_nat 4 + len (sextets (src ≫= bits 8))))
      with (- len (sextets (src ≫= bits 8)) + (-1) * 4) by lia.
    by rewrite Z.mod_add by lia.
Qed.

(** ** What the decoder accepts *)

Definition digitb (c : Z) : bool := 0 <=? b64val c.

(** Groups of four digits; the last group may end in one or two paddings. *)
Fixpoint well_formed (s : list Z) : bool :=
  match s with
  | [] => true
  | [c0; c1; c2; c3] =>
      digitb c0 && digitb c1 &&
      ((digitb c2 && digitb c3) || (digitb c2 && (c3 =? 61)) || ((c2 =? 61) && (c3 =? 61)))
  | c0 :: c1 :: c2 :: c3 :: s => digitb c0 && digitb c1 && digitb c2 && digitb c3 && well_formed s
  | _ => false
  end.

(** The paddings, in a well-formed string. *)
Definition pads (s : list Z) : Z := len (filter (fun c => c = 61) s).

Lemma four_ind (P : list Z -> Prop) :
  P [] -> (forall a, P [a]) -> (forall a b, P [a; b]) -> (forall a b c, P [a; b; c]) ->
  (forall a b c d l, P l -> P (a :: b :: c :: d :: l)) -> forall l, P l.
Proof.
  intros H0 H1 H2 H3 H4 l. remember (length l) as n eqn:En. revert l En.
  induction (lt_wf n) as [n _ IH]. intros [|a [|b [|c [|d l]]]] ->; [done|auto..|].
  apply H4. by apply (IH (length l)); [cbn; lia|].
Qed.

Lemma decode_char_digit last k c : digitb c = true -> decode_char last k c = Ret (b64val c).
Proof.
  unfold decode_char, digitb. intros H. zbool.
  destruct (Z.eqb_spec c 61) as [->|_]; [done|]. rewrite andb_false_r.
  by destruct (Z.ltb_spec (b64val c) 0); [lia|].
Qed.

Lemma decode_char_pad k : 2 <= k -> decode_char true k 61 = Ret 0.
Proof. unfold decode_char. intros. destruct (Z.leb_spec 2 k); [done|lia]. Qed.

(** What a character gets past the decoder: a digit, or a padding in place. *)
Lemma decode_char_cases last k c :
  decode_char last k c = Fail \/ digitb c = true \/ (last = true /\ 2 <= k /\ c = 61).
Proof.
  unfold decode_char, digitb. destruct (Z.leb_spec 0 (b64val c)); [auto|].
  destruct last; cbn [andb]; [|destruct (Z.ltb_spec (b64val c) 0); [auto|lia]].
  destruct (Z.leb_spec 2 k); cbn [andb]; [|destruct (Z.ltb_spec (b64val c) 0); [auto|lia]].
  destruct (Z.eqb_spec c 61); [auto|destruct (Z.ltb_spec (b64val c) 0); [auto|lia]].
Qed.

Lemma decode_char_defined last k c : defined (decode_char last k c).
Proof. unfold decode_char. by repeat case_match. Qed.

Lemma digit_value c : digitb c = true -> 0 <= b64val c < 64.
Proof.
  unfold digitb, b64val. intros H. repeat case_match; zbool; lia.
Qed.

Definition out3 (w : Z) : list Z :=
  [Z.land (Z.shiftr w 16) 255; Z.land (Z.shiftr w 8) 255; Z.land w 255].

(** The three conditional stores write what there is room for. *)
Lemma oput3 n out w :
  len out <= n ->
  oput n (oput n (oput n out (Z.land (Z.shiftr w 16) 255)) (Z.land (Z.shiftr w 8) 255)) (Z.land w 255)
  = out ++ take (Z.to_nat (n - len out)) (out3 w).
Proof.
  intros H. unfold oput, out3.
  destruct (Z.ltb_spec (len out) n) as [H1|H1].
  2: { do 2 (destruct (Z.ltb_spec (len out) n); [lia|]).
       replace (Z.to_nat (n - len out)) with 0%nat by lia. by rewrite app_nil_r. }
  rewrite length_app. cbn [length].
  destruct (Z.ltb_spec (Z.of_nat (length out + 1)) n) as [H2|H2].
  2: { rewrite length_app. cbn [length]. destruct (Z.ltb_spec (Z.of_nat (length out + 1)) n); [lia|].
       by replace (Z.to_nat (n - len out)) with 1%nat by lia. }
  rewrite !length_app. cbn [length].
  destruct (Z.ltb_spec (Z.of_nat (length out + 1 + 1)) n) as [H3|H3].
  - replace (Z.to_nat (n - len out)) with (S (S (S (Z.to_nat (n - len out - 3))))) by lia.
    cbn [take]. rewrite take_nil. by rewrite <- !app_assoc.
  - replace (Z.to_nat (n - len out)) with 2%nat by lia. by rewrite <- !app_assoc.
Qed.

Lemma out3_word24 a b c : is_byte a -> is_byte b -> is_byte c -> out3 (word24 a b c) = [a; b; c].
Proof.
  unfold out3, is_byte. intros Ha Hb Hc. change 255 with (2 ^ 8 - 1). rewrite !land_ones_mod by lia.
  rewrite !Z.shiftr_div_pow2 by lia. change (2 ^ 8) with 256. change (2 ^ 16) with 65536. unfold word24.
  repeat f_equal; Z.to_euclidean_division_equations; lia.
Qed.

(** Four six-bit values as one number. *)
Lemma lor_sextets v0 v1 v2 v3 :
  0 <= v1 < 64 -> 0 <= v2 < 64 -> 0 <= v3 < 64 ->
  Z.lor (Z.lor (Z.lor (Z.shiftl v0 18) (Z.shiftl v1 12)) (Z.shiftl v2 6)) v3 =
  v0 * 262144 + v1 * 4096 + v2 * 64 + v3.
Proof.
  intros H1 H2 H3.
  assert (E : Z.lor (Z.lor (Z.shiftl v0 18) (Z.shiftl v1 12)) (Z.shiftl v2 6) =
              Z.shiftl (v0 * 4096 + v1 * 64 + v2) 6).
  { replace (Z.shiftl v0 18) with (Z.shiftl (Z.shiftl (Z.shiftl v0 6) 6) 6) by (by rewrite !Z.shiftl_shiftl).
    replace (Z.shiftl v1 12) with (Z.shiftl (Z.shiftl v1 6) 6) by (by rewrite !Z.shiftl_shiftl).
    rewrite <- !Z.shiftl_lor, (lor_shiftl_add v0 v1 6) by lia.
    rewrite (lor_shiftl_add _ v2 6) by lia. f_equal. lia. }
  rewrite E, lor_shiftl_add by lia. lia.
Qed.

Lemma sextets_word v :
  0 <= v < 2 ^ 24 ->
  sextet 3 v * 262144 + sextet 2 v * 4096 + sextet 1 v * 64 + sextet 0 v = v.
Proof.
  unfold sextet. intros H. change (2 ^ (6 * 3)) with 262144. change (2 ^ (6 * 2)) with 4096.
  change (2 ^ (6 * 1)) with 64. change (2 ^ (6 * 0)) with 1. change (2 ^ 24) with 16777216 in H.
  Z.to_euclidean_division_equations; lia.
Qed.

(** One group: its characters read, its bytes stored. *)
Lemma decode_group n c0 c1 c2 c3 s out v2 v3 :
  let last := match s with [] => true | _ => false end in
  digitb c0 = true -> digitb c1 = true ->
  decode_char last 2 c2 = Ret v2 -> decode_char last 3 c3 = Ret v3 ->
  0 <= v2 < 64 -> 0 <= v3 < 64 -> len out <= n ->
  decode_loop n (c0 :: c1 :: c2 :: c3 :: s) out =
  decode_loop n s (out ++ take (Z.to_nat (n - len out))
    (out3 (b64val c0 * 262144 + b64val c1 * 4096 + v2 * 64 + v3))).
Proof.
  intros last H0 H1 H2 H3 Hv2 Hv3 Hn. cbn [decode_loop]. subst last.
  rewrite (decode_char_digit _ _ c0 H0), (decode_char_digit _ _ c1 H1). cbn [mbind outcome_bind]. rewrite H2. cbn [mbind outcome_bind].
  rewrite H3. cbn [mbind outcome_bind]. pose proof (digit_value c1 H1).
  rewrite lor_sextets by done. by rewrite oput3.
Qed.

Lemma digit_not_pad c : digitb c = true -> c <> 61.
Proof. by intros H ->. Qed.

Lemma pads_cons c s : pads (c :: s) = (if c =? 61 then 1 else 0) + pads s.
Proof.
  unfold pads. rewrite filter_cons. destruct (Z.eqb_spec c 61); case_decide; try done.
  cbn [length]. lia.
Qed.

(** The shapes of a well-formed string: a group of digits, or the last. *)
Inductive group_shape (c2 c3 : Z) (s : list Z) : Prop :=
| shape_digits : digitb c2 = true -> digitb c3 = true -> well_formed s = true -> group_shape c2 c3 s
| shape_one : digitb c2 = true -> c3 = 61 -> s = [] -> group_shape c2 c3 s
| shape_two : c2 = 61 -> c3 = 61 -> s = [] -> group_shape c2 c3 s.

Lemma well_formed_group c0 c1 c2 c3 s :
  well_formed (c0 :: c1 :: c2 :: c3 :: s) = true ->
  digitb c0 = true /\ digitb c1 = true /\ group_shape c2 c3 s.
Proof.
  cbn [well_formed]. destruct s as [|c4 s].
  - intros H. zbool. split_and!; [done..|]. apply orb_prop in H0 as [H0|H0]; [apply orb_prop in H0 as [H0|H0]|];
      zbool; subst; eauto using group_shape.
  - intros H. zbool. split_and!; eauto using group_shape.
Qed.

Lemma out3_bytes w : is_bytes (out3 w).
Proof.
  unfold out3, is_byte. change 255 with (2 ^ 8 - 1).
  repeat constructor; rewrite land_ones_mod by lia; apply Z.mod_pos_bound; lia.
Qed.

Lemma well_formed_length s : well_formed s = true -> len s mod 4 = 0.
Proof.
  induction s as [|a|a b|a b c|c0 c1 c2 c3 s IH] using four_ind; try done.
  intros (_ & _ & H)%well_formed_group.
  assert (well_formed s = true) as Hs by (by destruct H; subst).
  cbn [length]. rewrite !Nat2Z.inj_succ. replace (Z.succ (Z.succ (Z.succ (Z.succ (len s))))) with (len s + 1 * 4) by lia.
  rewrite Z.mod_add by lia. auto.
Qed.

(** How many bytes a string of this length and padding holds. *)
Definition out_len (s : list Z) : Z := len s / 4 * 3 - pads s.

(** A group of digits but for [k] paddings. *)
Lemma out_len_group c0 c1 c2 c3 s :
  digitb c0 = true -> digitb c1 = true ->
  out_len (c0 :: c1 :: c2 :: c3 :: s) =
  3 - (if c2 =? 61 then 1 else 0) - (if c3 =? 61 then 1 else 0) + out_len s.
Proof.
  intros H0%digit_not_pad H1%digit_not_pad. unfold out_len. rewrite !pads_cons. cbn [length].
  rewrite !Nat2Z.inj_succ. replace (Z.succ (Z.succ (Z.succ (Z.succ (len s))))) with (len s + 1 * 4) by lia.
  rewrite Z.div_add by lia. destruct (Z.eqb_spec c0 61), (Z.eqb_spec c1 61); done || lia.
Qed.

Lemma out_len_nonneg s : well_formed s = true -> 0 <= out_len s.
Proof.
  induction s as [|a|a b|a b c|c0 c1 c2 c3 s IH] using four_ind; try done.
  intros (H0 & H1 & H)%well_formed_group. rewrite out_len_group by done.
  assert (0 <= out_len s) by (destruct H; [auto|by subst..]).
  destruct (c2 =? 61), (c3 =? 61); lia.
Qed.

(** The last two characters of a group, read; fewer than three bytes only at
    the end. *)
Lemma group_chars c2 c3 s :
  group_shape c2 c3 s ->
  let last := match s with [] => true | _ => false end in
  exists v2 v3, decode_char last 2 c2 = Ret v2 /\ decode_char last 3 c3 = Ret v3 /\
    0 <= v2 < 64 /\ 0 <= v3 < 64 /\
    (3 - (if c2 =? 61 then 1 else 0) - (if c3 =? 61 then 1 else 0) = 3 \/ s = []).
Proof.
  intros H last. subst last. destruct H as [H2 H3 _|H2 -> ->| -> -> ->].
  - exists (b64val c2), (b64val c3). rewrite !decode_char_digit by done.
    split_and!; try done; try (by apply digit_value). left.
    apply digit_not_pad in H2, H3. by destruct (Z.eqb_spec c2 61), (Z.eqb_spec c3 61).
  - exists (b64val c2), 0. rewrite decode_char_digit, decode_char_pad by done.
    split_and!; try done; try (by apply digit_value). by right.
  - exists 0, 0. rewrite !decode_char_pad by done. split_and!; try done. by right.
Qed.

Lemma decode_loop_ok s : forall n out,
  well_formed s = true -> len out + out_len s = n ->
  exists out', decode_loop n s out = Ret (out ++ out') /\ len out' = out_len s /\ is_bytes out'.
Proof.
  induction s as [|a|a b|a b c|c0 c1 c2 c3 s IH] using four_ind; try done; intros n out.
  { intros _ _. exists []. by rewrite app_nil_r. }
  intros (H0 & H1 & H)%well_formed_group Hn. rewrite out_len_group in Hn |- * by done.
  set (k := 3 - (if c2 =? 61 then 1 else 0) - (if c3 =? 61 then 1 else 0)) in *.
  assert (Hk : 1 <= k <= 3) by (subst k; destruct (c2 =? 61), (c3 =? 61); lia).
  assert (Hs : well_formed s = true) by (destruct H; by subst).
  pose proof (out_len_nonneg s Hs) as Hge.
  destruct (group_chars _ _ _ H) as (v2 & v3 & E2 & E3 & Hv2 & Hv3 & Hlast). fold k in Hlast.
  rewrite (decode_group n c0 c1 c2 c3 s out v2 v3) by (done || lia). set (w := _ + v3).
  assert (Hlen : len (take (Z.to_nat (n - len out)) (out3 w)) = k).
  { rewrite length_take. cbn [out3 length]. destruct Hlast as [Hk3|Hs0]; [lia|].
    assert (out_len s = 0) by (by rewrite Hs0). lia. }
  destruct (IH n (out ++ take (Z.to_nat (n - len out)) (out3 w)) Hs) as (out' & E & Hl & Hb).
  { rewrite length_app. lia. }
  exists (take (Z.to_nat (n - len out)) (out3 w) ++ out'). rewrite app_assoc, length_app.
  split_and!; [done|lia|]. apply Forall_app. split; [apply Forall_take, out3_bytes|done].
Qed.

(** *** Refusals *)

Lemma decode_pad_group c0 c1 c2 c3 s :
  (2 <= length s)%nat -> decode_pad (c0 :: c1 :: c2 :: c3 :: s) = decode_pad s.
Proof.
  destruct s as [|x [|y s]]; cbn [length]; try lia. intros _. unfold decode_pad. cbn [length].
  replace (S (S (S (S (S (S (length s)))))) - 1)%nat with (4 + (S (S (length s)) - 1))%nat by lia.
  replace (S (S (S (S (S (S (length s)))))) - 2)%nat with (4 + (S (S (length s)) - 2))%nat by lia.
  done.
Qed.

Lemma decode_pad_ok s : well_formed s = true -> decode_pad s = Ret (pads s).
Proof.
  induction s as [|a|a b|a b c|c0 c1 c2 c3 s IH] using four_ind; try done.
  intros (H0%digit_not_pad & H1%digit_not_pad & H)%well_formed_group. rewrite !pads_cons.
  destruct (Z.eqb_spec c0 61), (Z.eqb_spec c1 61); try done.
  destruct H as [H2%digit_not_pad H3%digit_not_pad Hs|H2%digit_not_pad -> ->| -> -> ->].
  - destruct (Z.eqb_spec c2 61) as [|N2], (Z.eqb_spec c3 61) as [|N3]; try done.
    destruct s as [|x [|y s]]; [|done|].
    + unfold decode_pad. cbn. by rewrite (proj2 (Z.eqb_neq _ _) N2), (proj2 (Z.eqb_neq _ _) N3).
    + rewrite decode_pad_group by (cbn; lia). by apply IH.
  - unfold decode_pad. cbn. by rewrite (proj2 (Z.eqb_neq _ _) H2).
  - done.
Qed.

(** What is not well-formed is refused, by the padding count or in the loop. *)
Lemma decode_loop_refuses s : forall n out p,
  len s mod 4 = 0 -> well_formed s = false -> decode_pad s = Ret p -> decode_loop n s out = Fail.
Proof.
  induction s as [|a|a b|a b c|c0 c1 c2 c3 s IH] using four_ind; try done; intros n out p Hl Hw Hp.
  cbn [decode_loop]. set (last := match s with [] => true | _ => false end).
  destruct (decode_char_cases last 0 c0) as [->|[H0|(_ & ? & _)]]; [done| |lia].
  rewrite (decode_char_digit _ _ c0 H0). cbn [mbind outcome_bind].
  destruct (decode_char_cases last 1 c1) as [->|[H1|(_ & ? & _)]]; [done| |lia].
  rewrite (decode_char_digit _ _ c1 H1). cbn [mbind outcome_bind].
  destruct (decode_char_cases last 2 c2) as [->|H2]; [done|].
  destruct (decode_char last 2 c2) as [v2| | |] eqn:E2; [|done|by destruct (decode_char_defined last 2 c2)..].
  destruct (decode_char_cases last 3 c3) as [->|H3]; [done|].
  destruct (decode_char last 3 c3) as [v3| | |] eqn:E3; [|done|by destruct (decode_char_defined last 3 c3)..].
  cbn [mbind outcome_bind]. assert (Hl' : len s mod 4 = 0).
  { cbn [length] in Hl. rewrite !Nat2Z.inj_succ in Hl.
    replace (Z.succ (Z.succ (Z.succ (Z.succ (len s))))) with (len s + 1 * 4) in Hl by lia.
    by rewrite Z.mod_add in Hl by lia. }
  destruct s as [|c4 [|c5 s]]; [|done|].
  - exfalso. cbn [well_formed] in Hw. rewrite H0, H1 in Hw. unfold decode_pad in Hp. cbn in Hp.
    destruct H2 as [H2|(_ & _ & ->)], H3 as [H3|(_ & _ & ->)]; try rewrite H2 in Hw; try rewrite H3 in Hw; try done.
    apply digit_not_pad, Z.eqb_neq in H3. by rewrite H3 in Hp.
  - subst last. destruct H2 as [H2|(? & _)]; [|done]. destruct H3 as [H3|(? & _)]; [|done].
    rewrite decode_pad_group in Hp by (cbn; lia). eapply IH; [done| |done].
    cbn [well_formed] in Hw |- *. by rewrite H0, H1, H2, H3 in Hw.
Qed.

(** *** The encoder's text is well-formed *)

Lemma b64char_ok k v : digitb (b64char (sextet k v)) = true.
Proof.
  unfold digitb. rewrite b64val_b64char by apply sextet_range. pose proof (sextet_range k v).
  apply Z.leb_le. lia.
Qed.

Lemma b64_text_no_nul src : no_nul (b64_text src).
Proof.
  assert (forall k v, 0 < b64char (sextet k v) < 256) by (intros; apply b64char_digit, sextet_range).
  unfold no_nul. induction src as [|a|a b|a b c src IH] using three_ind; cbn [b64_text group take app];
    repeat (apply Forall_cons; split; [auto; lia|]); done.
Qed.

Lemma b64_text_well_formed src :
  well_formed (b64_text src) = true /\ out_len (b64_text src) = len src.
Proof.
  induction src as [|a|a b|a b c src [IH1 IH2]] using three_ind; [done|..].
  - cbn [b64_text group app take]. split; [cbn [well_formed]; by rewrite !b64char_ok|].
    by rewrite out_len_group by apply b64char_ok.
  - cbn [b64_text group app take]. split; [cbn [well_formed]; by rewrite !b64char_ok|].
    rewrite out_len_group by apply b64char_ok.
    pose proof (digit_not_pad _ (b64char_ok 1 (word24 a b 0))) as N1%Z.eqb_neq. by rewrite N1.
  - cbn [b64_text group app]. rewrite out_len_group by apply b64char_ok. rewrite IH2.
    pose proof (digit_not_pad _ (b64char_ok 1 (word24 a b c))) as N1%Z.eqb_neq.
    pose proof (digit_not_pad _ (b64char_ok 0 (word24 a b c))) as N0%Z.eqb_neq.
    rewrite N1, N0. split; [|cbn [length]; lia].
    cbn [well_formed]. rewrite !b64char_ok, IH1. by destruct (b64_text src).
Qed.

Lemma b64char_word a b c :
  is_byte a -> is_byte b -> is_byte c ->
  let v := word24 a b c in
  out3 (b64val (b64char (sextet 3 v)) * 262144 + b64val (b64char (sextet 2 v)) * 4096 +
        b64val (b64char (sextet 1 v)) * 64 + b64val (b64char (sextet 0 v))) = [a; b; c].
Proof.
  intros Ha Hb Hc v. rewrite !b64val_b64char by apply sextet_range.
  rewrite sextets_word by (subst v; unfold word24, is_byte in *; lia). by apply out3_word24.
Qed.

(** A whole group of the encoder comes back as its three bytes. *)
Lemma decode_loop_group n a b c s out :
  is_byte a -> is_byte b -> is_byte c -> len out + 3 <= n ->
  decode_loop n (group a b c ++ s) out = decode_loop n s (out ++ [a; b; c]).
Proof.
  intros Ha Hb Hc Hn. unfold group. cbn zeta. cbn [app].
  erewrite decode_group; [|apply b64char_ok..| | | | |lia];
    [|apply decode_char_digit, b64char_ok..|apply digit_value, b64char_ok|apply digit_value, b64char_ok].
  rewrite b64char_word by done. by rewrite (take_ge [a; b; c]) by (cbn [length]; lia).
Qed.

Lemma decode_loop_text n src out :
  is_bytes src -> n = len out + len src -> decode_loop n (b64_text src) out = Ret (out ++ src).
Proof.
  revert out. induction src as [|a|a b|a b c src IH] using three_ind; intros out Hs ->.
  - cbn. by rewrite app_nil_r.
  - apply Forall_cons in Hs as [Ha _]. cbn [b64_text group app take length].
    erewrite decode_group; [|apply b64char_ok..|by apply decode_char_pad|by apply decode_char_pad| | |lia];
      [|lia..]. cbn [decode_loop]. do 2 f_equal.
    pose proof (b64char_word a 0 0 Ha byte0 byte0) as E. cbn zeta in E.
    destruct (sextet_word24 a 0 0 Ha byte0 byte0) as (_ & _ & E1 & E0).
    rewrite E1, E0 in E. change (b64val (b64char (0 mod 16 * 4 + 0 / 64))) with 0 in E.
    change (b64val (b64char (0 mod 64))) with 0 in E. rewrite E.
    by replace (Z.to_nat (len out + Z.of_nat 1 - len out)) with 1%nat by lia.
  - apply Forall_cons in Hs as [Ha Hs]. apply Forall_cons in Hs as [Hb _]. cbn [b64_text group app take length].
    erewrite decode_group; [|apply b64char_ok..|apply decode_char_digit, b64char_ok|by apply decode_char_pad| | |lia];
      [|apply digit_value, b64char_ok|lia]. cbn [decode_loop]. do 2 f_equal.
    pose proof (b64char_word a b 0 Ha Hb byte0) as E. cbn zeta in E.
    destruct (sextet_word24 a b 0 Ha Hb byte0) as (_ & _ & _ & E0).
    rewrite E0 in E. change (b64val (b64char (0 mod 64))) with 0 in E. rewrite E.
    by replace (Z.to_nat (len out + Z.of_nat 2 - len out)) with 2%nat by lia.
  - apply Forall_cons in Hs as [Ha Hs]. apply Forall_cons in Hs as [Hb Hs]. apply Forall_cons in Hs as [Hc Hs].
    cbn [b64_text]. rewrite decode_loop_group by (done || cbn [length]; lia).
    rewrite IH by (done || rewrite length_app; cbn [length]; lia). by rewrite <- app_assoc.
Qed.

(** ** Properties *)

Section Theorems.
Context {A : Allocator}.

Lemma arpc_b64_encode_eq src :
  is_bytes src -> len src <= 2 ^ 62 ->
  arpc_b64_encode src = if grants (len (b64_text src) + 1) then Ret (b64_text src) else Fail.
Proof.
  intros Hs Hlen. unfold arpc_b64_encode. rewrite (u64_small (len src + 2)) by lia.
  pose proof (b64_text_length src) as Hl.
  assert (0 <= (len src + 2) / 3 <= (len src + 2)) by (Z.to_euclidean_division_equations; lia).
  assert ((len src + 2) / 3 * 4 <= 2 ^ 63) by (Z.to_euclidean_division_equations; lia).
  rewrite (u64_small ((len src + 2) / 3 * 4)) by lia. rewrite u64_small by lia. rewrite <- Hl.
  destruct (grants _); [|done]. by apply encode_spec; [|cbn; lia].
Qed.

Lemma arpc_b64_decode_text src :
  is_bytes src ->
  arpc_b64_decode (Some (b64_text src)) =
    if grants (if len src =? 0 then 1 else len src) then Ret (src, len src) else Fail.
Proof.
  intros Hs. unfold arpc_b64_decode. rewrite (cstr_no_nul _ (b64_text_no_nul src)).
  destruct (b64_text_well_formed src) as [Hw Ho]. rewrite (well_formed_length _ Hw).
  cbn [Z.eqb negb]. rewrite (decode_pad_ok _ Hw). cbn [mbind outcome_bind].
  change (len (b64_text src) / 4 * 3 - pads (b64_text src)) with (out_len (b64_text src)). rewrite Ho.
  destruct (grants _); [|done]. by rewrite (decode_loop_text _ _ []).
Qed.

(** A string that is not base64 is refused, whatever the heap does. *)
Lemma b64_refuses src : well_formed (cstr src) = false -> arpc_b64_decode (Some src) = Fail.
Proof.
  intros Hw. unfold arpc_b64_decode. set (s := cstr src) in *.
  destruct (Z.eqb_spec (len s mod 4) 0) as [Hm|]; cbn [negb]; [|done].
  destruct (decode_pad s) as [p| | |] eqn:Hp; cbn [mbind outcome_bind];
    [|done|by unfold decode_pad in Hp; repeat case_match..].
  destruct (grants _); [|done]. by rewrite (decode_loop_refuses _ _ _ _ Hm Hw Hp).
Qed.

(** The encoder computes the standard text: the bit string of the input
    cut six bits at a time, zeros filling the last group, and [=] up to a
    multiple of four characters.  It stays inside the buffer it allocated;
    it fails only when the heap does. *)
Theorem b64_encode_correct src :
  is_bytes src -> len src <= 2 ^ 62 ->
  (arpc_b64_encode src = Ret (b64_spec src) /\ len (b64_spec src) = (len src + 2) / 3 * 4) \/
  (arpc_b64_encode src = Fail /\ ~ TotalAllocator A).
Proof.
  intros Hs Hlen. rewrite arpc_b64_encode_eq by done. rewrite <- b64_text_spec by done.
  rewrite b64_text_length. destruct (grants _) eqn:Hg; [by left|right].
  split; [done|]. intros Ht. by rewrite Ht in Hg.
Qed.

(** C24. The encoder writes the standard text, the bit string of the bytes cut
    six bits at a time, and fails only when the heap does; decoding that text
    gives the bytes back and their number, for every buffer, the empty one
    included. *)
Theorem b64_roundtrip src :
  is_bytes src -> len src <= 2 ^ 62 ->
  ((arpc_b64_encode src = Ret (b64_spec src) /\ len (b64_spec src) = (len src + 2) / 3 * 4) \/
   (arpc_b64_encode src = Fail /\ ~ TotalAllocator A)) /\
  (TotalAllocator A -> arpc_b64_decode (Some (b64_spec src)) = Ret (src, len src)).
Proof.
  intros Hs Hlen. split; [by apply b64_encode_correct|]. intros Ht.
  rewrite <- b64_text_spec, arpc_b64_decode_text by done. by rewrite Ht.
Qed.

(** On any string at all the decoder returns, inside its buffer.  It
    accepts exactly the well-formed strings -- groups of four digits, the
    last of which may end in one or two [=] -- and then every byte of the
    length it reports has been stored. *)
Theorem b64_decode_correct src :
  match arpc_b64_decode (Some src) with
  | Ret (out, n) => well_formed (cstr src) = true /\ n = len out /\ is_bytes out /\
      n = len (cstr src) / 4 * 3 - pads (cstr src)
  | Fail => well_formed (cstr src) = false \/ ~ TotalAllocator A
  | _ => False
  end.
Proof.
  destruct (well_formed (cstr src)) eqn:Hw; [|rewrite b64_refuses by done; by left].
  unfold arpc_b64_decode. set (s := cstr src) in *.
  rewrite (well_formed_length _ Hw). cbn [Z.eqb negb]. rewrite (decode_pad_ok _ Hw).
  cbn [mbind outcome_bind]. change (len s / 4 * 3 - pads s) with (out_len s).
  destruct (grants _) eqn:Hg; [|right; intros Ht; by rewrite Ht in Hg].
  destruct (decode_loop_ok s (out_len s) [] Hw) as (out & -> & Hl & Hb); [done|].
  cbn. split_and!; done.
Qed.
End Theorems.

Lemma b64_encode_correct_witness :
  (arpc_b64_encode (A:=ample) [0; 255; 16; 7] = Ret (b64_spec [0; 255; 16; 7]) /\
    len (b64_spec [0; 255; 16; 7]) = (len [0; 255; 16; 7] + 2) / 3 * 4) \/
  (arpc_b64_encode (A:=ample) [0; 255; 16; 7] = Fail /\ ~ TotalAllocator ample).
Proof.
  apply (b64_encode_correct (A:=ample) [0; 255; 16; 7]); [|by vm_compute].
  apply (bool_decide_unpack (is_bytes [0; 255; 16; 7])). by vm_compute.
Defined.

Lemma b64_roundtrip_witness :
  arpc_b64_encode (A:=ample) [0; 255; 16; 7] = Ret (b64_spec [0; 255; 16; 7]) /\
  arpc_b64_decode (A:=ample) (Some (b64_spec [0; 255; 16; 7])) = Ret ([0; 255; 16; 7], 4).
Proof.
  destruct (b64_roundtrip (A:=ample) [0; 255; 16; 7]) as [[[He _]|[_ Hn]] Hd]; [|by vm_compute| |].
  - apply (bool_decide_unpack (is_bytes [0; 255; 16; 7])). by vm_compute.
  - split; [exact He|]. apply Hd, ample_total.
  - exfalso. apply Hn, ample_total.
Defined.

(** Padding bits that are not zero are not looked at: two texts, one buffer. *)
Example decode_not_injective :
  arpc_b64_decode (A:=ample) (Some (lit "QQ==")) = arpc_b64_decode (A:=ample) (Some (lit "QR==")).
Proof. vm_compute. reflexivity. Qed.
