(* ===== verification/Wire.v ===== *)
(** * Endpoint naming and framing: src/common/arpc_wire.c

    The name of the pipe is a hash of the root, the protocol version and the
    identity of the process, which Windows supplies.  The frames cross a
    handle whose ReadFile and WriteFile may move fewer bytes than asked: they
    are parameters, with what Windows documents of them as the laws of the
    class [Handle]. *)

From S2P Require Import Prelude.

(** ** Constants of arpc_wire.h *)

Definition ARPC_PROTO_VERSION : Z := 4.
Definition ARPC_RET_KEY : list Z := lit "@ret".
Definition ARPC_ROOT_SHIFT : Z := 40.
Definition ARPC_ROOT (id : Z) : Z := Z.shiftr id ARPC_ROOT_SHIFT.

(** ** The hash *)

Definition FNV_PRIME : Z := 1099511628211.
Definition fnv_step (h b : Z) : Z := u64 (Z.lxor h b * FNV_PRIME).
Definition fnv1a (h : Z) (p : list Z) : Z := foldl fnv_step h p.

(** ** Identity *)

(** The user as a string SID, and the integrity level. *)
Record arpc_identity := Identity { id_sid : list Z; id_integrity : Z }.

(** What the token of a process answers: the SID of the user as a string, and
    the last sub-authority of its mandatory label. *)
Record token := Token { tok_user : option (list Z); tok_label : option Z }.

(** [arpc_process_identity], from the token it opened. *)
Definition arpc_process_identity (tok : option token) : option arpc_identity :=
  match tok with
  | None => None
  | Some t =>
      match tok_user t with
      | None => None
      | Some s =>
          if strlen s <? 256 then
            match tok_label t with
            | None => None
            | Some rid => Some (Identity (cstr s) (u32 rid))
            end
          else None
      end
  end.

(** [arpc_peer_is]: the process at the other end, if it can be found and
    opened, and its token. *)
Definition arpc_peer_is (peer : option (option token)) (ours : arpc_identity) : bool :=
  match peer with
  | None => false
  | Some tok =>
      match arpc_process_identity tok with
      | None => false
      | Some theirs => streq (id_sid theirs) (id_sid ours) &&
                       (id_integrity theirs =? id_integrity ours)
      end
  end.

(** ** The name of the pipe *)

(** One character of the root, as it is hashed. *)
Definition fold_char (c : Z) : Z :=
  let c := if c =? 47 then 92 else c in
  if (65 <=? c) && (c <=? 90) then c - 65 + 97 else c.

(** The bytes of a 32-bit integer in memory, least significant first. *)
Definition le32 (v : Z) : list Z :=
  [Z.land v 255; Z.land (Z.shiftr v 8) 255; Z.land (Z.shiftr v 16) 255; Z.land (Z.shiftr v 24) 255].

Definition pipe_hash (msys_root : list Z) (me : arpc_identity) : Z :=
  let h := 14695981039346656037 in
  let h := foldl (fun h c => fnv1a h [fold_char c]) h (cstr msys_root) in
  let h := fnv1a h (lit "|") in
  let h := fnv1a h (le32 ARPC_PROTO_VERSION) in
  let h := fnv1a h (lit "|") in
  let h := fnv1a h (cstr (id_sid me)) in
  let h := fnv1a h (lit "|") in
  fnv1a h (le32 (id_integrity me)).

(** [%016llx] *)
Definition hexdigit (d : Z) : Z := if d <? 10 then 48 + d else 87 + d.
Fixpoint hexn (n : nat) (v : Z) : list Z :=
  match n with
  | O => []
  | S n => hexn n (v / 16) ++ [hexdigit (v mod 16)]
  end.

Definition pipe_text (h : Z) : list Z :=
  lit "\\.\pipe\alpmrpc." ++ [48 + ARPC_PROTO_VERSION] ++ lit "." ++ hexn 16 h.

(** [arpc_pipe_name]: what [snprintf] leaves in [out], and the result;
    nothing is written without an identity. *)
Definition arpc_pipe_name (msys_root : option (list Z)) (me : option arpc_identity) (outsz : Z)
  : option (list Z) * bool :=
  match msys_root, me with
  | Some root, Some me =>
      let s := pipe_text (pipe_hash root me) in
      (Some (if outsz =? 0 then [] else take (Z.to_nat (outsz - 1)) s),
       (0 <? len s) && (len s <? outsz))
  | _, _ => (None, false)
  end.

(** ** Paths *)

(** [strrchr]: the index of the last [c]. *)
Fixpoint strrchr_from (i : Z) (found : option Z) (path : list Z) (c : Z) : option Z :=
  match path with
  | [] => found
  | x :: path => strrchr_from (i + 1) (if x =? c then Some i else found) path c
  end.
Definition strrchr (path : list Z) (c : Z) : option Z := strrchr_from 0 None path c.

(** [b > a] on pointers, NULL below all of them. *)
Definition ptr_gt (b a : option Z) : bool :=
  match b, a with
  | Some b, Some a => a <? b
  | Some _, None => true
  | None, _ => false
  end.

(** [arpc_strip_dirs]: the path as it is left, and the result. *)
Fixpoint arpc_strip_dirs (path : list Z) (n : nat) : list Z * bool :=
  match n with
  | O => (path, true)
  | S n =>
      let a := strrchr path 92 in
      let b := strrchr path 47 in
      let a := if ptr_gt b a then b else a in
      match a with
      | None => (path, false)
      | Some i => arpc_strip_dirs (take (Z.to_nat i) path) n
      end
  end.

(** ** Framing *)

(** How a transfer was started on an overlapped handle. *)
Inductive io_start := IoDone | IoPending | IoError.

(** The calls on a handle.  [ReadFile h n] and [WriteFile h bs] on a
    synchronous handle give the bytes, or the count; on an overlapped one they
    start the transfer and [GetOverlappedResult] waits for it. *)
Class HandleOps (H : Type) := {
  ReadFile : H -> Z -> option (list Z) * H;
  WriteFile : H -> list Z -> option Z * H;
  start_read : H -> Z -> io_start * H;
  start_write : H -> list Z -> io_start * H;
  read_result : H -> option (list Z) * H;
  write_result : H -> option Z * H
}.

Section Framing.
Context `{HandleOps H}.

(** One transfer of the loop of [io_exact]; [ev]: the handle is overlapped. *)
Definition io_read (ev : bool) (h : H) (n : Z) : option (list Z) * H :=
  if ev then
    let '(st, h) := start_read h n in
    match st with IoError => (None, h) | _ => read_result h end
  else ReadFile h n.

Definition io_write (ev : bool) (h : H) (bs : list Z) : option Z * H :=
  if ev then
    let '(st, h) := start_write h bs in
    match st with IoError => (None, h) | _ => write_result h end
  else WriteFile h bs.

(** [io_exact] reading [n] bytes: what is in the buffer so far is [buf]. *)
Fixpoint read_exact (fuel : nat) (ev : bool) (h : H) (buf : list Z) (n : Z) : outcome (list Z) * H :=
  match fuel with
  | O => (NoFuel, h)
  | S fuel =>
      if n =? 0 then (Ret buf, h)
      else
        let '(r, h) := io_read ev h n in
        match r with
        | None => (Fail, h)
        | Some bs => if len bs =? 0 then (Fail, h)
                     else if len bs <=? n then read_exact fuel ev h (buf ++ bs) (n - len bs)
                     else (Undef, h)
        end
  end.

(** [io_exact] writing what is left of the buffer. *)
Fixpoint write_exact (fuel : nat) (ev : bool) (h : H) (p : list Z) : outcome unit * H :=
  match fuel with
  | O => (NoFuel, h)
  | S fuel =>
      if len p =? 0 then (Ret tt, h)
      else
        let '(r, h) := io_write ev h p in
        match r with
        | None => (Fail, h)
        | Some did => if did =? 0 then (Fail, h)
                      else if (0 <=? did) && (did <=? len p) then write_exact fuel ev h (drop (Z.to_nat did) p)
                      else (Undef, h)
        end
  end.

(** [arpc_send_frame]: the length is four bytes, and what is written after
    them its low 32 bits' worth. *)
Definition arpc_send_frame (ev : bool) (h : H) (buf : list Z) : outcome unit * H :=
  let hdr := le32 (len buf) in
  match write_exact (S (length hdr)) ev h hdr with
  | (Ret _, h) =>
      let p := take (Z.to_nat (u32 (len buf))) buf in
      write_exact (S (length p)) ev h p
  | (r, h) => (r, h)
  end.

(** [arpc_recv_frame]: the payload and [*len_out]. *)
Definition arpc_recv_frame {A : Allocator} (ev : bool) (h : H) : outcome (list Z * Z) * Z * H :=
  match read_exact 5 ev h [] 4 with
  | (Ret hdr, h) =>
      let l := Z.lor (Z.lor (Z.lor (nth 0 hdr 0) (Z.shiftl (nth 1 hdr 0) 8))
                            (Z.shiftl (nth 2 hdr 0) 16)) (Z.shiftl (nth 3 hdr 0) 24) in
      if (l =? 0) || (ARPC_MAX_FRAME <? l) then (Fail, l, h)
      else if grants (l + 1) then
        match read_exact (S (Z.to_nat l)) ev h [] l with
        | (Ret buf, h) => (Ret (buf, l), l, h)
        | (Fail, h) => (Fail, 0, h)
        | (Undef, h) => (Undef, 0, h)
        | (NoFuel, h) => (NoFuel, 0, h)
        end
      else (Fail, 0, h)
  | (Fail, h) => (Fail, 0, h)
  | (Undef, h) => (Undef, 0, h)
  | (NoFuel, h) => (NoFuel, 0, h)
  end.
End Framing.

(** ** What Windows promises of a handle *)

(** The bytes still to be read from a handle, and those written to it.  A read
    gives the next bytes, at most as many as asked, and fails without having
    taken any; on a handle with bytes to give it gives some, unless the
    connection is lost.  A write takes a prefix. *)
Class Handle (H : Type) `{HandleOps H} := {
  incoming : H -> list Z;
  outgoing : H -> list Z;
  io_read_some ev h n bs h' : 0 < n -> io_read ev h n = (Some bs, h') ->
    len bs <= n /\ incoming h = bs ++ incoming h' /\ outgoing h' = outgoing h;
  io_read_none ev h n h' : io_read ev h n = (None, h') -> outgoing h' = outgoing h;
  io_write_some ev h bs did h' : io_write ev h bs = (Some did, h') ->
    0 <= did <= len bs /\ outgoing h' = outgoing h ++ take (Z.to_nat did) bs /\ incoming h' = incoming h;
  io_write_none ev h bs h' : io_write ev h bs = (None, h') ->
    incoming h' = incoming h /\ exists k, outgoing h' = outgoing h ++ take k bs
}.

(** The peer stays: whatever is asked moves at least a byte. *)
Class Connected (H : Type) `{Handle H} := {
  connected_read ev h n : 0 < n -> incoming h <> [] -> exists bs h', io_read ev h n = (Some bs, h') /\ bs <> [];
  connected_write ev h bs : bs <> [] -> exists did h', io_write ev h bs = (Some did, h') /\ did <> 0
}.

(** What crossed a handle, in the order in which it did: the bytes read, each
    marked [false], and the bytes written, each marked [true]. *)
Definition event : Type := bool * Z.
Definition ins (bs : list Z) : list event := pair false <$> bs.
Definition outs (bs : list Z) : list event := pair true <$> bs.

(** The second handle is the first after transfers that moved these bytes in
    this order, whatever pieces they were moved in. *)
Inductive moves `{HandleOps H} : H -> list event -> H -> Prop :=
| moves_nil h : moves h [] h
| moves_read ev h n bs h1 l h2 :
    0 < n -> io_read ev h n = (Some bs, h1) -> moves h1 l h2 -> moves h (ins bs ++ l) h2
| moves_write ev h bs did h1 l h2 :
    io_write ev h bs = (Some did, h1) -> moves h1 l h2 -> moves h (outs (take (Z.to_nat did) bs) ++ l) h2.

Lemma moves_app `{HandleOps H} (h h1 h2 : H) l l' : moves h l h1 -> moves h1 l' h2 -> moves h (l ++ l') h2.
Proof.
  induction 1; intros Hm; [done|rewrite <- app_assoc; by eapply moves_read; eauto
                                |rewrite <- app_assoc; by eapply moves_write; eauto].
Qed.

(** ** The hash tells bytes apart *)

Definition is_u64 (h : Z) : Prop := 0 <= h < 18446744073709551616.

Definition FNV_INVERSE : Z := 14886173955864302971.

Lemma mul_prime_inj x y : is_u64 x -> is_u64 y -> u64 (x * FNV_PRIME) = u64 (y * FNV_PRIME) -> x = y.
Proof.
  unfold is_u64, u64. intros Hx Hy E.
  assert (Hinv : forall z, is_u64 z -> (z * FNV_PRIME) mod 18446744073709551616 * FNV_INVERSE mod 18446744073709551616 = z).
  { intros z Hz. rewrite Z.mul_mod_idemp_l by done. rewrite <- Z.mul_assoc.
    rewrite Z.mul_mod, (Z.mod_small z) by done. change (FNV_PRIME * FNV_INVERSE mod 18446744073709551616) with 1.
    rewrite Z.mul_1_r. by apply Z.mod_small. }
  rewrite <- (Hinv x Hx), <- (Hinv y Hy). by rewrite E.
Qed.

Lemma lxor_u64 h b : is_u64 h -> is_byte b -> is_u64 (Z.lxor h b).
Proof.
  unfold is_u64, is_byte. intros Hh Hb.
  assert (Hn : 0 <= Z.lxor h b) by (apply Z.lxor_nonneg; lia).
  split; [done|]. destruct (Z.eq_dec (Z.lxor h b) 0) as [->|Hz]; [lia|].
  change 18446744073709551616 with (2 ^ 64). apply Z.log2_lt_pow2; [lia|].
  pose proof (Z.log2_lxor h b ltac:(lia) ltac:(lia)).
  assert (Z.log2 h < 64). { destruct (Z.eq_dec h 0) as [->|]; [done|]. apply Z.log2_lt_pow2; lia. }
  assert (Z.log2 b < 64). { destruct (Z.eq_dec b 0) as [->|]; [done|]. apply Z.log2_lt_pow2; lia. }
  lia.
Qed.

Lemma fnv_step_u64 h b : is_u64 (fnv_step h b).
Proof. apply u64_range. Qed.

Lemma lxor_inj_l h h' b : Z.lxor h b = Z.lxor h' b -> h = h'.
Proof.
  intros E. rewrite <- (Z.lxor_0_r h), <- (Z.lxor_0_r h'), <- (Z.lxor_nilpotent b), <- !Z.lxor_assoc.
  by rewrite E.
Qed.

(** A step is one-to-one in the hash, and in the byte. *)
Lemma fnv_step_inj_hash h h' b :
  is_u64 h -> is_u64 h' -> is_byte b -> fnv_step h b = fnv_step h' b -> h = h'.
Proof.
  intros Hh Hh' Hb E. apply mul_prime_inj in E; [|by apply lxor_u64..]. by eapply lxor_inj_l.
Qed.

Lemma fnv_step_inj_byte h b b' :
  is_u64 h -> is_byte b -> is_byte b' -> fnv_step h b = fnv_step h b' -> b = b'.
Proof.
  intros Hh Hb Hb' E. apply mul_prime_inj in E; [|by apply lxor_u64..].
  rewrite !(Z.lxor_comm h) in E. by eapply lxor_inj_l.
Qed.

Lemma fnv1a_u64 h p : is_u64 h -> is_u64 (fnv1a h p).
Proof. revert h. induction p as [|b p IH]; intros h Hh; [done|]. apply IH, fnv_step_u64. Qed.

Lemma fnv1a_app h p q : fnv1a h (p ++ q) = fnv1a (fnv1a h p) q.
Proof. apply foldl_app. Qed.

Lemma fnv1a_inj_hash h h' p :
  is_u64 h -> is_u64 h' -> is_bytes p -> fnv1a h p = fnv1a h' p -> h = h'.
Proof.
  intros Hh Hh' Hp. revert h h' Hh Hh'. induction Hp as [|b p Hb _ IH]; intros h h' Hh Hh' E; [done|].
  apply IH in E; [|apply fnv_step_u64..]. by eapply fnv_step_inj_hash.
Qed.

(** Texts that differ in one byte have different hashes. *)
Lemma fnv1a_one_byte h p b b' q :
  is_u64 h -> is_byte b -> is_byte b' -> is_bytes q ->
  fnv1a h (p ++ b :: q) = fnv1a h (p ++ b' :: q) -> b = b'.
Proof.
  intros Hh Hb Hb' Hq. rewrite !fnv1a_app. cbn [fnv1a foldl]. intros E.
  apply fnv1a_inj_hash in E; [|apply fnv_step_u64..|done].
  by eapply fnv_step_inj_byte; [apply (fnv1a_u64 h p Hh)|..].
Qed.

(** *** The digits *)

Lemma hexdigit_inj d d' : 0 <= d < 16 -> 0 <= d' < 16 -> hexdigit d = hexdigit d' -> d = d'.
Proof. unfold hexdigit. repeat zcase; lia. Qed.

Lemma hexn_length n v : length (hexn n v) = n.
Proof. revert v. induction n as [|n IH]; intros v; [done|]. cbn. rewrite length_app, IH. cbn. lia. Qed.

Lemma hexn_inj n v v' :
  0 <= v < 16 ^ Z.of_nat n -> 0 <= v' < 16 ^ Z.of_nat n -> hexn n v = hexn n v' -> v = v'.
Proof.
  revert v v'. induction n as [|n IH]; intros v v' Hv Hv' E; [cbn in *; lia|].
  rewrite Nat2Z.inj_succ, Z.pow_succ_r in Hv, Hv' by lia. cbn [hexn] in E.
  apply app_inj_tail in E as [E1 E2].
  apply IH in E1; [|split; [apply Z.div_pos; lia|apply Z.div_lt_upper_bound; lia]..].
  apply hexdigit_inj in E2; [|apply Z.mod_pos_bound; lia..].
  rewrite (Z.div_mod v 16), (Z.div_mod v' 16) by lia. by rewrite E1, E2.
Qed.

Lemma pipe_text_length h : len (pipe_text h) = 35.
Proof. unfold pipe_text. rewrite !length_app, hexn_length. done. Qed.

Lemma pipe_text_inj h h' : is_u64 h -> is_u64 h' -> pipe_text h = pipe_text h' -> h = h'.
Proof.
  unfold is_u64, pipe_text. intros Hh Hh' E. apply app_inv_head in E. apply app_inv_head in E.
  apply app_inv_head in E. by eapply hexn_inj in E.
Qed.

(** *** The hash as one text *)

Lemma foldl_fold_char h root :
  foldl (fun h c => fnv1a h [fold_char c]) h root = fnv1a h (fold_char <$> root).
Proof. revert h. induction root as [|c root IH]; intros h; [done|]. apply IH. Qed.

(** Everything that is hashed, in order. *)
Definition hashed (root : list Z) (me : arpc_identity) : list Z :=
  (fold_char <$> cstr root) ++ lit "|" ++ le32 ARPC_PROTO_VERSION ++ lit "|" ++
  cstr (id_sid me) ++ lit "|" ++ le32 (id_integrity me).

Lemma pipe_hash_text root me : pipe_hash root me = fnv1a 14695981039346656037 (hashed root me).
Proof. unfold pipe_hash, hashed. cbn zeta. by rewrite foldl_fold_char, !fnv1a_app. Qed.

Lemma pipe_hash_u64 root me : is_u64 (pipe_hash root me).
Proof. rewrite pipe_hash_text. by apply fnv1a_u64. Qed.

(** ** Little-endian headers *)

Lemma le32_bytes v : is_bytes (le32 v).
Proof.
  unfold le32, is_byte. change 255 with (2 ^ 8 - 1).
  repeat constructor; rewrite land_ones_mod by lia; apply Z.mod_pos_bound; lia.
Qed.

Definition of_le32 (b : list Z) : Z :=
  Z.lor (Z.lor (Z.lor (nth 0 b 0) (Z.shiftl (nth 1 b 0) 8)) (Z.shiftl (nth 2 b 0) 16)) (Z.shiftl (nth 3 b 0) 24).

(** Four bytes, lowest first, add up. *)
Lemma of_le32_sum b0 b1 b2 b3 :
  is_byte b0 -> is_byte b1 -> is_byte b2 -> is_byte b3 ->
  of_le32 [b0; b1; b2; b3] = b0 + b1 * 256 + b2 * 65536 + b3 * 16777216.
Proof.
  unfold is_byte, of_le32. intros H0 H1 H2 H3. cbn [nth].
  rewrite (Z.lor_comm b0), lor_shiftl_add by lia.
  rewrite (Z.lor_comm _ (Z.shiftl b2 16)), lor_shiftl_add by lia.
  rewrite (Z.lor_comm _ (Z.shiftl b3 24)), lor_shiftl_add by lia.
  change (2 ^ 8) with 256. change (2 ^ 16) with 65536. change (2 ^ 24) with 16777216. lia.
Qed.

Lemma le32_mods v :
  le32 v = [v mod 256; v / 256 mod 256; v / 65536 mod 256; v / 16777216 mod 256].
Proof.
  unfold le32. change 255 with (2 ^ 8 - 1). rewrite !land_ones_mod by lia.
  by rewrite !Z.shiftr_div_pow2 by lia.
Qed.

Lemma of_le32_le32 v : 0 <= v -> of_le32 (le32 v) = u32 v.
Proof.
  intros Hv. rewrite le32_mods, of_le32_sum by (unfold is_byte; apply Z.mod_pos_bound; lia).
  unfold u32. Z.to_euclidean_division_equations; lia.
Qed.

Lemma le32_of_le32 b : length b = 4%nat -> is_bytes b -> le32 (of_le32 b) = b /\ 0 <= of_le32 b < 4294967296.
Proof.
  destruct b as [|b0 [|b1 [|b2 [|b3 [|b4 b]]]]]; try done. intros _ Hb.
  repeat (apply Forall_cons in Hb as [? Hb]). rewrite of_le32_sum by done. unfold is_byte in *.
  split; [|lia]. rewrite le32_mods. repeat f_equal; Z.to_euclidean_division_equations; lia.
Qed.

(** ** Exact transfers *)

Section Exact.
Context `{Handle H}.

(** Reading takes the next bytes off the handle, all of them or fails. *)
Lemma read_exact_spec fuel ev h buf n r h' :
  0 <= n -> (Z.to_nat n < fuel)%nat -> read_exact fuel ev h buf n = (r, h') ->
  outgoing h' = outgoing h /\
  ((exists bs, r = Ret (buf ++ bs) /\ len bs = n /\ incoming h = bs ++ incoming h') \/ r = Fail).
Proof.
  revert h buf n. induction fuel as [|fuel IH]; intros h buf n Hn Hf; [lia|]. cbn [read_exact].
  destruct (Z.eqb_spec n 0) as [->|Hn0].
  { intros [= <- <-]. split; [done|]. left. exists []. by rewrite app_nil_r. }
  destruct (io_read ev h n) as [[bs|] h1] eqn:E.
  2: { intros [= <- <-]. apply io_read_none in E. split; [done|by right]. }
  apply io_read_some in E as (Hl & Hi & Ho); [|lia].
  destruct (Z.eqb_spec (len bs) 0); [intros [= <- <-]; by split; [|right]|].
  destruct (Z.leb_spec (len bs) n); [|lia]. intros E. apply IH in E as [Ho' E]; [|lia|lia].
  split; [congruence|]. destruct E as [(bs' & -> & Hl' & Hi')|E]; [left|by right].
  exists (bs ++ bs'). rewrite app_assoc, length_app. split_and!; [done|lia|].
  by rewrite Hi, Hi', <- app_assoc.
Qed.

(** Writing appends a prefix, the whole of it when it succeeds. *)
Lemma write_exact_spec fuel ev h p r h' :
  (length p < fuel)%nat -> write_exact fuel ev h p = (r, h') ->
  incoming h' = incoming h /\
  exists k, outgoing h' = outgoing h ++ take k p /\
    (r = Ret tt /\ (length p <= k)%nat \/ r = Fail).
Proof.
  revert h p. induction fuel as [|fuel IH]; intros h p Hf; [lia|]. cbn [write_exact].
  destruct (Z.eqb_spec (len p) 0) as [Hp0|Hp0].
  { intros [= <- <-]. split; [done|]. exists 0%nat. rewrite app_nil_r. split; [done|left; split; [done|lia]]. }
  destruct (io_write ev h p) as [[did|] h1] eqn:E.
  2: { intros [= <- <-]. apply io_write_none in E as (Hi & k & Ho). split; [done|]. exists k. split; [done|by right]. }
  apply io_write_some in E as (Hl & Ho & Hi).
  destruct (Z.eqb_spec did 0) as [->|].
  { intros [= <- <-]. split; [done|]. exists 0%nat. rewrite Ho. split; [done|by right]. }
  destruct (Z.leb_spec 0 did); [|lia]. destruct (Z.leb_spec did (len p)); [|lia]. cbn [andb].
  intros E. apply IH in E as (Hi' & k & Ho' & Hr); [|rewrite length_drop; lia].
  split; [congruence|]. exists (Z.to_nat did + k)%nat.
  split; [rewrite Ho', Ho, <- app_assoc; f_equal; apply take_take_drop|].
  rewrite length_drop in Hr. destruct Hr as [[-> Hk]|Hr]; [left|by right]. split; [done|lia].
Qed.

(** A read of what the peer has sent, from a handle that stays connected. *)
Lemma read_exact_connected `{!Connected H} fuel ev h buf bs rest :
  (length bs < fuel)%nat -> incoming h = bs ++ rest ->
  exists h', read_exact fuel ev h buf (len bs) = (Ret (buf ++ bs), h') /\ incoming h' = rest.
Proof.
  revert h buf bs. induction fuel as [|fuel IH]; intros h buf bs Hf Hin; [lia|]. cbn [read_exact].
  destruct (Z.eqb_spec (len bs) 0) as [Hz|Hz].
  { destruct bs; [|cbn in Hz; lia]. exists h. by rewrite app_nil_r. }
  destruct (connected_read ev h (len bs)) as (b & h1 & E & Hb); [lia|rewrite Hin; by destruct bs|].
  rewrite E. apply io_read_some in E as (Hl & Hi & _); [|lia].
  destruct (Z.eqb_spec (len b) 0); [by destruct b|]. destruct (Z.leb_spec (len b) (len bs)); [|lia].
  assert (Hbs : bs = b ++ drop (length b) bs).
  { rewrite Hin in Hi. rewrite <- (take_drop (length b) bs) at 1. f_equal.
    apply (f_equal (take (length b))) in Hi. rewrite take_app_length in Hi.
    by rewrite take_app_le in Hi by lia. }
  destruct (IH h1 (buf ++ b) (drop (length b) bs)) as (h' & E' & Hi').
  - rewrite length_drop. destruct b; [done|]. cbn [length] in *. lia.
  - rewrite Hin, Hbs, <- app_assoc in Hi. by apply app_inv_head in Hi.
  - exists h'. rewrite length_drop in E'. replace (len bs - len b) with (Z.of_nat (length bs - length b)) by lia.
    rewrite E'. by rewrite <- app_assoc, <- Hbs.
Qed.

Lemma write_exact_connected `{!Connected H} fuel ev h p :
  (length p < fuel)%nat -> exists h', write_exact fuel ev h p = (Ret tt, h').
Proof.
  revert h p. induction fuel as [|fuel IH]; intros h p Hf; [lia|]. cbn [write_exact].
  destruct (Z.eqb_spec (len p) 0) as [Hz|Hz]; [by eexists|].
  destruct (connected_write ev h p) as (did & h1 & E & Hd); [by destruct p|]. rewrite E.
  apply io_write_some in E as (Hl & _).
  destruct (Z.eqb_spec did 0); [done|]. destruct (Z.leb_spec 0 did); [|lia].
  destruct (Z.leb_spec did (len p)); [|lia]. apply IH. rewrite length_drop. lia.
Qed.

(** The bytes of an exact transfer cross the handle in their order. *)
Lemma read_exact_moves fuel ev h buf n r h' :
  0 <= n -> read_exact fuel ev h buf n = (Ret r, h') -> exists bs, r = buf ++ bs /\ moves h (ins bs) h'.
Proof.
  revert h buf n. induction fuel as [|fuel IH]; intros h buf n Hn; [done|]. cbn [read_exact].
  destruct (Z.eqb_spec n 0) as [->|].
  { intros [= <- <-]. exists []. rewrite app_nil_r. split; [done|apply moves_nil]. }
  destruct (io_read ev h n) as [[bs|] h1] eqn:E; [|done]. destruct (len bs =? 0); [done|].
  destruct (Z.leb_spec (len bs) n); [|done]. intros Er. apply IH in Er as (bs' & -> & Hm); [|lia].
  exists (bs ++ bs'). rewrite app_assoc. split; [done|]. unfold ins. rewrite fmap_app.
  eapply moves_read; [|done..]. lia.
Qed.

Lemma write_exact_moves fuel ev h p h' : write_exact fuel ev h p = (Ret tt, h') -> moves h (outs p) h'.
Proof.
  revert h p. induction fuel as [|fuel IH]; intros h p; [done|]. cbn [write_exact].
  destruct (Z.eqb_spec (len p) 0) as [Hp|].
  { intros [= <-]. destruct p; [apply moves_nil|cbn in Hp; lia]. }
  destruct (io_write ev h p) as [[did|] h1] eqn:E; [|done]. destruct (did =? 0); [done|].
  destruct (_ && _); [|done]. intros Ew%IH. rewrite <- (take_drop (Z.to_nat did) p). unfold outs. rewrite fmap_app.
  by eapply moves_write.
Qed.
End Exact.

(** ** A handle that moves at most three bytes at a time *)

Module Trickle.
Record pipe := Pipe { p_in : list Z; p_out : list Z; p_read : Z; p_write : list Z }.

Definition get (p : pipe) (n : Z) : option (list Z) * pipe :=
  match p_in p with
  | [] => (None, p)
  | l => let k := Z.to_nat (Z.min 3 n) in
         (Some (take k l), Pipe (drop k l) (p_out p) (p_read p) (p_write p))
  end.

Definition put (p : pipe) (bs : list Z) : option Z * pipe :=
  (Some (len (take 3 bs)), Pipe (p_in p) (p_out p ++ take 3 bs) (p_read p) (p_write p)).

#[export] Instance ops : HandleOps pipe := {
  ReadFile := get;
  WriteFile := put;
  start_read p n := (IoPending, Pipe (p_in p) (p_out p) n (p_write p));
  start_write p bs := (IoPending, Pipe (p_in p) (p_out p) (p_read p) bs);
  read_result p := get p (p_read p);
  write_result p := put p (p_write p)
}.

Lemma get_spec p n r p' :
  get p n = (r, p') -> p_out p' = p_out p /\
  forall bs, r = Some bs -> 0 < n -> len bs <= n /\ p_in p = bs ++ p_in p'.
Proof.
  unfold get. destruct (p_in p) as [|x l] eqn:E; intros [= <- <-]; [done|].
  split; [done|]. intros bs [= <-] Hn. cbn [p_in]. rewrite take_drop, length_take. split; [lia|done].
Qed.

Lemma put_spec p bs :
  exists did p', put p bs = (Some did, p') /\ did = Z.min 3 (len bs) /\
    p_out p' = p_out p ++ take (Z.to_nat did) bs /\ p_in p' = p_in p.
Proof.
  eexists _, _. split; [reflexivity|]. rewrite length_take. split_and!; [lia| |done]. by destruct bs as [|a [|b [|c bs]]].
Qed.

#[export] Instance handle : Handle pipe.
Proof.
  refine {| incoming := p_in; outgoing := p_out |}.
  - intros ev h n bs h' Hn E. destruct ev; cbn in E; apply get_spec in E as [Ho E];
      destruct (E bs eq_refl Hn); by split_and!.
  - intros ev h n h' E. destruct ev; cbn in E; by apply get_spec in E as [Ho _].
  - intros ev h bs did h' E.
    assert (exists p, put p bs = (Some did, h') /\ p_in p = p_in h /\ p_out p = p_out h) as (p & E' & Hi & Ho).
    { destruct ev; cbn in E; [|by exists h]. by eexists; split; [exact E|]. }
    destruct (put_spec p bs) as (d & p' & Ep & Hd & Hpo & Hpi). rewrite Ep in E'. simplify_eq.
    rewrite <- Hi, <- Ho. split_and!; [lia|lia|done|done].
  - intros ev h bs h' E. by destruct ev.
Defined.

#[export] Instance connected : Connected pipe.
Proof.
  split.
  - intros ev h n Hn Hin. assert (forall p, p_in p = p_in h ->
      exists bs h', get p n = (Some bs, h') /\ bs <> []) as Hget.
    { intros p Hp. unfold get. rewrite Hp. cbn in Hin. destruct (p_in h) as [|x l]; [done|].
      eexists _, _. split; [reflexivity|]. replace (Z.to_nat (Z.min 3 n)) with (S (Z.to_nat (Z.min 3 n - 1))) by lia.
      done. }
    destruct ev; apply Hget; done.
  - intros ev h bs Hbs. assert (forall p, exists did h', put p bs = (Some did, h') /\ did <> 0) as Hput.
    { intros p. destruct (put_spec p bs) as (d & p' & Ep & Hd & _). exists d, p'. split; [done|].
      destruct bs; [done|]. cbn [length] in Hd. lia. }
    destruct ev; apply Hput.
Qed.
End Trickle.

(** A handle that keeps its history: on it, what [moves] says of two handles
    is what the history says has happened between them. *)
Module Logged.
Record logged (H : Type) := Log { lg_on : H; lg_pending : list Z; lg_log : list event }.
Arguments Log {H}.
Arguments lg_on {H}.
Arguments lg_pending {H}.
Arguments lg_log {H}.

Section Logged.
Context `{HH : Handle H}.

Definition took (h : logged H) (rb : option (list Z) * H) : option (list Z) * logged H :=
  (rb.1, Log rb.2 (lg_pending h) (lg_log h ++ match rb.1 with Some bs => ins bs | None => [] end)).
Definition gave (h : logged H) (bs : list Z) (rb : option Z * H) : option Z * logged H :=
  (rb.1, Log rb.2 bs (lg_log h ++ match rb.1 with Some did => outs (take (Z.to_nat did) bs) | None => [] end)).

#[export] Instance ops : HandleOps (logged H) := {
  ReadFile h n := took h (ReadFile (lg_on h) n);
  WriteFile h bs := gave h bs (WriteFile (lg_on h) bs);
  start_read h n := let '(st, b) := start_read (lg_on h) n in (st, Log b (lg_pending h) (lg_log h));
  start_write h bs := let '(st, b) := start_write (lg_on h) bs in (st, Log b bs (lg_log h));
  read_result h := took h (read_result (lg_on h));
  write_result h := gave h (lg_pending h) (write_result (lg_on h))
}.

Lemma logged_read ev h n : io_read ev h n = took h (io_read ev (lg_on h) n).
Proof.
  destruct ev; [|done]. cbn. destruct (start_read (lg_on h) n) as [[] b]; try done.
  unfold took. cbn. by rewrite app_nil_r.
Qed.

Lemma logged_write ev h bs : io_write ev h bs = gave h bs (io_write ev (lg_on h) bs).
Proof.
  destruct ev; [|done]. cbn. destruct (start_write (lg_on h) bs) as [[] b]; try done.
  unfold gave. cbn. by rewrite app_nil_r.
Qed.

#[export] Instance handle : Handle (logged H).
Proof.
  refine {| incoming h := incoming (lg_on h); outgoing h := outgoing (lg_on h) |}; intros ev h.
  - intros n bs h' Hn. rewrite logged_read. destruct (io_read ev (lg_on h) n) as [r b] eqn:E.
    intros [= -> <-]. by apply io_read_some in E.
  - intros n h'. rewrite logged_read. destruct (io_read ev (lg_on h) n) as [r b] eqn:E.
    intros [= -> <-]. by apply io_read_none in E.
  - intros bs did h'. rewrite logged_write. destruct (io_write ev (lg_on h) bs) as [r b] eqn:E.
    intros [= -> <-]. by apply io_write_some in E.
  - intros bs h'. rewrite logged_write. destruct (io_write ev (lg_on h) bs) as [r b] eqn:E.
    intros [= -> <-]. by apply io_write_none in E.
Defined.

#[export] Instance connected `{!Connected H} : Connected (logged H).
Proof.
  split; intros ev h.
  - intros n Hn Hin. destruct (connected_read ev (lg_on h) n Hn Hin) as (bs & b & E & Hb).
    rewrite logged_read, E. by eexists bs, _.
  - intros bs Hbs. destruct (connected_write ev (lg_on h) bs Hbs) as (did & b & E & Hd).
    rewrite logged_write, E. by eexists did, _.
Qed.

Lemma moves_logged h l h' : moves h l h' -> lg_log h' = lg_log h ++ l.
Proof.
  induction 1 as [h|ev h n bs h1 l h2 _ E _ IH|ev h bs did h1 l h2 E _ IH]; [by rewrite app_nil_r|..].
  - rewrite logged_read in E. destruct (io_read ev (lg_on h) n) as [r b]. injection E as -> <-.
    rewrite IH. cbn [lg_log fst]. by rewrite <- app_assoc.
  - rewrite logged_write in E. destruct (io_write ev (lg_on h) bs) as [r b]. injection E as -> <-.
    rewrite IH. cbn [lg_log fst]. by rewrite <- app_assoc.
Qed.
End Logged.
End Logged.

(** ** Properties *)

Section FramingTheorems.
Context `{Handle H} {A : Allocator}.

Definition frame (buf : list Z) : list Z := le32 (len buf) ++ buf.

(** Sending a frame of less than four gigabytes, on any handle: what
    has been written is a prefix of the length and the payload, and the
    whole of them when the call succeeds, however the handle splits the
    transfers; nothing is taken from the other direction. *)
Theorem send_frame_correct ev h buf r h' :
  len buf < 4294967296 -> arpc_send_frame ev h buf = (r, h') ->
  incoming h' = incoming h /\
  exists k, outgoing h' = outgoing h ++ take k (frame buf) /\
    ((r = Ret tt /\ (length (frame buf) <= k)%nat) \/ r = Fail).
Proof.
  intros Hlen. unfold arpc_send_frame, frame. rewrite u32_small, Nat2Z.id, (take_ge buf) by lia.
  set (hdr := le32 (len buf)). cbn zeta.
  destruct (write_exact (S (length hdr)) ev h hdr) as [r1 h1] eqn:E1.
  apply write_exact_spec in E1 as (Hi & k & Ho & Hr); [|lia].
  destruct Hr as [[-> Hk]| ->].
  - intros E2. apply write_exact_spec in E2 as (Hi2 & k2 & Ho2 & Hr2); [|lia].
    split; [congruence|]. exists (length hdr + k2)%nat.
    rewrite take_app_add, Ho2, Ho, (take_ge hdr), <- app_assoc by lia. split; [done|].
    destruct Hr2 as [[-> Hk2]| ->]; [left|by right]. rewrite length_app. split; [done|lia].
  - intros [= <- <-]. split; [done|]. exists (Nat.min k (length hdr)).
    rewrite take_app_le by lia. split; [|by right]. rewrite Ho. f_equal.
    destruct (decide (k <= length hdr)%nat); [f_equal; lia|]. rewrite !take_ge by lia. done.
Qed.

(** Receiving, on any handle: the call returns; a frame it hands over is
    the next bytes of the handle, its length between 1 and
    [ARPC_MAX_FRAME] and equal to the four bytes before it; when it hands
    over none, [*len_out] is 0 or the size it refused. *)
Theorem recv_frame_correct ev h r n h' :
  is_bytes (incoming h) -> arpc_recv_frame ev h = (r, n, h') ->
  outgoing h' = outgoing h /\
  ((exists buf, r = Ret (buf, n) /\ len buf = n /\ 0 < n <= ARPC_MAX_FRAME /\
      incoming h = frame buf ++ incoming h') \/
   (r = Fail /\ (n = 0 \/ ARPC_MAX_FRAME < n))).
Proof.
  intros Hb. unfold arpc_recv_frame, frame.
  destruct (read_exact 5 ev h [] 4) as [r1 h1] eqn:E1.
  apply read_exact_spec in E1 as [Ho1 [(hdr & -> & Hl & Hi)| ->]]; [| |lia..].
  2: { intros [= <- <- <-]. split; [done|right; auto]. }
  rewrite app_nil_l. assert (Hhb : is_bytes hdr) by (rewrite Hi in Hb; by apply Forall_app in Hb as [? _]).
  destruct (le32_of_le32 hdr) as [Hle Hr]; [lia|done|]. fold (of_le32 hdr). cbn zeta.
  destruct (Z.eqb_spec (of_le32 hdr) 0); cbn [orb]; [intros [= <- <- <-]; split; [done|right; auto]|].
  destruct (Z.ltb_spec ARPC_MAX_FRAME (of_le32 hdr)); [intros [= <- <- <-]; split; [done|right; auto]|].
  destruct (grants _); [|intros [= <- <- <-]; split; [done|right; auto]].
  destruct (read_exact _ ev h1 [] (of_le32 hdr)) as [r2 h2] eqn:E2.
  apply read_exact_spec in E2 as [Ho2 [(buf & -> & Hl2 & Hi2)| ->]]; [| |lia..].
  - intros [= <- <- <-]. split; [congruence|left]. exists buf. rewrite Hl2, Hle, Hi, Hi2, <- app_assoc.
    split_and!; [done|done|lia|lia|done].
  - intros [= <- <- <-]. split; [congruence|right; auto].
Qed.

(** Receiving returns a frame or fails, and writes nothing. *)
Lemma recv_frame_returns ev h r n h' :
  is_bytes (incoming h) -> arpc_recv_frame ev h = (r, n, h') ->
  outgoing h' = outgoing h /\ ((exists buf, r = Ret (buf, n)) \/ r = Fail).
Proof.
  intros Hb. unfold arpc_recv_frame. destruct (read_exact 5 ev h [] 4) as [r1 h1] eqn:E1.
  apply read_exact_spec in E1 as [Ho1 [(hdr & -> & Hl & Hi)| ->]]; [| |lia|cbn; lia].
  2: { intros [= <- <- <-]. split; [done|by right]. }
  rewrite app_nil_l. assert (Hhb : is_bytes hdr) by (rewrite Hi in Hb; by apply Forall_app in Hb as [? _]).
  destruct (le32_of_le32 hdr) as [Hle Hr]; [lia|done|]. fold (of_le32 hdr). cbn zeta.
  destruct (_ || _); [intros [= <- <- <-]; split; [done|by right]|].
  destruct (grants _); [|intros [= <- <- <-]; split; [done|by right]].
  destruct (read_exact _ ev h1 [] (of_le32 hdr)) as [r2 h2] eqn:E2.
  apply read_exact_spec in E2 as [Ho2 [(buf & -> & _ & _)| ->]]; [| |lia|lia]; intros [= <- <- <-]; (split; [congruence|]).
  - left. by exists buf.
  - by right.
Qed.

(** On a handle that stays connected a frame is written whole. *)
Lemma send_connected `{!Connected H} ev h buf :
  len buf < 4294967296 ->
  exists h', arpc_send_frame ev h buf = (Ret tt, h') /\
    outgoing h' = outgoing h ++ frame buf /\ incoming h' = incoming h.
Proof.
  intros Hlen. unfold arpc_send_frame, frame. rewrite u32_small, Nat2Z.id, (take_ge buf) by lia. cbn zeta.
  destruct (write_exact_connected (S (length (le32 (len buf)))) ev h (le32 (len buf))) as [h1 E1]; [lia|].
  rewrite E1. destruct (write_exact_connected (S (length buf)) ev h1 buf) as [h2 E2]; [lia|].
  exists h2. split; [done|]. apply write_exact_spec in E1 as (Hi1 & k1 & Ho1 & [[_ Hk1]|?]); [|done|lia].
  apply write_exact_spec in E2 as (Hi2 & k2 & Ho2 & [[_ Hk2]|?]); [|done|lia].
  rewrite Ho2, Ho1, (take_ge (le32 _)), (take_ge buf), <- app_assoc by done. split; [done|congruence].
Qed.

(** A frame sent crosses the handle, length first. *)
Lemma send_frame_moves ev h buf h' :
  len buf < 4294967296 -> arpc_send_frame ev h buf = (Ret tt, h') -> moves h (outs (frame buf)) h'.
Proof.
  intros Hlen. unfold arpc_send_frame, frame. rewrite u32_small, Nat2Z.id, (take_ge buf) by lia. cbn zeta.
  destruct (write_exact _ ev h _) as [[[]| | |] h1] eqn:E1; [|done..]. intros E2.
  apply write_exact_moves in E1, E2. unfold outs. rewrite fmap_app. by eapply moves_app.
Qed.

(** So does the frame that is received, when it is the next on the handle. *)
Lemma recv_frame_moves ev h buf n l h' :
  incoming h = frame buf ++ incoming h' -> 0 < len buf <= ARPC_MAX_FRAME ->
  arpc_recv_frame ev h = (Ret (buf, n), l, h') -> moves h (ins (frame buf)) h'.
Proof.
  unfold ARPC_MAX_FRAME. intros Hin Hlen. unfold arpc_recv_frame.
  destruct (read_exact 5 ev h [] 4) as [[hdr| | |] h1] eqn:E1; [|intros [=]..].
  pose proof E1 as Hm1. apply read_exact_moves in Hm1 as (b1 & Eb1 & Hm1); [|done].
  apply read_exact_spec in E1 as [_ [(bs & E & Hl & Hi)|[=]]]; [|lia|cbn; lia]. injection E as ->.
  rewrite app_nil_l in *. subst b1. unfold frame in Hin. rewrite Hi, <- app_assoc in Hin.
  apply app_inj_1 in Hin as [-> Hin]; [|unfold le32; cbn [length]; lia].
  fold (of_le32 (le32 (len buf))). rewrite of_le32_le32, u32_small by lia. cbn zeta.
  destruct (_ || _); [intros [=]|]. destruct (grants _); [|intros [=]].
  destruct (read_exact _ ev h1 [] (len buf)) as [[b| | |] h2] eqn:E2; [|intros [=]..]. intros [= -> _ _ ->].
  apply read_exact_moves in E2 as (b2 & -> & Hm2); [|lia]. unfold ins, frame. rewrite fmap_app. by eapply moves_app.
Qed.

(** And read whole from one. *)
Lemma recv_connected `{!Connected H} {Ht : TotalAllocator A} ev g buf rest :
  0 < len buf <= ARPC_MAX_FRAME -> incoming g = frame buf ++ rest ->
  exists g', arpc_recv_frame ev g = (Ret (buf, len buf), len buf, g') /\ incoming g' = rest /\
    outgoing g' = outgoing g.
Proof.
  unfold ARPC_MAX_FRAME, frame. rewrite <- app_assoc. intros Hlen Hin. unfold arpc_recv_frame.
  destruct (read_exact_connected 5 ev g [] (le32 (len buf)) (buf ++ rest)) as (g1 & E2 & Hg1); [cbn; lia|done|].
  change (len (le32 (len buf))) with 4 in E2. pose proof E2 as E2'. rewrite E2, app_nil_l.
  fold (of_le32 (le32 (len buf))). rewrite of_le32_le32, u32_small by lia. cbn zeta.
  destruct (Z.eqb_spec (len buf) 0); [lia|]. unfold ARPC_MAX_FRAME.
  destruct (Z.ltb_spec (64 * 1024 * 1024) (len buf)); [lia|]. cbn [orb]. rewrite Ht.
  destruct (read_exact_connected (S (Z.to_nat (len buf))) ev g1 [] buf rest) as (g2 & E3 & Hg2); [lia|done|].
  pose proof E3 as E3'. rewrite E3. exists g2. split_and!; [done|done|].
  apply read_exact_spec in E2' as [Ho1 _]; [|lia|cbn; lia]. apply read_exact_spec in E3' as [Ho2 _]; [|lia|lia]. congruence.
Qed.

(** C23. A frame sent is the frame received, whatever sizes the two handles
    move their bytes in and whatever follows it, synchronous or overlapped:
    the payload, its length, and not one byte of what comes after. This is
    so as long as no memory is refused. *)
Theorem frame_roundtrip `{Hc : !Connected H} {Ht : TotalAllocator A} ev ev' h g buf rest :
  0 < len buf <= ARPC_MAX_FRAME ->
  (forall h', arpc_send_frame ev h buf = (Ret tt, h') ->
     incoming g = drop (length (outgoing h)) (outgoing h') ++ rest) ->
  exists h' g', arpc_send_frame ev h buf = (Ret tt, h') /\
    arpc_recv_frame ev' g = (Ret (buf, len buf), len buf, g') /\ incoming g' = rest.
Proof.
  intros Hlen Hg. destruct (send_connected ev h buf) as (h' & Es & Ho & _); [unfold ARPC_MAX_FRAME in Hlen; lia|].
  pose proof (Hg h' Es) as Hin. rewrite Ho, drop_app_length in Hin.
  destruct (recv_connected ev' g buf rest Hlen Hin) as (g' & Er & Hr & _). by exists h', g'.
Qed.
End FramingTheorems.

(** Endpoints whose hashed texts differ in one byte are different endpoints. *)
Lemma pipe_text_one_byte root me root' me' p b b' q :
  hashed root me = p ++ b :: q -> hashed root' me' = p ++ b' :: q ->
  is_byte b -> is_byte b' -> is_bytes q -> b <> b' ->
  pipe_text (pipe_hash root me) <> pipe_text (pipe_hash root' me').
Proof.
  intros E E' Hb Hb' Hq Hne H. apply pipe_text_inj in H; [|apply pipe_hash_u64..].
  rewrite !pipe_hash_text, E, E' in H. by apply fnv1a_one_byte in H.
Qed.

(** The name exists exactly when the identity is known and the buffer
    holds its 35 characters and the NUL, and is then written whole; roots that
    differ only in the case of ASCII letters and in the separators used have
    the same name. *)
Theorem pipe_name_correct root me outsz :
  0 <= outsz ->
  arpc_pipe_name (Some root) None outsz = (None, false) /\
  ((arpc_pipe_name (Some root) (Some me) outsz).2 = true <-> 35 < outsz) /\
  (35 < outsz ->
     arpc_pipe_name (Some root) (Some me) outsz = (Some (pipe_text (pipe_hash root me)), true)) /\
  (forall root', fold_char <$> cstr root = fold_char <$> cstr root' ->
     arpc_pipe_name (Some root') (Some me) outsz = arpc_pipe_name (Some root) (Some me) outsz).
Proof.
  intros Hsz. unfold arpc_pipe_name. cbn [snd]. pose proof (pipe_text_length (pipe_hash root me)) as Hl.
  split_and!; [done|..].
  - rewrite pipe_text_length. destruct (Z.ltb_spec 35 outsz); [done|]. by split; [|lia].
  - intros Hlt. rewrite pipe_text_length. destruct (Z.ltb_spec 35 outsz); [|lia].
    destruct (Z.eqb_spec outsz 0); [lia|]. by rewrite take_ge by lia.
  - intros root' E. by rewrite !pipe_hash_text; unfold hashed; rewrite E.
Qed.

(** Separate worlds have separate endpoints: for one root and one user,
    two different integrity levels of Windows -- multiples of 0x100 below
    0x10000 -- never give the same name, so an elevated client and an
    unelevated server never meet. *)
Theorem pipe_name_elevation root sid i i' :
  is_bytes sid -> 0 <= i < 65536 -> 0 <= i' < 65536 -> i mod 256 = 0 -> i' mod 256 = 0 -> i <> i' ->
  pipe_text (pipe_hash root (Identity sid i)) <> pipe_text (pipe_hash root (Identity sid i')).
Proof.
  intros Hs Hi Hi' Hm Hm' Hne.
  apply (pipe_text_one_byte _ _ _ _
    ((fold_char <$> cstr root) ++ lit "|" ++ le32 ARPC_PROTO_VERSION ++ lit "|" ++ cstr sid ++ lit "|" ++ [0])
    (i / 256) (i' / 256) [0; 0]).
  1-2: unfold hashed; cbn [id_sid id_integrity]; rewrite <- !app_assoc; repeat f_equal;
    rewrite le32_mods; cbn [app]; repeat f_equal; Z.to_euclidean_division_equations; lia.
  1-2: unfold is_byte; Z.to_euclidean_division_equations; lia.
  - repeat constructor; lia.
  - Z.to_euclidean_division_equations; lia.
Qed.

(** The check behind the name: a peer passes exactly when its process can
    be found and opened, its identity read, and both the SID and the
    integrity level are ours. *)
Theorem peer_is_correct peer ours :
  arpc_peer_is peer ours = true <->
  exists t s rid, peer = Some (Some t) /\ tok_user t = Some s /\ tok_label t = Some rid /\
    strlen s < 256 /\ cstr s = cstr (id_sid ours) /\ u32 rid = id_integrity ours.
Proof.
  unfold arpc_peer_is, arpc_process_identity. split.
  - intros H. destruct peer as [[t|]|]; try done. destruct (tok_user t) as [s|] eqn:Es; [|done].
    destruct (Z.ltb_spec (strlen s) 256); [|done]. destruct (tok_label t) as [rid|] eqn:Er; [|done].
    unfold streq in H. cbn [id_sid id_integrity] in H. zbool. apply bool_decide_eq_true in H.
    rewrite cstr_idemp in H. by exists t, s, rid.
  - intros (t & s & rid & -> & -> & -> & Hl & Hs & Hi). destruct (Z.ltb_spec (strlen s) 256); [|lia].
    cbn [id_sid id_integrity]. unfold streq. rewrite cstr_idemp, bool_decide_true by done.
    by rewrite Hi, Z.eqb_refl.
Qed.

(** ** Stripping components *)

Definition is_sep (c : Z) : Prop := c = 92 \/ c = 47.

Lemma strrchr_from_app i f p q c :
  strrchr_from i f (p ++ q) c = strrchr_from (i + len p) (strrchr_from i f p c) q c.
Proof.
  revert i f. induction p as [|x p IH]; intros i f; [cbn; f_equal; lia|].
  cbn [app strrchr_from length]. rewrite IH. f_equal. lia.
Qed.

Lemma strrchr_from_none i f p c : c ∉ p -> strrchr_from i f p c = f.
Proof.
  revert i f. induction p as [|x p IH]; intros i f Hn; [done|]. cbn [strrchr_from].
  apply not_elem_of_cons in Hn as [Hx Hn]. destruct (Z.eqb_spec x c); [congruence|]. by apply IH.
Qed.

(** The last separator of [p ++ sep :: comp] is the one before [comp]. *)
Lemma strrchr_last p sep comp c :
  c ∉ comp -> strrchr (p ++ sep :: comp) c = if sep =? c then Some (len p) else strrchr p c.
Proof.
  intros Hn. unfold strrchr. rewrite strrchr_from_app. cbn [strrchr_from].
  rewrite strrchr_from_none by done. by rewrite Z.add_0_l.
Qed.

Lemma strrchr_from_bound i f p c k :
  (forall x, f = Some x -> x < i) -> strrchr_from i f p c = Some k -> k < i + len p.
Proof.
  revert i f. induction p as [|x p IH]; intros i f Hf H; [cbn in *; specialize (Hf k H); lia|].
  cbn [strrchr_from length] in *. apply IH in H; [lia|]. intros y. destruct (x =? c); [|intros Hy; specialize (Hf y Hy); lia].
  intros [= <-]. lia.
Qed.

Lemma strip_one p sep comp n :
  is_sep sep -> Forall (fun c => ~ is_sep c) comp ->
  arpc_strip_dirs (p ++ sep :: comp) (S n) = arpc_strip_dirs p n.
Proof.
  intros Hsep Hcomp. cbn [arpc_strip_dirs].
  assert (Hn : forall c, is_sep c -> c ∉ comp).
  { intros c Hc Hin. rewrite Forall_forall in Hcomp. by apply (Hcomp c). }
  rewrite !strrchr_last by (apply Hn; unfold is_sep; auto).
  assert (Hlt : forall c k, strrchr p c = Some k -> k < len p).
  { intros c k H. apply strrchr_from_bound in H; [lia|done]. }
  assert (E : take (Z.to_nat (len p)) (p ++ sep :: comp) = p) by (by rewrite Nat2Z.id, take_app_length).
  destruct Hsep as [-> | ->].
  - change (92 =? 92) with true. change (92 =? 47) with false. cbv iota.
    destruct (strrchr p 47) as [k|] eqn:Ek; cbn [ptr_gt]; [|by rewrite E].
    apply Hlt in Ek. destruct (Z.ltb_spec (len p) k); [lia|]. by rewrite E.
  - change (47 =? 92) with false. change (47 =? 47) with true. cbv iota.
    destruct (strrchr p 92) as [k|] eqn:Ek; cbn [ptr_gt]; [|by rewrite E].
    apply Hlt in Ek. destruct (Z.ltb_spec k (len p)); [|lia]. by rewrite E.
Qed.

(** A path made of [root] and components, each after a separator. *)
Definition join (root : list Z) (comps : list (Z * list Z)) : list Z :=
  foldl (fun p '(sep, comp) => p ++ sep :: comp) root comps.

Definition comps_ok (comps : list (Z * list Z)) : Prop :=
  Forall (fun '(sep, comp) => is_sep sep /\ Forall (fun c => ~ is_sep c) comp) comps.

(** Cutting [n] components off a path of a root and [n] components gives
    the root, whichever separators the path mixes; and where there are not
    that many it reports so. *)
Theorem strip_dirs_correct root comps :
  comps_ok comps ->
  arpc_strip_dirs (join root comps) (length comps) = (root, true) /\
  (Forall (fun c => ~ is_sep c) root ->
   forall n, (length comps < n)%nat -> (arpc_strip_dirs (join root comps) n).2 = false).
Proof.
  intros Hok. induction comps as [|[sep comp] comps IH] using rev_ind.
  - split; [done|]. intros Hr n Hn. destruct n as [|n]; [cbn in Hn; lia|]. cbn [join foldl arpc_strip_dirs].
    assert (forall c, is_sep c -> strrchr root c = None) as Hnone.
    { intros c Hc. apply strrchr_from_none. intros Hin. rewrite Forall_forall in Hr. by apply (Hr c). }
    rewrite !Hnone by (unfold is_sep; auto). done.
  - apply Forall_app in Hok as [Hok [[Hsep Hcomp] _]%Forall_cons]. destruct (IH Hok) as [IH1 IH2].
    unfold join. rewrite foldl_app, length_app. cbn [foldl length]. fold (join root comps).
    rewrite Nat.add_1_r, strip_one by done. split; [done|]. intros Hr n Hn.
    destruct n as [|n]; [lia|]. rewrite strip_one by done. apply IH2; [done|lia].
Qed.

(** ** The properties at work *)

Import Trickle.

Definition sample_pipe : pipe := Pipe [] [9] 0 [].
Definition sample_payload : list Z := lit "{}..{}".

(** The server's end, overlapped, and what it has on its handle once the
    client has written two frames. *)
Definition sample_peer : pipe :=
  Pipe (frame sample_payload ++ frame (lit "next")) [] 0 [].

Lemma send_frame_correct_witness :
  exists h', arpc_send_frame true sample_pipe sample_payload = (Ret tt, h') /\
    incoming h' = incoming sample_pipe.
Proof.
  destruct (arpc_send_frame true sample_pipe sample_payload) as [r h'] eqn:E.
  exists h'. destruct (send_frame_correct true sample_pipe sample_payload r h' ltac:(by vm_compute) E) as [Hi _].
  split; [|exact Hi]. vm_compute in E. by injection E as <- <-.
Defined.

Lemma recv_frame_correct_witness :
  exists h', arpc_recv_frame (A:=ample) true sample_peer = (Ret (sample_payload, 6), 6, h') /\
    outgoing h' = [].
Proof.
  destruct (arpc_recv_frame (A:=ample) true sample_peer) as [[r n] h'] eqn:E. exists h'.
  destruct (recv_frame_correct (A:=ample) true sample_peer r n h') as [Ho _]; [|exact E|].
  - apply (bool_decide_unpack (is_bytes (incoming sample_peer))). by vm_compute.
  - split; [|exact Ho]. vm_compute in E |- *. by injection E as <- <- <-.
Defined.

Lemma frame_roundtrip_witness :
  exists h' g', arpc_send_frame false sample_pipe sample_payload = (Ret tt, h') /\
    arpc_recv_frame (A:=ample) true sample_peer = (Ret (sample_payload, 6), 6, g') /\
    incoming g' = frame (lit "next").
Proof.
  apply (frame_roundtrip (A:=ample) false true sample_pipe sample_peer sample_payload (frame (lit "next"))).
  - by vm_compute.
  - intros h' E. vm_compute in E. injection E as <-. by vm_compute.
Defined.

Lemma pipe_name_correct_witness :
  (arpc_pipe_name (Some (lit "C:/dev/msys64")) (Some (Identity (lit "S-1-5-21") 8192)) 36).2 = true <-> 35 < 36.
Proof.
  apply (pipe_name_correct (lit "C:/dev/msys64") (Identity (lit "S-1-5-21") 8192) 36). lia.
Defined.

Lemma pipe_name_elevation_witness :
  pipe_text (pipe_hash (lit "C:\msys64") (Identity (lit "S-1-5-21") 8192)) <>
  pipe_text (pipe_hash (lit "C:\msys64") (Identity (lit "S-1-5-21") 12288)).
Proof.
  apply (pipe_name_elevation (lit "C:\msys64") (lit "S-1-5-21") 8192 12288); [|lia|lia|done|done|done].
  apply (bool_decide_unpack (is_bytes (lit "S-1-5-21"))). by vm_compute.
Defined.

Lemma strip_dirs_correct_witness :
  arpc_strip_dirs (lit "C:\msys64/usr\bin/alpmrpcd.exe") 3 = (lit "C:\msys64", true).
Proof.
  apply (strip_dirs_correct (lit "C:\msys64") [(47, lit "usr"); (92, lit "bin"); (47, lit "alpmrpcd.exe")]).
  repeat constructor; unfold is_sep; cbn; lia.
Defined.
