(* ===== verification/Probe.v ===== *)
(** * Open addressing with linear probing

    The theory both indexes of the handle table share.  A table is a function
    from positions to optional keys; [search] walks from the hash of a key to
    the first cell that is empty or holds it.  When every key sits where a
    walk from its hash meets no empty cell, the walk finds exactly the keys
    that are there, and storing at the cell it stops at keeps that so; it
    stops as soon as one cell is empty. *)

From S2P Require Import Prelude.

Section Probe.
Context {key : Type} `{EqDecision key}.
Context (h : key -> Z) (cap : Z).

(** The cell [d] steps after [s]. *)
Definition cell (s d : Z) : Z := (s + d) mod cap.

Fixpoint search (K : Z -> option key) (fuel : nat) (k : key) (i : Z) : outcome Z :=
  match fuel with
  | O => NoFuel
  | S fuel =>
      match K i with
      | None => Ret i
      | Some k' => if decide (k' = k) then Ret i else search K fuel k (cell i 1)
      end
  end.

Definition lookup_cell (K : Z -> option key) (k : key) : outcome Z :=
  search K (Z.to_nat cap) k (h k).

(** [j] is [d] steps from the hash of [k], past occupied cells only. *)
Definition path (K : Z -> option key) (k : key) (d j : Z) : Prop :=
  0 <= d < cap /\ j = cell (h k) d /\ forall d', 0 <= d' < d -> K (cell (h k) d') <> None.

Definition placed (K : Z -> option key) : Prop :=
  forall j k, 0 <= j < cap -> K j = Some k -> exists d, path K k d j.

Definition unique (K : Z -> option key) : Prop :=
  forall j j' k, 0 <= j < cap -> 0 <= j' < cap -> K j = Some k -> K j' = Some k -> j = j'.

Definition has_room (K : Z -> option key) : Prop := exists j, 0 <= j < cap /\ K j = None.

Definition store (K : Z -> option key) (i : Z) (k : key) : Z -> option key :=
  fun j => if j =? i then Some k else K j.

Hypothesis Hcap : 0 < cap.
Hypothesis Hh : forall k, 0 <= h k < cap.

Lemma cell_range s d : 0 <= cell s d < cap.
Proof. by apply Z.mod_pos_bound. Qed.

Lemma cell_0 s : 0 <= s < cap -> cell s 0 = s.
Proof. intros. unfold cell. rewrite Z.add_0_r. by apply Z.mod_small. Qed.

Lemma cell_cell s d e : cell (cell s d) e = cell s (d + e).
Proof. unfold cell. rewrite Z.add_mod_idemp_l by lia. f_equal. lia. Qed.

Lemma cell_inj s d d' : 0 <= d < cap -> 0 <= d' < cap -> cell s d = cell s d' -> d = d'.
Proof.
  unfold cell. intros Hd Hd' E. Z.to_euclidean_division_equations.
  assert (cap * (q - q0) = d - d') by lia. assert (q = q0) by nia. nia.
Qed.

Lemma cell_surj s j : 0 <= s < cap -> 0 <= j < cap -> exists d, 0 <= d < cap /\ j = cell s d.
Proof.
  intros Hs Hj. unfold cell. destruct (Z.le_gt_cases s j).
  - exists (j - s). split; [lia|]. rewrite Z.mod_small by lia. lia.
  - exists (j + cap - s). split; [lia|]. replace (s + (j + cap - s)) with (j + 1 * cap) by lia.
    rewrite Z.mod_add by lia. symmetry. by apply Z.mod_small.
Qed.

(** Where the walk stops: past cells that hold other keys. *)
Definition stops (K : Z -> option key) (k : key) (s d : Z) : Prop :=
  (K (cell s d) = None \/ K (cell s d) = Some k) /\
  forall d', 0 <= d' < d -> exists k', K (cell s d') = Some k' /\ k' <> k.

Lemma search_stops K k s e fuel :
  0 <= s < cap -> 0 <= e -> K (cell s e) = None -> e < Z.of_nat fuel ->
  exists d, 0 <= d <= e /\ search K fuel k s = Ret (cell s d) /\ stops K k s d.
Proof.
  revert s e. induction fuel as [|fuel IH]; intros s e Hs He Hn Hf; [lia|]. cbn [search].
  destruct (K s) as [k'|] eqn:E.
  2: { exists 0. unfold stops. rewrite cell_0, E by done. split_and!; [lia|lia|done|by left|intros; lia]. }
  destruct (decide (k' = k)) as [->|Hne].
  { exists 0. unfold stops. rewrite cell_0, E by done. split_and!; [lia|lia|done|by right|intros; lia]. }
  assert (He0 : e <> 0) by (intros ->; rewrite cell_0 in Hn by done; congruence).
  destruct (IH (cell s 1) (e - 1)) as (d & Hd & Es & Hst & Hbefore); [apply cell_range|lia| |lia|].
  { rewrite cell_cell. by replace (1 + (e - 1)) with e by lia. }
  exists (d + 1). rewrite Es. unfold stops. rewrite !cell_cell, (Z.add_comm 1 d) in *.
  split_and!; [lia|lia|done|done|]. intros d' Hd'. destruct (Z.eq_dec d' 0) as [->|].
  - exists k'. by rewrite cell_0.
  - destruct (Hbefore (d' - 1) ltac:(lia)) as (k'' & E'' & Hne'').
    rewrite cell_cell in E''. replace (1 + (d' - 1)) with d' in E'' by lia. by exists k''.
Qed.

(** A table with room: every walk ends. *)
Lemma lookup_stops K k :
  has_room K -> exists d, 0 <= d < cap /\ lookup_cell K k = Ret (cell (h k) d) /\ stops K k (h k) d.
Proof.
  intros (j & Hj & Hn). destruct (cell_surj (h k) j (Hh k) Hj) as (e & He & ->).
  destruct (search_stops K k (h k) e (Z.to_nat cap)) as (d & Hd & E & Hs); [apply Hh|lia|done|lia|].
  exists d. split_and!; [lia|lia|done|done..].
Qed.

(** A key that is there is found where it is. *)
Lemma lookup_present K k j :
  has_room K -> placed K -> unique K -> 0 <= j < cap -> K j = Some k -> lookup_cell K k = Ret j.
Proof.
  intros Hr Hp Hu Hj Ek. destruct (lookup_stops K k Hr) as (d & Hd & -> & Hst & Hbefore).
  destruct (Hp j k Hj Ek) as (e & He & -> & Hocc). f_equal.
  destruct (Z.lt_trichotomy d e) as [Hlt|[->|Hgt]]; [|done|].
  - destruct Hst as [Hn|Hs]; [by apply Hocc in Hn; [|lia]|].
    eapply Hu; [apply cell_range|apply cell_range|done|done].
  - destruct (Hbefore e ltac:(lia)) as (k' & E' & Hne). congruence.
Qed.

(** A key that is not there leads to an empty cell. *)
Lemma lookup_absent K k :
  has_room K -> (forall j, 0 <= j < cap -> K j <> Some k) ->
  exists i, lookup_cell K k = Ret i /\ 0 <= i < cap /\ K i = None /\
    (exists d, path K k d i).
Proof.
  intros Hr Hn. destruct (lookup_stops K k Hr) as (d & Hd & -> & Hst & Hbefore).
  exists (cell (h k) d). split_and!; [done|apply cell_range|apply cell_range| |].
  - destruct Hst as [?|Hs]; [done|]. by apply Hn in Hs; [|apply cell_range].
  - exists d. split_and!; [lia|lia|done|]. intros d' Hd'. destruct (Hbefore d' Hd') as (k' & -> & _). done.
Qed.

(** What the walk's answer means. *)
Lemma lookup_spec K k :
  has_room K -> placed K -> unique K ->
  exists i, lookup_cell K k = Ret i /\ 0 <= i < cap /\ (K i = None \/ K i = Some k) /\
    (K i = None -> forall j, 0 <= j < cap -> K j <> Some k).
Proof.
  intros Hr Hp Hu. destruct (lookup_stops K k Hr) as (d & Hd & E & Hst & _).
  exists (cell (h k) d). split_and!; [done|apply cell_range|apply cell_range|done|].
  intros Hn j Hj Ek. pose proof (lookup_present K k j Hr Hp Hu Hj Ek) as E'. rewrite E in E'.
  injection E' as E'. congruence.
Qed.

Lemma store_placed K k i :
  placed K -> K i = None -> (exists d, path K k d i) -> placed (store K i k).
Proof.
  intros Hp Hn (d & Hd & Hi & Hocc) j k' Hj. unfold store at 1.
  assert (Hkeep : forall x, K x <> None -> store K i k x <> None).
  { intros x Hx. unfold store. by destruct (x =? i). }
  destruct (Z.eqb_spec j i) as [->|Hne].
  - intros [= <-]. exists d. split_and!; [lia|lia|done|auto].
  - intros Ek. destruct (Hp j k' Hj Ek) as (e & He & Hje & Hocc').
    exists e. split_and!; [lia|lia|done|auto].
Qed.

Lemma store_unique K k i :
  unique K -> (forall j, 0 <= j < cap -> K j <> Some k) -> unique (store K i k).
Proof.
  intros Hu Hn j j' k' Hj Hj'. unfold store.
  destruct (Z.eqb_spec j i), (Z.eqb_spec j' i); intros E E'; subst; try done; try congruence.
  - simplify_eq. by apply Hn in E'.
  - simplify_eq. by apply Hn in E.
  - by eapply Hu.
Qed.
End Probe.
