(* ===== verification/CbRegistry.v ===== *)
(** * Which callbacks a client asked for: the registry of
    src/server/arpc_callbacks.c

    A linked list of registrations, one per handle, newest first, a bit per
    kind of callback.  The trampolines ask [arpc_cb_wanted]; dropping a handle
    purges its registration. *)

From S2P Require Import Prelude.

Record cbreg := CbReg { r_handle : Z; r_enabled : Z }.

(** [g_regs], in the order of the links. *)
Abbreviation cbregs := (list cbreg).

Fixpoint reg_find (regs : cbregs) (handle : Z) : option cbreg :=
  match regs with
  | [] => None
  | r :: regs => if r_handle r =? handle then Some r else reg_find regs handle
  end.

Definition sizeof_cbreg : Z := 24.

(** [reg_for]: the registration, made at the head of the list when asked; NULL
    is [None]. *)
Definition reg_for `{Allocator} (regs : cbregs) (handle : Z) (create : bool) : cbregs * option cbreg :=
  match reg_find regs handle with
  | Some r => (regs, Some r)
  | None =>
      if negb create then (regs, None)
      else if grants sizeof_cbreg then
        let r := CbReg handle 0 in (r :: regs, Some r)
      else (regs, None)
  end.

(** [arpc_cb_purge]: every registration of the handle is unlinked. *)
Fixpoint arpc_cb_purge (regs : cbregs) (handle : Z) : cbregs :=
  match regs with
  | [] => []
  | r :: regs => if r_handle r =? handle then arpc_cb_purge regs handle
                 else r :: arpc_cb_purge regs handle
  end.

(** [1u << kind] for the kinds there are. *)
Definition kind_bit (kind : Z) : Z := u32 (Z.shiftl 1 kind).

Definition arpc_cb_wanted (regs : cbregs) (handle kind : Z) : bool :=
  match reg_find regs handle with
  | Some r => negb (Z.land (r_enabled r) (kind_bit kind) =? 0)
  | None => false
  end.

(** An assignment to [r->enabled] of the registration [reg_for] found. *)
Fixpoint reg_set (regs : cbregs) (handle enabled : Z) : cbregs :=
  match regs with
  | [] => []
  | r :: regs => if r_handle r =? handle then CbReg handle enabled :: regs
                 else r :: reg_set regs handle enabled
  end.

(** [r->enabled |= (1u << kind)] or [r->enabled &= ~(1u << kind)]. *)
Definition cb_enable (r : cbreg) (kind : Z) (enabled : bool) : Z :=
  if enabled then Z.lor (r_enabled r) (kind_bit kind)
  else Z.land (r_enabled r) (Z.lxor (kind_bit kind) 4294967295).

(** The registration part of [arpc_cb_set]: [None] when the heap refused. *)
Definition cb_register `{Allocator} (regs : cbregs) (handle kind : Z) (enabled : bool) : option cbregs :=
  match reg_for regs handle true with
  | (regs, Some r) => Some (reg_set regs handle (cb_enable r kind enabled))
  | (_, None) => None
  end.

(** ** Properties *)

Lemma purge_find regs handle h' :
  reg_find (arpc_cb_purge regs handle) h' = if h' =? handle then None else reg_find regs h'.
Proof.
  induction regs as [|r regs IH]; [by destruct (h' =? handle)|]. cbn [arpc_cb_purge reg_find].
  destruct (Z.eqb_spec (r_handle r) handle) as [->|Hne].
  - rewrite IH. destruct (Z.eqb_spec h' handle) as [E|]; [done|].
    destruct (Z.eqb_spec handle h'); [congruence|done].
  - cbn [reg_find]. destruct (Z.eqb_spec (r_handle r) h') as [E|]; [|done].
    destruct (Z.eqb_spec h' handle); [congruence|done].
Qed.

Lemma reg_set_find regs handle e h' :
  (exists r, reg_find regs handle = Some r) ->
  reg_find (reg_set regs handle e) h' = if h' =? handle then Some (CbReg handle e) else reg_find regs h'.
Proof.
  induction regs as [|r regs IH]; intros [r0 Hr0]; [done|]. cbn [reg_find reg_set] in *.
  destruct (Z.eqb_spec (r_handle r) handle) as [E|Hne].
  - cbn [reg_find r_handle]. rewrite (Z.eqb_sym handle h').
    destruct (Z.eqb_spec h' handle) as [Hh|Hh]; [done|]. destruct (Z.eqb_spec (r_handle r) h'); [congruence|done].
  - cbn [reg_find]. rewrite IH by eauto. destruct (Z.eqb_spec (r_handle r) h') as [E|]; [|done].
    destruct (Z.eqb_spec h' handle); [congruence|done].
Qed.

Lemma kind_bit_pow kind : 0 <= kind < 32 -> kind_bit kind = 2 ^ kind.
Proof.
  intros Hk. unfold kind_bit. rewrite Z.shiftl_1_l. apply u32_small. split; [by apply Z.pow_nonneg|].
  change 4294967296 with (2 ^ 32). apply Z.pow_lt_mono_r; lia.
Qed.

(** A bit is tested by masking. *)
Lemma land_bit e kind : 0 <= kind -> negb (Z.land e (2 ^ kind) =? 0) = Z.testbit e kind.
Proof.
  intros Hk. assert (E : Z.testbit (Z.land e (2 ^ kind)) kind = Z.testbit e kind).
  { by rewrite Z.land_spec, Z.pow2_bits_true, andb_true_r. }
  destruct (Z.eqb_spec (Z.land e (2 ^ kind)) 0) as [Hz|Hz]; cbn [negb].
  - by rewrite <- E, Hz, Z.bits_0.
  - destruct (Z.testbit e kind) eqn:Eb; [done|]. exfalso. apply Hz.
    apply Z.bits_inj'. intros n Hn. rewrite Z.land_spec, Z.bits_0.
    destruct (Z.eq_dec n kind) as [->|]; [by rewrite Eb|].
    rewrite Z.pow2_bits_false by lia. apply andb_false_r.
Qed.

Lemma cb_enable_bit r kind k enabled :
  0 <= kind < 32 -> 0 <= k < 32 ->
  Z.testbit (cb_enable r kind enabled) k = if k =? kind then enabled else Z.testbit (r_enabled r) k.
Proof.
  intros Hkind Hk. unfold cb_enable. rewrite kind_bit_pow by done. destruct enabled.
  - rewrite Z.lor_spec. destruct (Z.eqb_spec k kind) as [->|].
    + rewrite Z.pow2_bits_true by lia. apply orb_true_r.
    + rewrite Z.pow2_bits_false by lia. apply orb_false_r.
  - rewrite Z.land_spec, Z.lxor_spec. change 4294967295 with (Z.ones 32).
    rewrite Z.ones_spec_low by lia. rewrite xorb_true_r. destruct (Z.eqb_spec k kind) as [->|].
    + rewrite Z.pow2_bits_true by lia. apply andb_false_r.
    + rewrite Z.pow2_bits_false by lia. apply andb_true_r.
Qed.

(** Setting a callback changes that bit of that handle and nothing else,
    and purging a handle forgets all of its callbacks and no one else's; both
    for every kind the 32 bits have room for. *)
Theorem cb_registry_correct `{A : Allocator} regs handle kind enabled h' k :
  0 <= kind < 32 -> 0 <= k < 32 ->
  (match cb_register regs handle kind enabled with
   | Some regs' => arpc_cb_wanted regs' h' k =
       if (h' =? handle) && (k =? kind) then enabled else arpc_cb_wanted regs h' k
   | None => ~ TotalAllocator A
   end) /\
  arpc_cb_wanted (arpc_cb_purge regs handle) h' k =
    (if h' =? handle then false else arpc_cb_wanted regs h' k).
Proof.
  intros Hkind Hk. unfold arpc_cb_wanted. rewrite purge_find. split; [|by destruct (h' =? handle)].
  unfold cb_register, reg_for. rewrite (kind_bit_pow k) by done.
  destruct (reg_find regs handle) as [r|] eqn:Er.
  - rewrite reg_set_find by eauto. destruct (Z.eqb_spec h' handle) as [Eh|]; [|done].
    cbn [r_enabled andb]. rewrite Eh, Er, !land_bit, cb_enable_bit by lia. done.
  - cbn [negb]. destruct (grants sizeof_cbreg) eqn:Hg; [|intros Ht; by rewrite Ht in Hg].
    rewrite reg_set_find by (cbn; rewrite Z.eqb_refl; eauto). cbn [reg_find r_handle].
    destruct (Z.eqb_spec h' handle) as [Eh|]; cbn [andb].
    + rewrite Eh, Er. cbn [r_enabled]. rewrite land_bit, cb_enable_bit by lia. cbn [r_enabled]. rewrite Z.bits_0.
      by destruct (k =? kind).
    + by destruct (Z.eqb_spec handle h'); [congruence|].
Qed.

Lemma cb_registry_correct_witness :
  arpc_cb_wanted (arpc_cb_purge [CbReg 7 3; CbReg 8 1] 7) 8 0 = true.
Proof.
  exact (proj2 (cb_registry_correct (A:=ample) [CbReg 7 3; CbReg 8 1] 7 2 true 8 0
    ltac:(lia) ltac:(lia))).
Defined.
