(* ===== verification/HandleTable.v ===== *)
(** * The handle table of src/server/arpc_server.c

    Two open-addressed indexes over one array of slots, as the C has them:
    by id and by (pointer, tag).  The arrays are lists of [g_cap] cells, an
    access outside of them is [Undef], a probe loop that would not end is
    [NoFuel]; the calls of [release] functions are recorded in order.
    HandleCore.v has the invariant, HandleSpec.v the abstract table and the
    refinement, HandleTheorems.v the properties. *)

From S2P Require Import Prelude CbRegistry.

(** [release] is the address of the function, 0 for NULL. *)
Record slot := Slot {
  s_id : Z;
  s_ptr : Z;
  s_owner : Z;
  s_tag : Z;
  s_release : Z
}.

Definition empty_slot : slot := Slot 0 0 0 0 0.

Record htab := HTab {
  g_tab : list slot;
  g_byptr : list Z;
  g_cap : Z;
  g_used : Z;
  g_next_seq : Z;
  g_next_root : Z;
  g_released : list (Z * Z)   (* the calls release(ptr) made so far *)
}.

(** The static initialisers. *)
Definition htab0 : htab := HTab [] [] 0 0 1 1 [].

Definition ARPC_H_NONE : Z := 0.
(** arpc_handle_tags.h is generated; the runtime refers to one tag by name. *)
Class Tags := { ARPC_H_HANDLE : Z }.

Definition sizeof_slot : Z := 40.
Definition sizeof_size_t : Z := 8.

Definition mix (x mask : Z) : Z := Z.land (Z.shiftr (u64 (x * 11400714819323198485)) 32) mask.

(** The loop of [slot_for], at cell [i]. *)
Fixpoint slot_for_loop (fuel : nat) (tab : list slot) (mask id i : Z) : outcome Z :=
  match fuel with
  | O => NoFuel
  | S fuel =>
      match tab !! Z.to_nat i with
      | None => Undef
      | Some s => if negb (s_id s =? 0) && negb (s_id s =? id)
                  then slot_for_loop fuel tab mask id (Z.land (i + 1) mask)
                  else Ret i
      end
  end.

Definition slot_for (tab : list slot) (cap id : Z) : outcome Z :=
  slot_for_loop (Z.to_nat cap) tab (cap - 1) id (mix id (cap - 1)).

(** The loop of [ptr_for]. *)
Fixpoint ptr_for_loop (fuel : nat) (tab : list slot) (byptr : list Z) (mask p tag i : Z) : outcome Z :=
  match fuel with
  | O => NoFuel
  | S fuel =>
      match byptr !! Z.to_nat i with
      | None => Undef
      | Some b =>
          if b =? 0 then Ret i
          else
            match tab !! Z.to_nat (b - 1) with
            | None => Undef
            | Some s => if (s_ptr s =? p) && (s_tag s =? tag) then Ret i
                        else ptr_for_loop fuel tab byptr mask p tag (Z.land (i + 1) mask)
            end
      end
  end.

Definition ptr_for (tab : list slot) (byptr : list Z) (cap p tag : Z) : outcome Z :=
  ptr_for_loop (Z.to_nat cap) tab byptr (cap - 1) p tag
    (mix (Z.lxor p (u64 (Z.shiftl tag 56))) (cap - 1)).

Definition index_ptr (tab : list slot) (byptr : list Z) (cap si : Z) : outcome (list Z) :=
  match tab !! Z.to_nat si with
  | None => Undef
  | Some s => i ← ptr_for tab byptr cap (s_ptr s) (s_tag s);
              Ret (<[Z.to_nat i := si + 1]> byptr)
  end.

Section Handles.
Context {A : Allocator} {T : Tags}.

(** [calloc]: NULL too when the product does not fit a [size_t]. *)
Definition calloc_ok (n size : Z) : bool := (n * size <? 18446744073709551616) && grants (n * size).

(** The loop of [rebuild] over the old slots. *)
Fixpoint rebuild_loop (ncap : Z) (keep : option (slot -> outcome bool)) (old : list slot)
    (nt : list slot) (np : list Z) (used : Z) (rel : list (Z * Z))
  : outcome (list slot * list Z * Z * list (Z * Z)) :=
  match old with
  | [] => Ret (nt, np, used, rel)
  | s :: old =>
      if s_id s =? 0 then rebuild_loop ncap keep old nt np used rel
      else
        kept ← match keep with Some f => f s | None => Ret true end;
        if kept : bool then
          si ← slot_for nt ncap (s_id s);
          let nt := <[Z.to_nat si := s]> nt in
          np ← index_ptr nt np ncap si;
          rebuild_loop ncap keep old nt np (used + 1) rel
        else
          rebuild_loop ncap keep old nt np used
            (if s_release s =? 0 then rel else rel ++ [(s_release s, s_ptr s)])
  end.

Definition rebuild (t : htab) (ncap : Z) (keep : option (slot -> outcome bool)) : outcome (htab * bool) :=
  if calloc_ok ncap sizeof_slot && calloc_ok ncap sizeof_size_t then
    '(nt, np, used, rel) ← rebuild_loop ncap keep (g_tab t)
        (replicate (Z.to_nat ncap) empty_slot) (replicate (Z.to_nat ncap) 0) 0 (g_released t);
    Ret (HTab nt np ncap used (g_next_seq t) (g_next_root t) rel, true)
  else Ret (t, false).

(** The index and the slot; [None] is NULL. *)
Definition find (t : htab) (id : Z) : outcome (option (Z * slot)) :=
  if (id =? 0) || (g_cap t =? 0) then Ret None
  else
    i ← slot_for (g_tab t) (g_cap t) id;
    match g_tab t !! Z.to_nat i with
    | None => Undef
    | Some s => Ret (if s_id s =? id then Some (i, s) else None)
    end.

Definition find_ptr (t : htab) (p tag : Z) : outcome (option (Z * slot)) :=
  if (p =? 0) || (g_cap t =? 0) then Ret None
  else
    i ← ptr_for (g_tab t) (g_byptr t) (g_cap t) p tag;
    match g_byptr t !! Z.to_nat i with
    | None => Undef
    | Some b =>
        if b =? 0 then Ret None
        else match g_tab t !! Z.to_nat (b - 1) with
             | None => Undef
             | Some s => Ret (Some (b - 1, s))
             end
    end.

(** [under], [depth] more steps allowed. *)
Fixpoint under_loop (depth : nat) (t : htab) (id o : Z) : outcome bool :=
  match depth with
  | O => Ret false
  | S depth =>
      if id =? 0 then Ret false
      else if id =? o then Ret true
      else s ← find t id;
           under_loop depth t (match s with Some (_, s) => s_owner s | None => 0 end) o
  end.
Definition under (t : htab) (id o : Z) : outcome bool := under_loop 8 t id o.

(** An assignment to a slot the caller has found. *)
Definition set_slot (t : htab) (i : Z) (s : slot) : htab :=
  HTab (<[Z.to_nat i := s]> (g_tab t)) (g_byptr t) (g_cap t) (g_used t)
       (g_next_seq t) (g_next_root t) (g_released t).

Definition arpc_handle_put (t : htab) (ptr tag owner : Z) : outcome (htab * Z) :=
  if ptr =? 0 then Ret (t, 0)
  else
    have ← find_ptr t ptr tag;
    match have with
    | Some (i, s) =>
        closer ← (if negb (owner =? 0) && negb (owner =? s_owner s)
                  then under t owner (s_owner s) else Ret false);
        if closer : bool
        then Ret (set_slot t i (Slot (s_id s) (s_ptr s) owner (s_tag s) (s_release s)), s_id s)
        else Ret (t, s_id s)
    | None =>
        '(t, ok) ← (if g_cap t * 3 <=? (g_used t + 1) * 4
                    then rebuild t (if g_cap t =? 0 then 256 else g_cap t * 2) None
                    else Ret (t, true));
        if negb ok then Ret (t, 0)
        else
          let '(root, next_root) :=
            if negb (owner =? 0) then (Z.shiftr owner 40, g_next_root t)
            else if tag =? ARPC_H_HANDLE then (g_next_root t, u64 (g_next_root t + 1))
            else (0, g_next_root t) in
          let id := Z.lor (u64 (Z.shiftl root 40)) (g_next_seq t) in
          i ← slot_for (g_tab t) (g_cap t) id;
          let tab := <[Z.to_nat i := Slot id ptr owner tag 0]> (g_tab t) in
          byptr ← index_ptr tab (g_byptr t) (g_cap t) i;
          Ret (HTab tab byptr (g_cap t) (g_used t + 1) (u64 (g_next_seq t + 1)) next_root
                    (g_released t), id)
    end.

Definition arpc_handle_adopt (t : htab) (ptr owner release : Z) : outcome (htab * Z) :=
  '(t, id) ← arpc_handle_put t ptr ARPC_H_NONE owner;
  s ← find t id;
  match s with
  | Some (i, s) => Ret (set_slot t i (Slot (s_id s) (s_ptr s) (s_owner s) (s_tag s) release), id)
  | None => Ret (t, id)
  end.

(** The pointer, 0 for NULL. *)
Definition arpc_handle_get (t : htab) (id tag : Z) : outcome Z :=
  s ← find t id;
  Ret (match s with Some (_, s) => if s_tag s =? tag then s_ptr s else 0 | None => 0 end).

Fixpoint ancestor_loop (depth : nat) (t : htab) (id top tag : Z) : outcome Z :=
  match depth with
  | O => Ret top
  | S depth =>
      if id =? 0 then Ret top
      else
        s ← find t id;
        match s with
        | None => Ret top
        | Some (_, s) =>
            if negb (tag =? ARPC_H_NONE) && (s_tag s =? tag) then Ret id
            else ancestor_loop depth t (s_owner s) id tag
        end
  end.
Definition arpc_ancestor (t : htab) (id tag : Z) : outcome Z := ancestor_loop 8 t id id tag.

Definition keep_not (id : Z) (s : slot) : outcome bool := Ret (negb (s_id s =? id)).
Definition keep_outside (t : htab) (o : Z) (s : slot) : outcome bool :=
  b ← under t (s_id s) o; Ret (negb b).
Definition keep_outside_or_self (t : htab) (o : Z) (s : slot) : outcome bool :=
  if s_id s =? o then Ret true else b ← under t (s_id s) o; Ret (negb b).

Definition drop_matching (t : htab) (keep : slot -> outcome bool) : outcome htab :=
  if g_cap t =? 0 then Ret t else '(t, _) ← rebuild t (g_cap t) (Some keep); Ret t.

Definition arpc_handle_drop (t : htab) (id : Z) : outcome htab :=
  s ← find t id;
  match s with Some _ => drop_matching t (keep_not id) | None => Ret t end.

(** The table and the callback registry, which dropping an owner purges. *)
Definition arpc_handle_drop_owner (t : htab) (regs : cbregs) (owner : Z) : outcome (htab * cbregs) :=
  if owner =? 0 then Ret (t, regs)
  else t' ← drop_matching t (keep_outside t owner); Ret (t', arpc_cb_purge regs owner).

Definition arpc_handle_drop_under (t : htab) (owner : Z) : outcome htab :=
  if owner =? 0 then Ret t else drop_matching t (keep_outside_or_self t owner).

Definition arpc_handle_drop_ptr (t : htab) (regs : cbregs) (ptr tag : Z) : outcome (htab * cbregs) :=
  s ← find_ptr t ptr tag;
  match s with
  | Some (_, s) => arpc_handle_drop_owner t regs (s_id s)
  | None => Ret (t, regs)
  end.

Definition arpc_handle_reset (t : htab) : htab :=
  HTab [] [] 0 0 (g_next_seq t) (g_next_root t)
    (g_released t ++ ((fun s => (s_release s, s_ptr s)) <$>
       filter (fun s => s_id s <> 0 /\ s_release s <> 0) (g_tab t))).

Definition arpc_handle_live (t : htab) : Z := u32 (g_used t).
End Handles.

(** A pointer, put twice under two tags, and looked up. *)
#[local] Instance sample_tags : Tags := {| ARPC_H_HANDLE := 3 |}.
Example put_runs :
  ('(t, a) ← arpc_handle_put (A:=ample) htab0 4096 3 0;
   '(t, b) ← arpc_handle_put (A:=ample) t 8192 2 a;
   '(t, c) ← arpc_handle_put (A:=ample) t 4096 3 0;
   p ← arpc_handle_get t b 2;
   q ← arpc_handle_get t b 3;
   '(t, _) ← arpc_handle_drop_owner (A:=ample) t [] a;
   r ← arpc_handle_get t b 2;
   Ret (a, b, c, p, q, r)) =
  Ret (1099511627777, 1099511627778, 1099511627777, 8192, 0, 0).
Proof. vm_compute. reflexivity. Qed.
