(* ===== verification/HandleCore.v ===== *)
(** * The invariant of the two indexes

    The arrays of the handle table are instances of Probe.v: the slots keyed
    by id, and the pointer index keyed by (pointer, tag).  [core] is what
    holds of them between operations; [core_insert] is the one step by which
    both [arpc_handle_put] and [rebuild] fill them. *)

From S2P Require Import Prelude CbRegistry HandleTable Probe.

(** ** The arrays as probe tables *)

Definition id_key (tab : list slot) (i : Z) : option Z :=
  s ← tab !! Z.to_nat i; if s_id s =? 0 then None else Some (s_id s).

Definition ptr_key (tab : list slot) (byptr : list Z) (i : Z) : option (Z * Z) :=
  b ← byptr !! Z.to_nat i;
  if b =? 0 then None else s ← tab !! Z.to_nat (b - 1); Some (s_ptr s, s_tag s).

Definition id_hash (cap id : Z) : Z := mix id (cap - 1).
Definition ptr_hash (cap : Z) (k : Z * Z) : Z := mix (Z.lxor k.1 (u64 (Z.shiftl k.2 56))) (cap - 1).

(** Powers of two, from the first allocation to what memory can hold. *)
Definition cap_ok (cap : Z) : Prop := exists k : nat, (8 <= k <= 60)%nat /\ cap = 2 ^ Z.of_nat k.

Lemma cap_ok_bounds cap : cap_ok cap -> 256 <= cap <= 2 ^ 60.
Proof.
  intros (k & Hk & ->). split.
  - change 256 with (2 ^ 8). apply Z.pow_le_mono_r; lia.
  - apply Z.pow_le_mono_r; lia.
Qed.

Lemma land_mask cap x : cap_ok cap -> Z.land x (cap - 1) = x mod cap.
Proof. intros (k & Hk & ->). by rewrite land_ones_mod by lia. Qed.

Lemma mix_range cap x : cap_ok cap -> 0 <= mix x (cap - 1) < cap.
Proof.
  intros Hc. unfold mix. rewrite land_mask by done. apply Z.mod_pos_bound.
  apply cap_ok_bounds in Hc. lia.
Qed.

(** ** Counting the cells in use *)

Section Count.
Context {X : Type} (P : X -> Prop) `{!forall x, Decision (P x)}.

Definition count (l : list X) : Z := len (filter P l).

Lemma count_bound l : 0 <= count l <= len l.
Proof. unfold count. pose proof (length_filter P l). lia. Qed.

Lemma count_app l l' : count (l ++ l') = count l + count l'.
Proof. unfold count. rewrite filter_app, length_app. lia. Qed.

Lemma count_cons x l : count (x :: l) = (if decide (P x) then 1 else 0) + count l.
Proof. unfold count. rewrite filter_cons. destruct (decide (P x)); cbn [length]; lia. Qed.

(** Filling a cell adds one. *)
Lemma count_insert l i x y :
  l !! i = Some x -> ~ P x -> P y -> count (<[i := y]> l) = count l + 1.
Proof.
  intros Hi Hx Hy. rewrite insert_take_drop by (by eapply lookup_lt_Some).
  rewrite <- (take_drop_middle l i x Hi) at 3. rewrite !count_app, !count_cons, !decide_True, !decide_False by done.
  lia.
Qed.

(** Rewriting a cell in place changes nothing. *)
Lemma count_same l i x y :
  l !! i = Some x -> (P x <-> P y) -> count (<[i := y]> l) = count l.
Proof.
  intros Hi Hxy. rewrite insert_take_drop by (by eapply lookup_lt_Some).
  rewrite <- (take_drop_middle l i x Hi) at 3. rewrite !count_app, !count_cons.
  destruct (decide (P x)), (decide (P y)); tauto || lia.
Qed.

Lemma count_room l : count l < len l -> exists i x, l !! i = Some x /\ ~ P x.
Proof.
  induction l as [|x l IH]; [intros Hc; pose proof (count_bound []); cbn in *; lia|]. rewrite count_cons. cbn [length]. intros Hc.
  destruct (decide (P x)); [|by exists 0%nat, x].
  destruct IH as (i & y & Hi & Hy); [lia|]. by exists (S i), y.
Qed.

Lemma count_none n x : ~ P x -> count (replicate n x) = 0.
Proof. intros Hx. induction n; [done|]. cbn [replicate]. rewrite count_cons, decide_False by done. lia. Qed.
End Count.

Definition occupied (s : slot) : Prop := s_id s <> 0.
Definition indexed (b : Z) : Prop := b <> 0.
#[export] Instance occupied_dec s : Decision (occupied s).
Proof. unfold occupied. apply _. Defined.
#[export] Instance indexed_dec b : Decision (indexed b).
Proof. unfold indexed. apply _. Defined.

(** ** The invariant *)

Record core (cap : Z) (tab : list slot) (byptr : list Z) (used : Z) : Prop := Core {
  core_cap : cap_ok cap;
  core_tab : len tab = cap;
  core_byptr : len byptr = cap;
  core_used : count occupied tab = used;
  core_indexed : count indexed byptr = used;
  core_id_placed : placed (id_hash cap) cap (id_key tab);
  core_id_unique : unique cap (id_key tab);
  core_ptr_placed : placed (ptr_hash cap) cap (ptr_key tab byptr);
  core_ptr_unique : unique cap (ptr_key tab byptr);
  core_entry i b : byptr !! i = Some b -> b <> 0 ->
    exists s, 0 < b /\ tab !! Z.to_nat (b - 1) = Some s /\ occupied s;
  core_every j s : tab !! j = Some s -> occupied s -> exists i, byptr !! i = Some (Z.of_nat j + 1)
}.

Lemma id_key_Some tab i id :
  id_key tab i = Some id <-> exists s, tab !! Z.to_nat i = Some s /\ s_id s = id /\ occupied s.
Proof.
  unfold id_key, occupied. destruct (tab !! Z.to_nat i) as [s|]; cbn;
    [|by split; [|intros (? & ? & _)]].
  destruct (Z.eqb_spec (s_id s) 0).
  - split; [done|]. intros (s' & [= <-] & _ & ?). done.
  - split; [intros [= <-]; by exists s|]. intros (s' & [= <-] & <- & _). done.
Qed.

Lemma id_key_None tab i s : tab !! Z.to_nat i = Some s -> id_key tab i = None -> s_id s = 0.
Proof. unfold id_key. intros ->. cbn. by destruct (Z.eqb_spec (s_id s) 0). Qed.

Section CoreFacts.
Context (cap : Z) (tab : list slot) (byptr : list Z) (used : Z).
Hypothesis Hcore : core cap tab byptr used.

Lemma core_pos : 0 < cap.
Proof. pose proof (cap_ok_bounds _ (core_cap _ _ _ _ Hcore)). lia. Qed.

Lemma core_in_range i : 0 <= i < cap -> exists s, tab !! Z.to_nat i = Some s.
Proof. intros Hi. apply lookup_lt_is_Some. pose proof (core_tab _ _ _ _ Hcore). lia. Qed.

Lemma core_ptr_in_range i : 0 <= i < cap -> exists b, byptr !! Z.to_nat i = Some b.
Proof. intros Hi. apply lookup_lt_is_Some. pose proof (core_byptr _ _ _ _ Hcore). lia. Qed.

Lemma core_id_room : used < cap -> has_room cap (id_key tab).
Proof.
  intros Hu. destruct (count_room occupied tab) as (i & s & Hi & Hs).
  { rewrite (core_used _ _ _ _ Hcore), (core_tab _ _ _ _ Hcore). done. }
  pose proof (lookup_lt_Some _ _ _ Hi). pose proof (core_tab _ _ _ _ Hcore).
  exists (Z.of_nat i). split; [lia|]. unfold id_key. rewrite Nat2Z.id, Hi. cbn.
  unfold occupied in Hs. destruct (Z.eqb_spec (s_id s) 0); [done|lia].
Qed.

Lemma core_ptr_room : used < cap -> has_room cap (ptr_key tab byptr).
Proof.
  intros Hu. destruct (count_room indexed byptr) as (i & b & Hi & Hb).
  { rewrite (core_indexed _ _ _ _ Hcore), (core_byptr _ _ _ _ Hcore). done. }
  pose proof (lookup_lt_Some _ _ _ Hi). pose proof (core_byptr _ _ _ _ Hcore).
  exists (Z.of_nat i). split; [lia|]. unfold ptr_key. rewrite Nat2Z.id, Hi. cbn.
  unfold indexed in Hb. destruct (Z.eqb_spec b 0); [done|lia].
Qed.

(** The C loops are the walks of Probe.v. *)
Lemma slot_for_loop_search fuel id i :
  0 <= i < cap -> id <> 0 -> slot_for_loop fuel tab (cap - 1) id i = search cap (id_key tab) fuel id i.
Proof.
  intros Hi Hid. revert i Hi. induction fuel as [|fuel IH]; intros i Hi; [done|].
  cbn [slot_for_loop search]. destruct (core_in_range i Hi) as [s Hs]. rewrite Hs.
  unfold id_key at 1. rewrite Hs. cbn [mbind option_bind].
  destruct (Z.eqb_spec (s_id s) 0); cbn [negb andb]; [done|].
  destruct (Z.eqb_spec (s_id s) id); cbn [negb]; [by rewrite decide_True|]. rewrite decide_False by done.
  rewrite land_mask by (by eapply core_cap). unfold cell. apply IH. apply Z.mod_pos_bound, core_pos.
Qed.

Lemma slot_for_search id : id <> 0 -> slot_for tab cap id = lookup_cell (id_hash cap) cap (id_key tab) id.
Proof. intros. apply slot_for_loop_search; [|done]. apply mix_range. by eapply core_cap. Qed.

Lemma ptr_for_loop_search fuel p tag i :
  0 <= i < cap ->
  ptr_for_loop fuel tab byptr (cap - 1) p tag i = search cap (ptr_key tab byptr) fuel (p, tag) i.
Proof.
  intros Hi. revert i Hi. induction fuel as [|fuel IH]; intros i Hi; [done|].
  cbn [ptr_for_loop search]. destruct (core_ptr_in_range i Hi) as [b Hb]. rewrite Hb.
  unfold ptr_key at 1. rewrite Hb. cbn [mbind option_bind].
  destruct (Z.eqb_spec b 0) as [|Hb0]; [done|].
  destruct (core_entry _ _ _ _ Hcore _ _ Hb Hb0) as (s & _ & Hs & _). rewrite Hs. cbn [mbind option_bind].
  rewrite land_mask by (by eapply core_cap).
  destruct (Z.eqb_spec (s_ptr s) p), (Z.eqb_spec (s_tag s) tag); cbn [andb];
    (rewrite decide_True by congruence; done) || (rewrite decide_False by congruence);
    unfold cell; apply IH, Z.mod_pos_bound, core_pos.
Qed.

Lemma ptr_for_search p tag :
  ptr_for tab byptr cap p tag = lookup_cell (ptr_hash cap) cap (ptr_key tab byptr) (p, tag).
Proof. apply ptr_for_loop_search. apply mix_range. by eapply core_cap. Qed.

Lemma hash_range {X} (g : X -> Z) : forall x, 0 <= mix (g x) (cap - 1) < cap.
Proof. intros. apply mix_range. by eapply core_cap. Qed.

(** Two slots never hold one object. *)
Lemma core_same_object j j' s s' :
  tab !! j = Some s -> tab !! j' = Some s' -> occupied s -> occupied s' ->
  s_ptr s = s_ptr s' -> s_tag s = s_tag s' -> j = j'.
Proof.
  intros Hj Hj' Hs Hs' Ep Et.
  destruct (core_every _ _ _ _ Hcore _ _ Hj Hs) as [i Hi].
  destruct (core_every _ _ _ _ Hcore _ _ Hj' Hs') as [i' Hi'].
  pose proof (lookup_lt_Some _ _ _ Hi). pose proof (lookup_lt_Some _ _ _ Hi').
  pose proof (core_byptr _ _ _ _ Hcore) as Hl.
  assert (Z.of_nat i = Z.of_nat i') as E.
  { eapply (core_ptr_unique _ _ _ _ Hcore _ _ (s_ptr s, s_tag s)); [lia|lia|..];
      unfold ptr_key; rewrite Nat2Z.id.
    - rewrite Hi. cbn. destruct (Z.eqb_spec (Z.of_nat j + 1) 0); [lia|].
      replace (Z.to_nat (Z.of_nat j + 1 - 1)) with j by lia. by rewrite Hj.
    - rewrite Hi'. cbn. destruct (Z.eqb_spec (Z.of_nat j' + 1) 0); [lia|].
      replace (Z.to_nat (Z.of_nat j' + 1 - 1)) with j' by lia. rewrite Hj'. cbn. by rewrite Ep, Et. }
  assert (i = i') by lia. subst i'. rewrite Hi in Hi'. simplify_eq. lia.
Qed.

Lemma core_same_id j j' s s' :
  tab !! j = Some s -> tab !! j' = Some s' -> occupied s -> s_id s = s_id s' -> j = j'.
Proof.
  intros Hj Hj' Hs E. pose proof (lookup_lt_Some _ _ _ Hj). pose proof (lookup_lt_Some _ _ _ Hj').
  pose proof (core_tab _ _ _ _ Hcore).
  assert (Z.of_nat j = Z.of_nat j') as E'; [|lia].
  eapply (core_id_unique _ _ _ _ Hcore _ _ (s_id s)); [lia|lia|..]; apply id_key_Some; rewrite Nat2Z.id.
  - by exists s.
  - exists s'. split_and!; [done|done|]. unfold occupied in *. congruence.
Qed.
End CoreFacts.

(** ** New tables, new slots *)

Lemma core_empty cap :
  cap_ok cap -> core cap (replicate (Z.to_nat cap) empty_slot) (replicate (Z.to_nat cap) 0) 0.
Proof.
  intros Hc. pose proof (cap_ok_bounds _ Hc) as Hb.
  assert (Hid : forall j, id_key (replicate (Z.to_nat cap) empty_slot) j = None).
  { intros j. unfold id_key. destruct (replicate _ _ !! _) as [s|] eqn:E; [|done].
    by apply lookup_replicate in E as [-> _]. }
  assert (Hptr : forall j, ptr_key (replicate (Z.to_nat cap) empty_slot) (replicate (Z.to_nat cap) 0) j = None).
  { intros j. unfold ptr_key. destruct (replicate _ 0 !! _) as [b|] eqn:E; [|done].
    by apply lookup_replicate in E as [-> _]. }
  split; [done|rewrite length_replicate; lia|rewrite length_replicate; lia|..].
  - apply count_none. unfold occupied. cbn. lia.
  - apply count_none. unfold indexed. lia.
  - intros j k _. by rewrite Hid.
  - intros j j' k _ _. by rewrite Hid.
  - intros j k _. by rewrite Hptr.
  - intros j j' k _ _. by rewrite Hptr.
  - intros i b E. by apply lookup_replicate in E as [-> _].
  - intros j s E. by apply lookup_replicate in E as [-> _].
Qed.

(** [placed] and [unique] look at the cells in range only. *)
Lemma placed_ext {key} (h : key -> Z) cap K K' :
  0 < cap -> (forall j, 0 <= j < cap -> K j = K' j) -> placed h cap K -> placed h cap K'.
Proof.
  intros Hcap E Hp j k Hj Hk. rewrite <- E in Hk by done.
  destruct (Hp j k Hj Hk) as (d & Hd & -> & Hocc). exists d. split_and!; [lia|lia|done|].
  intros d' Hd'. rewrite <- E; [auto|]. by apply cell_range.
Qed.

Lemma unique_ext {key} cap (K K' : Z -> option key) :
  (forall j, 0 <= j < cap -> K j = K' j) -> unique cap K -> unique cap K'.
Proof. intros E Hu j j' k Hj Hj'. rewrite <- !E by done. by apply Hu. Qed.

Section Insert.
Context (cap : Z) (tab : list slot) (byptr : list Z) (used : Z) (s : slot).
Hypothesis Hcore : core cap tab byptr used.
Hypothesis Hroom : used < cap.
Hypothesis Hocc : occupied s.
Hypothesis Hfresh : forall j s', tab !! j = Some s' -> occupied s' -> s_id s' <> s_id s.
Hypothesis Hnew : forall j s', tab !! j = Some s' -> occupied s' -> (s_ptr s', s_tag s') <> (s_ptr s, s_tag s).

Lemma insert_slot_cell :
  exists i s0, slot_for tab cap (s_id s) = Ret i /\ 0 <= i < cap /\
    tab !! Z.to_nat i = Some s0 /\ s_id s0 = 0 /\
    exists d, path (id_hash cap) cap (id_key tab) (s_id s) d i.
Proof.
  rewrite (slot_for_search _ _ _ _ Hcore) by done.
  destruct (lookup_absent (id_hash cap) cap (core_pos _ _ _ _ Hcore) (hash_range _ _ _ _ Hcore id)
    (id_key tab) (s_id s)) as (i & -> & Hi & Hn & Hp).
  - by eapply core_id_room.
  - intros j _ (s' & Hs' & E & Ho)%id_key_Some. by apply (Hfresh _ _ Hs').
  - destruct (core_in_range _ _ _ _ Hcore i Hi) as [s0 Hs0]. exists i, s0.
    split_and!; [done|lia|lia|done| |done]. by eapply id_key_None.
Qed.

Context (i : Z) (s0 : slot).
Hypothesis Hi : 0 <= i < cap.
Hypothesis Hs0 : tab !! Z.to_nat i = Some s0.
Hypothesis Hs0_empty : s_id s0 = 0.
Hypothesis Hpath : exists d, path (id_hash cap) cap (id_key tab) (s_id s) d i.
Let tab' := <[Z.to_nat i := s]> tab.

Lemma insert_lookup j s' :
  tab' !! j = Some s' -> (j = Z.to_nat i /\ s' = s) \/ (j <> Z.to_nat i /\ tab !! j = Some s').
Proof. intros [(Ej & Es & _)|[? ?]]%list_lookup_insert_Some; [left; by split|right; by split]. Qed.

Lemma insert_new : tab' !! Z.to_nat i = Some s.
Proof. apply list_lookup_insert_eq. by eapply lookup_lt_Some. Qed.

Lemma insert_old j s' : tab !! j = Some s' -> occupied s' -> tab' !! j = Some s'.
Proof.
  intros Hj Ho. subst tab'. rewrite list_lookup_insert_ne; [done|]. intros <-.
  rewrite Hs0 in Hj. by simplify_eq.
Qed.

Lemma insert_id_key j : 0 <= j -> id_key tab' j = store (id_key tab) i (s_id s) j.
Proof.
  intros Hj. unfold store, id_key. destruct (Z.eqb_spec j i) as [->|Hne].
  - rewrite insert_new. cbn. unfold occupied in Hocc. by destruct (Z.eqb_spec (s_id s) 0).
  - subst tab'. by rewrite list_lookup_insert_ne by lia.
Qed.

(** No entry of the pointer index refers to the cell just filled. *)
Lemma insert_ptr_key j : ptr_key tab' byptr j = ptr_key tab byptr j.
Proof.
  unfold ptr_key. destruct (byptr !! Z.to_nat j) as [b|] eqn:Eb; cbn; [|done].
  destruct (Z.eqb_spec b 0); [done|]. destruct (core_entry _ _ _ _ Hcore _ _ Eb ltac:(done)) as (s' & Hb & Hs' & Ho).
  by rewrite Hs', (insert_old _ _ Hs' Ho).
Qed.

(** The table with the slot but not yet the index: its pointer index is the
    walk of the old one. *)
Lemma insert_ptr_for p tag :
  ptr_for tab' byptr cap p tag = ptr_for tab byptr cap p tag.
Proof.
  unfold ptr_for. generalize (Z.to_nat cap) (mix (Z.lxor p (u64 (Z.shiftl tag 56))) (cap - 1)).
  induction n as [|n IH]; intros x; [done|]. cbn [ptr_for_loop].
  destruct (byptr !! Z.to_nat x) as [b|] eqn:Eb; [|done]. destruct (Z.eqb_spec b 0); [done|].
  destruct (core_entry _ _ _ _ Hcore _ _ Eb ltac:(done)) as (s' & Hb & Hs' & Ho).
  rewrite Hs', (insert_old _ _ Hs' Ho). by destruct (_ && _).
Qed.

Lemma insert_index :
  exists x, ptr_for tab' byptr cap (s_ptr s) (s_tag s) = Ret x /\ 0 <= x < cap /\
    byptr !! Z.to_nat x = Some 0 /\ exists d, path (ptr_hash cap) cap (ptr_key tab byptr) (s_ptr s, s_tag s) d x.
Proof.
  rewrite insert_ptr_for, (ptr_for_search _ _ _ _ Hcore).
  destruct (lookup_absent (ptr_hash cap) cap (core_pos _ _ _ _ Hcore)
    (hash_range _ _ _ _ Hcore (fun k => Z.lxor k.1 (u64 (Z.shiftl k.2 56))))
    (ptr_key tab byptr) (s_ptr s, s_tag s)) as (x & -> & Hx & Hn & Hp).
  - by eapply core_ptr_room.
  - intros j _ E. unfold ptr_key in E. destruct (byptr !! Z.to_nat j) as [b|] eqn:Eb; [|done].
    cbn in E. destruct (Z.eqb_spec b 0); [done|].
    destruct (core_entry _ _ _ _ Hcore _ _ Eb ltac:(done)) as (s' & Hb & Hs' & Ho).
    rewrite Hs' in E. cbn in E. by apply (Hnew _ _ Hs'); [|congruence].
  - exists x. split_and!; [done|lia|lia| |done].
    destruct (core_ptr_in_range _ _ _ _ Hcore x Hx) as [b Hb]. rewrite Hb.
    unfold ptr_key in Hn. rewrite Hb in Hn. cbn in Hn. destruct (Z.eqb_spec b 0) as [E0|]; [by rewrite E0|].
    destruct (core_entry _ _ _ _ Hcore _ _ Hb ltac:(done)) as (s' & _ & Hs' & _). by rewrite Hs' in Hn.
Qed.

Context (x : Z).
Hypothesis Hx : 0 <= x < cap.
Hypothesis Hbx : byptr !! Z.to_nat x = Some 0.
Hypothesis Hxpath : exists d, path (ptr_hash cap) cap (ptr_key tab byptr) (s_ptr s, s_tag s) d x.
Let byptr' := <[Z.to_nat x := i + 1]> byptr.

Lemma insert_ptr_key' j :
  0 <= j -> ptr_key tab' byptr' j = store (ptr_key tab byptr) x (s_ptr s, s_tag s) j.
Proof.
  intros Hj. unfold store. destruct (Z.eqb_spec j x) as [->|Hne].
  - unfold ptr_key, byptr'. rewrite list_lookup_insert_eq by (by eapply lookup_lt_Some). cbn.
    destruct (Z.eqb_spec (i + 1) 0); [lia|]. replace (i + 1 - 1) with i by lia. by rewrite insert_new.
  - rewrite <- insert_ptr_key. unfold ptr_key, byptr'. by rewrite list_lookup_insert_ne by lia.
Qed.

Lemma core_insert_core : core cap tab' byptr' (used + 1).
Proof.
  pose proof (core_pos _ _ _ _ Hcore) as Hpos.
  pose proof (hash_range _ _ _ _ Hcore id) as Hh1.
  pose proof (hash_range _ _ _ _ Hcore (fun k : Z * Z => Z.lxor k.1 (u64 (Z.shiftl k.2 56)))) as Hh2.
  assert (Hfree : forall j, 0 <= j < cap -> id_key tab j <> Some (s_id s)).
  { intros j _ (s' & Hs' & E & Ho)%id_key_Some. by apply (Hfresh _ _ Hs'). }
  assert (Hfree2 : forall j, 0 <= j < cap -> ptr_key tab byptr j <> Some (s_ptr s, s_tag s)).
  { intros j _ E. unfold ptr_key in E. destruct (byptr !! Z.to_nat j) as [b|] eqn:Eb; [|done].
    cbn in E. destruct (Z.eqb_spec b 0); [done|].
    destruct (core_entry _ _ _ _ Hcore _ _ Eb ltac:(done)) as (s' & Hb & Hs' & Ho).
    rewrite Hs' in E. cbn in E. by apply (Hnew _ _ Hs'); [|congruence]. }
  assert (Hidn : id_key tab i = None).
  { unfold id_key. rewrite Hs0. cbn. by rewrite Hs0_empty. }
  assert (Hptrn : ptr_key tab byptr x = None).
  { unfold ptr_key. by rewrite Hbx. }
  destruct Hcore. split; try done.
  - subst tab'. by rewrite length_insert.
  - subst byptr'. by rewrite length_insert.
  - subst tab'. rewrite (count_insert _ _ _ s0); [lia|done| |done]. unfold occupied. lia.
  - subst byptr'. rewrite (count_insert _ _ _ 0); [lia|done| |]; unfold indexed; lia.
  - eapply placed_ext; [done|intros j Hj; symmetry; apply insert_id_key; lia|].
    by apply store_placed.
  - eapply unique_ext; [intros j Hj; symmetry; apply insert_id_key; lia|]. by apply store_unique.
  - eapply placed_ext; [done|intros j Hj; symmetry; apply insert_ptr_key'; lia|].
    by apply store_placed.
  - eapply unique_ext; [intros j Hj; symmetry; apply insert_ptr_key'; lia|]. by apply store_unique.
  - intros y b [(Ey & Eb & _)|[Hne Hy]]%list_lookup_insert_Some Hb0.
    + exists s. rewrite <- Eb. replace (Z.to_nat (i + 1 - 1)) with (Z.to_nat i) by lia.
      split_and!; [lia|by apply insert_new|done].
    + destruct (core_entry0 _ _ Hy Hb0) as (s' & Hb & Hs' & Ho). exists s'. split_and!; [done| |done].
      by apply insert_old.
  - intros j s' [[-> ->]|[Hne Hj]]%insert_lookup Ho.
    + exists (Z.to_nat x). subst byptr'. rewrite list_lookup_insert_eq by (by eapply lookup_lt_Some).
      f_equal. lia.
    + destruct (core_every0 _ _ Hj Ho) as [y Hy]. exists y. subst byptr'.
      rewrite list_lookup_insert_ne; [done|]. intros <-. rewrite Hbx in Hy. simplify_eq. lia.
Qed.
End Insert.

(** ** What a table holds *)

Definition holds (tab : list slot) (s : slot) : Prop := s ∈ tab /\ occupied s.

Lemma holds_lookup tab s : holds tab s <-> exists j, tab !! j = Some s /\ occupied s.
Proof. unfold holds. rewrite list_elem_of_lookup.
  split; [intros [[j Hj] Ho]; by exists j|intros (j & Hj & Ho); split; [by exists j|done]].
Qed.

Lemma holds_insert tab i s s0 s' :
  tab !! i = Some s0 -> s_id s0 = 0 -> occupied s ->
  holds (<[i := s]> tab) s' <-> s' = s \/ holds tab s'.
Proof.
  intros Hi H0 Ho. rewrite !holds_lookup. split.
  - intros (j & [(Ej & Es & _)|[Hne Hj]]%list_lookup_insert_Some & Ho'); [by left|right; by exists j].
  - intros [->|(j & Hj & Ho')].
    + exists i. rewrite list_lookup_insert_eq by (by eapply lookup_lt_Some). done.
    + exists j. rewrite list_lookup_insert_ne; [done|]. intros <-. rewrite Hi in Hj.
      unfold occupied in Ho'. congruence.
Qed.

(** Filling a free cell, both indexes: what [put] and [rebuild] do. *)
Lemma core_insert cap tab byptr used s :
  core cap tab byptr used -> used < cap -> occupied s ->
  (forall s', holds tab s' -> s_id s' <> s_id s) ->
  (forall s', holds tab s' -> (s_ptr s', s_tag s') <> (s_ptr s, s_tag s)) ->
  exists i byptr', slot_for tab cap (s_id s) = Ret i /\
    index_ptr (<[Z.to_nat i := s]> tab) byptr cap i = Ret byptr' /\
    core cap (<[Z.to_nat i := s]> tab) byptr' (used + 1) /\
    (forall s', holds (<[Z.to_nat i := s]> tab) s' <-> s' = s \/ holds tab s').
Proof.
  intros Hcore Hroom Ho Hfresh Hnew.
  assert (Hfresh' : forall j s', tab !! j = Some s' -> occupied s' -> s_id s' <> s_id s).
  { intros j s' Hj Ho'. apply Hfresh, holds_lookup. by exists j. }
  assert (Hnew' : forall j s', tab !! j = Some s' -> occupied s' -> (s_ptr s', s_tag s') <> (s_ptr s, s_tag s)).
  { intros j s' Hj Ho'. apply Hnew, holds_lookup. by exists j. }
  destruct (insert_slot_cell _ _ _ _ _ Hcore Hroom Ho Hfresh') as (i & s0 & E & Hi & Hs0 & He & Hp).
  destruct (insert_index _ _ _ _ _ Hcore Hroom Hnew' i s0 Hs0 He) as (x & Ex & Hx & Hbx & Hxp).
  exists i, (<[Z.to_nat x := i + 1]> byptr). split_and!; [done| | |].
  - unfold index_ptr. rewrite list_lookup_insert_eq by (by eapply lookup_lt_Some). by rewrite Ex.
  - by eapply core_insert_core.
  - intros s'. by eapply holds_insert.
Qed.

(** Rewriting the owner or the release function of a slot in place. *)
Lemma core_update cap tab byptr used j s s' :
  core cap tab byptr used -> tab !! j = Some s ->
  s_id s' = s_id s -> s_ptr s' = s_ptr s -> s_tag s' = s_tag s ->
  core cap (<[j := s']> tab) byptr used.
Proof.
  intros Hcore Hj Eid Ep Et.
  assert (Hlk : forall i, match <[j := s']> tab !! i, tab !! i with
    | Some a, Some b => s_id a = s_id b /\ s_ptr a = s_ptr b /\ s_tag a = s_tag b
    | None, None => True | _, _ => False end).
  { intros i. destruct (decide (i = j)) as [->|Hne].
    - rewrite list_lookup_insert_eq by (by eapply lookup_lt_Some). by rewrite Hj.
    - rewrite list_lookup_insert_ne by done. by destruct (tab !! i). }
  assert (Hid : forall i, id_key tab i = id_key (<[j := s']> tab) i).
  { intros i. unfold id_key. specialize (Hlk (Z.to_nat i)).
    destruct (<[j := s']> tab !! Z.to_nat i), (tab !! Z.to_nat i); try done. cbn. by destruct Hlk as (-> & _). }
  assert (Hptr : forall i, ptr_key tab byptr i = ptr_key (<[j := s']> tab) byptr i).
  { intros i. unfold ptr_key. destruct (byptr !! Z.to_nat i) as [b|]; [|done]. cbn. destruct (b =? 0); [done|].
    specialize (Hlk (Z.to_nat (b - 1))).
    destruct (<[j := s']> tab !! Z.to_nat (b - 1)), (tab !! Z.to_nat (b - 1)); try done. cbn.
    by destruct Hlk as (_ & -> & ->). }
  pose proof (core_pos _ _ _ _ Hcore). destruct Hcore. split; try done.
  - by rewrite length_insert.
  - rewrite (count_same _ _ _ s); [done|done|]. unfold occupied. by rewrite Eid.
  - by apply (placed_ext _ _ (id_key tab)).
  - by apply (unique_ext _ (id_key tab)).
  - by apply (placed_ext _ _ (ptr_key tab byptr)).
  - by apply (unique_ext _ (ptr_key tab byptr)).
  - intros i b Hi Hb. destruct (core_entry0 i b Hi Hb) as (x & Hb0 & Hx & Ho).
    specialize (Hlk (Z.to_nat (b - 1))). rewrite Hx in Hlk.
    destruct (<[j := s']> tab !! Z.to_nat (b - 1)) as [y|]; [|done]. exists y.
    split_and!; [done|done|]. unfold occupied in *. destruct Hlk as (-> & _). done.
  - intros i x Hi Ho. specialize (Hlk i). rewrite Hi in Hlk. destruct (tab !! i) as [y|] eqn:Ey; [|done].
    apply (core_every0 i y Ey). unfold occupied in *. by destruct Hlk as (<- & _).
Qed.

Lemma holds_update tab j s s' x :
  tab !! j = Some s -> (forall j' y, tab !! j' = Some y -> occupied y -> s_id y = s_id s -> j' = j) ->
  s_id s' = s_id s -> occupied s ->
  holds (<[j := s']> tab) x <-> (if decide (s_id x = s_id s) then x = s' else holds tab x).
Proof.
  intros Hj Hu Eid Ho. rewrite holds_lookup. split.
  - intros (i & [(Ei & Es & _)|[Hne Hi]]%list_lookup_insert_Some & Hox).
    + subst. by rewrite decide_True.
    + rewrite decide_False; [apply holds_lookup; by exists i|]. intros E. apply Hne. symmetry. by eapply Hu.
  - destruct (decide (s_id x = s_id s)) as [E|E].
    + intros ->. exists j. rewrite list_lookup_insert_eq by (by eapply lookup_lt_Some).
      split; [done|]. unfold occupied in *. by rewrite Eid.
    + intros (i & Hi & Hox)%holds_lookup. exists i. rewrite list_lookup_insert_ne; [done|]. intros <-.
      rewrite Hj in Hi. congruence.
Qed.

(** ** Rebuilding *)

Section Rebuild.
Context {A : Allocator}.
Context (tab : list slot) (keep : option (slot -> outcome bool)) (kept : slot -> bool) (ncap : Z).
Hypothesis Hkeep : forall s, holds tab s ->
  match keep with Some f => f s | None => Ret true end = Ret (kept s).
Hypothesis Hids : forall j j' s s', tab !! j = Some s -> tab !! j' = Some s' -> occupied s ->
  s_id s = s_id s' -> j = j'.
Hypothesis Hobjs : forall j j' s s', tab !! j = Some s -> tab !! j' = Some s' -> occupied s ->
  occupied s' -> s_ptr s = s_ptr s' -> s_tag s = s_tag s' -> j = j'.
Hypothesis Hfit : count occupied tab < ncap.

(** The calls made for the slots that are not kept. *)
Definition releases (l : list slot) : list (Z * Z) :=
  (fun s => (s_release s, s_ptr s)) <$> filter (fun s => occupied s /\ kept s = false /\ s_release s <> 0) l.

Lemma rebuild_loop_spec pre old nt np used rel :
  tab = pre ++ old -> core ncap nt np used -> used <= count occupied pre ->
  (forall s, holds nt s <-> holds pre s /\ kept s = true) ->
  exists nt' np' used', rebuild_loop ncap keep old nt np used rel = Ret (nt', np', used', rel ++ releases old) /\
    core ncap nt' np' used' /\ used' <= count occupied tab /\
    (forall s, holds nt' s <-> holds tab s /\ kept s = true).
Proof.
  revert pre nt np used rel. induction old as [|s old IH]; intros pre nt np used rel Etab Hcore Hused Hholds.
  { exists nt, np, used. rewrite app_nil_r in *. subst pre. done. }
  assert (Etab' : tab = (pre ++ [s]) ++ old) by (by rewrite <- app_assoc).
  assert (Hpre : forall x, holds (pre ++ [s]) x <-> holds pre x \/ (x = s /\ occupied s)).
  { intros x. unfold holds. rewrite elem_of_app, list_elem_of_singleton.
    split; [intros [[?| ->] ?]; auto|intros [[? ?]|[-> ?]]; auto]. }
  assert (Hcnt : count occupied (pre ++ [s]) = count occupied pre + if decide (occupied s) then 1 else 0).
  { rewrite count_app, count_cons. change (count occupied []) with 0. by rewrite Z.add_0_r. }
  unfold releases. rewrite filter_cons. cbn [rebuild_loop].
  destruct (Z.eqb_spec (s_id s) 0) as [E0|Hocc].
  { rewrite decide_False by (unfold occupied; tauto).
    apply (IH (pre ++ [s])); [done..|rewrite Hcnt, decide_False by (unfold occupied; tauto); lia|].
    intros x. rewrite Hholds, Hpre. unfold occupied. split; [intros [? ?]; auto|intros [[?|[-> ?]] ?]; [auto|congruence]]. }
  change (s_id s <> 0) with (occupied s) in Hocc.
  assert (Hs : holds tab s). { subst tab. unfold holds. rewrite elem_of_app, elem_of_cons. auto. }
  rewrite (Hkeep s Hs). cbn [mbind outcome_bind]. destruct (kept s) eqn:Ek.
  - rewrite (decide_False (P := occupied s /\ _)) by (intros (_ & ? & ?); congruence).
    assert (Hpos : tab !! length pre = Some s) by (subst tab; by apply list_lookup_middle).
    assert (Hold : forall x, holds nt x -> exists j, tab !! j = Some x /\ occupied x /\ (j < length pre)%nat).
    { intros x [Hx _]%Hholds. apply holds_lookup in Hx as (j & Hj & Hox). exists j.
      apply lookup_lt_Some in Hj as Hlt. split_and!; [|done|done]. subst tab. by apply lookup_app_l_Some. }
    destruct (core_insert ncap nt np used s Hcore) as (i & np' & -> & Ei & Hcore' & Hh'); [|done|..].
    + pose proof (count_bound occupied old). rewrite Etab', count_app, Hcnt in Hfit.
      rewrite decide_True in Hfit by done. lia.
    + intros x Hx E. destruct (Hold x Hx) as (j & Hj & Hox & Hlt).
      pose proof (Hids _ _ _ _ Hj Hpos Hox E). lia.
    + intros x Hx [= Ep Et]. destruct (Hold x Hx) as (j & Hj & Hox & Hlt).
      pose proof (Hobjs _ _ _ _ Hj Hpos Hox Hocc Ep Et). lia.
    + cbn [mbind outcome_bind]. rewrite Ei. cbn [mbind outcome_bind].
      apply (IH (pre ++ [s])); [done|done|rewrite Hcnt, decide_True by done; lia|].
      intros x. rewrite Hh', Hholds, Hpre. split; [intros [->|[? ?]]; auto|intros [[?|[-> ?]] ?]; auto].
  - destruct (Z.eqb_spec (s_release s) 0).
    + rewrite (decide_False (P := occupied s /\ _)) by (intros (_ & ? & ?); congruence).
      apply (IH (pre ++ [s])); [done..|rewrite Hcnt, decide_True by done; lia|].
      intros x. rewrite Hholds, Hpre. split; [intros [? ?]; auto|intros [[?|[-> _]] ?]; [auto|congruence]].
    + rewrite decide_True by done. cbn [fmap list_fmap].
      destruct (IH (pre ++ [s]) nt np used (rel ++ [(s_release s, s_ptr s)])) as (nt' & np' & used' & E & H');
        [done..|rewrite Hcnt, decide_True by done; lia| |].
      { intros x. rewrite Hholds, Hpre. split; [intros [? ?]; auto|intros [[?|[-> _]] ?]; [auto|congruence]]. }
      exists nt', np', used'. split; [|done]. by rewrite E, <- app_assoc.
Qed.

Lemma rebuild_spec (t : htab) :
  g_tab t = tab -> cap_ok ncap -> calloc_ok ncap sizeof_slot && calloc_ok ncap sizeof_size_t = true ->
  exists nt np used, rebuild t ncap keep =
      Ret (HTab nt np ncap used (g_next_seq t) (g_next_root t) (g_released t ++ releases tab), true) /\
    core ncap nt np used /\ used <= count occupied tab /\
    (forall s, holds nt s <-> holds tab s /\ kept s = true).
Proof.
  intros Et Hcap Hok. unfold rebuild. rewrite Hok, Et.
  destruct (rebuild_loop_spec [] tab _ _ 0 (g_released t) eq_refl (core_empty ncap Hcap))
    as (nt & np & used & E & Hc & Hu & Hh); [done| |].
  - intros s. unfold holds, occupied. rewrite elem_of_replicate. split; [intros [[-> _] Hx]; done|].
    intros [[Hx _] _]. by apply not_elem_of_nil in Hx.
  - rewrite E. cbn [mbind outcome_bind]. by exists nt, np, used.
Qed.
End Rebuild.
