(* ===== verification/HandleSpec.v ===== *)
(** * The handle table as a finite map, and the refinement

    The abstract table is a map from ids to objects; nothing of hashing,
    probing, growing or rebuilding is left in it.  [repr] relates the arrays
    to it; every operation of HandleTable.v is shown to do what the abstract
    one does, or, where it allocates, to have met a heap that refused. *)

From S2P Require Import Prelude CbRegistry HandleTable Probe HandleCore.

Record entry := Entry { e_ptr : Z; e_tag : Z; e_owner : Z; e_release : Z }.

Definition entry_of (s : slot) : entry := Entry (s_ptr s) (s_tag s) (s_owner s) (s_release s).
Definition slot_of (id : Z) (e : entry) : slot := Slot id (e_ptr e) (e_owner e) (e_tag e) (e_release e).

Record atab := ATab { a_map : gmap Z entry; a_seq : Z; a_root : Z }.

(** ** The operations *)

Section Abstract.
Context {T : Tags}.

(** The id an object has, if any. *)
Definition a_obj (m : gmap Z entry) (p tag : Z) : option Z :=
  fst <$> head (map_to_list (filter (fun ie => e_ptr ie.2 = p /\ e_tag ie.2 = tag) m)).

Fixpoint a_under_loop (depth : nat) (m : gmap Z entry) (id o : Z) : bool :=
  match depth with
  | O => false
  | S depth =>
      if id =? 0 then false
      else if id =? o then true
      else a_under_loop depth m (match m !! id with Some e => e_owner e | None => 0 end) o
  end.
Definition a_under (m : gmap Z entry) (id o : Z) : bool := a_under_loop 8 m id o.

Fixpoint a_ancestor_loop (depth : nat) (m : gmap Z entry) (id top tag : Z) : Z :=
  match depth with
  | O => top
  | S depth =>
      if id =? 0 then top
      else match m !! id with
           | None => top
           | Some e => if negb (tag =? ARPC_H_NONE) && (e_tag e =? tag) then id
                       else a_ancestor_loop depth m (e_owner e) id tag
           end
  end.
Definition a_ancestor (m : gmap Z entry) (id tag : Z) : Z := a_ancestor_loop 8 m id id tag.

Definition a_get (m : gmap Z entry) (id tag : Z) : Z :=
  match m !! id with Some e => if e_tag e =? tag then e_ptr e else 0 | None => 0 end.

(** The root of a new object and its id. *)
Definition a_new_root (a : atab) (tag owner : Z) : Z :=
  if negb (owner =? 0) then Z.shiftr owner 40
  else if tag =? ARPC_H_HANDLE then a_root a else 0.
Definition a_new_id (a : atab) (tag owner : Z) : Z :=
  Z.lor (u64 (Z.shiftl (a_new_root a tag owner) 40)) (a_seq a).

Definition a_put (a : atab) (ptr tag owner : Z) : atab * Z :=
  if ptr =? 0 then (a, 0)
  else
    match a_obj (a_map a) ptr tag with
    | Some id =>
        match a_map a !! id with
        | Some e =>
            if negb (owner =? 0) && negb (owner =? e_owner e) && a_under (a_map a) owner (e_owner e)
            then (ATab (<[id := Entry (e_ptr e) (e_tag e) owner (e_release e)]> (a_map a))
                       (a_seq a) (a_root a), id)
            else (a, id)
        | None => (a, id)
        end
    | None =>
        let id := a_new_id a tag owner in
        (ATab (<[id := Entry ptr tag owner 0]> (a_map a)) (u64 (a_seq a + 1))
              (if (owner =? 0) && (tag =? ARPC_H_HANDLE) then u64 (a_root a + 1) else a_root a), id)
    end.

(** What is left when the objects [p] picks are dropped. *)
Definition a_drop (a : atab) (p : Z -> bool) : atab :=
  ATab (filter (fun ie => p ie.1 = false) (a_map a)) (a_seq a) (a_root a).
End Abstract.

(** ** The relation *)

Definition content (tab : list slot) (m : gmap Z entry) : Prop :=
  forall id e, m !! id = Some e <-> holds tab (slot_of id e).

(** Ids are a root over a sequence number already given out. *)
Definition ids_below (m : gmap Z entry) (seq : Z) : Prop :=
  forall id e, m !! id = Some e -> 0 < id mod 2 ^ 40 < seq /\ 0 <= id < 2 ^ 64 /\ e_ptr e <> 0.

Definition repr (t : htab) (a : atab) : Prop :=
  a_seq a = g_next_seq t /\ a_root a = g_next_root t /\
  (0 < a_seq a <= 2 ^ 40 /\ g_used t < a_seq a /\ g_cap t * 3 <= 8 * a_seq a + 768) /\
  ids_below (a_map a) (a_seq a) /\
  ((g_cap t = 0 /\ g_used t = 0 /\ g_tab t = [] /\ g_byptr t = [] /\ a_map a = ∅) \/
   (core (g_cap t) (g_tab t) (g_byptr t) (g_used t) /\ g_used t * 4 < g_cap t * 3 /\
    content (g_tab t) (a_map a))).

Lemma slot_of_entry_of s : slot_of (s_id s) (entry_of s) = s.
Proof. by destruct s. Qed.

Lemma content_slot tab m s : content tab m -> holds tab s <-> (m !! s_id s = Some (entry_of s)).
Proof. intros Hc. by rewrite (Hc (s_id s) (entry_of s)), slot_of_entry_of. Qed.

Section Find.
Context (t : htab) (a : atab).
Hypothesis Hr : repr t a.

Lemma repr_room : g_cap t <> 0 -> core (g_cap t) (g_tab t) (g_byptr t) (g_used t) /\
  g_used t < g_cap t /\ content (g_tab t) (a_map a).
Proof.
  intros H0. destruct Hr as (_ & _ & _ & _ & [(? & _)|(Hc & Hl & Hm)]); [done|].
  split_and!; [done| |done]. pose proof (core_pos _ _ _ _ Hc). lia.
Qed.

Lemma repr_empty : g_cap t = 0 -> a_map a = ∅.
Proof.
  intros H0. destruct Hr as (_ & _ & _ & _ & [(_ & _ & _ & _ & ?)|(Hc & _)]); [done|].
  pose proof (core_pos _ _ _ _ Hc). lia.
Qed.

Lemma repr_no_zero : a_map a !! 0 = None.
Proof.
  destruct (a_map a !! 0) as [e|] eqn:E; [|done]. destruct Hr as (_ & _ & _ & Hb & _).
  destruct (Hb 0 e E) as [H _]. change (0 mod 2 ^ 40) with 0 in H. lia.
Qed.

Lemma find_refines id :
  match a_map a !! id with
  | Some e => exists i, find t id = Ret (Some (i, slot_of id e)) /\ 0 <= i /\
                g_tab t !! Z.to_nat i = Some (slot_of id e)
  | None => find t id = Ret None
  end.
Proof.
  unfold find. destruct (Z.eqb_spec id 0) as [->|Hid]; [by rewrite repr_no_zero|]. cbn [orb].
  destruct (Z.eqb_spec (g_cap t) 0) as [H0|H0]; [by rewrite repr_empty|].
  destruct (repr_room H0) as (Hc & Hu & Hm).
  rewrite (slot_for_search _ _ _ _ Hc) by done.
  destruct (lookup_spec (id_hash (g_cap t)) (g_cap t) (core_pos _ _ _ _ Hc) (hash_range _ _ _ _ Hc Datatypes.id)
    (id_key (g_tab t)) id) as (i & -> & Hi & Hcase & Habs);
    [by eapply core_id_room|by eapply core_id_placed|by eapply core_id_unique|].
  cbn [mbind outcome_bind]. destruct (core_in_range _ _ _ _ Hc i Hi) as [s Hs]. rewrite Hs.
  destruct (a_map a !! id) as [e|] eqn:Ee.
  - apply Hm in Ee as [[j Hj]%list_elem_of_lookup Ho].
    destruct Hcase as [Hn|(s' & Hs' & E & Ho')%id_key_Some].
    { exfalso. apply (Habs Hn (Z.of_nat j)).
      - apply lookup_lt_Some in Hj. pose proof (core_tab _ _ _ _ Hc). lia.
      - apply id_key_Some. rewrite Nat2Z.id. by exists (slot_of id e). }
    assert (s' = s) by congruence. subst s'.
    pose proof (core_same_id _ _ _ _ Hc _ _ _ _ Hj Hs' Ho (eq_sym E)) as ->. assert (s = slot_of id e) as -> by congruence.
    exists i. cbn [s_id slot_of]. rewrite Z.eqb_refl. split_and!; [done|lia|done].
  - destruct (Z.eqb_spec (s_id s) id) as [E|]; [|done]. exfalso.
    assert (holds (g_tab t) s) as Hh.
    { split; [by eapply list_elem_of_lookup_2|]. unfold occupied. congruence. }
    apply (content_slot _ _ _ Hm) in Hh. congruence.
Qed.

(** An object of a map with no duplicates is found by [a_obj]. *)
Definition objects_once (m : gmap Z entry) : Prop :=
  forall id id' e e', m !! id = Some e -> m !! id' = Some e' ->
    e_ptr e = e_ptr e' -> e_tag e = e_tag e' -> id = id'.

Lemma repr_objects_once : objects_once (a_map a).
Proof.
  intros id id' e e' He He' Ep Et. destruct (decide (g_cap t = 0)) as [H0|H0].
  { by rewrite repr_empty in He. }
  destruct (repr_room H0) as (Hc & Hu & Hm). apply Hm in He as [[j Hj]%list_elem_of_lookup Ho].
  apply Hm in He' as [[j' Hj']%list_elem_of_lookup Ho'].
  pose proof (core_same_object _ _ _ _ Hc _ _ _ _ Hj Hj' Ho Ho' Ep Et) as ->.
  rewrite Hj in Hj'. unfold slot_of in Hj'. congruence.
Qed.

Lemma a_obj_Some m p tag id :
  a_obj m p tag = Some id -> exists e, m !! id = Some e /\ e_ptr e = p /\ e_tag e = tag.
Proof.
  unfold a_obj. destruct (map_to_list _) as [|[i e] l] eqn:E; [done|]. intros [= <-].
  assert ((i, e) ∈ map_to_list (filter (fun ie : Z * entry => e_ptr ie.2 = p /\ e_tag ie.2 = tag) m)) as Hin
    by (rewrite E; left).
  apply elem_of_map_to_list, map_lookup_filter_Some in Hin as [? [? ?]]. by exists e.
Qed.

Lemma a_obj_None m p tag id e : a_obj m p tag = None -> m !! id = Some e -> ~ (e_ptr e = p /\ e_tag e = tag).
Proof.
  unfold a_obj. destruct (map_to_list _) as [|x l] eqn:E; [|done]. intros _ He Hpt.
  assert ((id, e) ∈ map_to_list (filter (fun ie : Z * entry => e_ptr ie.2 = p /\ e_tag ie.2 = tag) m)) as Hin.
  { by apply elem_of_map_to_list, map_lookup_filter_Some. }
  rewrite E in Hin. by apply not_elem_of_nil in Hin.
Qed.

Lemma find_ptr_refines p tag :
  p <> 0 ->
  match a_obj (a_map a) p tag with
  | Some id => exists i e, find_ptr t p tag = Ret (Some (i, slot_of id e)) /\ 0 <= i /\
      g_tab t !! Z.to_nat i = Some (slot_of id e) /\ a_map a !! id = Some e
  | None => find_ptr t p tag = Ret None
  end.
Proof.
  intros Hp. unfold find_ptr. destruct (Z.eqb_spec p 0) as [|_]; [done|]. cbn [orb].
  destruct (Z.eqb_spec (g_cap t) 0) as [H0|H0]; [by rewrite repr_empty|].
  destruct (repr_room H0) as (Hc & Hu & Hm). rewrite (ptr_for_search _ _ _ _ Hc).
  destruct (lookup_spec (ptr_hash (g_cap t)) (g_cap t) (core_pos _ _ _ _ Hc)
    (hash_range _ _ _ _ Hc (fun k => Z.lxor k.1 (u64 (Z.shiftl k.2 56))))
    (ptr_key (g_tab t) (g_byptr t)) (p, tag)) as (i & -> & Hi & Hcase & Habs);
    [by eapply core_ptr_room|by eapply core_ptr_placed|by eapply core_ptr_unique|].
  cbn [mbind outcome_bind]. destruct (core_ptr_in_range _ _ _ _ Hc i Hi) as [b Hb]. rewrite Hb.
  unfold ptr_key in Hcase at 1 2. rewrite Hb in Hcase. cbn in Hcase.
  destruct (Z.eqb_spec b 0) as [E0|Hb0].
  - destruct (a_obj (a_map a) p tag) as [id|] eqn:Eo; [|done]. exfalso.
    apply a_obj_Some in Eo as (e & He & Ep & Et). apply Hm in He as [[j Hj]%list_elem_of_lookup Ho].
    destruct (core_every _ _ _ _ Hc _ _ Hj Ho) as [x Hx]. pose proof (lookup_lt_Some _ _ _ Hx).
    apply (Habs ltac:(unfold ptr_key; rewrite Hb; cbn; by destruct (Z.eqb_spec b 0)) (Z.of_nat x)).
    { pose proof (core_byptr _ _ _ _ Hc). lia. }
    unfold ptr_key. rewrite Nat2Z.id, Hx. cbn. destruct (Z.eqb_spec (Z.of_nat j + 1) 0); [lia|].
    replace (Z.to_nat (Z.of_nat j + 1 - 1)) with j by lia. rewrite Hj. cbn. congruence.
  - destruct (core_entry _ _ _ _ Hc _ _ Hb Hb0) as (s & Hbp & Hs & Ho). rewrite Hs in Hcase |- *.
    cbn in Hcase. destruct Hcase as [|[= Ep Et]]; [done|].
    assert (He : a_map a !! s_id s = Some (entry_of s)).
    { apply (content_slot _ _ _ Hm). split; [by eapply list_elem_of_lookup_2|done]. }
    destruct (a_obj (a_map a) p tag) as [id|] eqn:Eo.
    + apply a_obj_Some in Eo as (e & He' & Ep' & Et').
      assert (id = s_id s) as -> by (eapply repr_objects_once; [done|done|cbn; congruence..]).
      rewrite He in He'. simplify_eq. exists (b - 1), (entry_of s).
      rewrite slot_of_entry_of. split_and!; [done|lia|done|done].
    + exfalso. by eapply (a_obj_None _ _ _ _ _ Eo He).
Qed.

Lemma under_refines depth id o : under_loop depth t id o = Ret (a_under_loop depth (a_map a) id o).
Proof.
  revert id. induction depth as [|depth IH]; intros id; [done|]. cbn [under_loop a_under_loop].
  destruct (id =? 0); [done|]. destruct (id =? o); [done|]. pose proof (find_refines id) as Hf.
  destruct (a_map a !! id) as [e|]; [destruct Hf as (i & -> & _)|rewrite Hf]; cbn; apply IH.
Qed.

Lemma ancestor_refines depth id top tag :
  ancestor_loop depth t id top tag = Ret (a_ancestor_loop depth (a_map a) id top tag).
Proof.
  revert id top. induction depth as [|depth IH]; intros id top; [done|]. cbn [ancestor_loop a_ancestor_loop].
  destruct (id =? 0); [done|]. pose proof (find_refines id) as Hf.
  destruct (a_map a !! id) as [e|]; [destruct Hf as (i & -> & _)|by rewrite Hf].
  cbn. destruct (_ && _); [done|apply IH].
Qed.

Lemma get_refines id tag : arpc_handle_get t id tag = Ret (a_get (a_map a) id tag).
Proof.
  unfold arpc_handle_get, a_get. pose proof (find_refines id) as Hf.
  destruct (a_map a !! id) as [e|]; [destruct Hf as (i & -> & _)|rewrite Hf]; done.
Qed.
End Find.

(** ** Growing *)

Lemma new_id_sum {T : Tags} a tag owner :
  0 < a_seq a < 2 ^ 40 -> a_new_id a tag owner = a_new_root a tag owner mod 2 ^ 24 * 2 ^ 40 + a_seq a.
Proof.
  intros Hs. unfold a_new_id, u64. set (r := a_new_root a tag owner).
  assert (E : Z.shiftl r 40 mod 18446744073709551616 = Z.shiftl (r mod 2 ^ 24) 40).
  { rewrite !Z.shiftl_mul_pow2 by lia. change 18446744073709551616 with (2 ^ 24 * 2 ^ 40).
    by rewrite Z.mul_mod_distr_r. }
  rewrite E. apply lor_shiftl_add; lia.
Qed.

Lemma new_id_seq {T : Tags} a tag owner :
  0 < a_seq a < 2 ^ 40 ->
  a_new_id a tag owner mod 2 ^ 40 = a_seq a /\ 0 < a_new_id a tag owner < 2 ^ 64.
Proof.
  intros Hs. rewrite new_id_sum by done. split.
  - rewrite Z.add_comm, Z.mod_add by lia. by apply Z.mod_small; lia.
  - pose proof (Z.mod_pos_bound (a_new_root a tag owner) (2 ^ 24) ltac:(lia)).
    change (2 ^ 64) with (2 ^ 24 * 2 ^ 40). nia.
Qed.

Section Refine.
Context {A : Allocator} {T : Tags}.

Lemma calloc_total n size :
  TotalAllocator A -> n * size < 2 ^ 64 -> calloc_ok n size = true.
Proof.
  intros Ht Hn. unfold calloc_ok. rewrite Ht, andb_true_r. apply Z.ltb_lt.
  change 18446744073709551616 with (2 ^ 64). done.
Qed.

Lemma repr_content t a : repr t a -> content (g_tab t) (a_map a).
Proof.
  intros (_ & _ & _ & _ & [(_ & _ & -> & _ & ->)|(_ & _ & Hm)]); [|done].
  intros id e. rewrite lookup_empty. unfold holds. split; [done|]. by intros [?%not_elem_of_nil _].
Qed.

(** What [rebuild] relies on, of an allocated table and of the empty one. *)
Lemma repr_counts t a :
  repr t a ->
  (forall j j' s s', g_tab t !! j = Some s -> g_tab t !! j' = Some s' -> occupied s ->
     s_id s = s_id s' -> j = j') /\
  (forall j j' s s', g_tab t !! j = Some s -> g_tab t !! j' = Some s' -> occupied s -> occupied s' ->
     s_ptr s = s_ptr s' -> s_tag s = s_tag s' -> j = j') /\
  count occupied (g_tab t) = g_used t /\
  (g_cap t = 0 /\ g_used t = 0 \/ 0 < g_cap t /\ g_used t * 4 < g_cap t * 3).
Proof.
  intros (_ & _ & _ & _ & [(H0 & Hu & -> & _ & _)|(Hc & Hl & _)]).
  - rewrite Hu. split_and!; [done|done|done|by left].
  - pose proof (core_pos _ _ _ _ Hc). split_and!; [| |by eapply core_used|by right].
    + intros. by eapply core_same_id.
    + intros. by eapply core_same_object.
Qed.

(** A rebuild that keeps what [kept] says, whatever the table. *)
Lemma rebuild_refines t a ncap keep kept :
  repr t a -> cap_ok ncap -> g_cap t <= ncap -> ncap * 3 <= 8 * a_seq a + 768 ->
  (forall s, holds (g_tab t) s -> match keep with Some f => f s | None => Ret true end = Ret (kept s)) ->
  (exists t', rebuild t ncap keep = Ret (t', true) /\
     repr t' (a_drop a (fun id => match a_map a !! id with Some e => negb (kept (slot_of id e)) | None => true end)) /\
     g_cap t' = ncap /\ g_used t' <= g_used t /\
     g_released t' = g_released t ++ releases kept (g_tab t)) \/
  (rebuild t ncap keep = Ret (t, false) /\ ~ TotalAllocator A).
Proof.
  intros Hr Hcap Hle Hbound Hkeep.
  destruct (calloc_ok ncap sizeof_slot && calloc_ok ncap sizeof_size_t) eqn:Hok.
  2: { right. unfold rebuild. rewrite Hok. split; [done|]. intros Ht.
       destruct Hr as (_ & _ & ((_ & ?) & _) & _). unfold sizeof_slot, sizeof_size_t in Hok.
       rewrite !calloc_total in Hok by (done || lia). done. }
  left. pose proof Hr as (Hseq & Hroot & (Hsq & Hus & Hcb) & Hb & _).
  pose proof (repr_content _ _ Hr) as Hm. pose proof (repr_counts _ _ Hr) as (Hids & Hobjs & Hcnt & Hload).
  pose proof (cap_ok_bounds _ Hcap).
  destruct (rebuild_spec (g_tab t) keep kept ncap Hkeep Hids Hobjs) with (t := t)
    as (nt & np & used & E & Hc & Hu & Hh); [lia|done..|].
  rewrite Hcnt in Hu. eexists. split; [exact E|]. cbn [g_cap g_used g_released]. split_and!; try done.
  unfold repr, a_drop. cbn [a_seq a_root a_map g_next_seq g_next_root g_cap g_used g_tab g_byptr].
  split_and!; try done; try lia.
  - intros id e [He _]%map_lookup_filter_Some. by apply Hb.
  - right. split_and!; [done|lia|]. intros id e. rewrite map_lookup_filter_Some, Hh, <- (Hm id e). cbn.
    split; intros [He Hk]; (split; [done|]); rewrite He in *; by destruct (kept _).
Qed.

Lemma releases_all l : releases (fun _ => true) l = [].
Proof.
  unfold releases. induction l as [|s l IH]; [done|]. rewrite filter_cons, decide_False; [done|].
  by intros (_ & ? & _).
Qed.

Lemma a_drop_lookup a p id : a_map (a_drop a p) !! id = if p id then None else a_map a !! id.
Proof.
  unfold a_drop. cbn [a_map]. destruct (p id) eqn:Ep.
  - apply map_lookup_filter_None. right. intros e _. cbn [fst]. congruence.
  - destruct (a_map a !! id) as [e|] eqn:He.
    + by apply map_lookup_filter_Some.
    + apply map_lookup_filter_None. by left.
Qed.

Lemma a_drop_none a m : m = a_map a ->
  a_drop a (fun id => match m !! id with Some _ => false | None => true end) = a.
Proof.
  intros ->. destruct a as [m seq root]. unfold a_drop. cbn. f_equal. apply map_eq. intros id.
  destruct (m !! id) as [e|] eqn:E.
  - apply map_lookup_filter_Some. cbn. by rewrite E.
  - apply map_lookup_filter_None. by left.
Qed.

Lemma repr_cap t a : repr t a -> g_cap t <> 0 -> cap_ok (g_cap t).
Proof. intros Hr H0. destruct (repr_room _ _ Hr H0) as (Hc & _). by eapply core_cap. Qed.

(** The growth of [arpc_handle_put]: room for one more, and nothing else. *)
Lemma grow_refines t a :
  repr t a -> a_seq a < 2 ^ 40 ->
  (exists t', (if g_cap t * 3 <=? (g_used t + 1) * 4
               then rebuild t (if g_cap t =? 0 then 256 else g_cap t * 2) None
               else Ret (t, true)) = Ret (t', true) /\
     repr t' a /\ (g_used t' + 1) * 4 < g_cap t' * 3 /\ g_released t' = g_released t) \/
  ((if g_cap t * 3 <=? (g_used t + 1) * 4
    then rebuild t (if g_cap t =? 0 then 256 else g_cap t * 2) None
    else Ret (t, true)) = Ret (t, false) /\ ~ TotalAllocator A).
Proof.
  intros Hr Hsq. destruct (Z.leb_spec (g_cap t * 3) ((g_used t + 1) * 4)) as [Hfull|Hfit].
  2: { left. exists t. split_and!; [done|done|lia|done]. }
  pose proof (repr_counts _ _ Hr) as (_ & _ & _ & Hload). pose proof Hr as (_ & _ & (Hsq' & Hus & Hcb) & _).
  set (ncap := if g_cap t =? 0 then 256 else g_cap t * 2).
  assert (Hn : cap_ok ncap /\ g_cap t <= ncap /\ ncap * 3 <= 8 * a_seq a + 768 /\
    (g_used t + 1) * 4 < ncap * 3).
  { subst ncap. destruct (Z.eqb_spec (g_cap t) 0) as [H0|H0].
    - split_and!; [|lia..]. exists 8%nat. split; [lia|done].
    - pose proof (repr_cap _ _ Hr H0) as (k & Hk & E). split_and!; [|lia..].
      exists (S k). rewrite Nat2Z.inj_succ, Z.pow_succ_r by lia. split; [|lia].
      split; [lia|]. destruct (decide (S k <= 60)%nat) as [|Hk']; [done|exfalso].
      assert (k = 60%nat) as -> by lia. change (2 ^ Z.of_nat 60) with (2 ^ 60) in E.
      change (2 ^ 60) with (2 ^ 40 * 1048576) in E. lia. }
  destruct Hn as (Hcap & Hle & Hbound & Hroom).
  destruct (rebuild_refines t a ncap None (fun _ => true) Hr Hcap Hle Hbound) as [(t' & E & Hr' & Ec & Hu & Hrel)|[E Ht]];
    [done| |right; done].
  left. exists t'. rewrite E, Ec. cbn [negb] in Hr'. rewrite a_drop_none in Hr' by done.
  split_and!; [done|done|lia|]. by rewrite Hrel, releases_all, app_nil_r.
Qed.

(** Writing another owner or release function into a slot. *)
Lemma set_slot_refines t a i id e e' :
  repr t a -> g_tab t !! Z.to_nat i = Some (slot_of id e) -> a_map a !! id = Some e ->
  e_ptr e' = e_ptr e -> e_tag e' = e_tag e ->
  repr (set_slot t i (slot_of id e')) (ATab (<[id := e']> (a_map a)) (a_seq a) (a_root a)).
Proof.
  intros Hr Hi He Ep Et. pose proof Hr as (Hseq & Hroot & Hbs & Hb & Hcase).
  unfold repr. cbn. split_and!; try tauto.
  - intros x ex. intros [[<- <-]|[_ Hx]]%lookup_insert_Some; [|by apply Hb].
    rewrite Ep. by apply Hb in He.
  - right. destruct Hcase as [(_ & _ & E & _)|(Hc & Hl & Hm)]; [by rewrite E in Hi|].
    assert (Ho : occupied (slot_of id e)).
    { unfold occupied. cbn. intros ->. by rewrite (repr_no_zero _ _ Hr) in He. }
    split_and!; [by eapply core_update|done|].
    intros x ex. rewrite (holds_update _ _ (slot_of id e)); [|done| |done|done].
    + cbn [s_id slot_of]. destruct (decide (x = id)) as [->|Hne].
      * rewrite lookup_insert_eq. unfold slot_of. destruct ex, e'. cbn. naive_solver.
      * rewrite lookup_insert_ne by done. apply Hm.
    + intros j' y Hj' Hoy Eid. cbn in Eid. symmetry. by eapply core_same_id.
Qed.

Lemma put_refines t a ptr tag owner :
  repr t a -> a_seq a < 2 ^ 40 -> 0 <= ptr ->
  (exists t', arpc_handle_put t ptr tag owner = Ret (t', (a_put a ptr tag owner).2) /\
     repr t' (a_put a ptr tag owner).1 /\ g_released t' = g_released t) \/
  (arpc_handle_put t ptr tag owner = Ret (t, 0) /\ ~ TotalAllocator A).
Proof.
  intros Hr Hsq Hp. unfold arpc_handle_put, a_put.
  destruct (Z.eqb_spec ptr 0) as [|Hp0]; [left; by exists t|].
  pose proof (find_ptr_refines t a Hr ptr tag Hp0) as Hf.
  destruct (a_obj (a_map a) ptr tag) as [id|] eqn:Eo.
  - left. destruct Hf as (i & e & -> & Hi & Hti & He). rewrite He. cbn [mbind outcome_bind s_owner slot_of s_id].
    unfold under. rewrite (under_refines _ _ Hr).
    fold (a_under (a_map a) owner (e_owner e)).
    destruct (negb (owner =? 0) && negb (owner =? e_owner e)); cbn [andb mbind outcome_bind]; [|by exists t].
    destruct (a_under (a_map a) owner (e_owner e)); [|by exists t].
    eexists. split; [reflexivity|]. split; [|done].
    by apply (set_slot_refines t a i id e (Entry (e_ptr e) (e_tag e) owner (e_release e))).
  - rewrite Hf. cbn [mbind outcome_bind].
    destruct (grow_refines t a Hr Hsq) as [(t1 & -> & Hr1 & Hroom & Hrel)|[-> Ht]]; [left|by right].
    cbn [mbind outcome_bind negb]. rewrite <- Hrel. clear Hf Hrel t Hr. pose proof Hr1 as (Hseq & Hroot & (Hsq' & Hus & Hcb) & Hb & _).
    set (root := if negb (owner =? 0) then _ else _).
    assert (Eroot : root = (a_new_root a tag owner,
      if (owner =? 0) && (tag =? ARPC_H_HANDLE) then u64 (a_root a + 1) else a_root a)).
    { subst root. unfold a_new_root. rewrite Hroot.
      destruct (owner =? 0), (tag =? ARPC_H_HANDLE); done. }
    rewrite Eroot. clear root Eroot. rewrite <- Hseq.
    fold (a_new_id a tag owner). set (id := a_new_id a tag owner).
    destruct (new_id_seq a tag owner ltac:(lia)) as [Hmod Hrange]. fold id in Hmod, Hrange.
    assert (Hc0 : g_cap t1 <> 0). { pose proof (repr_counts _ _ Hr1) as (_ & _ & _ & ?). lia. }
    destruct (repr_room _ _ Hr1 Hc0) as (Hc & Hlt & Hm).
    assert (Hfresh : forall s, holds (g_tab t1) s -> s_id s <> id).
    { intros s Hs%(content_slot _ _ _ Hm) E. apply Hb in Hs as [Hs _]. rewrite E, Hmod in Hs. lia. }
    destruct (core_insert _ _ _ _ (Slot id ptr owner tag 0) Hc Hlt) as (i & byptr & Es & Ei & Hc' & Hh).
    + unfold occupied. cbn. lia.
    + done.
    + intros s Hs%(content_slot _ _ _ Hm) [= Ep Et]. by apply (a_obj_None _ _ _ _ _ Eo Hs).
    + cbn [s_id] in Es. rewrite Es. cbn [mbind outcome_bind]. rewrite Ei. cbn [mbind outcome_bind].
      eexists. split; [reflexivity|]. split; [|done]. unfold repr.
      cbn [fst a_seq a_root a_map g_next_seq g_next_root g_cap g_used g_tab g_byptr].
      rewrite u64_small by (change 18446744073709551616 with (2 ^ 40 * 16777216); lia).
      split_and!; try done; try lia.
      * intros x ex [[<- <-]|[_ Hx]]%lookup_insert_Some.
        -- rewrite Hmod. cbn. lia.
        -- destruct (Hb x ex Hx) as (H1 & H2 & H3). lia.
      * right. split_and!; [done|lia|]. intros x ex. rewrite Hh, lookup_insert_Some, (Hm x ex).
        split.
        -- intros [[<- <-]|[_ ?]]; [by left|by right].
        -- intros [E|Hx]; [left; unfold slot_of in E; destruct ex; cbn in E; by simplify_eq|].
           right. split; [|done]. intros <-. by apply (Hfresh _ Hx).
Qed.

(** [arpc_handle_adopt] of the map. *)
Definition a_adopt (a : atab) (ptr owner release : Z) : atab * Z :=
  let '(a, id) := a_put a ptr ARPC_H_NONE owner in
  (match a_map a !! id with
   | Some e => ATab (<[id := Entry (e_ptr e) (e_tag e) (e_owner e) release]> (a_map a)) (a_seq a) (a_root a)
   | None => a
   end, id).

Lemma adopt_refines t a ptr owner release :
  repr t a -> a_seq a < 2 ^ 40 -> 0 <= ptr ->
  (exists t', arpc_handle_adopt t ptr owner release = Ret (t', (a_adopt a ptr owner release).2) /\
     repr t' (a_adopt a ptr owner release).1 /\ g_released t' = g_released t) \/
  (arpc_handle_adopt t ptr owner release = Ret (t, 0) /\ ~ TotalAllocator A).
Proof.
  intros Hr Hsq Hp. unfold arpc_handle_adopt, a_adopt.
  destruct (put_refines t a ptr ARPC_H_NONE owner Hr Hsq Hp) as [(t1 & -> & Hr1 & Hrel)|[-> Ht]].
  - left. destruct (a_put a ptr ARPC_H_NONE owner) as [a1 id]. cbn [fst snd mbind outcome_bind] in *.
    pose proof (find_refines t1 a1 Hr1 id) as Hf. destruct (a_map a1 !! id) as [e|] eqn:He.
    + destruct Hf as (i & -> & Hi & Hti). eexists. split; [reflexivity|]. split; [|done].
      by apply (set_slot_refines t1 a1 i id e (Entry (e_ptr e) (e_tag e) (e_owner e) release)).
    + rewrite Hf. by exists t1.
  - right. split; [done|]. done.
Qed.

(** ** Dropping *)

(** The calls a drop makes: the release function of every adopted object
    that goes, on that object. *)
Definition a_releases (m : gmap Z entry) (p : Z -> bool) : list (Z * Z) :=
  (fun ie => (e_release ie.2, e_ptr ie.2)) <$>
    filter (fun ie => p ie.1 = true /\ e_release ie.2 <> 0) (map_to_list m).

Definition pairs (l : list slot) : list (Z * entry) :=
  (fun s => (s_id s, entry_of s)) <$> filter occupied l.

Lemma pairs_NoDup l :
  (forall j j' s s', l !! j = Some s -> l !! j' = Some s' -> occupied s -> s_id s = s_id s' -> j = j') ->
  NoDup (pairs l).
Proof.
  induction l as [|s l IH]; intros Hu; [constructor|].
  assert (Hl : NoDup (pairs l)).
  { apply IH. intros j j' x x' Hj Hj' Ho E. by pose proof (Hu (S j) (S j') x x' Hj Hj' Ho E) as [= ->]. }
  unfold pairs. rewrite filter_cons. destruct (decide (occupied s)) as [Ho|]; [|done].
  cbn [fmap list_fmap]. constructor; [|done].
  intros (x & [= E _] & Hx)%list_elem_of_fmap. apply list_elem_of_filter in Hx as [Hox [j Hj]%list_elem_of_lookup].
  by pose proof (Hu 0%nat (S j) s x eq_refl Hj Ho E).
Qed.

Lemma pairs_content t a : repr t a -> pairs (g_tab t) ≡ₚ map_to_list (a_map a).
Proof.
  intros Hr. pose proof (repr_counts _ _ Hr) as (Hids & _). apply NoDup_Permutation.
  - by apply pairs_NoDup.
  - apply NoDup_map_to_list.
  - intros [id e]. rewrite elem_of_map_to_list, (repr_content _ _ Hr id e). unfold pairs, holds.
    rewrite list_elem_of_fmap. split.
    + intros (s & [= -> ->] & [Ho Hs]%list_elem_of_filter). by rewrite slot_of_entry_of.
    + intros [Hs Ho]. exists (slot_of id e). split; [by destruct e|]. by apply list_elem_of_filter.
Qed.

Lemma releases_pairs kept l :
  releases kept l = (fun ie => (e_release ie.2, e_ptr ie.2)) <$>
    filter (fun ie => kept (slot_of ie.1 ie.2) = false /\ e_release ie.2 <> 0) (pairs l).
Proof.
  induction l as [|s l IH]; [done|]. unfold releases, pairs in *. rewrite !filter_cons.
  destruct (decide (occupied s)) as [Ho|Hn].
  - cbn [fmap list_fmap]. rewrite filter_cons. cbn [fst snd]. rewrite slot_of_entry_of.
    destruct (decide (kept s = false /\ e_release (entry_of s) <> 0)) as [[Hk He]|Hk].
    + rewrite decide_True by done. cbn [fmap list_fmap]. by rewrite IH.
    + rewrite decide_False by (intros (_ & ? & ?); by apply Hk). done.
  - rewrite decide_False by tauto. done.
Qed.

Lemma releases_content t a kept p :
  repr t a -> (forall id e, a_map a !! id = Some e -> p id = negb (kept (slot_of id e))) ->
  releases kept (g_tab t) ≡ₚ a_releases (a_map a) p.
Proof.
  intros Hr Hp. rewrite releases_pairs. unfold a_releases. apply fmap_Permutation.
  rewrite (pairs_content t a Hr).
  assert (E : forall l : list (Z * entry), (forall ie, ie ∈ l -> a_map a !! ie.1 = Some ie.2) ->
    filter (fun ie => kept (slot_of ie.1 ie.2) = false /\ e_release ie.2 <> 0) l =
    filter (fun ie => p ie.1 = true /\ e_release ie.2 <> 0) l).
  { intros l Hl. induction l as [|ie l IH]; [done|].
    rewrite !filter_cons, IH by (intros; apply Hl; by right).
    assert (E1 : p ie.1 = negb (kept (slot_of ie.1 ie.2))) by (apply Hp, Hl; left).
    apply decide_ext. rewrite E1.
    destruct (kept (slot_of ie.1 ie.2)); cbn; split; intros [? ?]; done. }
  rewrite E; [done|]. intros [id e] Hin. by apply elem_of_map_to_list in Hin.
Qed.

(** The general drop: [p] picks what goes, [keep] computes it. *)
Lemma drop_matching_refines t a keep p :
  repr t a ->
  (forall id e, a_map a !! id = Some e -> keep (slot_of id e) = Ret (negb (p id))) ->
  exists t', drop_matching t keep = Ret t' /\
    ((repr t' (a_drop a p) /\ g_released t' = g_released t ++ releases (fun s => negb (p (s_id s))) (g_tab t)) \/
     (t' = t /\ ~ TotalAllocator A)).
Proof.
  intros Hr Hk. unfold drop_matching. destruct (Z.eqb_spec (g_cap t) 0) as [H0|H0].
  - exists t. split; [done|left]. pose proof (repr_empty _ _ Hr H0) as He. split.
    + unfold a_drop. rewrite He, map_filter_empty, <- He. by destruct a.
    + destruct Hr as (_ & _ & _ & _ & [(_ & _ & -> & _)|(Hc & _)]); [by rewrite app_nil_r|].
      pose proof (core_pos _ _ _ _ Hc). lia.
  - pose proof (repr_content _ _ Hr) as Hm. pose proof Hr as (_ & _ & (_ & _ & Hb) & _).
    destruct (rebuild_refines t a (g_cap t) (Some keep) (fun s => negb (p (s_id s))) Hr (repr_cap _ _ Hr H0))
      as [(t' & -> & Hr' & _ & _ & Hrel)|[-> Ht]]; [lia|lia| | |].
    + intros s Hs. pose proof Hs as He%(content_slot _ _ _ Hm).
      specialize (Hk _ _ He). by rewrite slot_of_entry_of in Hk.
    + exists t'. split; [done|left]. split.
      * replace (a_drop a p) with (a_drop a (fun id => match a_map a !! id with
          | Some e => negb (negb (p (s_id (slot_of id e)))) | None => true end)); [done|].
        unfold a_drop. f_equal. apply map_filter_ext. intros id e He. cbn. rewrite He. by rewrite negb_involutive.
      * exact Hrel.
    + exists t. split; [done|by right].
Qed.
End Refine.
