(* ===== verification/HandleTheorems.v ===== *)
(** * What the handle table promises

    Runs of the table against runs of the map: the concrete table, driven by
    any sequence of its operations, never leaves its arrays, never probes for
    ever, and answers as the map does.  The promises of arpc_server.h -- ids
    are never reused, one object has one id, a wrong tag misses, dropping an
    owner drops what is under it -- are theorems about the functions of
    HandleTable.v. *)

From S2P Require Import Prelude CbRegistry HandleTable Probe HandleCore HandleSpec.

(** ** Runs *)

Inductive hop :=
| HPut (ptr tag owner : Z)
| HAdopt (ptr owner release : Z)
| HGet (id tag : Z)
| HAncestor (id tag : Z)
| HDrop (id : Z)
| HDropOwner (owner : Z)
| HDropUnder (owner : Z)
| HDropPtr (ptr tag : Z)
| HReset.

(** Pointers are not negative. *)
Definition hop_ok (op : hop) : Prop :=
  match op with HPut p _ _ | HAdopt p _ _ => 0 <= p | _ => True end.

#[export] Instance hop_ok_dec op : Decision (hop_ok op).
Proof. destruct op; cbn; apply _. Defined.

Section Runs.
Context {T : Tags}.

(** The table and the callback registry; the result of the call, 0 for the
    calls that return nothing. *)
Definition hstep {A : Allocator} (st : htab * cbregs) (op : hop) : outcome ((htab * cbregs) * Z) :=
  let '(t, regs) := st in
  match op with
  | HPut p tag o => '(t, id) ← arpc_handle_put t p tag o; Ret ((t, regs), id)
  | HAdopt p o r => '(t, id) ← arpc_handle_adopt t p o r; Ret ((t, regs), id)
  | HGet id tag => p ← arpc_handle_get t id tag; Ret (st, p)
  | HAncestor id tag => i ← arpc_ancestor t id tag; Ret (st, i)
  | HDrop id => t ← arpc_handle_drop t id; Ret ((t, regs), 0)
  | HDropOwner o => st ← arpc_handle_drop_owner t regs o; Ret (st, 0)
  | HDropUnder o => t ← arpc_handle_drop_under t o; Ret ((t, regs), 0)
  | HDropPtr p tag => st ← arpc_handle_drop_ptr t regs p tag; Ret (st, 0)
  | HReset => Ret ((arpc_handle_reset t, regs), 0)
  end.

(** A program of operations, each with the heap it meets: what a request is
    answered may change from one call to the next. *)
Fixpoint hrun (ops : list (Allocator * hop)) (st : htab * cbregs) : outcome ((htab * cbregs) * list Z) :=
  match ops with
  | [] => Ret (st, [])
  | (A, op) :: ops => '(st, r) ← hstep (A:=A) st op; '(st, rs) ← hrun ops st; Ret (st, r :: rs)
  end.

(** The same on the map; [ok] is what the heap answered. *)
Definition a_step (ok : bool) (st : atab * cbregs) (op : hop) : (atab * cbregs) * Z :=
  let '(a, regs) := st in
  let m := a_map a in
  let drop p := if ok then a_drop a p else a in
  match op with
  | HPut p tag o => if ok then let '(a, id) := a_put a p tag o in ((a, regs), id) else (st, 0)
  | HAdopt p o r => if ok then let '(a, id) := a_adopt a p o r in ((a, regs), id) else (st, 0)
  | HGet id tag => (st, a_get m id tag)
  | HAncestor id tag => (st, a_ancestor m id tag)
  | HDrop id => ((drop (fun x => x =? id), regs), 0)
  | HDropOwner o => if o =? 0 then (st, 0)
                    else ((drop (fun x => a_under m x o), arpc_cb_purge regs o), 0)
  | HDropUnder o => if o =? 0 then (st, 0)
                    else ((drop (fun x => negb (x =? o) && a_under m x o), regs), 0)
  | HDropPtr p tag =>
      match (if p =? 0 then None else a_obj m p tag) with
      | Some o => ((drop (fun x => a_under m x o), arpc_cb_purge regs o), 0)
      | None => (st, 0)
      end
  | HReset => ((ATab ∅ (a_seq a) (a_root a), regs), 0)
  end.

Fixpoint a_run (oks : list bool) (ops : list hop) (st : atab * cbregs) : (atab * cbregs) * list Z :=
  match oks, ops with
  | ok :: oks, op :: ops => let '(st, r) := a_step ok st op in
                            let '(st, rs) := a_run oks ops st in (st, r :: rs)
  | _, _ => (st, [])
  end.

Definition atab0 : atab := ATab ∅ 1 1.

Lemma repr_init : repr htab0 atab0.
Proof.
  unfold repr, htab0, atab0. cbn. split_and!; try done; try lia.
  by left.
Qed.

Lemma repr_reset t a : repr t a -> repr (arpc_handle_reset t) (ATab ∅ (a_seq a) (a_root a)).
Proof.
  intros (Hs & Hro & (Hsq & Hu & Hc) & Hb & _). unfold repr. cbn. split_and!; try done; try lia.
  by left.
Qed.

(** The drops, each with what it picks. *)
Lemma drop_refines {A : Allocator} t a id :
  repr t a ->
  exists t', arpc_handle_drop t id = Ret t' /\
    (repr t' (a_drop a (fun x => x =? id)) \/ (t' = t /\ ~ TotalAllocator A)).
Proof.
  intros Hr. unfold arpc_handle_drop. pose proof (find_refines t a Hr id) as Hf.
  destruct (a_map a !! id) as [e|] eqn:He.
  - destruct Hf as (i & -> & _). cbn [mbind outcome_bind].
    destruct (drop_matching_refines t a (keep_not id) (fun x => x =? id) Hr) as (t' & E & [[H _]|H]);
      [done|exists t'; auto|exists t'; auto].
  - rewrite Hf. exists t. split; [done|left]. unfold a_drop. rewrite map_filter_id; [by destruct a|].
    intros x e Hx. cbn. destruct (Z.eqb_spec x id) as [->|]; [congruence|done].
Qed.

Lemma drop_owner_refines {A : Allocator} t a regs o :
  repr t a -> o <> 0 ->
  exists t', arpc_handle_drop_owner t regs o = Ret (t', arpc_cb_purge regs o) /\
    ((repr t' (a_drop a (fun x => a_under (a_map a) x o)) /\
      g_released t' = g_released t ++ releases (fun s => negb (a_under (a_map a) (s_id s) o)) (g_tab t)) \/
     (t' = t /\ ~ TotalAllocator A)).
Proof.
  intros Hr Ho. unfold arpc_handle_drop_owner. destruct (Z.eqb_spec o 0); [done|].
  destruct (drop_matching_refines t a (keep_outside t o) (fun x => a_under (a_map a) x o) Hr) as (t' & -> & H).
  - intros id e _. unfold keep_outside, under. by rewrite (under_refines _ _ Hr).
  - by exists t'.
Qed.

Lemma drop_under_refines {A : Allocator} t a o :
  repr t a -> o <> 0 ->
  exists t', arpc_handle_drop_under t o = Ret t' /\
    (repr t' (a_drop a (fun x => negb (x =? o) && a_under (a_map a) x o)) \/
     (t' = t /\ ~ TotalAllocator A)).
Proof.
  intros Hr Ho. unfold arpc_handle_drop_under. destruct (Z.eqb_spec o 0); [done|].
  destruct (drop_matching_refines t a (keep_outside_or_self t o)
    (fun x => negb (x =? o) && a_under (a_map a) x o) Hr) as (t' & -> & [[H _]|H]).
  - intros id e _. unfold keep_outside_or_self, under. cbn [s_id slot_of]. destruct (id =? o); [done|].
    rewrite (under_refines _ _ Hr). done.
  - exists t'. auto.
  - exists t'. auto.
Qed.

(** One step: as the map, with what the heap answered. *)
Lemma hstep_refines {A : Allocator} t a regs op :
  repr t a -> a_seq a < 2 ^ 40 -> hop_ok op ->
  exists t' ok, hstep (t, regs) op = Ret (t', (a_step ok (a, regs) op).2) /\
    repr t'.1 (a_step ok (a, regs) op).1.1 /\ t'.2 = (a_step ok (a, regs) op).1.2 /\
    (ok = false -> ~ TotalAllocator A).
Proof.
  intros Hr Hsq Hop. destruct op as [p tag o|p o r|id tag|id tag|id|o|o|p tag|]; cbn [hstep a_step].
  - destruct (put_refines t a p tag o Hr Hsq Hop) as [(t' & -> & Hr' & _)|[-> Ht]].
    + exists (t', regs), true. by destruct (a_put a p tag o).
    + by exists (t, regs), false.
  - destruct (adopt_refines t a p o r Hr Hsq Hop) as [(t' & -> & Hr' & _)|[-> Ht]].
    + exists (t', regs), true. by destruct (a_adopt a p o r).
    + by exists (t, regs), false.
  - rewrite (get_refines _ _ Hr). by exists (t, regs), true.
  - unfold arpc_ancestor. rewrite (ancestor_refines _ _ Hr). by exists (t, regs), true.
  - destruct (drop_refines t a id Hr) as (t' & -> & [H|[-> Ht]]).
    + by exists (t', regs), true.
    + by exists (t, regs), false.
  - destruct (Z.eqb_spec o 0) as [->|Ho]; [by exists (t, regs), true|].
    destruct (drop_owner_refines t a regs o Hr Ho) as (t' & -> & [[H _]|[-> Ht]]).
    + by exists (t', arpc_cb_purge regs o), true.
    + by exists (t, arpc_cb_purge regs o), false.
  - destruct (Z.eqb_spec o 0) as [->|Ho]; [by exists (t, regs), true|].
    destruct (drop_under_refines t a o Hr Ho) as (t' & -> & [H|[-> Ht]]).
    + by exists (t', regs), true.
    + by exists (t, regs), false.
  - unfold arpc_handle_drop_ptr. destruct (Z.eqb_spec p 0) as [->|Hp]; [by exists (t, regs), true|].
    pose proof (find_ptr_refines t a Hr p tag Hp) as Hf. destruct (a_obj (a_map a) p tag) as [o|].
    + destruct Hf as (i & e & -> & _ & _ & He). cbn [mbind outcome_bind s_id slot_of].
      assert (Ho : o <> 0) by (intros ->; by rewrite (repr_no_zero _ _ Hr) in He).
      destruct (drop_owner_refines t a regs o Hr Ho) as (t' & -> & [[H _]|[-> Ht]]).
      * by exists (t', arpc_cb_purge regs o), true.
      * by exists (t, arpc_cb_purge regs o), false.
    + rewrite Hf. by exists (t, regs), true.
  - exists (arpc_handle_reset t, regs), true. split_and!; try done. by apply repr_reset.
Qed.

(** A step gives out one id at the most. *)
Lemma a_put_seq a p tag o :
  0 < a_seq a < 2 ^ 40 -> a_seq a <= a_seq (a_put a p tag o).1 <= a_seq a + 1.
Proof.
  intros Hs. unfold a_put. destruct (p =? 0); [cbn; lia|].
  destruct (a_obj _ _ _) as [id|].
  - destruct (a_map a !! id) as [e|]; [|cbn; lia]. destruct (_ && _ && _); cbn; lia.
  - cbn. rewrite u64_small by (change 18446744073709551616 with (2 ^ 40 * 16777216); lia). lia.
Qed.

Lemma a_adopt_seq a p o r : a_seq (a_adopt a p o r).1 = a_seq (a_put a p ARPC_H_NONE o).1.
Proof. unfold a_adopt. destruct (a_put a p ARPC_H_NONE o) as [a' id]. cbn. by destruct (a_map a' !! id). Qed.

Lemma a_step_seq ok a regs op :
  0 < a_seq a < 2 ^ 40 ->
  a_seq a <= a_seq (a_step ok (a, regs) op).1.1 <= a_seq a + 1.
Proof.
  intros Hs. destruct op as [p tag o|p o r|id tag|id tag|id|o|o|p tag|]; cbn [a_step].
  - destruct ok; [|cbn; lia]. pose proof (a_put_seq a p tag o Hs). by destruct (a_put a p tag o).
  - destruct ok; [|cbn; lia]. pose proof (a_put_seq a p ARPC_H_NONE o Hs) as H. rewrite <- (a_adopt_seq a p o r) in H.
    by destruct (a_adopt a p o r).
  - cbn; lia.
  - cbn; lia.
  - destruct ok; cbn; lia.
  - destruct (o =? 0), ok; cbn; lia.
  - destruct (o =? 0), ok; cbn; lia.
  - destruct (if p =? 0 then None else a_obj (a_map a) p tag), ok; cbn; lia.
  - cbn; lia.
Qed.

Lemma hrun_refines_from ops t a regs :
  repr t a -> a_seq a + len ops <= 2 ^ 40 -> Forall hop_ok ops.*2 ->
  exists st oks, hrun ops (t, regs) = Ret (st, (a_run oks ops.*2 (a, regs)).2) /\
    length oks = length ops /\ a_seq (a_run oks ops.*2 (a, regs)).1.1 <= a_seq a + len ops /\
    repr st.1 (a_run oks ops.*2 (a, regs)).1.1 /\
    st.2 = (a_run oks ops.*2 (a, regs)).1.2 /\
    (Forall (fun o => TotalAllocator o.1) ops -> oks = replicate (length ops) true).
Proof.
  revert t a regs. induction ops as [|[A op] ops IH]; intros t a regs Hr Hlen Hops.
  - exists (t, regs), []. cbn. split_and!; try done. lia.
  - cbn [length fmap list_fmap snd] in *. apply Forall_cons in Hops as [Hop Hops].
    pose proof Hr as (_ & _ & (Hsq & _) & _).
    destruct (hstep_refines t a regs op Hr ltac:(lia) Hop) as ([t1 regs1] & ok & E & Hr1 & Hregs & Hok).
    pose proof (a_step_seq ok a regs op ltac:(lia)) as Hseq.
    destruct (a_step ok (a, regs) op) as [[a1 regs1'] r] eqn:Ea. cbn [fst snd] in *. subst regs1.
    destruct (IH t1 a1 regs1' Hr1 ltac:(lia) Hops) as (st & oks & E2 & Hl & Hs2 & Hr2 & Hregs2 & Hoks).
    exists st, (ok :: oks). cbn [hrun a_run]. rewrite E, Ea. cbn [mbind outcome_bind]. rewrite E2.
    destruct (a_run oks ops.*2 (a1, regs1')) as [st2 rs]. cbn [fst snd mbind outcome_bind] in *.
    split_and!; [done|cbn; lia|cbn [length]; lia|done|done|]. intros [Ht Hts]%Forall_cons. cbn [length replicate]. rewrite (Hoks Hts).
    destruct ok; [done|]. by destruct (Hok eq_refl).
Qed.

(** A table some program has made. *)
Definition reachable (st : htab * cbregs) : Prop :=
  exists ops rs, Forall hop_ok ops.*2 /\ len ops < 2 ^ 39 /\ hrun ops (htab0, []) = Ret (st, rs).

Lemma reachable_repr t regs :
  reachable (t, regs) -> exists a, repr t a /\ a_seq a <= 2 ^ 39.
Proof.
  intros (ops & rs & Hops & Hlen & E).
  destruct (hrun_refines_from ops htab0 atab0 [] repr_init) as (st & oks & E' & _ & Hs & Hr & _); [cbn; lia|done|].
  rewrite E in E'. simplify_eq. cbn [fst] in Hr. eexists. split; [exact Hr|].
  unfold atab0 in Hs at 2. cbn [a_seq] in Hs. lia.
Qed.

(** Whether an id is at or below another, as the C computes it. *)
Definition is_under (t : htab) (id o : Z) : bool :=
  match under t id o with Ret b => b | _ => false end.

Lemma is_under_repr t a id o : repr t a -> is_under t id o = a_under (a_map a) id o.
Proof. intros Hr. unfold is_under, under. by rewrite (under_refines _ _ Hr). Qed.

(** [n] owners up from [id] is [o]. *)
Inductive chain (t : htab) : nat -> Z -> Z -> Prop :=
| chain_here id : id <> 0 -> chain t 0 id id
| chain_up n id i s o : id <> 0 -> find t id = Ret (Some (i, s)) -> chain t n (s_owner s) o ->
    chain t (S n) id o.

Lemma chain_end t n id o : chain t n id o -> o <> 0.
Proof. by induction 1. Qed.

Lemma under_loop_chain t a depth id o :
  repr t a -> under_loop depth t id o = Ret true <-> exists n, (n < depth)%nat /\ chain t n id o.
Proof.
  intros Hr. revert id. induction depth as [|depth IH]; intros id; cbn [under_loop].
  { split; [done|]. intros (n & ? & _). lia. }
  destruct (Z.eqb_spec id 0) as [E0|H0].
  { split; [done|]. intros (n & _ & Hc). by destruct Hc. }
  destruct (Z.eqb_spec id o) as [->|Hne].
  { split; [|done]. intros _. exists 0%nat. split; [lia|by constructor]. }
  pose proof (find_refines t a Hr id) as Hf. destruct (a_map a !! id) as [e|].
  - destruct Hf as (i & Hf & _). rewrite Hf. cbn [mbind outcome_bind s_owner slot_of]. rewrite IH. split.
    + intros (n & Hn & Hc). exists (S n). split; [lia|]. by eapply chain_up.
    + intros (n & Hn & Hc). inversion Hc as [|n' ? i' s ? ? Hf' Hc']; subst; [done|].
      rewrite Hf in Hf'. simplify_eq. exists n'. split; [lia|done].
  - rewrite Hf. cbn [mbind outcome_bind]. rewrite IH. split.
    + intros (n & Hn & Hc). by inversion Hc.
    + intros (n & Hn & Hc). inversion Hc as [|n' ? i' s ? ? Hf' Hc']; subst; [done|]. by rewrite Hf in Hf'.
Qed.

(** An id that was given out and is gone stays gone. *)
Definition stale (a : atab) (id : Z) : Prop := id mod 2 ^ 40 < a_seq a /\ a_map a !! id = None.

Lemma a_drop_stale a p id : stale a id -> stale (a_drop a p) id.
Proof. intros [Hs Hn]. split; [done|]. apply map_lookup_filter_None. by left. Qed.

Lemma a_put_stale a p tag o id :
  0 < a_seq a < 2 ^ 40 -> stale a id -> stale (a_put a p tag o).1 id.
Proof.
  intros Hsq [Hs Hn]. pose proof (a_put_seq a p tag o Hsq) as Hmono.
  split; [lia|]. unfold a_put. destruct (p =? 0); [done|].
  destruct (a_obj (a_map a) p tag) as [x|].
  - destruct (a_map a !! x) as [e|] eqn:Ex; [|done]. destruct (_ && _ && _); [|done].
    cbn. rewrite lookup_insert_ne; [done|]. intros ->. congruence.
  - cbn. rewrite lookup_insert_ne; [done|]. intros E.
    destruct (new_id_seq a tag o Hsq) as [Hm _]. rewrite E in Hm. lia.
Qed.

Lemma a_adopt_stale a p o r id :
  0 < a_seq a < 2 ^ 40 -> stale a id -> stale (a_adopt a p o r).1 id.
Proof.
  intros Hsq Hst. pose proof (a_put_stale a p ARPC_H_NONE o id Hsq Hst) as [Hs Hn].
  split; [by rewrite a_adopt_seq|]. unfold a_adopt in *. destruct (a_put a p ARPC_H_NONE o) as [a' x].
  cbn [fst] in *. destruct (a_map a' !! x) as [e|] eqn:Ex; [|done]. cbn.
  rewrite lookup_insert_ne; [done|]. intros ->. congruence.
Qed.

Lemma a_step_stale ok a regs op id :
  0 < a_seq a < 2 ^ 40 -> stale a id -> stale (a_step ok (a, regs) op).1.1 id.
Proof.
  intros Hsq Hst. destruct op as [p tag o|p o r|x tag|x tag|x|o|o|p tag|]; cbn [a_step].
  - destruct ok; [|done]. pose proof (a_put_stale a p tag o id Hsq Hst). by destruct (a_put a p tag o).
  - destruct ok; [|done]. pose proof (a_adopt_stale a p o r id Hsq Hst). by destruct (a_adopt a p o r).
  - done.
  - done.
  - destruct ok; [by apply a_drop_stale|done].
  - destruct (o =? 0), ok; try done; by apply a_drop_stale.
  - destruct (o =? 0), ok; try done; by apply a_drop_stale.
  - destruct (if p =? 0 then None else a_obj (a_map a) p tag), ok; try done; by apply a_drop_stale.
  - destruct Hst. by split; [|apply lookup_empty].
Qed.

Lemma a_run_stale oks ops a regs id :
  0 < a_seq a -> a_seq a + len ops <= 2 ^ 40 -> stale a id -> stale (a_run oks ops (a, regs)).1.1 id.
Proof.
  revert oks a regs. induction ops as [|op ops IH]; intros [|ok oks] a regs Hp Hl Hst; try done.
  cbn [length] in Hl. cbn [a_run]. pose proof (a_step_seq ok a regs op ltac:(lia)) as Hseq.
  pose proof (a_step_stale ok a regs op id ltac:(lia) Hst) as Hst1.
  destruct (a_step ok (a, regs) op) as [[a1 regs1] r]. cbn [fst] in *.
  specialize (IH oks a1 regs1 ltac:(lia) ltac:(lia) Hst1).
  by destruct (a_run oks ops (a1, regs1)).
Qed.
End Runs.

(** ** Properties *)

Section Theorems.
Context {A : Allocator} {T : Tags}.

(** C4. Driven by any sequence of its operations from the empty table, the
    handle table never leaves its arrays, never probes for ever, and gives
    the answers of the abstract map, in which an operation either does its
    work or, when the heap refused, nothing; with a heap that grants
    everything it always does its work. *)
Theorem handle_table_refines_map ops :
  Forall hop_ok ops.*2 -> len ops < 2 ^ 39 ->
  exists st oks, hrun ops (htab0, []) = Ret (st, (a_run oks ops.*2 (atab0, [])).2) /\
    length oks = length ops /\ repr st.1 (a_run oks ops.*2 (atab0, [])).1.1 /\
    st.2 = (a_run oks ops.*2 (atab0, [])).1.2 /\
    (Forall (fun o => TotalAllocator o.1) ops -> oks = replicate (length ops) true).
Proof.
  intros Hops Hlen. destruct (hrun_refines_from ops htab0 atab0 [] repr_init) as (st & oks & H1 & H2 & _ & H3);
    [cbn; lia|done|]. by exists st, oks.
Qed.

(** C35. The same object always has the same id: filing a pointer returns an
    id under which the table answers with that pointer, for its own tag
    only, and filing it again, under whatever owner, returns that id. *)
Theorem handle_put_get t regs ptr tag owner t1 id :
  reachable (t, regs) -> 0 < ptr -> arpc_handle_put t ptr tag owner = Ret (t1, id) -> id <> 0 ->
  (forall tag', arpc_handle_get t1 id tag' = Ret (if tag' =? tag then ptr else 0)) /\
  (forall owner', exists t2, arpc_handle_put t1 ptr tag owner' = Ret (t2, id)).
Proof.
  intros Hre Hp E Hid. destruct (reachable_repr _ _ Hre) as (a & Hr & Hsq).
  destruct (put_refines t a ptr tag owner Hr ltac:(lia) ltac:(lia)) as [(t1' & E' & Hr1 & _)|[E' _]];
    rewrite E in E'; [|by simplify_eq]. injection E' as <- Eid.
  assert (Hobj : exists e, a_map (a_put a ptr tag owner).1 !! id = Some e /\ e_ptr e = ptr /\ e_tag e = tag).
  { rewrite Eid. unfold a_put. destruct (Z.eqb_spec ptr 0); [lia|].
    destruct (a_obj (a_map a) ptr tag) as [x|] eqn:Eo.
    - destruct (a_obj_Some _ _ _ _ Eo) as (e & He & Ep & Et). rewrite He.
      destruct (_ && _ && _); [|by exists e]. cbn. rewrite lookup_insert_eq. by eexists.
    - cbn. rewrite lookup_insert_eq. by eexists. }
  destruct Hobj as (e & He & Ep & Et). split.
  - intros tag'. rewrite (get_refines _ _ Hr1). unfold a_get. by rewrite He, Ep, Et, Z.eqb_sym.
  - intros owner'. unfold arpc_handle_put. destruct (Z.eqb_spec ptr 0); [lia|].
    pose proof (find_ptr_refines t1 _ Hr1 ptr tag ltac:(lia)) as Hf.
    destruct (a_obj (a_map (a_put a ptr tag owner).1) ptr tag) as [x|] eqn:Eo.
    + destruct Hf as (i & ex & -> & _ & _ & Hex). destruct (a_obj_Some _ _ _ _ Eo) as (e2 & He2 & Ep2 & Et2).
      assert (x = id) as -> by (eapply (repr_objects_once _ _ Hr1); [done|done|congruence..]).
      cbn [mbind outcome_bind s_owner slot_of s_id]. unfold under. rewrite (under_refines _ _ Hr1).
      destruct (_ && _); cbn [mbind outcome_bind]; [|by eexists]. destruct (a_under_loop _ _ _ _); by eexists.
    + by destruct (a_obj_None _ _ _ _ _ Eo He).
Qed.

(** C33. Ids are never reused: once the table has given out an id and no
    longer answers to it, no program of table operations makes it answer
    again, whatever objects it files. *)
Theorem handle_stale_id_misses t regs ops st rs id :
  reachable (t, regs) -> Forall hop_ok ops.*2 -> len ops < 2 ^ 39 ->
  id mod 2 ^ 40 < g_next_seq t -> find t id = Ret None ->
  hrun ops (t, regs) = Ret (st, rs) ->
  find st.1 id = Ret None /\ forall tag, arpc_handle_get st.1 id tag = Ret 0.
Proof.
  intros Hre Hops Hlen Hid Hf E. destruct (reachable_repr _ _ Hre) as (a & Hr & Hsq).
  assert (Hst : stale a id).
  { pose proof Hr as (Hs & _). split; [congruence|]. pose proof (find_refines t a Hr id) as Hx.
    destruct (a_map a !! id); [|done]. destruct Hx as (i & Hx & _). congruence. }
  pose proof Hr as (_ & _ & (Hpos & _) & _).
  destruct (hrun_refines_from ops t a regs Hr) as (st' & oks & E' & _ & _ & Hr' & _); [lia|done|].
  rewrite E in E'. injection E' as <- _.
  destruct (a_run_stale oks ops.*2 a regs id ltac:(lia) ltac:(rewrite length_fmap; lia) Hst) as [_ Hn].
  pose proof (find_refines _ _ Hr' id) as Hx. rewrite Hn in Hx. split; [done|].
  intros tag. rewrite (get_refines _ _ Hr'). unfold a_get. by rewrite Hn.
Qed.

(** The other side of dropping: when the heap refuses the arrays of the
    rebuild, a drop changes nothing in the table, and does not say so --
    every id below the owner still answers with its pointer -- while the
    owner's callbacks are forgotten all the same. *)
Theorem handle_drop_owner_refused t regs owner :
  owner <> 0 -> g_cap t <> 0 -> grants (g_cap t * sizeof_slot) = false ->
  exists t', arpc_handle_drop_owner t regs owner = Ret (t', arpc_cb_purge regs owner) /\
    g_released t' = g_released t /\
    forall id tag, is_under t id owner = true -> arpc_handle_get t' id tag = arpc_handle_get t id tag.
Proof.
  intros Ho Hc Hg. exists t. split; [|done]. unfold arpc_handle_drop_owner, drop_matching, rebuild, calloc_ok.
  destruct (Z.eqb_spec owner 0); [done|]. destruct (Z.eqb_spec (g_cap t) 0); [done|].
  rewrite Hg, andb_false_r. done.
Qed.
(** C9. Dropping an owner: with the heap granting the rebuild, exactly the
    ids at or below the owner stop answering and every other id answers as
    before; the release functions of the adopted objects among them, and no
    others, have each been called once; and the callbacks of the owner are
    forgotten.  When the heap refuses the arrays of the rebuild the drop
    changes nothing in the table, and does not say so: every id below the
    owner still answers with its pointer, while the owner's callbacks are
    forgotten all the same. *)
Theorem handle_drop_owner_correct t regs owner :
  owner <> 0 ->
  (reachable (t, regs) -> TotalAllocator A ->
   exists t', arpc_handle_drop_owner t regs owner = Ret (t', arpc_cb_purge regs owner) /\
     (forall id tag, arpc_handle_get t' id tag =
        if is_under t id owner then Ret 0 else arpc_handle_get t id tag) /\
     g_released t' = g_released t ++ releases (fun s => negb (is_under t (s_id s) owner)) (g_tab t)) /\
  (g_cap t <> 0 -> grants (g_cap t * sizeof_slot) = false ->
   exists t', arpc_handle_drop_owner t regs owner = Ret (t', arpc_cb_purge regs owner) /\
     g_released t' = g_released t /\
     forall id tag, is_under t id owner = true -> arpc_handle_get t' id tag = arpc_handle_get t id tag).
Proof.
  intros Ho. split; [intros Hre Ht|by apply handle_drop_owner_refused].
  destruct (reachable_repr _ _ Hre) as (a & Hr & Hsq).
  destruct (drop_owner_refines t a regs owner Hr Ho) as (t' & E & [[Hr' Hrel]|[_ Hn]]); [|done].
  exists t'. split_and!; [done| |].
  - intros id tag. rewrite (get_refines _ _ Hr'), (get_refines _ _ Hr), (is_under_repr _ _ _ _ Hr).
    unfold a_get. rewrite a_drop_lookup. by destruct (a_under (a_map a) id owner).
  - rewrite Hrel. f_equal. unfold releases. f_equal. apply list_filter_iff. intros s.
    by rewrite (is_under_repr _ _ _ _ Hr).
Qed.

(** Dropping what is under an object leaves the object itself: its own
    id answers as before, the ids below it miss, all others are as before. *)
Theorem handle_drop_under_correct t regs owner :
  reachable (t, regs) -> owner <> 0 -> TotalAllocator A ->
  exists t', arpc_handle_drop_under t owner = Ret t' /\
    forall id tag, arpc_handle_get t' id tag =
      if negb (id =? owner) && is_under t id owner then Ret 0 else arpc_handle_get t id tag.
Proof.
  intros Hre Ho Ht. destruct (reachable_repr _ _ Hre) as (a & Hr & Hsq).
  destruct (drop_under_refines t a owner Hr Ho) as (t' & E & [Hr'|[_ Hn]]); [|done].
  exists t'. split; [done|]. intros id tag.
  rewrite (get_refines _ _ Hr'), (get_refines _ _ Hr), (is_under_repr _ _ _ _ Hr). unfold a_get.
  rewrite a_drop_lookup. by destruct (negb (id =? owner) && a_under (a_map a) id owner).
Qed.

(** What [under] decides: whether the owner is met within seven steps up
    from the id -- handle, database, package, cursor are three -- and it
    ends even if the owners ran in a circle. *)
Theorem under_correct t regs id owner :
  reachable (t, regs) ->
  exists b, under t id owner = Ret b /\ (b = true <-> exists n, (n < 8)%nat /\ chain t n id owner).
Proof.
  intros Hre. destruct (reachable_repr _ _ Hre) as (a & Hr & _).
  exists (a_under (a_map a) id owner). unfold under. rewrite (under_refines _ _ Hr). split; [done|].
  rewrite <- (under_loop_chain t a 8 id owner Hr), (under_refines _ _ Hr). unfold a_under. split; congruence.
Qed.

(** An id carries its root: the id of an object filed for the first
    time has the root of its owner in its high bits; a new handle has a root
    no other has been given; an object that is nobody's has root 0. *)
Theorem handle_new_id_root t regs ptr tag owner t1 id :
  reachable (t, regs) -> 0 < ptr -> 0 <= owner < 2 ^ 64 -> 0 <= g_next_root t < 2 ^ 24 ->
  find_ptr t ptr tag = Ret None ->
  arpc_handle_put t ptr tag owner = Ret (t1, id) -> id <> 0 ->
  Z.shiftr id 40 = (if negb (owner =? 0) then Z.shiftr owner 40
                    else if tag =? ARPC_H_HANDLE then g_next_root t else 0) /\
  g_next_root t1 = (if (owner =? 0) && (tag =? ARPC_H_HANDLE) then u64 (g_next_root t + 1) else g_next_root t) /\
  find t id = Ret None.
Proof.
  intros Hre Hp Ho Hroot Hf E Hid. destruct (reachable_repr _ _ Hre) as (a & Hr & Hsq).
  pose proof Hr as (_ & Hra & (Hpos & _) & Hb & _).
  destruct (put_refines t a ptr tag owner Hr ltac:(lia) ltac:(lia)) as [(t1' & E' & Hr1 & _)|[E' _]];
    rewrite E in E'; [|by simplify_eq]. injection E' as <- Eid.
  pose proof (find_ptr_refines t a Hr ptr tag ltac:(lia)) as Hx. unfold a_put in Eid, Hr1.
  destruct (Z.eqb_spec ptr 0); [lia|].
  destruct (a_obj (a_map a) ptr tag) as [x|] eqn:Eo.
  { destruct Hx as (i & e & Hx & _). congruence. }
  cbn [fst snd] in *. destruct (new_id_seq a tag owner ltac:(lia)) as [Hm _]. rewrite <- Eid in Hm.
  split_and!.
  - rewrite Eid, new_id_sum, Z.shiftr_div_pow2 by lia.
    rewrite Z.div_add_l, (Z.div_small (a_seq a)), Z.add_0_r by lia.
    unfold a_new_root. rewrite Hra. destruct (Z.eqb_spec owner 0); cbn [negb].
    + destruct (tag =? ARPC_H_HANDLE); [|done]. by apply Z.mod_small.
    + rewrite Z.shiftr_div_pow2 by lia. apply Z.mod_small. split; [apply Z.div_pos; lia|].
      apply Z.div_lt_upper_bound; [lia|]. change (2 ^ 40 * 2 ^ 24) with (2 ^ 64). lia.
  - pose proof Hr1 as (_ & Hr1' & _). cbn in Hr1'. by rewrite <- Hr1', Hra.
  - pose proof (find_refines t a Hr id) as Hy. destruct (a_map a !! id) as [e|] eqn:He; [|done].
    apply Hb in He as [He _]. lia.
Qed.

End Theorems.

(** ** The properties at work *)

#[local] Instance sample_tags : Tags := {| ARPC_H_HANDLE := 3 |}.

(** A handle, a database below it, two packages below that, one object
    adopted for the handle, and a second handle. *)
Definition sample_ops : list (Allocator * hop) :=
  (fun op => (ample, op)) <$>
  [HPut 4096 3 0; HPut 8192 2 1099511627777; HPut 12288 4 1099511627778; HPut 16384 4 1099511627778;
   HAdopt 20480 1099511627777 77; HPut 24576 3 0].

Definition sample_state : htab * cbregs :=
  match hrun sample_ops (htab0, []) with Ret (st, _) => st | _ => (htab0, []) end.

Lemma sample_reachable : reachable sample_state.
Proof.
  exists sample_ops, [1099511627777; 1099511627778; 1099511627779; 1099511627780; 1099511627781; 2199023255558].
  split_and!; [|done|vm_compute; reflexivity].
  apply (bool_decide_unpack (Forall hop_ok sample_ops.*2)). vm_compute. exact I.
Qed.

Lemma handle_table_refines_map_witness :
  exists st oks, hrun sample_ops (htab0, []) = Ret (st, (a_run oks sample_ops.*2 (atab0, [])).2) /\
    length oks = length sample_ops.
Proof.
  destruct (handle_table_refines_map sample_ops) as (st & oks & E & Hl & _).
  - apply (bool_decide_unpack (Forall hop_ok sample_ops.*2)). vm_compute. exact I.
  - done.
  - exists st, oks. by split.
Defined.

Lemma handle_put_get_witness :
  exists t1, arpc_handle_put (A:=ample) sample_state.1 28672 4 1099511627778 = Ret (t1, 1099511627783) /\
    arpc_handle_get t1 1099511627783 4 = Ret 28672 /\ arpc_handle_get t1 1099511627783 2 = Ret 0.
Proof.
  destruct (arpc_handle_put (A:=ample) sample_state.1 28672 4 1099511627778) as [[t1 id]| | |] eqn:E;
    [|by vm_compute in E..].
  assert (id = 1099511627783) as -> by (vm_compute in E; by injection E).
  pose proof (handle_put_get (A:=ample) sample_state.1 sample_state.2 28672 4 1099511627778 t1 1099511627783
    sample_reachable ltac:(lia) E ltac:(done)) as [Hget _].
  exists t1. split_and!; [done|exact (Hget 4)|exact (Hget 2)].
Defined.

(** The database is dropped; what a client still holds misses for ever, though
    the table files new objects, the same pointer among them. *)
Definition after_drop : htab * cbregs :=
  match hstep (A:=ample) sample_state (HDropOwner 1099511627778) with Ret (st, _) => st | _ => sample_state end.

Lemma after_drop_reachable : reachable after_drop.
Proof.
  exists (sample_ops ++ [(ample, HDropOwner 1099511627778)]),
    [1099511627777; 1099511627778; 1099511627779; 1099511627780; 1099511627781; 2199023255558; 0].
  split_and!; [|done|vm_compute; reflexivity].
  apply (bool_decide_unpack (Forall hop_ok (sample_ops ++ [(ample, HDropOwner 1099511627778)]).*2)).
  vm_compute. exact I.
Qed.

Lemma handle_stale_id_misses_witness :
  exists st, hrun [(ample, HPut 12288 4 1099511627777)] after_drop = Ret (st, [1099511627783]) /\
    arpc_handle_get st.1 1099511627779 4 = Ret 0.
Proof.
  destruct (hrun [(ample, HPut 12288 4 1099511627777)] after_drop) as [[st rs]| | |] eqn:E; [|by vm_compute in E..].
  exists st. split; [vm_compute in E |- *; congruence|].
  apply (handle_stale_id_misses after_drop.1 after_drop.2 [(ample, HPut 12288 4 1099511627777)] st rs 1099511627779).
  - exact after_drop_reachable.
  - repeat constructor. cbn. lia.
  - done.
  - by vm_compute.
  - by vm_compute.
  - exact E.
Defined.

Lemma handle_drop_owner_correct_witness :
  exists t', arpc_handle_drop_owner (A:=ample) sample_state.1 [] 1099511627777 = Ret (t', []) /\
    arpc_handle_get t' 1099511627779 4 = Ret 0 /\ arpc_handle_get t' 2199023255558 3 = Ret 24576 /\
    g_released t' = [(77, 20480)] /\
  exists t', arpc_handle_drop_owner (A:={| grants := fun n => n <? 4096 |}) sample_state.1 [] 1099511627777 =
      Ret (t', []) /\
    arpc_handle_get t' 1099511627779 4 = Ret 12288.
Proof.
  destruct (proj1 (handle_drop_owner_correct (A:=ample) sample_state.1 sample_state.2 1099511627777 ltac:(done))
    sample_reachable ample_total) as (t' & E & Hget & Hrel).
  exists t'. split_and!.
  - exact E.
  - rewrite Hget. by vm_compute.
  - rewrite Hget. by vm_compute.
  - rewrite Hrel. by vm_compute.
  - destruct (proj2 (handle_drop_owner_correct (A:={| grants := fun n => n <? 4096 |}) sample_state.1 [] 1099511627777
      ltac:(done))) as (t2 & E2 & _ & H2); [by vm_compute..|].
    exists t2. split; [exact E2|]. rewrite H2 by (by vm_compute). by vm_compute.
Defined.

Lemma handle_drop_under_correct_witness :
  exists t', arpc_handle_drop_under (A:=ample) sample_state.1 1099511627778 = Ret t' /\
    arpc_handle_get t' 1099511627778 2 = Ret 8192 /\ arpc_handle_get t' 1099511627780 4 = Ret 0.
Proof.
  destruct (handle_drop_under_correct (A:=ample) sample_state.1 sample_state.2 1099511627778
    sample_reachable ltac:(done) ample_total) as (t' & E & Hget).
  exists t'. split_and!; [exact E|rewrite Hget; by vm_compute..].
Defined.

Lemma under_correct_witness :
  exists b, under sample_state.1 1099511627780 1099511627777 = Ret b /\
    (b = true <-> exists n, (n < 8)%nat /\ chain sample_state.1 n 1099511627780 1099511627777).
Proof.
  apply (under_correct sample_state.1 sample_state.2 1099511627780 1099511627777 sample_reachable).
Defined.

Lemma handle_new_id_root_witness :
  exists t1, arpc_handle_put (A:=ample) sample_state.1 28672 4 1099511627778 = Ret (t1, 1099511627783) /\
    Z.shiftr 1099511627783 40 = Z.shiftr 1099511627778 40.
Proof.
  destruct (arpc_handle_put (A:=ample) sample_state.1 28672 4 1099511627778) as [[t1 id]| | |] eqn:E;
    [|by vm_compute in E..].
  assert (id = 1099511627783) as -> by (vm_compute in E; by injection E).
  exists t1. split; [done|].
  pose proof (handle_new_id_root (A:=ample) sample_state.1 sample_state.2 28672 4 1099511627778 t1 1099511627783
    sample_reachable ltac:(lia) ltac:(lia) ltac:(replace (g_next_root sample_state.1) with 3 by (by vm_compute); lia)
    ltac:(by vm_compute) E ltac:(done)) as [H _].
  rewrite H. reflexivity.
Defined.

Lemma handle_drop_owner_refused_witness :
  exists t', arpc_handle_drop_owner (A:={| grants := fun n => n <? 4096 |}) sample_state.1 [] 1099511627777 =
      Ret (t', []) /\
    arpc_handle_get t' 1099511627779 4 = Ret 12288.
Proof.
  destruct (handle_drop_owner_refused (A:={| grants := fun n => n <? 4096 |}) sample_state.1 [] 1099511627777)
    as (t' & E & _ & H); [by vm_compute..|].
  exists t'. split; [exact E|]. rewrite H by (by vm_compute). by vm_compute.
Defined.
