(* ===== verification/Paths.v ===== *)
(** * Paths in the caller's form or the server's: src/server/arpc_paths.c

    A connection that asked for it sends and gets Win32 paths; the conversion
    is Cygwin's, a parameter here.  [g_win32] is an argument of the
    definitions that read it.  The theorems: a path is never lost -- where no
    conversion is made the string travels as it is -- and a list of paths is
    written as the array of its converted elements. *)

From S2P Require Import Prelude Json JsonWriter.

(** [cygwin_conv_path] of the MSYS2 runtime: called with a size of 0 it gives
    the size it needs, or -1; called with a buffer it fills it ([Some]) or
    fails. *)
Class Cygwin := {
  CCP_POSIX_TO_WIN_A : Z;
  CCP_WIN_A_TO_POSIX : Z;
  CCP_RELATIVE : Z;
  conv_size : Z -> list Z -> Z;
  conv_path : Z -> list Z -> Z -> option (list Z)
}.

Section Paths.
Context {A : Allocator} {C : Cygwin}.

Definition strdup (s : list Z) : option (list Z) :=
  if grants (strlen s + 1) then Some (cstr s) else None.

Definition convert (g_win32 : bool) (s : option (list Z)) (what : Z) : option (list Z) :=
  match s with
  | None => None
  | Some s =>
      if negb g_win32 || (strlen s =? 0) then strdup s
      else
        let what := Z.lor what CCP_RELATIVE in
        let n := conv_size what s in
        let out := if (0 <? n) && grants n then conv_path what s n else None in
        match out with
        | Some out => Some out
        | None => strdup s
        end
  end.

Definition arpc_path_in (g_win32 : bool) (s : option (list Z)) : option (list Z) :=
  convert g_win32 s CCP_WIN_A_TO_POSIX.
Definition arpc_path_out (g_win32 : bool) (s : option (list Z)) : option (list Z) :=
  convert g_win32 s CCP_POSIX_TO_WIN_A.

Definition arpc_ajw_path (g_win32 : bool) (w : aj_w) (posix : option (list Z)) : outcome aj_w :=
  let t := arpc_path_out g_win32 posix in
  ajw_str w (match t with Some _ => t | None => posix end).

(** The loop of [arpc_put_path_list]. *)
Fixpoint put_paths (g_win32 : bool) (w : aj_w) (l : list (option (list Z))) : outcome aj_w :=
  match l with
  | [] => Ret w
  | s :: l => w ← arpc_ajw_path g_win32 w s; put_paths g_win32 w l
  end.

(** An [alpm_list_t *] is NULL exactly when the list is empty. *)
Definition arpc_put_path_list (g_win32 : bool) (w : aj_w) (l : list (option (list Z))) : outcome aj_w :=
  match l with
  | [] => ajw_null w
  | _ =>
      w ← ajw_arr_begin w;
      w ← put_paths g_win32 w l;
      ajw_arr_end w
  end.

Definition arpc_paths_in_list (g_win32 : bool) (l : list (option (list Z))) : list (option (list Z)) :=
  (fun s => match arpc_path_in g_win32 s with Some c => Some c | None => s end) <$> l.
End Paths.

(** ** What travels *)

(** What a string argument of a writer becomes. *)
Definition jstr (s : option (list Z)) : json := match s with Some s => JStr (cstr s) | None => JNull end.

(** What [emits_str] asks of such an argument. *)
Definition str_ok (s : option (list Z)) : Prop :=
  match s with Some s => is_bytes s /\ len s <= 2 ^ 60 | None => True end.

#[export] Instance str_ok_dec s : Decision (str_ok s).
Proof. destruct s; cbn; apply _. Defined.

Section Travel.
Context {A : Allocator} {C : Cygwin}.

(** The string [arpc_ajw_path] writes. *)
Definition shown (g_win32 : bool) (s : option (list Z)) : option (list Z) :=
  match arpc_path_out g_win32 s with Some t => Some t | None => s end.

Lemma emits_jstr s w c :
  str_ok s -> winv w -> comma_is w c -> emits (ajw_str w s) w (sep c ++ render (jstr s)) true.
Proof. destruct s as [s|]; [intros [? ?] ? ?; by apply emits_str|intros _ ? ?; by apply emits_null]. Qed.

Lemma emits_path g w s c :
  str_ok (shown g s) -> winv w -> comma_is w c ->
  emits (arpc_ajw_path g w s) w (sep c ++ render (jstr (shown g s))) true.
Proof.
  intros. assert (E : arpc_ajw_path g w s = ajw_str w (shown g s)).
  { unfold arpc_ajw_path, shown. by destruct (arpc_path_out g s). }
  rewrite E. by apply emits_jstr.
Qed.

Lemma emits_paths g l w c :
  Forall (fun s => str_ok (shown g s)) l -> winv w -> comma_is w c ->
  emits (put_paths g w l) w (render_kids false c ((fun s => ([], jstr (shown g s))) <$> l))
    (match l with [] => c | _ => true end).
Proof.
  intros Hl. revert w c. induction Hl as [|s l Hs Hl IH]; intros w c Hw Hc; [by apply emits_ret|].
  cbn [put_paths fmap list_fmap render_kids]. eapply emits_out.
  - eapply emits_bind; [by apply (emits_path _ _ _ c)|]. intros w1 Hw1 Hc1.
    specialize (IH w1 true Hw1 Hc1). by destruct l.
  - by rewrite app_nil_l, <- app_assoc.
Qed.

(** The array of the list, or null. *)
Definition path_list_json (g : bool) (l : list (option (list Z))) : json :=
  match l with [] => JNull | _ => JCont false ((fun s => ([], jstr (shown g s))) <$> l) end.

Lemma emits_path_list g l w c :
  Forall (fun s => str_ok (shown g s)) l -> winv w -> comma_is w c ->
  emits (arpc_put_path_list g w l) w (sep c ++ render (path_list_json g l)) true.
Proof.
  intros Hl Hw Hc. destruct l as [|s l]; [by apply emits_null|].
  unfold arpc_put_path_list, path_list_json. rewrite render_cont, app_assoc.
  eapply emits_bind; [by apply emits_wopen|]. intros w1 Hw1 Hc1.
  eapply emits_bind; [by apply (emits_paths g (s :: l) w1 false)|].
  intros w2 Hw2 Hc2. by eapply emits_wclose.
Qed.
End Travel.

(** ** Properties *)

(** A list of paths is written whole and in order, whatever the heap
    grants the conversions: null for no list, else the array whose elements
    are the paths in the connection's form -- converted, or where there is no
    conversion or no memory for one, the string as it came; on a connection
    that did not ask for Win32 paths every string is as it came. *)
Theorem path_list_correct {A : Allocator} {C : Cygwin} g l w :
  Forall (fun s => str_ok (shown g s)) l -> winv w -> w_comma w = false ->
  emits (arpc_put_path_list g w l) w (render (path_list_json g l)) true /\
  (g = false -> Forall (fun s => jstr (shown g s) = jstr s) l) /\
  Forall (fun s => s <> None -> shown g s <> None) l.
Proof.
  intros Hl Hw Hc. split; [apply (emits_path_list g l w false); [done|done|by intros _]|]. split.
  - intros ->. apply Forall_forall. intros [s|] _; [|done]. unfold shown, arpc_path_out, convert, strdup.
    cbn [negb orb]. destruct (grants _); [|done]. cbn. by rewrite cstr_idemp.
  - apply Forall_forall. intros [s|] _ ?; [|done]. unfold shown. by destruct (arpc_path_out _ _).
Qed.

(** A conversion that puts a drive before the path. *)
Definition sample_cygwin : Cygwin := {|
  CCP_POSIX_TO_WIN_A := 0; CCP_WIN_A_TO_POSIX := 2; CCP_RELATIVE := 256;
  conv_size := fun what s => len s + 3;
  conv_path := fun what s n => if what =? 256 then Some (lit "C:" ++ s) else None
|}.

Lemma path_list_correct_witness :
  emits (A:=ample) (arpc_put_path_list (A:=ample) (C:=sample_cygwin) true ajw_init [Some (lit "/etc"); None])
    ajw_init (qlit "[`C:/etc`,null]") true.
Proof.
  refine (proj1 (path_list_correct (A:=ample) (C:=sample_cygwin) true [Some (lit "/etc"); None] ajw_init _ (winv_init) eq_refl)).
  repeat constructor; cbn; unfold is_byte; try lia.
Defined.
