(* ===== verification/Gpgdir.v ===== *)
(** * Which keyring signatures are checked against: src/server/arpc_gpgdir.c

    gpgme has one engine directory per process; before every call the
    dispatcher points it at the directory of the handle the call is for.  The
    cache of each handle's directory and the record of where gpgme was last
    pointed are the state; libalpm and gpgme are parameters over a world of
    their own. *)

From S2P Require Import Prelude JsonWriter Paths.

(** [gpgdir] is [None] for NULL, gpgme's default. *)
Record seen := Seen { sn_handle : Z; sn_gpgdir : option (list Z) }.

Record gpg := Gpg { g_seen : list seen; g_pointed : bool; g_gpgdir : option (list Z) }.

Definition gpg0 : gpg := Gpg [] false None.

(** The calls made to libalpm and gpgme, over the state [W] of both. *)
Class Gpgme (W : Type) := {
  alpm_errno_ok : W -> Z -> bool;
  alpm_option_get_gpgdir : W -> Z -> option (list Z) * W;
  gpgme_check_version : W -> W;
  gpgme_set_engine_info : W -> option (list Z) -> bool * W   (* whether it worked *)
}.

Definition sizeof_seen : Z := 24.

(** [!strcmp] with NULLs. *)
Definition same (a b : option (list Z)) : bool :=
  match a, b with
  | None, None => true
  | Some a, Some b => streq a b
  | _, _ => false
  end.

(** The new value of [*dst], [None] when out of memory. *)
Definition replace `{Allocator} (src : option (list Z)) : option (option (list Z)) :=
  match src with
  | None => Some None
  | Some s => match strdup s with Some copy => Some (Some copy) | None => None end
  end.

Fixpoint seen_find (l : list seen) (h : Z) : option seen :=
  match l with
  | [] => None
  | s :: l => if sn_handle s =? h then Some s else seen_find l h
  end.

(** An assignment to [s->gpgdir] of the entry [seen_find] found. *)
Fixpoint seen_set (l : list seen) (h : Z) (d : option (list Z)) : list seen :=
  match l with
  | [] => []
  | s :: l => if sn_handle s =? h then Seen h d :: l else s :: seen_set l h d
  end.

Section Follow.
Context {A : Allocator} `{G : Gpgme W}.

Definition set_seen (g : gpg) (l : list seen) : gpg := Gpg l (g_pointed g) (g_gpgdir g).

Definition gpgdir_of (w : W) (g : gpg) (h : Z) : W * gpg * option seen :=
  let s := seen_find (g_seen g) h in
  if negb (alpm_errno_ok w h) then (w, g, s)
  else
    let '(now, w) := alpm_option_get_gpgdir w h in
    let entry := match s with
      | Some s => Some (g, s)
      | None => if grants sizeof_seen
                then Some (set_seen g (Seen h None :: g_seen g), Seen h None)
                else None
      end in
    match entry with
    | None => (w, g, None)
    | Some (g, s) =>
        if same (sn_gpgdir s) now then (w, g, Some s)
        else
          match replace now with
          | Some d => (w, set_seen g (seen_set (g_seen g) h d), Some (Seen h d))
          | None => (w, g, None)
          end
    end.

Definition arpc_gpgdir_follow (w : W) (g : gpg) (handle : Z) : W * gpg :=
  if handle =? 0 then (w, g)
  else
    let '(w, g, s) := gpgdir_of w g handle in
    match s with
    | None => (w, g)
    | Some s =>
        if g_pointed g && same (sn_gpgdir s) (g_gpgdir g) then (w, g)
        else
          let w := gpgme_check_version w in
          let '(ok, w) := gpgme_set_engine_info w (sn_gpgdir s) in
          if negb ok then (w, g)
          else match replace (sn_gpgdir s) with
               | Some d => (w, Gpg (g_seen g) true d)
               | None => (w, g)
               end
    end.
End Follow.

(** ** What libalpm and gpgme document

    [engine] is where gpgme points, [None] before anything was set, a
    directory as its bytes up to the NUL; [gpgdir] is the directory of a
    handle. *)

Definition dir := option (list Z).
Definition norm (d : option (list Z)) : dir := cstr <$> d.

Class GpgmeOk (W : Type) `{G : Gpgme W} := {
  engine : W -> option dir;
  gpgdir : W -> Z -> option (list Z);
  get_value w h : (alpm_option_get_gpgdir w h).1 = gpgdir w h;
  get_engine w h : engine (alpm_option_get_gpgdir w h).2 = engine w;
  check_engine w : engine (gpgme_check_version w) = engine w;
  set_engine w d : engine (gpgme_set_engine_info w d).2 =
    if (gpgme_set_engine_info w d).1 then Some (norm d) else engine w
}.

Lemma same_norm a b : same a b = bool_decide (norm a = norm b).
Proof.
  destruct a as [a|], b as [b|]; cbn.
  - unfold streq. apply bool_decide_ext. split; [congruence|by intros [= ->]].
  - by rewrite bool_decide_false.
  - by rewrite bool_decide_false.
  - by rewrite bool_decide_true.
Qed.

Lemma norm_replace `{A : Allocator} d d' : replace d = Some d' -> norm d' = norm d.
Proof.
  destruct d as [s|]; cbn; [|by intros [= <-]]. unfold strdup. destruct (grants _); [|done].
  intros [= <-]. cbn. by rewrite cstr_idemp.
Qed.

Lemma replace_total `{A : Allocator, !TotalAllocator A} d : exists d', replace d = Some d'.
Proof.
  destruct d as [s|]; [|by eexists]. unfold replace, strdup.
  assert (grants (strlen s + 1) = true) as -> by apply grants_all. by eexists.
Qed.

Lemma seen_set_same l h d : seen_find l h <> None -> seen_find (seen_set l h d) h = Some (Seen h d).
Proof.
  induction l as [|s l IH]; [done|]. cbn [seen_find seen_set].
  destruct (Z.eqb_spec (sn_handle s) h) as [|Hn]; cbn [seen_find sn_handle]; [by rewrite Z.eqb_refl|].
  destruct (Z.eqb_spec (sn_handle s) h); [done|exact IH].
Qed.

Lemma seen_set_other l h d h' : h' <> h -> seen_find (seen_set l h d) h' = seen_find l h'.
Proof.
  intros Hne. induction l as [|s l IH]; [done|]. cbn [seen_find seen_set].
  destruct (Z.eqb_spec (sn_handle s) h) as [Hs|Hn]; cbn [seen_find sn_handle]; [|by rewrite IH].
  destruct (Z.eqb_spec h h'), (Z.eqb_spec (sn_handle s) h'); congruence.
Qed.

Section FollowSpec.
Context {A : Allocator} `{HG : GpgmeOk W}.

(** What the record says of gpgme is so. *)
Definition pointed_ok (w : W) (g : gpg) : Prop := g_pointed g = true -> engine w = Some (norm (g_gpgdir g)).

(** Reading a handle's directory points gpgme nowhere, and what comes back
    is the handle's, or the last one read. *)
Lemma gpgdir_of_spec w g h :
  let '(w', g', s) := gpgdir_of w g h in
  engine w' = engine w /\ g_pointed g' = g_pointed g /\ g_gpgdir g' = g_gpgdir g /\
  (alpm_errno_ok w h = true ->
     match s with Some s => norm (sn_gpgdir s) = norm (gpgdir w h) | None => ~ TotalAllocator A end) /\
  (alpm_errno_ok w h = false -> s = seen_find (g_seen g) h).
Proof.
  unfold gpgdir_of. destruct (alpm_errno_ok w h) eqn:He; cbn [negb]; [|by split_and!].
  pose proof (get_value w h) as Hv. pose proof (get_engine w h) as Hw.
  destruct (alpm_option_get_gpgdir w h) as [now w1]. cbn [fst snd] in *. subst now.
  assert (Hentry : forall g1 s, g_pointed g1 = g_pointed g -> g_gpgdir g1 = g_gpgdir g ->
    let '(w', g', s) := if same (sn_gpgdir s) (gpgdir w h) then (w1, g1, Some s)
      else match replace (gpgdir w h) with
           | Some d => (w1, set_seen g1 (seen_set (g_seen g1) h d), Some (Seen h d))
           | None => (w1, g1, None) end in
    engine w' = engine w /\ g_pointed g' = g_pointed g /\ g_gpgdir g' = g_gpgdir g /\
    (true = true -> match s with Some s => norm (sn_gpgdir s) = norm (gpgdir w h) | None => ~ TotalAllocator A end) /\
    (true = false -> s = seen_find (g_seen g) h)).
  { intros g1 s H1 H2. rewrite same_norm. case_bool_decide as Hs; [by split_and!|].
    destruct (replace (gpgdir w h)) as [d|] eqn:Hr; [split_and!; try done; intros _; by apply norm_replace|].
    split_and!; try done. intros _ Ht. destruct (replace_total (gpgdir w h)) as [? E]. congruence. }
  destruct (seen_find (g_seen g) h) as [s|]; [by apply Hentry|].
  destruct (grants sizeof_seen) eqn:Hg; [by apply Hentry|].
  split_and!; try done. intros _ Ht. by rewrite Ht in Hg.
Qed.

(** A directory read before and still the handle's is not copied again. *)
Lemma gpgdir_of_cached w g h s :
  seen_find (g_seen g) h = Some s -> norm (sn_gpgdir s) = norm (gpgdir w h) ->
  exists w', gpgdir_of w g h = (w', g, Some s) /\ engine w' = engine w.
Proof.
  intros Hs Hn. unfold gpgdir_of. rewrite Hs. destruct (alpm_errno_ok w h); cbn [negb]; [|by exists w].
  pose proof (get_value w h) as Hv. pose proof (get_engine w h) as Hw.
  destruct (alpm_option_get_gpgdir w h) as [now w1]. cbn [fst snd] in *. subst now.
  rewrite same_norm, bool_decide_true by done. by exists w1.
Qed.

(** With no error pending what was read is kept, for the handle alone; with
    one, nothing is asked and nothing is changed. *)
Lemma gpgdir_of_seen w g h :
  TotalAllocator A ->
  let '(w', g', s) := gpgdir_of w g h in
  (alpm_errno_ok w h = true -> s <> None /\ seen_find (g_seen g') h = s) /\
  (alpm_errno_ok w h = false -> w' = w /\ g' = g) /\
  (forall h', h' <> h -> seen_find (g_seen g') h' = seen_find (g_seen g) h').
Proof.
  intros Ht. unfold gpgdir_of. destruct (alpm_errno_ok w h); cbn [negb]; [|by split_and!].
  destruct (alpm_option_get_gpgdir w h) as [now w1].
  assert (Hentry : forall g1 s, seen_find (g_seen g1) h = Some s -> sn_handle s = h ->
    (forall h', h' <> h -> seen_find (g_seen g1) h' = seen_find (g_seen g) h') ->
    let '(w', g', s) := if same (sn_gpgdir s) now then (w1, g1, Some s)
      else match replace now with
           | Some d => (w1, set_seen g1 (seen_set (g_seen g1) h d), Some (Seen h d))
           | None => (w1, g1, None) end in
    (true = true -> s <> None /\ seen_find (g_seen g') h = s) /\ (true = false -> w' = w /\ g' = g) /\
    (forall h', h' <> h -> seen_find (g_seen g') h' = seen_find (g_seen g) h')).
  { intros g1 s Hs _ Hk. destruct (same _ _); [by split_and!|].
    destruct (replace_total now) as [d ->]. split_and!; [|done|].
    - intros _. split; [done|]. cbn [g_seen set_seen]. apply seen_set_same. congruence.
    - intros h' Hne. cbn [g_seen set_seen]. rewrite seen_set_other by done. by apply Hk. }
  destruct (seen_find (g_seen g) h) as [s|] eqn:Es.
  - apply Hentry; [done| |done]. clear - Es. induction (g_seen g) as [|x l IH]; [done|]. cbn [seen_find] in Es.
    destruct (Z.eqb_spec (sn_handle x) h); [congruence|by apply IH].
  - rewrite Ht. apply Hentry; cbn [g_seen set_seen seen_find sn_handle]; [by rewrite Z.eqb_refl|done|].
    intros h' Hne. destruct (Z.eqb_spec h h'); congruence.
Qed.

(** The directory a call for the handle goes by: the handle's, or, while it
    has an error pending, the one last read for it, if any was. *)
Definition wanted (w : W) (g : gpg) (h : Z) : option dir :=
  if alpm_errno_ok w h then Some (norm (gpgdir w h))
  else (fun s => norm (sn_gpgdir s)) <$> seen_find (g_seen g) h.

(** [gpgdir_of] hands over that directory. *)
Lemma gpgdir_of_wanted w g h :
  TotalAllocator A ->
  let '(_, _, s) := gpgdir_of w g h in wanted w g h = (fun s => norm (sn_gpgdir s)) <$> s.
Proof.
  intros Ht. pose proof (gpgdir_of_spec w g h) as Hs. destruct (gpgdir_of w g h) as [[w1 g1] s].
  destruct Hs as (_ & _ & _ & Hok & Hno). unfold wanted. destruct (alpm_errno_ok w h); [|by rewrite Hno].
  specialize (Hok eq_refl). destruct s as [s|]; [|done]. cbn. by rewrite Hok.
Qed.
End FollowSpec.

(** ** Properties *)

(** C36. A call for a handle is made with gpgme at the directory the call goes
    by: the handle's own; while the handle has an error pending, which asking
    libalpm would clear, the one last read for it, without asking; and with
    none read yet nothing is done.  If gpgme refuses the directory it stays
    where it was, and so does the record.  What is read is kept for the
    handle, and for no other; the record of where gpgme points stays true; a
    call for no handle changes nothing.  All this as long as memory lasts. *)
Theorem gpgdir_follow_correct {A : Allocator} `{HG : GpgmeOk W} w g h :
  TotalAllocator A -> pointed_ok w g ->
  let '(w', g') := arpc_gpgdir_follow w g h in
  pointed_ok w' g' /\
  (h = 0 -> w' = w /\ g' = g) /\
  (h <> 0 ->
     match wanted w g h with
     | None => w' = w /\ g' = g
     | Some d =>
         engine w' = Some d \/
         exists w1 d', norm d' = d /\ gpgme_set_engine_info w1 d' = (false, w') /\
           engine w' = engine w /\ g_pointed g' = g_pointed g /\ g_gpgdir g' = g_gpgdir g
     end /\
     (alpm_errno_ok w h = true ->
        exists s, seen_find (g_seen g') h = Some s /\ norm (sn_gpgdir s) = norm (gpgdir w h)) /\
     (alpm_errno_ok w h = false ->
        g_seen g' = g_seen g /\ (w' = w \/ exists d, w' = (gpgme_set_engine_info (gpgme_check_version w) d).2)) /\
     (forall h', h' <> h -> seen_find (g_seen g') h' = seen_find (g_seen g) h')).
Proof.
  intros Ht Hp. unfold arpc_gpgdir_follow. destruct (Z.eqb_spec h 0) as [->|Hh]; [by split_and!|].
  pose proof (gpgdir_of_spec w g h) as Hs. pose proof (gpgdir_of_seen w g h Ht) as Hk.
  pose proof (gpgdir_of_wanted w g h Ht) as Hw.
  destruct (gpgdir_of w g h) as [[w1 g1] s]. destruct Hs as (He & Hpt & Hd & Hok & _), Hk as (Hk1 & Hk2 & Hk3).
  assert (Hp1 : pointed_ok w1 g1) by (unfold pointed_ok; rewrite He, Hpt, Hd; exact Hp).
  assert (Hread : alpm_errno_ok w h = true ->
    exists s, seen_find (g_seen g1) h = Some s /\ norm (sn_gpgdir s) = norm (gpgdir w h)).
  { intros Ho. destruct (Hk1 Ho) as [Hs Es]. specialize (Hok Ho). destruct s as [s|]; [|done]. by exists s. }
  rewrite Hw. destruct s as [s|]; cbn [fmap option_fmap option_map].
  2: { destruct (alpm_errno_ok w h); [by destruct (Hk1 eq_refl)|]. destruct (Hk2 eq_refl) as [-> ->].
       split_and!; [done..|]. intros _. split_and!; [done|done|done|by split; [|left]|done]. }
  destruct (g_pointed g1 && same (sn_gpgdir s) (g_gpgdir g1)) eqn:Hc.
  - apply andb_prop in Hc as [Hc1 Hc2]. rewrite same_norm in Hc2. apply bool_decide_eq_true in Hc2.
    split_and!; [done|done|]. intros _. split_and!; [left|done| |done].
    + by rewrite (Hp1 Hc1), <- Hc2.
    + intros Ho. destruct (Hk2 Ho) as [-> ->]. by split; [|left].
  - pose proof (set_engine (gpgme_check_version w1) (sn_gpgdir s)) as Hset.
    assert (Hasked : alpm_errno_ok w h = false -> exists d,
      (gpgme_set_engine_info (gpgme_check_version w1) (sn_gpgdir s)).2 = (gpgme_set_engine_info (gpgme_check_version w) d).2).
    { intros Ho. destruct (Hk2 Ho) as [-> _]. by eexists. }
    destruct (gpgme_set_engine_info (gpgme_check_version w1) (sn_gpgdir s)) as [ok w2] eqn:Es.
    cbn [fst snd] in Hset, Hasked. rewrite check_engine, He in Hset. destruct ok; cbn [negb].
    + destruct (replace_total (sn_gpgdir s)) as [d Hr]. rewrite Hr. split_and!; [|done|].
      * intros _. cbn [g_gpgdir]. by rewrite Hset, (norm_replace _ _ Hr).
      * intros _. cbn [g_seen]. split_and!; [by left|done| |done].
        intros Ho. split; [by destruct (Hk2 Ho) as [_ ->]|right; by apply Hasked].
    + split_and!; [|done|].
      * unfold pointed_ok. rewrite Hset, Hpt, Hd. exact Hp.
      * intros _. split_and!; [right|done| |done].
        { exists (gpgme_check_version w1), (sn_gpgdir s). by split_and!. }
        intros Ho. split; [by destruct (Hk2 Ho) as [_ ->]|right; by apply Hasked].
Qed.

(** When memory does not last the record goes wrong, and with it the
    keyring: gpgme has been pointed at [d1]; a call for a handle whose
    directory is [d2] points it there, but the copy for the record is
    refused; the next call for a handle whose directory is [d1] then leaves
    gpgme at [d2]. *)
Theorem gpgdir_follow_refused {A1 A2 : Allocator} `{HG : GpgmeOk W} w g ha hb d1 d2 :
  ha <> 0 -> hb <> 0 -> g_pointed g = true -> norm (g_gpgdir g) = norm d1 ->
  d2 <> None -> norm d1 <> norm d2 ->
  (forall w, norm (gpgdir w ha) = norm d1) -> (forall w, norm (gpgdir w hb) = norm d2) ->
  (forall w d, (gpgme_set_engine_info w d).1 = true) ->
  seen_find (g_seen g) ha = Some (Seen ha d1) -> seen_find (g_seen g) hb = Some (Seen hb d2) ->
  (forall n, grants (Allocator := A1) n = false) ->
  let '(w1, g1) := arpc_gpgdir_follow (A:=A1) w g hb in
  let '(w2, _) := arpc_gpgdir_follow (A:=A2) w1 g1 ha in
  engine w1 = Some (norm d2) /\ engine w2 = Some (norm d2).
Proof.
  intros Ha Hb Hp Hg Hd2 Hne Hga Hgb Hset Hsa Hsb Hno. unfold arpc_gpgdir_follow.
  rewrite (proj2 (Z.eqb_neq hb 0) Hb), (proj2 (Z.eqb_neq ha 0) Ha).
  destruct (gpgdir_of_cached (A:=A1) w g hb _ Hsb) as (w1 & -> & He1); [by rewrite Hgb|].
  cbn [sn_gpgdir]. rewrite Hp, same_norm, Hg, bool_decide_false by done. cbn [andb].
  pose proof (set_engine (gpgme_check_version w1) d2) as He. specialize (Hset (gpgme_check_version w1) d2).
  destruct (gpgme_set_engine_info (gpgme_check_version w1) d2) as [ok w2]. cbn [fst snd] in *. subst ok.
  cbn [negb]. destruct d2 as [d2|]; [|done]. unfold replace, strdup. rewrite Hno.
  destruct (gpgdir_of_cached (A:=A2) w2 g ha _ Hsa) as (w3 & -> & He3); [by rewrite Hga|].
  cbn [sn_gpgdir]. rewrite Hp, same_norm, Hg, bool_decide_true by done. cbn [andb].
  split; [done|]. by rewrite He3.
Qed.

(** ** The properties at work *)

(** A libalpm whose handles 16 and 32 have two directories, and a gpgme that
    remembers where it was pointed. *)
Record toy := Toy { toy_engine : option dir; toy_errno : bool }.

Definition toy_dir (h : Z) : option (list Z) := if h =? 16 then Some (lit "/a") else Some (lit "/b").

#[local] Instance toy_gpgme : Gpgme toy := {
  alpm_errno_ok w h := toy_errno w;
  alpm_option_get_gpgdir w h := (toy_dir h, w);
  gpgme_check_version w := w;
  gpgme_set_engine_info w d := (true, Toy (Some (norm d)) (toy_errno w))
}.

#[local] Instance toy_ok : GpgmeOk toy.
Proof. by refine {| engine := toy_engine; gpgdir := fun _ => toy_dir |}. Defined.

(** A handle with no error pending, then one with an error pending whose
    directory was read before. *)
Lemma gpgdir_follow_correct_witness :
  engine (arpc_gpgdir_follow (A:=ample) (Toy None true) gpg0 32).1 = Some (Some (lit "/b")) /\
  engine (arpc_gpgdir_follow (A:=ample) (Toy (Some (Some (lit "/b"))) false)
            (Gpg [Seen 32 (Some (lit "/b")); Seen 16 (Some (lit "/a"))] true (Some (lit "/b"))) 16).1 = Some (Some (lit "/a")).
Proof.
  split.
  - pose proof (gpgdir_follow_correct (A:=ample) (Toy None true) gpg0 32 _ ltac:(done)) as H.
    destruct (arpc_gpgdir_follow (A:=ample) (Toy None true) gpg0 32) as [w g].
    destruct H as (_ & _ & H). destruct (H ltac:(done)) as ([E|(w1 & d & _ & E & _)] & _); [exact E|discriminate E].
  - pose proof (gpgdir_follow_correct (A:=ample) (Toy (Some (Some (lit "/b"))) false)
      (Gpg [Seen 32 (Some (lit "/b")); Seen 16 (Some (lit "/a"))] true (Some (lit "/b"))) 16 _ (fun _ => eq_refl)) as H.
    destruct (arpc_gpgdir_follow (A:=ample) (Toy (Some (Some (lit "/b"))) false) _ 16) as [w g].
    destruct H as (_ & _ & H). destruct (H ltac:(done)) as ([E|(w1 & d & _ & E & _)] & _); [exact E|discriminate E].
Defined.

Definition starved : Allocator := {| grants := fun _ => false |}.

Lemma gpgdir_follow_refused_witness :
  engine (arpc_gpgdir_follow (A:=ample)
            (arpc_gpgdir_follow (A:=starved) (Toy (Some (Some (lit "/a"))) true)
               (Gpg [Seen 16 (Some (lit "/a")); Seen 32 (Some (lit "/b"))] true (Some (lit "/a"))) 32).1
            (Gpg [Seen 16 (Some (lit "/a")); Seen 32 (Some (lit "/b"))] true (Some (lit "/a"))) 16).1
  = Some (Some (lit "/b")).
Proof.
  exact (proj2 (gpgdir_follow_refused (A1:=starved) (A2:=ample) (Toy (Some (Some (lit "/a"))) true)
    (Gpg [Seen 16 (Some (lit "/a")); Seen 32 (Some (lit "/b"))] true (Some (lit "/a"))) 16 32
    (Some (lit "/a")) (Some (lit "/b")) ltac:(done) ltac:(done) eq_refl eq_refl ltac:(done) ltac:(by vm_compute)
    (fun _ => eq_refl) (fun _ => eq_refl) (fun _ _ => eq_refl) eq_refl eq_refl (fun _ => eq_refl))).
Defined.
