(* ===== verification/Lookup.v ===== *)
(** * strcmp and bsearch

    The two functions of the C library the dispatcher finds a method with: the
    order of strings as unsigned bytes, and binary search.  The theorems:
    [strcmp] is a strict total order, and in an array sorted by it a search
    finds the element with a given name exactly when there is one. *)

From S2P Require Import Prelude.

Fixpoint lexcmp (a b : list Z) : comparison :=
  match a, b with
  | [], [] => Eq
  | [], _ => Lt
  | _, [] => Gt
  | x :: a, y :: b => match x ?= y with Eq => lexcmp a b | c => c end
  end.

(** [strcmp(a, b)]: its sign. *)
Definition strcmp (a b : list Z) : comparison := lexcmp (cstr a) (cstr b).

(** [bsearch] of an array, given the sign of the comparison of the key with an
    element: the index.  [lo] is the first of the [n] elements left. *)
Fixpoint bsearch_loop {X} (fuel : nat) (cmp : X -> comparison) (l : list X) (lo n : nat) : outcome (option nat) :=
  match fuel with
  | O => NoFuel
  | S fuel =>
      if (n =? 0)%nat then Ret None
      else
        let mid := (lo + n / 2)%nat in
        match l !! mid with
        | None => Undef
        | Some x =>
            match cmp x with
            | Eq => Ret (Some mid)
            | Lt => bsearch_loop fuel cmp l lo (n / 2)
            | Gt => bsearch_loop fuel cmp l (S mid) (n - n / 2 - 1)
            end
        end
  end.

Definition bsearch {X} (cmp : X -> comparison) (l : list X) : outcome (option nat) :=
  bsearch_loop (S (length l)) cmp l 0 (length l).

(** ** The order *)

Lemma lexcmp_eq a b : lexcmp a b = Eq <-> a = b.
Proof.
  revert b. induction a as [|x a IH]; intros [|y b]; cbn; [done..|].
  destruct (Z.compare_spec x y) as [->|H|H]; [rewrite IH| |]; (split; [|]); intros E; simplify_eq; try done; lia.
Qed.

Lemma lexcmp_antisym a b : lexcmp b a = CompOpp (lexcmp a b).
Proof.
  revert b. induction a as [|x a IH]; intros [|y b]; cbn; [done..|].
  rewrite (Z.compare_antisym x y). destruct (x ?= y); cbn; [apply IH|done|done].
Qed.

Lemma lexcmp_trans a b c : lexcmp a b = Lt -> lexcmp b c = Lt -> lexcmp a c = Lt.
Proof.
  revert b c. induction a as [|x a IH]; intros [|y b] [|z c]; cbn; try done.
  intros H1 H2. destruct (Z.compare_spec x z) as [->|Hxz|Hxz]; [|done|];
    destruct (Z.compare_spec y z) as [->|Hyz|Hyz]; try done.
  - rewrite Z.compare_refl in H1. by apply (IH b).
  - by rewrite (proj2 (Z.compare_gt_iff z y)) in H1.
  - by rewrite (proj2 (Z.compare_gt_iff x z)) in H1.
  - by rewrite (proj2 (Z.compare_gt_iff x y)) in H1 by lia.
Qed.

Definition strlt (a b : list Z) : Prop := strcmp a b = Lt.

#[export] Instance strlt_trans : Transitive strlt.
Proof. intros a b c. apply lexcmp_trans. Qed.

Lemma strcmp_eq a b : strcmp a b = Eq <-> cstr a = cstr b.
Proof. apply lexcmp_eq. Qed.

Lemma strcmp_gt a b : strcmp a b = Gt <-> strlt b a.
Proof. unfold strlt, strcmp. rewrite (lexcmp_antisym (cstr a)). by destruct (lexcmp (cstr a) (cstr b)). Qed.

Lemma strlt_irrefl a : ~ strlt a a.
Proof. unfold strlt. by rewrite (proj2 (strcmp_eq a a)). Qed.

(** ** The search *)

Section Search.
Context {X : Type} (name : X -> list Z) (l : list X) (key : list Z).
Hypothesis Hsorted : forall i j x y, (i < j)%nat -> l !! i = Some x -> l !! j = Some y -> strlt (name x) (name y).

Let cmp (x : X) : comparison := strcmp key (name x).

(** Once outside of the [n] elements at [lo] no name is the key, the search
    there decides. *)
Lemma bsearch_loop_spec fuel lo n :
  (n < fuel)%nat -> (lo + n <= length l)%nat ->
  (forall i x, l !! i = Some x -> (i < lo \/ lo + n <= i)%nat -> cstr (name x) <> cstr key) ->
  exists r, bsearch_loop fuel cmp l lo n = Ret r /\
    match r with
    | Some i => exists x, l !! i = Some x /\ cstr (name x) = cstr key
    | None => forall i x, l !! i = Some x -> cstr (name x) <> cstr key
    end.
Proof.
  revert lo n. induction fuel as [|fuel IH]; intros lo n Hf Hl Hout; [lia|]. cbn [bsearch_loop].
  destruct (Nat.eqb_spec n 0) as [->|Hn].
  { exists None. split; [done|]. intros i x Hx. apply (Hout i x Hx). lia. }
  assert (Hdiv : (n / 2 < n)%nat) by (apply Nat.div_lt; lia).
  destruct (lookup_lt_is_Some_2 l (lo + n / 2)) as [m Hm]; [lia|]. rewrite Hm. unfold cmp at 1.
  destruct (strcmp key (name m)) eqn:Hc.
  - exists (Some (lo + n / 2)%nat). split; [done|]. exists m. split; [done|]. by apply strcmp_eq in Hc.
  - apply IH; [lia|lia|]. intros i x Hx [Hi|Hi]; [apply (Hout i x Hx); lia|].
    intros Heq. apply (strlt_irrefl key). destruct (decide (i = lo + n / 2)%nat) as [->|].
    + assert (x = m) as -> by congruence. unfold strlt, strcmp in *. by rewrite Heq in Hc.
    + pose proof (Hsorted (lo + n / 2) i m x ltac:(lia) Hm Hx) as Hmx.
      etrans; [exact Hc|]. unfold strlt, strcmp in *. by rewrite Heq in Hmx.
  - apply IH; [lia|lia|]. intros i x Hx [Hi|Hi]; [|apply (Hout i x Hx); lia].
    intros Heq. apply strcmp_gt in Hc. apply (strlt_irrefl key).
    destruct (decide (i = lo + n / 2)%nat) as [->|].
    + assert (x = m) as -> by congruence. unfold strlt, strcmp in *. by rewrite Heq in Hc.
    + pose proof (Hsorted i (lo + n / 2) x m ltac:(lia) Hx Hm) as Hxm.
      etrans; [|exact Hc]. unfold strlt, strcmp in *. by rewrite Heq in Hxm.
Qed.

Lemma bsearch_spec :
  exists r, bsearch cmp l = Ret r /\
    match r with
    | Some i => exists x, l !! i = Some x /\ cstr (name x) = cstr key
    | None => forall i x, l !! i = Some x -> cstr (name x) <> cstr key
    end.
Proof.
  unfold bsearch. apply bsearch_loop_spec; [lia|lia|]. intros i x Hx Hi.
  apply lookup_lt_Some in Hx. lia.
Qed.
End Search.
