(* ===== verification/Server.v ===== *)
(** * Requests and responses: the runtime of src/server/arpc_server.c

    The accessors a handler reads its arguments with, each of which marks the
    request bad on a type mismatch, and the functions it builds its result
    with.  A request is a parsed document and the node of its parameters; a
    response is a JSON writer with an object open in it.  The theorems are
    about trees: [req_args] says which arguments the request carries, and
    [res_holds] which members have been written. *)

From S2P Require Import Prelude Json JsonWriter JsonReader JsonRef JsonArena JsonAccess Base64.
From S2P Require Import Wire CbRegistry HandleTable Paths.

(** ** Requests *)

Record arpc_req := ArpcReq { rq_doc : aj_doc; rq_params : Z; rq_bad : bool }.

Definition arpc_req_mark_bad (rq : arpc_req) : arpc_req := ArpcReq (rq_doc rq) (rq_params rq) true.
Definition arpc_req_bad (rq : arpc_req) : bool := rq_bad rq.

Definition arg_node (rq : arpc_req) (i : Z) : outcome (arpc_req * Z) :=
  n ← aj_elem (rq_doc rq) (rq_params rq) i;
  Ret (if n <? 0 then arpc_req_mark_bad rq else rq, n).

(** The string, [None] for NULL. *)
Definition arpc_arg_str (rq : arpc_req) (i : Z) : outcome (arpc_req * option (list Z)) :=
  '(rq, n) ← arg_node rq i;
  if n <? 0 then Ret (rq, None)
  else if aj_is_null (rq_doc rq) n then Ret (rq, None)
  else
    let s := aj_str (rq_doc rq) n in
    Ret (match s with None => arpc_req_mark_bad rq | Some _ => rq end, s).

Definition arpc_arg_i64 (rq : arpc_req) (i : Z) : outcome (arpc_req * Z) :=
  '(rq, n) ← arg_node rq i;
  if n <? 0 then Ret (rq, 0)
  else
    nd ← node_at (rq_doc rq) n;
    if negb (bool_decide (n_type nd = AJ_NUM)) && negb (bool_decide (n_type nd = AJ_BOOL))
    then Ret (arpc_req_mark_bad rq, 0)
    else Ret (rq, n_num nd).

Definition arpc_arg_id (rq : arpc_req) (i : Z) : outcome (arpc_req * Z) :=
  '(rq, n) ← arg_node rq i;
  if n <? 0 then Ret (rq, 0)
  else if aj_is_null (rq_doc rq) n then Ret (rq, 0)
  else Ret (rq, u64 (aj_i64 (rq_doc rq) n 0)).

(** The pointer, 0 for NULL. *)
Definition arpc_arg_handle (t : htab) (rq : arpc_req) (i tag : Z) : outcome (arpc_req * Z) :=
  '(rq, id) ← arpc_arg_id rq i;
  if id =? 0 then Ret (rq, 0)
  else
    p ← arpc_handle_get t id tag;
    Ret (if p =? 0 then arpc_req_mark_bad rq else rq, p).

Definition arpc_list_owner (rq : arpc_req) (i : Z) : outcome Z :=
  arr ← aj_elem (rq_doc rq) (rq_params rq) i;
  let e := aj_first (rq_doc rq) arr in
  Ret (if 0 <=? e then u64 (aj_i64 (rq_doc rq) e 0) else 0).

Definition arpc_arg_node (rq : arpc_req) (i : Z) : outcome (arpc_req * Z) := arg_node rq i.
Definition arpc_node_is_null (rq : arpc_req) (n : Z) : bool := aj_is_null (rq_doc rq) n.
Definition arpc_node_first (rq : arpc_req) (arr : Z) : Z := aj_first (rq_doc rq) arr.
Definition arpc_node_next (rq : arpc_req) (node : Z) : Z := aj_next (rq_doc rq) node.
Definition arpc_node_member (rq : arpc_req) (obj : Z) (key : list Z) : outcome Z :=
  aj_member (rq_doc rq) obj key.
Definition arpc_node_i64 (rq : arpc_req) (n : Z) : Z := aj_i64 (rq_doc rq) n 0.

(** ** Responses *)

Record arpc_res := ArpcRes {
  rs_out : aj_w;
  rs_has_ret : bool;
  rs_failed : bool;
  rs_code : Z;
  rs_msg : list Z       (* the string in [msg] *)
}.

(** [memset(&rs, 0, sizeof(rs))] *)
Definition res0 : arpc_res := ArpcRes ajw_init false false 0 [].

Definition set_out (rs : arpc_res) (w : aj_w) : arpc_res :=
  ArpcRes w (rs_has_ret rs) (rs_failed rs) (rs_code rs) (rs_msg rs).
Definition set_has_ret (rs : arpc_res) : arpc_res :=
  ArpcRes (rs_out rs) true (rs_failed rs) (rs_code rs) (rs_msg rs).

Definition ARPC_E_PARSE : Z := -32700.
Definition ARPC_E_INVALID_REQ : Z := -32600.
Definition ARPC_E_NO_METHOD : Z := -32601.
Definition ARPC_E_INVALID_PARAMS : Z := -32602.
Definition ARPC_E_INTERNAL : Z := -32603.

(** [snprintf(buf, size, "%s", s)] *)
Definition snprintf_s (size : Z) (s : list Z) : list Z := take (Z.to_nat (size - 1)) (cstr s).

Section Responses.
Context {A : Allocator}.

Definition arpc_node_strdup (rq : arpc_req) (n : Z) : option (list Z) :=
  match aj_str (rq_doc rq) n with
  | None => None
  | Some s => strdup s
  end.

Definition arpc_arg_bytes (rq : arpc_req) (i : Z) : outcome (arpc_req * option (list Z * Z)) :=
  '(rq, s) ← arpc_arg_str rq i;
  match s with
  | None => Ret (rq, None)
  | Some s =>
      match arpc_b64_decode (Some s) with
      | Ret b => Ret (rq, Some b)
      | Fail => Ret (arpc_req_mark_bad rq, None)
      | Undef => Undef
      | NoFuel => NoFuel
      end
  end.

(** The buffer is NULL until something has been written. *)
Definition ensure_obj (rs : arpc_res) : outcome arpc_res :=
  if w_cap (rs_out rs) =? 0 then w ← ajw_obj_begin ajw_init; Ret (set_out rs w) else Ret rs.

Definition set_ret (rs : arpc_res) : outcome arpc_res :=
  rs ← ensure_obj rs;
  w ← ajw_key (rs_out rs) ARPC_RET_KEY;
  Ret (set_has_ret (set_out rs w)).

(** A write to the response's writer. *)
Definition on_out (rs : arpc_res) (f : aj_w -> outcome aj_w) : outcome arpc_res :=
  w ← f (rs_out rs); Ret (set_out rs w).

Definition arpc_ret_null (rs : arpc_res) : outcome arpc_res := rs ← set_ret rs; on_out rs ajw_null.
Definition arpc_ret_i64 (rs : arpc_res) (v : Z) : outcome arpc_res :=
  rs ← set_ret rs; on_out rs (fun w => ajw_i64 w v).
Definition arpc_ret_str (rs : arpc_res) (s : option (list Z)) : outcome arpc_res :=
  rs ← set_ret rs; on_out rs (fun w => ajw_str w s).
Definition arpc_ret_path `{Cygwin} (g_win32 : bool) (rs : arpc_res) (s : option (list Z)) : outcome arpc_res :=
  rs ← set_ret rs; on_out rs (fun w => arpc_ajw_path g_win32 w s).
Definition arpc_ret_handle (rs : arpc_res) (id : Z) : outcome arpc_res :=
  rs ← set_ret rs; on_out rs (fun w => ajw_i64 w (i64_of_u64 id)).

(** [b ? arpc_b64_encode(b, n) : NULL] *)
Definition encode_or_null (b : option (list Z)) : outcome (option (list Z)) :=
  match b with
  | None => Ret None
  | Some b => match arpc_b64_encode b with
              | Ret s => Ret (Some s)
              | Fail => Ret None
              | Undef => Undef
              | NoFuel => NoFuel
              end
  end.

Definition arpc_ret_bytes (rs : arpc_res) (b : option (list Z)) : outcome arpc_res :=
  enc ← encode_or_null b;
  rs ← set_ret rs;
  on_out rs (fun w => ajw_str w enc).

Definition arpc_ret_begin (rs : arpc_res) : outcome arpc_res := set_ret rs.
Definition arpc_res_writer (rs : arpc_res) : outcome arpc_res := ensure_obj rs.

Definition arpc_out_writer (rs : arpc_res) (name : list Z) : outcome arpc_res :=
  rs ← ensure_obj rs;
  rs ← (if rs_has_ret rs then Ret rs else arpc_ret_null rs);
  on_out rs (fun w => ajw_key w name).

Definition arpc_out_bytes (rs : arpc_res) (name : list Z) (b : option (list Z)) : outcome arpc_res :=
  enc ← encode_or_null b;
  rs ← ensure_obj rs;
  rs ← (if rs_has_ret rs then Ret rs else arpc_ret_null rs);
  rs ← on_out rs (fun w => ajw_key w name);
  on_out rs (fun w => ajw_str w enc).

Definition arpc_out_i64 (rs : arpc_res) (name : list Z) (v : Z) : outcome arpc_res :=
  rs ← ensure_obj rs;
  rs ← (if rs_has_ret rs then Ret rs else arpc_ret_null rs);
  rs ← on_out rs (fun w => ajw_key w name);
  on_out rs (fun w => ajw_i64 w v).

(** [msg] NULL becomes "error"; always -1. *)
Definition arpc_fail (rs : arpc_res) (code : Z) (msg : option (list Z)) : arpc_res * Z :=
  (ArpcRes (rs_out rs) (rs_has_ret rs) true code
     (snprintf_s 256 (match msg with Some m => m | None => lit "error" end)), -1).

(** ** Replies *)

(** [finish]: the text, or NULL. *)
Definition finish (w : aj_w) : option (list Z) :=
  if w_err w || (w_cap w =? 0) then None else Some (w_buf w).

Definition reply_error (id code : Z) (msg : list Z) : outcome (option (list Z)) :=
  w ← ajw_obj_begin ajw_init;
  w ← ajw_key w (lit "id"); w ← ajw_i64 w id;
  w ← ajw_key w (lit "error"); w ← ajw_obj_begin w;
  w ← ajw_key w (lit "code"); w ← ajw_i64 w code;
  w ← ajw_key w (lit "message"); w ← ajw_str w (Some msg);
  w ← ajw_obj_end w;
  w ← ajw_obj_end w;
  Ret (finish w).
End Responses.

(** ** Reading arguments, on trees *)

(** What each accessor gives for an argument -- [None]: there is none -- and
    whether it marks the request bad. *)
Definition arg_str_spec (v : option json) : bool * option (list Z) :=
  match v with
  | Some (JStr s) => (false, Some (cstr s))
  | Some JNull => (false, None)
  | _ => (true, None)
  end.

Definition arg_i64_spec (v : option json) : bool * Z :=
  match v with
  | Some (JNum z) => (false, z)
  | Some (JBool b) => (false, if b then 1 else 0)
  | _ => (true, 0)
  end.

(** Only a missing argument is a mismatch here: anything that is not a number
    reads as no id. *)
Definition arg_id_spec (v : option json) : bool * Z :=
  match v with
  | None => (true, 0)
  | Some j => (false, u64 (t_i64 (Some j) 0))
  end.

Definition mark (rq : arpc_req) (bad : bool) : arpc_req := if bad then arpc_req_mark_bad rq else rq.

Section Args.
Context (rq : arpc_req) (pj : option json).
Hypothesis Hp : reads (rq_doc rq) (rq_params rq) pj.

Lemma arg_node_spec i :
  exists n, arg_node rq i = Ret (mark rq (n <? 0), n) /\ reads (rq_doc rq) n (t_elem pj i) /\
    (if n <? 0 then t_elem pj i = None else exists j, t_elem pj i = Some j).
Proof.
  unfold arg_node. destruct (aj_elem_reads _ _ _ i Hp) as (n & -> & Hn). cbn [mbind outcome_bind].
  exists n. unfold mark. split; [by destruct (n <? 0)|]. split; [done|].
  destruct (t_elem pj i) as [j|]; cbn in Hn.
  - destruct Hn as [Hn _]. destruct (Z.ltb_spec n 0); [lia|]. by exists j.
  - by subst n.
Qed.

Lemma arg_str_reads i :
  arpc_arg_str rq i = let '(bad, s) := arg_str_spec (t_elem pj i) in Ret (mark rq bad, s).
Proof.
  unfold arpc_arg_str. destruct (arg_node_spec i) as (n & -> & Hn & Hc). cbn [mbind outcome_bind].
  destruct (n <? 0); [by rewrite Hc|]. destruct Hc as [j Hj]. cbn [mark].
  rewrite (aj_is_null_reads _ _ _ Hn), (aj_str_reads _ _ _ Hn), Hj. by destruct j.
Qed.

Lemma arg_i64_reads i :
  arpc_arg_i64 rq i = let '(bad, v) := arg_i64_spec (t_elem pj i) in Ret (mark rq bad, v).
Proof.
  unfold arpc_arg_i64. destruct (arg_node_spec i) as (n & -> & Hn & Hc). cbn [mbind outcome_bind].
  destruct (n <? 0); [by rewrite Hc|]. destruct Hc as [j Hj]. cbn [mark]. rewrite Hj in Hn |- *.
  destruct (at_reads _ _ _ Hn) as (nd & Hat & Hnd).
  rewrite (at_node_at _ _ _ Hat).
  cbn [mbind outcome_bind]. destruct j as [|b|z|s|o kids]; cbn in Hnd; destruct_and?.
  - by rewrite !bool_decide_false by congruence.
  - rewrite (bool_decide_false (n_type nd = AJ_NUM)), bool_decide_true by congruence. cbn. by rewrite H0.
  - rewrite (bool_decide_true (n_type nd = AJ_NUM)) by congruence. cbn. by rewrite H0.
  - by rewrite !bool_decide_false by congruence.
  - rewrite !bool_decide_false by (destruct o; congruence). done.
Qed.

Lemma arg_id_reads i :
  arpc_arg_id rq i = let '(bad, v) := arg_id_spec (t_elem pj i) in Ret (mark rq bad, v).
Proof.
  unfold arpc_arg_id. destruct (arg_node_spec i) as (n & -> & Hn & Hc). cbn [mbind outcome_bind].
  destruct (n <? 0); [by rewrite Hc|]. destruct Hc as [j Hj]. cbn [mark].
  rewrite (aj_is_null_reads _ _ _ Hn), (aj_i64_reads _ _ _ _ Hn), Hj. by destruct j.
Qed.
End Args.

(** ** Writing members *)

Lemma render_kids_app o c kids k v :
  render_kids o c (kids ++ [(k, v)]) =
  render_kids o c kids ++ sep (match kids with [] => c | _ => true end) ++
    (if o then render_key k else []) ++ render v.
Proof.
  revert c. induction kids as [|[k' v'] kids IH]; intros c; cbn [app render_kids].
  - by rewrite app_nil_r.
  - rewrite IH. destruct kids; by rewrite <- !app_assoc.
Qed.

Section ResHolds.
Context {A : Allocator} {HA : TotalAllocator A}.

(** The text of an object with members, not yet closed. *)
Definition open_text (kids : list (list Z * json)) : list Z := [123] ++ render_kids true false kids.

Definition has_members (kids : list (list Z * json)) : bool := match kids with [] => false | _ => true end.

(** The response is the open object with these members. *)
Definition res_holds (rs : arpc_res) (kids : list (list Z * json)) : Prop :=
  (rs_out rs = ajw_init /\ kids = []) \/
  (winv (rs_out rs) /\ w_cap (rs_out rs) <> 0 /\ w_err (rs_out rs) = false /\
   w_buf (rs_out rs) = open_text kids /\ w_comma (rs_out rs) = has_members kids).

(** Over such a heap, what [emits] promises happens. *)
Lemma emits_total m w out c :
  emits m w out c -> w_err w = false -> w_len w + len out <= 2 ^ 61 ->
  exists w', m = Ret w' /\ winv w' /\ w_err w' = false /\ w_buf w' = w_buf w ++ out /\ w_comma w' = c.
Proof.
  intros (w' & E & Hw & H & T) He Hl. specialize (T HA He Hl). destruct (H T) as (_ & Hb & Hc).
  by exists w'.
Qed.

Lemma winv_cap w : winv w -> w_buf w <> [] -> w_cap w <> 0.
Proof. intros [[_ ?]|[Hl _]] Hb; [done|]. unfold w_len in Hl. lia. Qed.

Lemma ensure_obj_holds rs kids :
  res_holds rs kids ->
  exists rs', ensure_obj rs = Ret rs' /\ res_holds rs' kids /\ w_cap (rs_out rs') <> 0 /\
    rs_has_ret rs' = rs_has_ret rs /\ rs_failed rs' = rs_failed rs.
Proof.
  intros [[Ho ->]|(Hw & Hc & H)]; unfold ensure_obj.
  - rewrite Ho. cbn [w_cap ajw_init Z.eqb].
    destruct (emits_total (ajw_obj_begin ajw_init) ajw_init (sep false ++ [123]) false)
      as (w & -> & Hw & He & Hb & Hcm); [by apply emits_wopen; [apply winv_init|]|done|by vm_compute|].
    cbn [mbind outcome_bind]. eexists. split; [reflexivity|]. cbn [rs_out set_out].
    assert (Hcap : w_cap w <> 0) by (apply winv_cap; [done|by rewrite Hb]).
    split_and!; try done. right. by split_and!.
  - destruct (Z.eqb_spec (w_cap (rs_out rs)) 0); [done|]. exists rs. split_and!; try done. by right.
Qed.

(** One more member, its value written by [f]. *)
Lemma member_holds rs kids k v (f : aj_w -> outcome aj_w) :
  res_holds rs kids -> w_cap (rs_out rs) <> 0 -> no_nul k -> len k <= 2 ^ 60 ->
  (forall w, winv w -> comma_is w false -> emits (f w) w (render v) true) ->
  len (open_text (kids ++ [(k, v)])) <= 2 ^ 61 ->
  exists w1 w2, ajw_key (rs_out rs) k = Ret w1 /\ f w1 = Ret w2 /\
    forall h, res_holds (ArpcRes w2 h (rs_failed rs) (rs_code rs) (rs_msg rs)) (kids ++ [(k, v)]).
Proof.
  intros Hr Hcap Hk Hkl Hf Hlen. destruct Hr as [[Ho _]|(Hw & _ & He & Hb & Hcm)]; [by rewrite Ho in Hcap|].
  pose proof (render_kids_app true false kids k v) as Happ.
  unfold open_text in Hlen. rewrite Happ, !length_app in Hlen.
  assert (Hsep : (match kids with [] => false | _ => true end) = has_members kids) by done.
  rewrite Hsep in *.
  assert (Hck : cstr k = k) by (by apply cstr_no_nul).
  destruct (emits_total (ajw_key (rs_out rs) k) (rs_out rs) (sep (has_members kids) ++ render_key (cstr k)) false)
    as (w1 & E1 & Hw1 & He1 & Hb1 & Hc1).
  { apply emits_key; [done|by intros _|by apply no_nul_is_bytes|done]. }
  { exact He. }
  { unfold w_len. rewrite Hb, Hck. unfold open_text. rewrite !length_app. lia. }
  destruct (emits_total (f w1) w1 (render v) true) as (w2 & E2 & Hw2 & He2 & Hb2 & Hc2).
  { apply Hf; [done|by intros _]. }
  { exact He1. }
  { unfold w_len. rewrite Hb1, Hb, Hck. unfold open_text. rewrite !length_app. lia. }
  exists w1, w2. split_and!; [done..|]. intros h. right. cbn [rs_out].
  assert (Hb3 : w_buf w2 = open_text (kids ++ [(k, v)])).
  { rewrite Hb2, Hb1, Hb, Hck. unfold open_text. rewrite Happ. by rewrite <- !app_assoc. }
  split_and!; [done|apply winv_cap; [done|by rewrite Hb3]|done|done|]. rewrite Hc2. by destruct kids.
Qed.

Lemma ret_key_ok : no_nul ARPC_RET_KEY /\ len ARPC_RET_KEY <= 2 ^ 60.
Proof. split; [apply (bool_decide_unpack (no_nul ARPC_RET_KEY)); by vm_compute|by vm_compute]. Qed.

(** Setting the return value to whatever [f] writes. *)
Lemma ret_holds rs kids v (f : aj_w -> outcome aj_w) :
  res_holds rs kids ->
  (forall w, winv w -> comma_is w false -> emits (f w) w (render v) true) ->
  len (open_text (kids ++ [(ARPC_RET_KEY, v)])) <= 2 ^ 61 ->
  exists rs', (rs ← set_ret rs; on_out rs f) = Ret rs' /\ res_holds rs' (kids ++ [(ARPC_RET_KEY, v)]) /\
    rs_has_ret rs' = true /\ rs_failed rs' = rs_failed rs.
Proof.
  intros Hr Hf Hlen. destruct (ensure_obj_holds rs kids Hr) as (rs1 & E1 & Hr1 & Hc1 & _ & Hfl).
  destruct ret_key_ok as [Hk Hkl].
  destruct (member_holds rs1 kids ARPC_RET_KEY v f Hr1 Hc1 Hk Hkl Hf Hlen) as (w1 & w2 & Ek & Ef & Hh).
  unfold set_ret. rewrite E1. cbn [mbind outcome_bind]. rewrite Ek. cbn [mbind outcome_bind].
  unfold on_out. cbn [rs_out set_has_ret set_out]. rewrite Ef. cbn [mbind outcome_bind].
  eexists. split; [reflexivity|]. split_and!; [apply Hh|done|done].
Qed.

End ResHolds.

(** ** Building a response, call by call *)

(** The calls a handler builds its response with; [RJson] and [OJson] are
    composite values written through [arpc_ret_begin] and [arpc_out_writer]. *)
Inductive rop :=
| RNull | RI64 (v : Z) | RStr (s : option (list Z)) | RPath (s : option (list Z))
| RHandle (id : Z) | RBytes (b : option (list Z)) | RJson (j : json)
| OI64 (name : list Z) (v : Z) | OBytes (name : list Z) (b : option (list Z)) | OJson (name : list Z) (j : json).

Section Building.
Context {A : Allocator} {C : Cygwin}.

Definition rstep (g : bool) (rs : arpc_res) (op : rop) : outcome arpc_res :=
  match op with
  | RNull => arpc_ret_null rs
  | RI64 v => arpc_ret_i64 rs v
  | RStr s => arpc_ret_str rs s
  | RPath s => arpc_ret_path g rs s
  | RHandle id => arpc_ret_handle rs id
  | RBytes b => arpc_ret_bytes rs b
  | RJson j => rs ← arpc_ret_begin rs; rs ← arpc_res_writer rs; on_out rs (fun w => ajw_json w j)
  | OI64 name v => arpc_out_i64 rs name v
  | OBytes name b => arpc_out_bytes rs name b
  | OJson name j => rs ← arpc_out_writer rs name; on_out rs (fun w => ajw_json w j)
  end.

Fixpoint rrun (g : bool) (rs : arpc_res) (ops : list rop) : outcome arpc_res :=
  match ops with
  | [] => Ret rs
  | op :: ops => rs ← rstep g rs op; rrun g rs ops
  end.

(** The member a call adds: its name, [None] for the return value, and its
    value. *)
Definition jbytes (b : option (list Z)) : json :=
  match b with Some b => JStr (b64_spec b) | None => JNull end.

Definition rop_member (g : bool) (op : rop) : option (list Z) * json :=
  match op with
  | RNull => (None, JNull)
  | RI64 v => (None, JNum v)
  | RStr s => (None, jstr s)
  | RPath s => (None, jstr (shown g s))
  | RHandle id => (None, JNum (i64_of_u64 id))
  | RBytes b => (None, jbytes b)
  | RJson j => (None, j)
  | OI64 name v => (Some name, JNum v)
  | OBytes name b => (Some name, jbytes b)
  | OJson name j => (Some name, j)
  end.

(** What fits the C types, and a writer's use of a composite. *)
Definition bytes_ok (b : option (list Z)) : Prop :=
  match b with Some b => is_bytes b /\ len b <= 2 ^ 59 | None => True end.
Definition value_ok (g : bool) (op : rop) : Prop :=
  match op with
  | RNull => True
  | RI64 v | OI64 _ v => i64_min <= v <= i64_max
  | RStr s => str_ok s
  | RPath s => str_ok (shown g s)
  | RHandle id => 0 <= id < 18446744073709551616
  | RBytes b | OBytes _ b => bytes_ok b
  | RJson j | OJson _ j => wf_json j /\ writable j
  end.
Definition rop_ok (g : bool) (op : rop) : Prop :=
  value_ok g op /\ match (rop_member g op).1 with Some k => no_nul k /\ len k <= 2 ^ 60 | None => True end.

(** The members a sequence of calls makes: an out field that comes before
    any return value is preceded by a null one. *)
Definition rop_adds (g has : bool) (op : rop) : list (list Z * json) :=
  match rop_member g op with
  | (None, v) => [(ARPC_RET_KEY, v)]
  | (Some k, v) => (if has then [] else [(ARPC_RET_KEY, JNull)]) ++ [(k, v)]
  end.
Fixpoint rops_members (g has : bool) (ops : list rop) : list (list Z * json) :=
  match ops with
  | [] => []
  | op :: ops => rop_adds g has op ++ rops_members g true ops
  end.
End Building.

Lemma render_kids_app_list o c kids kids' :
  render_kids o c (kids ++ kids') =
  render_kids o c kids ++ render_kids o (match kids with [] => c | _ => true end) kids'.
Proof.
  revert c. induction kids as [|[k v] kids IH]; intros c; [done|]. cbn [app render_kids].
  rewrite IH. destruct kids; by rewrite <- !app_assoc.
Qed.

Lemma open_text_app kids kids' : len (open_text kids) <= len (open_text (kids ++ kids')).
Proof. unfold open_text. rewrite render_kids_app_list, !length_app. lia. Qed.

Section BuildingSpec.
Context {A : Allocator} {C : Cygwin} {HA : TotalAllocator A}.

Lemma encode_or_null_ok b :
  bytes_ok b -> exists s, encode_or_null b = Ret s /\ jbytes b = jstr s /\ str_ok s.
Proof.
  destruct b as [b|]; [|by exists None]. intros [Hb Hl]. cbn [encode_or_null jbytes].
  rewrite arpc_b64_encode_eq by (done || lia). rewrite HA, <- b64_text_spec by done.
  exists (Some (b64_text b)). split; [done|]. cbn. rewrite (cstr_no_nul _ (b64_text_no_nul b)).
  split_and!; [done|apply no_nul_is_bytes, b64_text_no_nul|]. rewrite b64_text_length.
  Z.to_euclidean_division_equations; lia.
Qed.

(** The null return value that goes first when there is none yet. *)
Lemma null_ret_holds rs kids :
  res_holds rs kids -> w_cap (rs_out rs) <> 0 ->
  len (open_text (kids ++ (if rs_has_ret rs then [] else [(ARPC_RET_KEY, JNull)]))) <= 2 ^ 61 ->
  exists rs2, (if rs_has_ret rs then Ret rs else arpc_ret_null rs) = Ret rs2 /\
    res_holds rs2 (kids ++ if rs_has_ret rs then [] else [(ARPC_RET_KEY, JNull)]) /\
    w_cap (rs_out rs2) <> 0 /\ rs_has_ret rs2 = true /\ rs_failed rs2 = rs_failed rs.
Proof.
  intros Hr Hc Hlen. destruct (rs_has_ret rs) eqn:Eh.
  - exists rs. rewrite app_nil_r. by split_and!.
  - destruct (ret_holds rs kids JNull ajw_null Hr) as (rs2 & E2 & Hr2 & Hh2 & Hf2); [|done|].
    + intros w Hw Hcm. by apply (emits_null w false).
    + exists rs2. split_and!; try done.
      destruct Hr2 as [[_ Hk2]|(_ & ? & _)]; [by destruct kids|done].
Qed.

(** An out field: the null return if there is none yet, then the member. *)
Lemma out_holds rs kids k v (f : aj_w -> outcome aj_w) :
  res_holds rs kids -> no_nul k -> len k <= 2 ^ 60 ->
  (forall w, winv w -> comma_is w false -> emits (f w) w (render v) true) ->
  len (open_text (kids ++ (if rs_has_ret rs then [] else [(ARPC_RET_KEY, JNull)]) ++ [(k, v)])) <= 2 ^ 61 ->
  exists rs', (rs ← arpc_out_writer rs k; on_out rs f) = Ret rs' /\
    res_holds rs' (kids ++ (if rs_has_ret rs then [] else [(ARPC_RET_KEY, JNull)]) ++ [(k, v)]) /\
    rs_has_ret rs' = true /\ rs_failed rs' = rs_failed rs.
Proof.
  intros Hr Hk Hkl Hf Hlen. rewrite app_assoc in *. unfold arpc_out_writer.
  destruct (ensure_obj_holds rs kids Hr) as (rs1 & E1 & Hr1 & Hc1 & Hh & Hfl). rewrite E1.
  cbn [mbind outcome_bind].
  rewrite <- Hh in Hlen |- *. destruct (null_ret_holds rs1 kids Hr1 Hc1) as (rs2 & E2 & Hr2 & Hc2 & Hh2 & Hf2).
  { etrans; [apply (open_text_app _ [(k, v)])|done]. }
  rewrite Hfl in Hf2.
  rewrite E2. cbn [mbind outcome_bind].
  destruct (member_holds rs2 _ k v f Hr2 Hc2 Hk Hkl Hf Hlen) as (w1 & w2 & Ek & Ef & Hres).
  unfold on_out. rewrite Ek. cbn [mbind outcome_bind rs_out set_out]. rewrite Ef. cbn [mbind outcome_bind].
  eexists. split; [reflexivity|]. cbn [rs_has_ret set_out rs_failed]. split_and!; [apply Hres|done..].
Qed.

Lemma key_total rs kids k v :
  res_holds rs kids -> w_cap (rs_out rs) <> 0 -> no_nul k -> len k <= 2 ^ 60 ->
  len (open_text (kids ++ [(k, v)])) <= 2 ^ 61 ->
  exists w, ajw_key (rs_out rs) k = Ret w /\ w_cap w <> 0.
Proof.
  intros [[Ho _]|(Hw & _ & He & Hb & Hcm)] Hc Hk Hl Hlen; [by rewrite Ho in Hc|].
  unfold open_text in Hlen. rewrite render_kids_app, !length_app in Hlen.
  destruct (emits_total (ajw_key (rs_out rs) k) (rs_out rs) (sep (has_members kids) ++ render_key (cstr k)) false)
    as (w & -> & Hww & _ & Hwb & _).
  - apply emits_key; [done|by intros _|by apply no_nul_is_bytes|done].
  - exact He.
  - unfold w_len. rewrite Hb, (cstr_no_nul k) by done. unfold open_text. rewrite !length_app.
    change (match kids with [] => false | _ => true end) with (has_members kids) in Hlen. lia.
  - exists w. split; [done|]. apply winv_cap; [done|]. rewrite Hwb, Hb. done.
Qed.

(** The two out fields that are not composite are the writer's, too. *)
Lemma out_i64_writer rs k v : arpc_out_i64 rs k v = (rs ← arpc_out_writer rs k; on_out rs (fun w => ajw_i64 w v)).
Proof.
  unfold arpc_out_i64, arpc_out_writer. destruct (ensure_obj rs) as [rs1| | |]; [|done..].
  cbn [mbind outcome_bind]. by destruct (if rs_has_ret rs1 then _ else _).
Qed.

Lemma out_bytes_writer rs k b s :
  encode_or_null b = Ret s ->
  arpc_out_bytes rs k b = (rs ← arpc_out_writer rs k; on_out rs (fun w => ajw_str w s)).
Proof.
  intros E. unfold arpc_out_bytes, arpc_out_writer. rewrite E. cbn [mbind outcome_bind].
  destruct (ensure_obj rs) as [rs1| | |]; [|done..]. cbn [mbind outcome_bind].
  by destruct (if rs_has_ret rs1 then _ else _).
Qed.

Lemma rstep_holds g rs kids op :
  res_holds rs kids -> rop_ok g op ->
  len (open_text (kids ++ rop_adds g (rs_has_ret rs) op)) <= 2 ^ 61 ->
  exists rs', rstep g rs op = Ret rs' /\ res_holds rs' (kids ++ rop_adds g (rs_has_ret rs) op) /\
    rs_has_ret rs' = true /\ rs_failed rs' = rs_failed rs.
Proof.
  intros Hr [Hv Hk] Hlen. unfold rop_adds in *.
  destruct op as [|v|s|s|id|b|j|name v|name b|name j]; cbn [rop_member fst value_ok rstep] in *.
  - apply ret_holds; [done| |done]. intros w Hw Hc. by apply (emits_null w false).
  - apply ret_holds; [done| |done]. intros w Hw Hc. by apply (emits_i64 w v false).
  - apply ret_holds; [done| |done]. intros w Hw Hc. by apply (emits_jstr s w false).
  - apply ret_holds; [done| |done]. intros w Hw Hc. by apply (emits_path g w s false).
  - apply ret_holds; [done| |done]. intros w Hw Hc. apply (emits_i64 w _ false); [done..|].
    by apply i64_of_u64_range.
  - destruct (encode_or_null_ok b Hv) as (s & Es & Ej & Hs). unfold arpc_ret_bytes. rewrite Es, Ej in *.
    apply ret_holds; [done| |done]. intros w Hw Hc. by apply (emits_jstr s w false).
  - destruct Hv as [Hwf Hwr].
    destruct (ret_holds rs kids j (fun w => ajw_json w j) Hr) as (rs' & E & H); [|done|].
    { intros w Hw Hc. by apply (emits_json j w false). }
    exists rs'. split; [|done]. rewrite <- E. unfold arpc_ret_begin, set_ret, arpc_res_writer.
    destruct (ensure_obj_holds rs kids Hr) as (rs1 & E1 & Hr1 & Hc1 & _). rewrite E1.
    cbn [mbind outcome_bind].
    destruct (key_total rs1 kids ARPC_RET_KEY j) as (w & -> & Hcap);
      [done|done|apply ret_key_ok|apply ret_key_ok|done|].
    cbn [mbind outcome_bind]. unfold ensure_obj at 1. cbn [rs_out set_has_ret set_out].
    by destruct (Z.eqb_spec (w_cap w) 0).
  - destruct Hk as [Hk Hkl].
    destruct (out_holds rs kids name (JNum v) (fun w => ajw_i64 w v)) as (rs' & E & H); [done..| |done|].
    { intros w Hw Hc. by apply (emits_i64 w v false). }
    exists rs'. split; [|done]. by rewrite <- E, out_i64_writer.
  - destruct Hk as [Hk Hkl]. destruct (encode_or_null_ok b Hv) as (s & Es & Ej & Hs). rewrite Ej in *.
    destruct (out_holds rs kids name (jstr s) (fun w => ajw_str w s)) as (rs' & E & H); [done..| |done|].
    { intros w Hw Hc. by apply (emits_jstr s w false). }
    exists rs'. split; [|done]. by rewrite <- E, (out_bytes_writer _ _ _ _ Es).
  - destruct Hk as [Hk Hkl], Hv as [Hwf Hwr]. apply out_holds; [done..| |done].
    intros w Hw Hc. by apply (emits_json j w false).
Qed.

Lemma rrun_holds g ops rs kids :
  res_holds rs kids -> Forall (rop_ok g) ops ->
  len (open_text (kids ++ rops_members g (rs_has_ret rs) ops)) <= 2 ^ 61 ->
  exists rs', rrun g rs ops = Ret rs' /\ res_holds rs' (kids ++ rops_members g (rs_has_ret rs) ops) /\
    rs_has_ret rs' = (match ops with [] => rs_has_ret rs | _ => true end) /\ rs_failed rs' = rs_failed rs.
Proof.
  intros Hr Hops. revert rs kids Hr. induction Hops as [|op ops Hop Hops IH]; intros rs kids Hr Hlen.
  - exists rs. cbn [rops_members]. rewrite app_nil_r. done.
  - cbn [rops_members rrun] in *. rewrite app_assoc in *.
    destruct (rstep_holds g rs kids op Hr Hop) as (rs1 & -> & Hr1 & Hh1 & Hf1).
    { etrans; [apply open_text_app|done]. }
    cbn [mbind outcome_bind]. destruct (IH rs1 _ Hr1) as (rs2 & -> & Hr2 & Hh2 & Hf2); [by rewrite Hh1|].
    exists rs2. rewrite Hh1 in Hr2. split_and!; [done|done| |congruence]. rewrite Hh2, Hh1. by destruct ops.
Qed.
End BuildingSpec.

(** ** Properties *)

(** C28. What a handler reads: every argument accessor is the read of the tree
    the request stands for, marks the request bad exactly on the mismatches
    [arg_str_spec], [arg_i64_spec] and [arg_id_spec] say, and never unmarks
    it; a handle argument is looked up in the table unless it is null or 0,
    and one that is not there marks the request bad. *)
Theorem arguments_correct rq pj t i tag :
  reads (rq_doc rq) (rq_params rq) pj ->
  arpc_arg_str rq i = (let '(bad, s) := arg_str_spec (t_elem pj i) in Ret (mark rq bad, s)) /\
  arpc_arg_i64 rq i = (let '(bad, v) := arg_i64_spec (t_elem pj i) in Ret (mark rq bad, v)) /\
  arpc_arg_id rq i = (let '(bad, v) := arg_id_spec (t_elem pj i) in Ret (mark rq bad, v)) /\
  arpc_arg_handle t rq i tag =
    (let '(bad, id) := arg_id_spec (t_elem pj i) in
     if id =? 0 then Ret (mark rq bad, 0)
     else p ← arpc_handle_get t id tag; Ret (mark rq (p =? 0), p)) /\
  arpc_list_owner rq i =
    Ret (match t_kids (t_elem pj i) with j :: _ => u64 (t_i64 (Some j) 0) | [] => 0 end) /\
  (forall bad, rq_bad rq = true -> rq_bad (mark rq bad) = true).
Proof.
  intros Hp. split_and!; [by apply arg_str_reads|by apply arg_i64_reads|by apply arg_id_reads|..].
  - unfold arpc_arg_handle. rewrite (arg_id_reads rq pj Hp). destruct (t_elem pj i) as [j|]; [|done].
    cbn [arg_id_spec mark mbind outcome_bind]. destruct (_ =? 0); [done|].
    destruct (arpc_handle_get t _ tag) as [p| | |]; [|done..]. cbn [mbind outcome_bind]. by destruct (p =? 0).
  - unfold arpc_list_owner. destruct (aj_elem_reads _ _ _ i Hp) as (n & -> & Hn). cbn [mbind outcome_bind].
    pose proof (aj_first_reads _ _ _ Hn) as Hf. destruct (t_kids (t_elem pj i)) as [|j l].
    + by rewrite (reads_from_nil _ _ Hf).
    + destruct (reads_from_cons _ _ _ _ Hf) as (Hx & Hj & _). destruct (Z.leb_spec 0 (aj_first (rq_doc rq) n)); [|lia].
      by rewrite (aj_i64_reads _ _ _ _ Hj).
  - by intros [|].
Qed.

(** C27. What a handler writes: any sequence of the calls that build a result
    leaves the response holding the object whose members are the calls', in
    order, a null return value put before an out field that comes first,
    byte buffers in base64, ids as signed integers, paths in the
    connection's form. This is so as long as no memory is refused. *)
Theorem responses_correct {A : Allocator} {C : Cygwin} g ops :
  TotalAllocator A -> Forall (rop_ok g) ops -> len (open_text (rops_members g false ops)) <= 2 ^ 61 ->
  exists rs, rrun g res0 ops = Ret rs /\ res_holds rs (rops_members g false ops) /\
    rs_has_ret rs = negb (bool_decide (ops = [])) /\ rs_failed rs = false.
Proof.
  intros Ht Hops Hlen. destruct (rrun_holds g ops res0 []) as (rs & -> & Hr & Hh & Hf); [by left|done..|].
  exists rs. split_and!; [done|done| |done]. rewrite Hh. by destruct ops.
Qed.

(** The two directions meet: a byte buffer that one side returned as a
    member of its result, when it comes back as an argument, is the same
    buffer, of the same length, NULs and all; anything that is not base64
    marks the request bad. *)
Theorem bytes_argument_correct {A : Allocator} rq pj i b :
  reads (rq_doc rq) (rq_params rq) pj -> TotalAllocator A -> is_bytes b -> len b <= 2 ^ 59 ->
  (t_elem pj i = Some (jbytes (Some b)) -> arpc_arg_bytes rq i = Ret (rq, Some (b, len b))) /\
  (forall s, t_elem pj i = Some (JStr s) -> well_formed (cstr s) = false ->
     arpc_arg_bytes rq i = Ret (arpc_req_mark_bad rq, None)).
Proof.
  intros Hp Ht Hb Hl. unfold arpc_arg_bytes. rewrite (arg_str_reads rq pj Hp). split.
  - intros ->. cbn [jbytes arg_str_spec mark mbind outcome_bind]. rewrite <- b64_text_spec by done.
    rewrite (cstr_no_nul _ (b64_text_no_nul b)), arpc_b64_decode_text by done. by rewrite Ht.
  - intros s -> Hw. cbn [arg_str_spec mark mbind outcome_bind].
    rewrite b64_refuses; [done|]. by rewrite cstr_idemp.
Qed.

(** ** The properties at work *)

Definition sample_req : arpc_req := ArpcReq sample_doc 0 false.

Lemma arguments_correct_witness :
  arpc_arg_i64 sample_req 0 = Ret (sample_req, -12) /\
  arpc_arg_str sample_req 0 = Ret (arpc_req_mark_bad sample_req, None).
Proof.
  split.
  - exact (proj1 (proj2 (arguments_correct sample_req _ htab0 0 0 sample_reads))).
  - exact (proj1 (arguments_correct sample_req _ htab0 0 0 sample_reads)).
Defined.

Lemma responses_correct_witness :
  exists rs, rrun (A:=ample) (C:=sample_cygwin) true res0
      [OI64 (lit "n") (-3); OBytes (lit "b") (Some [0; 1]); RPath (Some (lit "/etc"))] = Ret rs /\
    w_buf (rs_out rs) = qlit "{`@ret`:null,`n`:-3,`b`:`AAE=`,`@ret`:`C:/etc`".
Proof.
  destruct (responses_correct (A:=ample) (C:=sample_cygwin) true
    [OI64 (lit "n") (-3); OBytes (lit "b") (Some [0; 1]); RPath (Some (lit "/etc"))] _) as (rs & E & H & _).
  - repeat constructor; cbn; unfold is_byte, i64_min, i64_max; try lia.
  - by vm_compute.
  - exists rs. split; [exact E|]. destruct H as [[_ ?]|(_ & _ & _ & -> & _)]; [done|]. by vm_compute.
Defined.

Definition b64_req_text : list Z := qlit "[`AAE=`]".
Definition b64_req_doc : aj_doc := match aj_parse (A:=ample) b64_req_text with Ret d => d | _ => doc0 end.

Lemma b64_req_reads : reads b64_req_doc 0 (Some (JArr [JStr (lit "AAE=")])).
Proof.
  assert (Hl : len b64_req_text <= ARPC_MAX_FRAME) by (by vm_compute).
  pose proof (aj_parse_sim (A:=ample) b64_req_text Hl) as H.
  assert (E : ref_parse b64_req_text = Ret (JArr [JStr (lit "AAE=")])) by (by vm_compute).
  rewrite E in H. unfold b64_req_doc. destruct (aj_parse b64_req_text); by destruct H.
Defined.

Lemma bytes_argument_correct_witness :
  arpc_arg_bytes (A:=ample) (ArpcReq b64_req_doc 0 false) 0 = Ret (ArpcReq b64_req_doc 0 false, Some ([0; 1], 2)).
Proof.
  refine (proj1 (bytes_argument_correct (A:=ample) (ArpcReq b64_req_doc 0 false) _ 0 [0; 1] b64_req_reads _ _ _) eq_refl);
    [repeat constructor; unfold is_byte; lia|cbn; lia].
Defined.
