(* ===== verification/Mtree.v ===== *)
(** * A package's file listing, as bytes: src/server/arpc_mtree.c

    What libarchive's mtree writer makes of the entries of a package, gathered
    in a growing sink and returned in base64.  libalpm and libarchive are
    parameters: the entries a package has, and the blocks the writer hands the
    sink for each.  The theorems: the sink never writes outside its buffer and
    holds what it was given, and the reply carries exactly the writer's
    bytes. *)

From S2P Require Import Prelude Json JsonWriter JsonReader JsonRef JsonArena JsonAccess Base64.
From S2P Require Import Wire HandleTable Paths Server.

Record sink := Sink { k_buf : list Z; k_cap : Z; k_failed : bool }.

Definition sink0 : sink := Sink [] 0 false.

Definition k_len (s : sink) : Z := len (k_buf s).

(** The calls made to libalpm and libarchive, over the state [W] of both.
    Pointers are addresses, 0 for NULL.  A call that writes hands the sink the
    blocks it lists, in order, until the sink refuses one. *)
Class Archive (W : Type) := {
  ARPC_H_PKG : Z;
  alpm_pkg_mtree_open : W -> Z -> Z * W;
  alpm_pkg_mtree_next : W -> Z -> Z -> option Z * W;   (* the entry, or the end *)
  alpm_pkg_mtree_close : W -> Z -> Z -> W;
  archive_write_new : W -> Z * W;
  archive_write_set_format_mtree : W -> Z -> W;
  archive_write_open : W -> Z -> bool * W;
  archive_write_header : W -> Z -> Z -> list (list Z) * bool * W;
  archive_write_close : W -> Z -> list (list Z) * W;
  archive_write_free : W -> Z -> W
}.

Section Mtree.
Context {A : Allocator} {T : Tags} `{R : Archive W}.

(** [sink_write]: the sink, and whether it took the block. *)
Definition sink_write (s : sink) (b : list Z) : outcome (sink * bool) :=
  let need := u64 (k_len s + len b) in
  grown ← (if k_cap s <? need then
             cap ← double_until 65 (if k_cap s =? 0 then 8192 else k_cap s) need;
             Ret (if grants cap then Some cap else None)
           else Ret (Some (k_cap s)));
  match grown with
  | None => Ret (Sink (k_buf s) (k_cap s) true, false)
  | Some cap => buf ← bput cap (k_buf s) b; Ret (Sink buf cap (k_failed s), true)
  end.

Fixpoint sink_blocks (s : sink) (bs : list (list Z)) : outcome (sink * bool) :=
  match bs with
  | [] => Ret (s, true)
  | b :: bs =>
      '(s, ok) ← sink_write s b;
      if ok : bool then sink_blocks s bs else Ret (s, false)
  end.

(** The loop over the entries: [true] when every header was written. *)
Fixpoint mtree_entries (fuel : nat) (w : W) (pkg ain out : Z) (s : sink) : outcome (W * sink * bool) :=
  match fuel with
  | O => NoFuel
  | S fuel =>
      let '(e, w) := alpm_pkg_mtree_next w pkg ain in
      match e with
      | None => Ret (w, s, true)
      | Some e =>
          let '(blocks, ok, w) := archive_write_header w out e in
          '(s, taken) ← sink_blocks s blocks;
          if ok && taken then mtree_entries fuel w pkg ain out s else Ret (w, s, false)
      end
  end.

Definition arpc_mtree_get (fuel : nat) (t : htab) (w : W) (rq : arpc_req) (rs : arpc_res)
  : outcome (W * arpc_req * arpc_res) :=
  '(rq, pkg) ← arpc_arg_handle t rq 0 ARPC_H_PKG;
  if rq_bad rq || (pkg =? 0) then
    Ret (w, rq, (arpc_fail rs ARPC_E_INVALID_PARAMS (Some (lit "arpc.mtree: bad arguments"))).1)
  else
    let '(ain, w) := alpm_pkg_mtree_open w pkg in
    if ain =? 0 then rs ← arpc_ret_null rs; Ret (w, rq, rs)
    else
      let '(out, w) := archive_write_new w in
      if out =? 0 then
        Ret (alpm_pkg_mtree_close w pkg ain, rq,
             (arpc_fail rs ARPC_E_INTERNAL (Some (lit "out of memory"))).1)
      else
        let w := archive_write_set_format_mtree w out in
        let '(ok, w) := archive_write_open w out in
        if negb ok then
          Ret (alpm_pkg_mtree_close (archive_write_free w out) pkg ain, rq,
               (arpc_fail rs ARPC_E_INTERNAL (Some (lit "cannot write mtree"))).1)
        else
          '(w, s, all) ← mtree_entries fuel w pkg ain out sink0;
          let '(blocks, w) := archive_write_close w out in
          '(s, _) ← sink_blocks s blocks;
          let w := alpm_pkg_mtree_close (archive_write_free w out) pkg ain in
          if negb all || k_failed s then
            Ret (w, rq, (arpc_fail rs ARPC_E_INTERNAL
                           (Some (lit "arpc.mtree: could not re-serialise the mtree"))).1)
          else
            rs ← arpc_ret_bytes rs (if k_cap s =? 0 then None else Some (k_buf s));
            Ret (w, rq, rs).
End Mtree.

(** ** The sink *)

Definition sink_inv (s : sink) : Prop :=
  k_len s <= k_cap s /\
  (k_cap s = 0 \/ exists i, (i <= 47)%nat /\ k_cap s = 8192 * 2 ^ Z.of_nat i).

Section Sink.
Context {A : Allocator}.

Lemma double_8192 i need :
  (i <= 47)%nat -> need <= 2 ^ 60 ->
  exists cap, double_until 65 (8192 * 2 ^ Z.of_nat i) need = Ret cap /\ need <= cap /\
    exists j, (j <= 47)%nat /\ cap = 8192 * 2 ^ Z.of_nat j.
Proof.
  intros Hi Hn. change 8192 with (2 ^ 13).
  destruct (double_until_spec (47 - i) 65 (2 ^ 13 * 2 ^ Z.of_nat i) need) as (cap & E & H1 & _ & _ & j & Hj & Ej).
  - rewrite <- Z.pow_add_r by lia. apply Z.pow_pos_nonneg; lia.
  - rewrite <- !Z.pow_add_r by lia. change 9223372036854775808 with (2 ^ 63). apply Z.pow_le_mono_r; lia.
  - rewrite <- !Z.pow_add_r by lia. etrans; [exact Hn|]. apply Z.pow_le_mono_r; lia.
  - lia.
  - exists cap. split_and!; [done|done|]. exists (i + j)%nat. split; [lia|].
    rewrite Ej, <- !Z.pow_add_r by lia. f_equal. lia.
Qed.

(** A block is taken whole or, the heap refusing, not at all. *)
Lemma sink_write_spec s b :
  sink_inv s -> k_len s + len b <= 2 ^ 60 ->
  exists s' ok, sink_write s b = Ret (s', ok) /\ sink_inv s' /\
    (if ok then k_buf s' = k_buf s ++ b /\ k_failed s' = k_failed s
     else k_buf s' = k_buf s /\ k_failed s' = true /\ ~ TotalAllocator A).
Proof.
  intros [Hl Hc] Hb. unfold sink_write. rewrite u64_small by (unfold k_len in *; lia).
  destruct (Z.ltb_spec (k_cap s) (k_len s + len b)) as [Hg|Hg]; cbn [mbind outcome_bind].
  2: { rewrite bput_ok by done. cbn [mbind outcome_bind]. eexists _, true. split; [reflexivity|].
       unfold sink_inv, k_len in *. cbn [k_buf k_cap]. rewrite length_app. split_and!; [lia|done|done|done]. }
  assert (exists i, (i <= 47)%nat /\ (if k_cap s =? 0 then 8192 else k_cap s) = 8192 * 2 ^ Z.of_nat i)
    as (i & Hi & ->).
  { destruct Hc as [-> | (i & Hi & ->)]; [exists 0%nat; split; [lia|done]|].
    destruct (Z.eqb_spec (8192 * 2 ^ Z.of_nat i) 0); [exists 0%nat; split; [lia|done]|by exists i]. }
  destruct (double_8192 i _ Hi Hb) as (cap & -> & Hcap & j & Hj & Ej). cbn [mbind outcome_bind].
  destruct (grants cap) eqn:Hgr.
  - rewrite bput_ok by done. cbn [mbind outcome_bind]. eexists _, true. split; [reflexivity|].
    unfold sink_inv, k_len in *. cbn [k_buf k_cap]. rewrite length_app. split_and!; [lia| |done|done].
    right. by exists j.
  - eexists _, false. split; [reflexivity|]. unfold sink_inv, k_len in *. cbn [k_buf k_cap k_failed].
    split_and!; try done. intros Ht. by rewrite Ht in Hgr.
Qed.

Lemma sink_blocks_spec bs : forall s,
  sink_inv s -> k_len s + len (concat bs) <= 2 ^ 60 ->
  exists s' ok, sink_blocks s bs = Ret (s', ok) /\ sink_inv s' /\
    (if ok then k_buf s' = k_buf s ++ concat bs /\ k_failed s' = k_failed s
     else k_failed s' = true /\ ~ TotalAllocator A).
Proof.
  induction bs as [|b bs IH]; intros s Hs Hl; cbn [sink_blocks concat] in *.
  - exists s, true. by rewrite app_nil_r.
  - rewrite length_app in Hl. destruct (sink_write_spec s b Hs) as (s1 & ok & -> & Hs1 & H1); [lia|].
    cbn [mbind outcome_bind]. destruct ok.
    + destruct H1 as [Hb Hf]. destruct (IH s1 Hs1) as (s2 & ok & -> & Hs2 & H2).
      { unfold k_len in *. rewrite Hb, length_app. lia. }
      exists s2, ok. split_and!; [done..|]. destruct ok; [|done]. destruct H2 as [-> ->].
      by rewrite Hb, <- app_assoc.
    + exists s1, false. by destruct H1 as (_ & ? & ?).
Qed.
End Sink.

(** ** The entries *)

Section Entries.
Context {A : Allocator} `{R : Archive W}.

(** From [w], the package has entries whose headers the writer makes these
    blocks of, all of them well; [w'] is where the reading ends. *)
Inductive mtree_blocks (pkg ain out : Z) : W -> list (list Z) -> W -> Prop :=
| mb_end w w' : alpm_pkg_mtree_next w pkg ain = (None, w') -> mtree_blocks pkg ain out w [] w'
| mb_entry w w1 w2 e bs bs' w' :
    alpm_pkg_mtree_next w pkg ain = (Some e, w1) ->
    archive_write_header w1 out e = (bs, true, w2) ->
    mtree_blocks pkg ain out w2 bs' w' -> mtree_blocks pkg ain out w (bs ++ bs') w'.

Lemma mtree_entries_spec `{!TotalAllocator A} pkg ain out w bs w' :
  mtree_blocks pkg ain out w bs w' -> forall s, sink_inv s -> k_len s + len (concat bs) <= 2 ^ 60 ->
  exists n, forall fuel, (n < fuel)%nat ->
    exists s', mtree_entries fuel w pkg ain out s = Ret (w', s', true) /\ sink_inv s' /\
      k_buf s' = k_buf s ++ concat bs /\ k_failed s' = k_failed s.
Proof.
  induction 1 as [w w' Hn|w w1 w2 e bs bs' w' Hn Hh Hm IH]; intros s Hs Hl.
  - exists 0%nat. intros [|fuel] Hf; [lia|]. cbn [mtree_entries]. rewrite Hn. exists s. by rewrite app_nil_r.
  - rewrite concat_app, length_app in Hl.
    destruct (sink_blocks_spec bs s Hs) as (s1 & ok & Eb & Hs1 & H1); [lia|].
    destruct ok; [|by destruct H1]. destruct H1 as [Hb Hfl].
    destruct (IH s1 Hs1) as [n Hfu].
    { unfold k_len in *. rewrite Hb, length_app. lia. }
    exists (S n). intros [|fuel] Hf; [lia|]. cbn [mtree_entries]. rewrite Hn, Hh, Eb. cbn [mbind outcome_bind andb].
    destruct (Hfu fuel) as (s' & -> & Hs' & Hb' & Hf'); [lia|]. exists s'.
    rewrite concat_app, app_assoc, <- Hb. split_and!; [done..|congruence].
Qed.
End Entries.

Lemma escs_le s : (length (escs s) <= 6 * length s)%nat.
Proof.
  induction s as [|c s IH]; [done|]. cbn. rewrite length_app. pose proof (esc_length c).
  unfold escs in IH. cbn in *. lia.
Qed.

Lemma open_ret_bytes b :
  is_bytes b -> len b <= 2 ^ 56 -> len (open_text [(ARPC_RET_KEY, jbytes (Some b))]) <= 2 ^ 61.
Proof.
  intros Hb Hl. unfold open_text. cbn [jbytes render_kids sep]. rewrite <- b64_text_spec by done.
  pose proof (b64_text_length b). pose proof (escs_le (b64_text b)).
  change (render (JStr ?s)) with ([34] ++ escs s ++ [34]).
  rewrite !length_app. cbn [length]. assert (len (b64_text b) <= 2 ^ 58) by (Z.to_euclidean_division_equations; lia).
  assert (len (render_key ARPC_RET_KEY) = 7) by done. lia.
Qed.

(** ** Properties *)

(** C37. For a package in the table with an mtree, what is returned is the
    base64 of exactly the bytes the mtree writer produced -- for the
    headers of all entries, in order, and on closing -- however they were
    cut in blocks, with the archives closed; and every loop ends. This is
    so as long as no memory is refused. *)
Theorem mtree_get_correct {A : Allocator} {T : Tags} `{R : Archive W} t w rq pj id pkg ain out w1 w2 w3 w4 bs w5 bs' w6 :
  TotalAllocator A -> reads (rq_doc rq) (rq_params rq) pj -> rq_bad rq = false ->
  arg_id_spec (t_elem pj 0) = (false, id) -> id <> 0 -> arpc_handle_get t id ARPC_H_PKG = Ret pkg -> pkg <> 0 ->
  alpm_pkg_mtree_open w pkg = (ain, w1) -> ain <> 0 ->
  archive_write_new w1 = (out, w2) -> out <> 0 ->
  archive_write_open (archive_write_set_format_mtree w2 out) out = (true, w3) ->
  mtree_blocks pkg ain out w3 bs w4 -> archive_write_close w4 out = (bs', w5) ->
  w6 = alpm_pkg_mtree_close (archive_write_free w5 out) pkg ain ->
  concat bs ++ concat bs' <> [] -> is_bytes (concat bs ++ concat bs') -> len (concat bs ++ concat bs') <= 2 ^ 56 ->
  exists n, forall fuel, (n < fuel)%nat ->
    exists rs, arpc_mtree_get fuel t w rq res0 = Ret (w6, rq, rs) /\
      res_holds rs [(ARPC_RET_KEY, jbytes (Some (concat bs ++ concat bs')))] /\ rs_failed rs = false.
Proof.
  intros Ht Hrd Hb Hid Hid0 Hget Hpkg Hop Hain Hnew Hout Hwo Hbl Hcl -> Hne Hby Hlen.
  rewrite length_app in Hlen.
  destruct (mtree_entries_spec pkg ain out w3 bs w4 Hbl sink0) as [n Hn];
    [split; [done|by left]|change (k_len sink0) with 0; lia|].
  exists n. intros fuel Hf. destruct (Hn fuel Hf) as (s & Es & Hs & Hbuf & Hfl).
  destruct (sink_blocks_spec bs' s Hs) as (s' & ok & Es' & Hs' & H').
  { unfold k_len. rewrite Hbuf. cbn [k_buf sink0 app]. lia. }
  destruct ok; [|by destruct H']. destruct H' as [Hbuf' Hfl']. rewrite Hbuf in Hbuf'. cbn in Hbuf'.
  assert (Hcap : k_cap s' <> 0).
  { destruct Hs' as [Hl _]. unfold k_len in Hl. rewrite Hbuf' in Hl. intros E. rewrite E in Hl.
    destruct (concat bs ++ concat bs'); [done|cbn in Hl; lia]. }
  unfold arpc_mtree_get, arpc_arg_handle. rewrite (arg_id_reads rq pj Hrd), Hid. cbn [mark mbind outcome_bind].
  rewrite (proj2 (Z.eqb_neq id 0) Hid0), Hget. cbn [mbind outcome_bind]. rewrite (proj2 (Z.eqb_neq pkg 0) Hpkg), Hb.
  cbn [orb]. rewrite Hop, (proj2 (Z.eqb_neq ain 0) Hain), Hnew, (proj2 (Z.eqb_neq out 0) Hout), Hwo. cbn [negb].
  rewrite Es. cbn [mbind outcome_bind]. rewrite Hcl, Es'. cbn [mbind outcome_bind].
  rewrite Hfl', Hfl. cbn [negb orb k_failed sink0]. rewrite (proj2 (Z.eqb_neq (k_cap s') 0) Hcap), Hbuf'.
  destruct (rstep_holds (C:=sample_cygwin) false res0 [] (RBytes (Some (concat bs ++ concat bs')))) as (rs & Ers & Hr & _ & Hrf).
  - by left.
  - split; [|done]. split; [done|]. rewrite length_app. by lia.
  - rewrite <- length_app in Hlen. by apply open_ret_bytes.
  - cbn [rstep] in Ers. rewrite Ers. cbn [mbind outcome_bind]. by exists rs.
Qed.

(** ** The property at work *)

(** A package with two entries, for each of which the writer hands over two
    blocks; the state is the number of entries left. *)
#[local] Instance toy_archive : Archive nat := {
  ARPC_H_PKG := 4;
  alpm_pkg_mtree_open w _ := (16, 2%nat);
  alpm_pkg_mtree_next w _ _ := match w with O => (None, w) | S n => (Some 1, n) end;
  alpm_pkg_mtree_close w _ _ := w;
  archive_write_new w := (32, w);
  archive_write_set_format_mtree w _ := w;
  archive_write_open w _ := (true, w);
  archive_write_header w _ _ := ([[97]; [0; 10]], true, w);
  archive_write_close w _ := ([[46]], w);
  archive_write_free w _ := w
}.

#[local] Instance toy_tags : Tags := {| ARPC_H_HANDLE := 3 |}.

Definition toy_tab : htab :=
  match arpc_handle_put (A:=ample) htab0 4096 4 0 with Ret (t, _) => t | _ => htab0 end.
Definition toy_req_text : list Z := qlit "[1]".
Definition toy_req : arpc_req :=
  ArpcReq (match aj_parse (A:=ample) toy_req_text with Ret d => d | _ => doc0 end) 0 false.

Lemma toy_req_reads : reads (rq_doc toy_req) (rq_params toy_req) (Some (JArr [JNum 1])).
Proof.
  assert (Hl : len toy_req_text <= ARPC_MAX_FRAME) by (by vm_compute).
  pose proof (aj_parse_sim (A:=ample) toy_req_text Hl) as H.
  assert (E : ref_parse toy_req_text = Ret (JArr [JNum 1])) by (by vm_compute).
  rewrite E in H. cbn [toy_req rq_doc rq_params]. destruct (aj_parse toy_req_text); by destruct H.
Defined.

Lemma mtree_get_correct_witness :
  exists n, forall fuel, (n < fuel)%nat ->
    exists rs, arpc_mtree_get (A:=ample) fuel toy_tab 0%nat toy_req res0 = Ret (0%nat, toy_req, rs) /\
      res_holds rs [(ARPC_RET_KEY, jbytes (Some [97; 0; 10; 97; 0; 10; 46]))] /\ rs_failed rs = false.
Proof.
  apply (mtree_get_correct (A:=ample) toy_tab 0%nat toy_req _ 1 4096 16 32 2%nat 2%nat 2%nat 0%nat
    ([[97]; [0; 10]] ++ [[97]; [0; 10]] ++ []) 0%nat [[46]] 0%nat _ toy_req_reads); try reflexivity; try lia; try done.
  - eapply mb_entry; [reflexivity|reflexivity|]. eapply mb_entry; [reflexivity|reflexivity|]. by apply mb_end.
  - repeat constructor; unfold is_byte; lia.
Defined.
