(* ===== verification/Dispatch.v ===== *)
(** * From a request to its reply: the dispatcher of src/server/arpc_server.c

    One request document in, one reply text out: the infrastructure methods,
    the lookup in the generated table, the call of the handler and the reply
    around its result.  The callbacks of src/server/arpc_callbacks.c that a
    handler may raise are here too; what they exchange frames with is the
    argument [xchg], closed in Connection.v.

    The generated code -- the method table, the names of the callbacks and
    their installers -- is the class [Generated]. *)

From S2P Require Import Prelude Json JsonWriter JsonReader JsonRef JsonArena JsonAccess Base64.
From S2P Require Import Wire CbRegistry HandleTable Paths Gpgdir Lookup Server Mtree.

(** ** The process *)

(** [sv_conn] is [g_conn]: [None] for NULL, else whether the pipe of the
    connection is a valid handle.  [sv_world] is the state of libalpm, gpgme
    and libarchive, [sv_pipe] the pipe of the connection. *)
Record server (W H : Type) := Server {
  sv_tab : htab;
  sv_regs : cbregs;
  sv_seq : Z;
  sv_conn : option bool;
  sv_win32 : bool;
  sv_shutdown : bool;
  sv_gpg : gpg;
  sv_world : W;
  sv_pipe : H
}.
Arguments Server {W H}.
Arguments sv_tab {W H}.
Arguments sv_regs {W H}.
Arguments sv_seq {W H}.
Arguments sv_conn {W H}.
Arguments sv_win32 {W H}.
Arguments sv_shutdown {W H}.
Arguments sv_gpg {W H}.
Arguments sv_world {W H}.
Arguments sv_pipe {W H}.

Section State.
Context {W H : Type}.
Implicit Types s : server W H.

Definition set_world s (w : W) : server W H :=
  Server (sv_tab s) (sv_regs s) (sv_seq s) (sv_conn s) (sv_win32 s) (sv_shutdown s) (sv_gpg s) w (sv_pipe s).
Definition set_pipe s (p : H) : server W H :=
  Server (sv_tab s) (sv_regs s) (sv_seq s) (sv_conn s) (sv_win32 s) (sv_shutdown s) (sv_gpg s) (sv_world s) p.
Definition set_regs s (r : cbregs) : server W H :=
  Server (sv_tab s) r (sv_seq s) (sv_conn s) (sv_win32 s) (sv_shutdown s) (sv_gpg s) (sv_world s) (sv_pipe s).
Definition set_seq s (q : Z) : server W H :=
  Server (sv_tab s) (sv_regs s) q (sv_conn s) (sv_win32 s) (sv_shutdown s) (sv_gpg s) (sv_world s) (sv_pipe s).
Definition arpc_cb_set_conn s (c : option bool) : server W H :=
  Server (sv_tab s) (sv_regs s) (sv_seq s) c (sv_win32 s) (sv_shutdown s) (sv_gpg s) (sv_world s) (sv_pipe s).
Definition arpc_paths_set s (win32 : bool) : server W H :=
  Server (sv_tab s) (sv_regs s) (sv_seq s) (sv_conn s) win32 (sv_shutdown s) (sv_gpg s) (sv_world s) (sv_pipe s).
Definition set_shutdown s : server W H :=
  Server (sv_tab s) (sv_regs s) (sv_seq s) (sv_conn s) (sv_win32 s) true (sv_gpg s) (sv_world s) (sv_pipe s).
Definition set_gpg s (g : gpg) : server W H :=
  Server (sv_tab s) (sv_regs s) (sv_seq s) (sv_conn s) (sv_win32 s) (sv_shutdown s) g (sv_world s) (sv_pipe s).

Definition arpc_shutdown_requested s : bool := sv_shutdown s.
End State.

(** [arpc_cb_send] as a handler's libalpm call reaches it. *)
Definition cb_sender (W H : Type) : Type :=
  Z -> Z -> option aj_w -> Z -> server W H -> outcome (server W H * Z).
(** [arpc_conn_exchange]: the answer, [None] when it returned 0. *)
Definition exchanger (W H : Type) : Type :=
  list Z -> server W H -> outcome (server W H * option (list Z)).
(** What [arpc_method.fn] is. *)
Definition handler (W H : Type) : Type :=
  cb_sender W H -> arpc_req -> arpc_res -> server W H -> outcome (server W H * arpc_req * arpc_res).

(** The generated files, and a bound on the entries of an mtree. *)
Class Generated (W H : Type) := {
  arpc_methods : list (list Z * handler W H);
  arpc_cb_kinds : list (list Z);
  cb_install : W -> Z -> Z -> Z -> Z -> Z * W;   (* kind, handle, enabled, ctx *)
  mtree_fuel : nat
}.

(** The conversion of a [long long] to [int]. *)
Definition int_of (z : Z) : Z := if u32 z <=? i32_max then u32 z else u32 z - 4294967296.

Section Dispatch.
Context {A : Allocator} {T : Tags} {W H : Type}
  {HP : Gpgme W} {R : Archive W} {GEN : Generated W H}.
Implicit Types s : server W H.

(** ** Callbacks *)

(** The frame of a callback. *)
Definition cb_frame (name : list Z) (seq handle : Z) (args : option aj_w) : outcome aj_w :=
  w ← ajw_obj_begin ajw_init;
  w ← ajw_key w (lit "cb"); w ← ajw_str w (Some name);
  w ← ajw_key w (lit "seq"); w ← ajw_i64 w seq;
  w ← ajw_key w (lit "handle"); w ← ajw_i64 w (i64_of_u64 handle);
  w ← ajw_key w (lit "args");
  w ← (match args with
       | Some a => if w_cap a =? 0 then ajw_null w else ajw_raw w (w_buf a)
       | None => ajw_null w
       end);
  ajw_obj_end w.

(** The value of an answer to the callback [seq]. *)
Definition cb_value (reply : list Z) (seq dflt : Z) : outcome Z :=
  match aj_parse (cstr reply) with
  | Ret d =>
      c ← aj_member d 0 (lit "cbseq");
      if aj_i64 d c (-1) =? seq then
        r ← aj_member d 0 ARPC_RET_KEY;
        Ret (aj_i64 d r dflt)
      else Ret dflt
  | Fail => Ret dflt
  | Undef => Undef
  | NoFuel => NoFuel
  end.

Definition arpc_cb_send (xchg : exchanger W H) : cb_sender W H := fun kind handle args dflt s =>
  match sv_conn s with
  | None => Ret (s, dflt)
  | Some _ =>
      let seq := sv_seq s in
      s ← (if seq =? i64_max then Undef else Ret (set_seq s (seq + 1)));
      name ← (if kind <? 0 then Undef
              else match arpc_cb_kinds !! Z.to_nat kind with Some n => Ret n | None => Undef end);
      w ← cb_frame name seq handle args;
      if w_err w then Ret (s, dflt)
      else
        '(s, reply) ← xchg (w_buf w) s;
        match reply with
        | None => Ret (s, dflt)
        | Some reply => r ← cb_value reply seq dflt; Ret (s, r)
        end
  end.

(** The last kind with the name, -1 if there is none. *)
Fixpoint find_kind (kinds : list (list Z)) (i kind : Z) (which : list Z) : Z :=
  match kinds with
  | [] => kind
  | k :: kinds => find_kind kinds (i + 1) (if streq k which then i else kind) which
  end.

Definition fail_req (rs : arpc_res) (code : Z) (msg : list Z) : arpc_res := (arpc_fail rs code (Some msg)).1.

Definition arpc_cb_set : handler W H := fun _ rq rs s =>
  '(rq, hid) ← arpc_arg_id rq 0;
  '(rq, h) ← arpc_arg_handle (sv_tab s) rq 0 ARPC_H_HANDLE;
  '(rq, which) ← arpc_arg_str rq 1;
  '(rq, en) ← arpc_arg_i64 rq 2;
  let enabled := int_of en in
  match which with
  | Some which =>
      if rq_bad rq then Ret (s, rq, fail_req rs ARPC_E_INVALID_PARAMS (lit "arpc.set_callback: bad arguments"))
      else
        let kind := find_kind arpc_cb_kinds 0 (-1) which in
        if kind <? 0
        then Ret (s, rq, fail_req rs ARPC_E_INVALID_PARAMS (lit "arpc.set_callback: unknown callback"))
        else
          match cb_register (sv_regs s) hid kind (negb (enabled =? 0)) with
          | None => Ret (s, rq, fail_req rs ARPC_E_INTERNAL (lit "out of memory"))
          | Some regs =>
              let s := set_regs s regs in
              let '(rc, w) := cb_install (sv_world s) kind h enabled hid in
              rs ← arpc_ret_i64 rs rc;
              Ret (set_world s w, rq, rs)
          end
  | None => Ret (s, rq, fail_req rs ARPC_E_INVALID_PARAMS (lit "arpc.set_callback: bad arguments"))
  end.

(** ** The other infrastructure methods *)

Definition arpc_set_path_style : handler W H := fun _ rq rs s =>
  '(rq, style) ← arpc_arg_str rq 0;
  let refuse := fail_req rs ARPC_E_INVALID_PARAMS (lit "arpc.set_path_style: win32 or posix") in
  match style with
  | Some style =>
      if rq_bad rq || (negb (streq style (lit "win32")) && negb (streq style (lit "posix")))
      then Ret (s, rq, refuse)
      else rs ← arpc_ret_i64 rs 0; Ret (arpc_paths_set s (streq style (lit "win32")), rq, rs)
  | None => Ret (s, rq, refuse)
  end.

Definition mtree_method : handler W H := fun _ rq rs s =>
  '(w, rq, rs) ← arpc_mtree_get mtree_fuel (sv_tab s) (sv_world s) rq rs; Ret (set_world s w, rq, rs).

Definition builtins : list (list Z * handler W H) :=
  [(lit "arpc.set_path_style", arpc_set_path_style);
   (lit "arpc.set_callback", arpc_cb_set);
   (lit "arpc.mtree", mtree_method)].

(** ** Dispatch *)

Definition method_cmp (key : list Z) (m : list Z * handler W H) : comparison := strcmp key m.1.

Fixpoint find_builtin (l : list (list Z * handler W H)) (method : list Z) : option (handler W H) :=
  match l with
  | [] => None
  | (name, fn) :: l => if streq name method then Some fn else find_builtin l method
  end.

Definition find_method (method : list Z) : outcome (option (handler W H)) :=
  match find_builtin builtins method with
  | Some fn => Ret (Some fn)
  | None =>
      i ← bsearch (method_cmp method) arpc_methods;
      match i with
      | None => Ret None
      | Some i => match arpc_methods !! i with Some (_, fn) => Ret (Some fn) | None => Undef end
      end
  end.

(** The handle a call is for, 0 for NULL. *)
Definition req_handle (t : htab) (rq : arpc_req) : outcome Z :=
  n ← aj_elem (rq_doc rq) (rq_params rq) 0;
  if n <? 0 then Ret 0
  else
    nd ← node_at (rq_doc rq) n;
    if negb (bool_decide (n_type nd = AJ_NUM)) then Ret 0
    else
      a ← arpc_ancestor t (u64 (n_num nd)) ARPC_H_HANDLE;
      arpc_handle_get t a ARPC_H_HANDLE.

Definition reply_shutdown (id : Z) : outcome (option (list Z)) :=
  w ← ajw_obj_begin ajw_init;
  w ← ajw_key w (lit "id"); w ← ajw_i64 w id;
  w ← ajw_key w (lit "result"); w ← ajw_obj_begin w;
  w ← ajw_key w ARPC_RET_KEY; w ← ajw_i64 w 0;
  w ← ajw_obj_end w;
  w ← ajw_obj_end w;
  Ret (finish w).

(** The reply around what the handler left. *)
Definition reply_result (id : Z) (rs : arpc_res) : outcome (option (list Z)) :=
  rs ← ensure_obj rs;
  rs ← (if rs_has_ret rs then Ret rs else arpc_ret_null rs);
  rs ← on_out rs ajw_obj_end;
  w ← ajw_obj_begin ajw_init;
  w ← ajw_key w (lit "id"); w ← ajw_i64 w id;
  '(w, _) ← ajw_reserve w (w_len (rs_out rs) + 2);
  w ← ajw_key w (lit "result");
  w ← ajw_raw w (w_buf (rs_out rs));
  w ← ajw_obj_end w;
  Ret (finish w).

Definition reply_of (id : Z) (rs : arpc_res) : outcome (option (list Z)) :=
  out ← (if rs_failed rs then reply_error id (rs_code rs) (rs_msg rs) else reply_result id rs);
  match out with
  | Some out => Ret (Some out)
  | None => reply_error id ARPC_E_INTERNAL (lit "out of memory")
  end.

Definition arpc_handle_parsed (xchg : exchanger W H) (d : aj_doc) (s : server W H)
  : outcome (server W H * option (list Z)) :=
  i ← aj_member d 0 (lit "id");
  let id := aj_i64 d i 0 in
  m ← aj_member d 0 (lit "method");
  params ← aj_member d 0 (lit "params");
  match aj_str d m with
  | None => r ← reply_error id ARPC_E_INVALID_REQ (lit "missing method"); Ret (s, r)
  | Some method =>
      if streq method (lit "arpc.shutdown") then
        r ← reply_shutdown id; Ret (set_shutdown s, r)
      else
        m ← find_method method;
        match m with
        | None =>
            r ← reply_error id ARPC_E_NO_METHOD (take 255 (lit "no such method: " ++ cstr method));
            Ret (s, r)
        | Some fn =>
            let rq := ArpcReq d params false in
            h ← req_handle (sv_tab s) rq;
            let '(w, g) := arpc_gpgdir_follow (sv_world s) (sv_gpg s) h in
            '(s, _, rs) ← fn (arpc_cb_send xchg) rq res0 (set_gpg (set_world s w) g);
            r ← reply_of id rs;
            Ret (s, r)
        end
  end.

Definition arpc_handle_frame (xchg : exchanger W H) (req : list Z) (s : server W H)
  : outcome (server W H * option (list Z)) :=
  match aj_parse req with
  | Ret d => arpc_handle_parsed xchg d s
  | Fail => r ← reply_error 0 ARPC_E_PARSE (lit "malformed JSON"); Ret (s, r)
  | Undef => Undef
  | NoFuel => NoFuel
  end.
End Dispatch.
