(* ===== verification/DispatchTheorems.v ===== *)
(** * What the dispatcher answers

    The replies as trees, and the theorems about src/server/arpc_server.c's
    dispatcher and the callbacks of src/server/arpc_callbacks.c. *)

From S2P Require Import Prelude Json JsonWriter JsonReader JsonRef JsonArena JsonAccess JsonBytes.
From S2P Require Import Base64 Wire CbRegistry HandleTable HandleSpec HandleTheorems Paths Gpgdir.
From S2P Require Import Lookup Server Mtree Dispatch.

(** ** The trees *)

Definition error_json (id code : Z) (msg : list Z) : json :=
  JObj [(lit "id", JNum id);
        (lit "error", JObj [(lit "code", JNum code); (lit "message", JStr (cstr msg))])].

Definition result_json (id : Z) (kids : list (list Z * json)) : json :=
  JObj [(lit "id", JNum id); (lit "result", JObj kids)].

Definition callback_json (name : list Z) (seq handle : Z) (args : json) : json :=
  JObj [(lit "cb", JStr (cstr name)); (lit "seq", JNum seq); (lit "handle", JNum (i64_of_u64 handle));
        (lit "args", args)].

Section Replies.
Context {A : Allocator}.

(** A document written by calls and finished: its text, or NULL, and never
    NULL over a heap that grants everything. *)
Lemma finish_run ops :
  Forall wop_ok ops -> wops_text false ops <> [] ->
  exists w, wrun ops ajw_init = Ret w /\
    (finish w = Some (wops_text false ops) \/ finish w = None) /\
    (TotalAllocator A -> len (wops_text false ops) + reserved ops <= 2 ^ 61 ->
       finish w = Some (wops_text false ops) /\ w_buf w = wops_text false ops /\ w_err w = false).
Proof.
  intros Hops Hne. destruct (wrun_spec ops ajw_init false Hops winv_init) as (w & E & Hw & Hb); [by intros _|].
  assert (Hfin : w_err w = false -> finish w = Some (wops_text false ops) /\ w_buf w = wops_text false ops).
  { intros He. destruct (Hb He) as [_ Hbuf]. rewrite app_nil_l in Hbuf. unfold finish. rewrite He. cbn [orb].
    destruct (Z.eqb_spec (w_cap w) 0) as [Hz|]; [|by rewrite Hbuf].
    exfalso. apply (winv_cap w Hw); [by rewrite Hbuf|done]. }
  exists w. split; [done|]. split.
  - destruct (w_err w) eqn:He; [right; unfold finish; by rewrite He|left; by apply Hfin].
  - intros Ht Hlen. destruct (wrun_total ops ajw_init false Hops winv_init) as (w' & E' & He); [done|by intros _| |].
    { change (w_len ajw_init) with 0. lia. }
    rewrite E in E'. injection E' as ->. by destruct (Hfin He).
Qed.

Definition error_ops (id code : Z) (msg : list Z) : list wop :=
  [OpOpen true; OpKey (lit "id"); OpI64 id; OpKey (lit "error"); OpOpen true; OpKey (lit "code"); OpI64 code;
   OpKey (lit "message"); OpStr (Some msg); OpClose true; OpClose true].

Definition shutdown_ops (id : Z) : list wop :=
  [OpOpen true; OpKey (lit "id"); OpI64 id; OpKey (lit "result"); OpOpen true; OpKey ARPC_RET_KEY; OpI64 0;
   OpClose true; OpClose true].

Definition result_ops (id : Z) (text : list Z) : list wop :=
  [OpOpen true; OpKey (lit "id"); OpI64 id; OpReserve (len text + 2); OpKey (lit "result"); OpRaw text; OpClose true].

Definition cb_ops (name : list Z) (seq handle : Z) (args : option (list Z)) : list wop :=
  [OpOpen true; OpKey (lit "cb"); OpStr (Some name); OpKey (lit "seq"); OpI64 seq;
   OpKey (lit "handle"); OpI64 (i64_of_u64 handle); OpKey (lit "args")] ++
  [match args with Some t => OpRaw t | None => OpNull end] ++ [OpClose true].

Ltac bind_cases :=
  repeat match goal with
  | |- (?m ≫= _) = _ => destruct m as [?| | |]; [cbn [mbind outcome_bind]|done..]
  end.

Lemma reply_error_run id code msg :
  reply_error id code msg = (w ← wrun (error_ops id code msg) ajw_init; Ret (finish w)).
Proof. unfold reply_error. cbn [wrun error_ops wstep]. bind_cases. done. Qed.

Lemma reply_shutdown_run id :
  reply_shutdown id = (w ← wrun (shutdown_ops id) ajw_init; Ret (finish w)).
Proof. unfold reply_shutdown. cbn [wrun shutdown_ops wstep]. bind_cases. done. Qed.

Lemma error_text id code msg : wops_text false (error_ops id code msg) = render (error_json id code msg).
Proof.
  unfold error_json, JObj. rewrite !render_cont. cbn [render_kids]. rewrite !render_cont. cbn [render_kids].
  cbn [error_ops wops_text wop_text fst snd]. unfold sep. by rewrite <- !app_assoc.
Qed.

Lemma shutdown_text id : wops_text false (shutdown_ops id) = render (result_json id [(ARPC_RET_KEY, JNum 0)]).
Proof.
  unfold result_json, JObj. rewrite !render_cont. cbn [render_kids]. rewrite !render_cont. cbn [render_kids].
  cbn [shutdown_ops wops_text wop_text fst snd]. unfold sep. by rewrite <- !app_assoc.
Qed.

Lemma result_text id kids : wops_text false (result_ops id (render (JObj kids))) = render (result_json id kids).
Proof.
  unfold result_json. rewrite (render_cont true [_; _]). cbn [render_kids].
  cbn [result_ops wops_text wop_text fst snd]. unfold sep. by rewrite <- !app_assoc.
Qed.

Lemma callback_text name seq handle args :
  wops_text false (cb_ops name seq handle (Some (render args))) = render (callback_json name seq handle args).
Proof.
  unfold callback_json, JObj. rewrite !render_cont. cbn [render_kids].
  cbn [cb_ops app wops_text wop_text fst snd]. unfold sep. by rewrite <- !app_assoc.
Qed.

Lemma render_num_length z : len (render_num z) <= 21.
Proof.
  unfold render_num. pose proof (digits_length 20 (Z.abs z)). rewrite length_app.
  destruct (z <? 0); cbn [length]; lia.
Qed.

Lemma render_jstr_length s : len (render (JStr (cstr s))) <= 6 * len s + 2.
Proof.
  cbn [render]. unfold render_str. rewrite !length_app. cbn [length].
  pose proof (escs_le (cstr s)). pose proof (cstr_length s). lia.
Qed.

Lemma render_obj_length kids : length (render (JObj kids)) = (2 + length (render_kids true false kids))%nat.
Proof. unfold JObj. rewrite render_cont, !length_app. cbn [length]. lia. Qed.

Lemma render_jnum_length z : len (render (JNum z)) <= 21.
Proof. apply render_num_length. Qed.

Lemma error_length id code msg : len (render (error_json id code msg)) <= 6 * len msg + 100.
Proof.
  unfold error_json. rewrite render_obj_length. cbn [render_kids sep].
  rewrite !length_app, render_obj_length. cbn [render_kids sep]. rewrite !length_app.
  pose proof (render_jnum_length id). pose proof (render_jnum_length code). pose proof (render_jstr_length msg).
  change (length (render_key (lit "id"))) with 5%nat. change (length (render_key (lit "error"))) with 8%nat.
  change (length (render_key (lit "code"))) with 7%nat. change (length (render_key (lit "message"))) with 10%nat.
  cbn [length]. lia.
Qed.

Lemma result_length id kids : len (render (result_json id kids)) <= len (render (JObj kids)) + 50.
Proof.
  unfold result_json. rewrite render_obj_length. cbn [render_kids sep]. rewrite !length_app.
  pose proof (render_jnum_length id). 
  change (length (render_key (lit "id"))) with 5%nat. change (length (render_key (lit "result"))) with 9%nat.
  cbn [length]. lia.
Qed.

(** An error reply is the error object, or NULL when the heap refuses. *)
Lemma reply_error_spec id code msg :
  i64_min <= id <= i64_max -> i64_min <= code <= i64_max -> is_bytes msg -> len msg <= 65536 ->
  exists r, reply_error id code msg = Ret r /\
    (r = Some (render (error_json id code msg)) \/ r = None) /\
    (TotalAllocator A -> r = Some (render (error_json id code msg))).
Proof.
  intros Hid Hc Hm Hl. rewrite reply_error_run.
  destruct (finish_run (error_ops id code msg)) as (w & -> & Hw & Ht).
  - repeat constructor; try done; cbn; try lia; by apply (bool_decide_unpack (is_bytes _)).
  - by rewrite error_text.
  - rewrite error_text in *. cbn [mbind outcome_bind]. exists (finish w). split_and!; [done..|].
    intros HA. apply Ht; [done|]. pose proof (error_length id code msg). cbn [reserved error_ops]. lia.
Qed.

Lemma reply_shutdown_spec id :
  i64_min <= id <= i64_max -> TotalAllocator A ->
  reply_shutdown id = Ret (Some (render (result_json id [(ARPC_RET_KEY, JNum 0)]))).
Proof.
  intros Hid HA. rewrite reply_shutdown_run.
  destruct (finish_run (shutdown_ops id)) as (w & -> & _ & Ht).
  - repeat constructor; try done; cbn; try lia; by apply (bool_decide_unpack (is_bytes _)).
  - by rewrite shutdown_text.
  - cbn [mbind outcome_bind]. f_equal. rewrite shutdown_text in Ht. apply Ht; [done|].
    pose proof (result_length id [(ARPC_RET_KEY, JNum 0)]). cbn [reserved shutdown_ops].
    change (len (render (JObj [(ARPC_RET_KEY, JNum 0)]))) with 10 in *. lia.
Qed.
End Replies.

(** The members of the result: a handler that returned nothing returns null. *)
Definition result_members (rs : arpc_res) (kids : list (list Z * json)) : list (list Z * json) :=
  kids ++ if rs_has_ret rs then [] else [(ARPC_RET_KEY, JNull)].

(** The reply of a handler that left [rs]: its error, or its members. *)
Definition reply_json (id : Z) (rs : arpc_res) (kids : list (list Z * json)) : json :=
  if rs_failed rs then error_json id (rs_code rs) (rs_msg rs) else result_json id (result_members rs kids).

(** A response a handler may leave. *)
Definition res_ok (rs : arpc_res) (kids : list (list Z * json)) : Prop :=
  if rs_failed rs
  then i64_min <= rs_code rs <= i64_max /\ is_bytes (rs_msg rs) /\ len (rs_msg rs) < 256
  else res_holds rs kids /\ len (render (JObj (result_members rs kids))) <= 2 ^ 59.

Section ReplyResult.
Context {A : Allocator} {HA : TotalAllocator A}.

Lemma open_text_close kids : open_text kids ++ [125] = render (JObj kids).
Proof. unfold open_text, JObj. by rewrite render_cont, <- app_assoc. Qed.

(** The handler's object, closed. *)
Lemma closed_result rs kids :
  res_holds rs kids -> len (render (JObj (result_members rs kids))) <= 2 ^ 59 ->
  exists w, (rs ← ensure_obj rs; rs ← (if rs_has_ret rs then Ret rs else arpc_ret_null rs); on_out rs ajw_obj_end) =
    Ret w /\ w_buf (rs_out w) = render (JObj (result_members rs kids)).
Proof.
  intros Hr Hlen. rewrite <- open_text_close, length_app in Hlen. cbn [length] in Hlen.
  destruct (ensure_obj_holds rs kids Hr) as (rs1 & -> & Hr1 & Hc1 & Hh1 & _). cbn [mbind outcome_bind].
  unfold result_members in *. rewrite <- Hh1 in *.
  destruct (null_ret_holds rs1 kids Hr1 Hc1) as (rs2 & -> & Hr2 & Hc2 & _); [lia|]. cbn [mbind outcome_bind].
  destruct Hr2 as [[Ho _]|(Hw & _ & He & Hb & Hcm)]; [by rewrite Ho in Hc2|].
  destruct (emits_total (ajw_obj_end (rs_out rs2)) (rs_out rs2) [125] true) as (w & E & _ & _ & Hbw & _).
  - eapply emits_wclose; [done|by intros _].
  - done.
  - unfold w_len. rewrite Hb. cbn [length]. lia.
  - unfold on_out. rewrite E. cbn [mbind outcome_bind]. eexists. split; [reflexivity|].
    cbn [rs_out set_out]. by rewrite Hbw, Hb, open_text_close.
Qed.

Lemma reply_result_run id rs :
  reply_result id rs =
    (rs ← (rs ← ensure_obj rs; rs ← (if rs_has_ret rs then Ret rs else arpc_ret_null rs); on_out rs ajw_obj_end);
     w ← wrun (result_ops id (w_buf (rs_out rs))) ajw_init; Ret (finish w)).
Proof.
  unfold reply_result. destruct (ensure_obj rs) as [rs1| | |]; [cbn [mbind outcome_bind]|done..].
  destruct (if rs_has_ret rs1 then Ret rs1 else arpc_ret_null rs1) as [rs2| | |]; [cbn [mbind outcome_bind]|done..].
  destruct (on_out rs2 ajw_obj_end) as [rs3| | |]; [cbn [mbind outcome_bind]|done..].
  cbn [wrun result_ops wstep]. change (ajw_obj_begin ajw_init) with (ajw_obj_begin ajw_init).
  destruct (ajw_obj_begin ajw_init) as [w| | |]; [cbn [mbind outcome_bind]|done..].
  destruct (ajw_key w (lit "id")) as [w1| | |]; [cbn [mbind outcome_bind]|done..].
  destruct (ajw_i64 w1 id) as [w2| | |]; [cbn [mbind outcome_bind]|done..].
  change (w_len (rs_out rs3)) with (len (w_buf (rs_out rs3))).
  destruct (ajw_reserve w2 _) as [[w3 ok]| | |]; [cbn [mbind outcome_bind]|done..].
  destruct (ajw_key w3 (lit "result")) as [w4| | |]; [cbn [mbind outcome_bind]|done..].
  destruct (ajw_raw w4 _) as [w5| | |]; [cbn [mbind outcome_bind]|done..].
  by destruct (ajw_obj_end w5).
Qed.

(** Whatever text the response holds is spliced in, valid or not. *)
Lemma splice_spec id text :
  i64_min <= id <= i64_max -> len text <= 2 ^ 59 ->
  (w ← wrun (result_ops id text) ajw_init; Ret (finish w)) = Ret (Some (wops_text false (result_ops id text))).
Proof.
  intros Hid Hl. destruct (finish_run (result_ops id text)) as (w & -> & _ & Hf).
  - repeat constructor; try done; cbn; try lia; by apply (bool_decide_unpack (is_bytes _)).
  - done.
  - cbn [mbind outcome_bind]. f_equal. apply Hf; [done|]. cbn [reserved result_ops wops_text wop_text fst snd].
    rewrite !length_app. cbn [length sep]. pose proof (render_num_length id).
    change (length (render_key (cstr (lit "id")))) with 5%nat.
    change (length (render_key (cstr (lit "result")))) with 9%nat. lia.
Qed.

Lemma reply_of_spec id rs kids :
  i64_min <= id <= i64_max -> res_ok rs kids -> reply_of id rs = Ret (Some (render (reply_json id rs kids))).
Proof.
  intros Hid. unfold res_ok, reply_of, reply_json. destruct (rs_failed rs).
  - intros (Hc & Hm & Hl). destruct (reply_error_spec id (rs_code rs) (rs_msg rs)) as (r & -> & _ & H); [done..|lia|].
    by rewrite H.
  - intros [Hr Hl]. rewrite reply_result_run. destruct (closed_result rs kids Hr Hl) as (rs' & -> & Hb).
    cbn [mbind outcome_bind]. rewrite Hb, splice_spec, result_text by done. done.
Qed.
End ReplyResult.

(** ** Requests, on trees *)

Definition req_id (j : json) : Z := t_i64 (t_member (Some j) (lit "id")) 0.
Definition req_method (j : json) : option (list Z) := t_str (t_member (Some j) (lit "method")).
Definition req_params (j : json) : option json := t_member (Some j) (lit "params").

Lemma t_member_in_range j key : in_range j -> match t_member (Some j) key with Some v => in_range v | None => True end.
Proof.
  destruct j as [| | | |[] kids]; try done. rewrite in_range_cont. intros Hk. cbn [t_member].
  induction Hk as [|[k v] kids [_ Hv] _ IH]; [done|]. cbn. by destruct (streq k key).
Qed.

Lemma req_id_range j : in_range j -> i64_min <= req_id j <= i64_max.
Proof.
  intros Hj. unfold req_id. pose proof (t_member_in_range j (lit "id") Hj) as Hm.
  destruct (t_member _ _) as [[|[]|z| |]|]; cbn in *; unfold i64_min, i64_max in *; lia.
Qed.

Lemma req_method_bytes j m : str_bytes j -> req_method j = Some m -> is_bytes m.
Proof.
  unfold req_method. intros Hj. pose proof (t_member_bytes (Some j) (lit "method") Hj) as Hm.
  destruct (t_member _ _) as [[]|]; cbn; try done. intros [= <-]. by apply cstr_bytes.
Qed.

Section Requests.
Context {A : Allocator} {T : Tags} {W H : Type}
  {HP : Gpgme W} {R : Archive W} {GEN : Generated W H}.
Context (xchg : exchanger W H) (s : server W H).

(** What the dispatcher makes of a document. *)
Lemma handle_parsed_reads d j :
  reads d 0 (Some j) ->
  exists params, reads d params (req_params j) /\
    arpc_handle_parsed xchg d s =
      match req_method j with
      | None => r ← reply_error (req_id j) ARPC_E_INVALID_REQ (lit "missing method"); Ret (s, r)
      | Some method =>
          if streq method (lit "arpc.shutdown") then r ← reply_shutdown (req_id j); Ret (set_shutdown s, r)
          else
            m ← find_method method;
            match m with
            | None =>
                r ← reply_error (req_id j) ARPC_E_NO_METHOD (take 255 (lit "no such method: " ++ cstr method));
                Ret (s, r)
            | Some fn =>
                let rq := ArpcReq d params false in
                h ← req_handle (sv_tab s) rq;
                let '(w, g) := arpc_gpgdir_follow (sv_world s) (sv_gpg s) h in
                '(s, _, rs) ← fn (arpc_cb_send xchg) rq res0 (set_gpg (set_world s w) g);
                r ← reply_of (req_id j) rs;
                Ret (s, r)
            end
      end.
Proof.
  intros Hd. unfold arpc_handle_parsed.
  destruct (aj_member_reads d 0 _ (lit "id") Hd) as (i & -> & Hi).
  destruct (aj_member_reads d 0 _ (lit "method") Hd) as (m & -> & Hm).
  destruct (aj_member_reads d 0 _ (lit "params") Hd) as (p & -> & Hp).
  cbn [mbind outcome_bind]. rewrite (aj_i64_reads _ _ _ _ Hi), (aj_str_reads _ _ _ Hm). by exists p.
Qed.

(** The handle of a request, from its first argument. *)
Lemma req_handle_reads t rq pj :
  reads (rq_doc rq) (rq_params rq) pj ->
  req_handle t rq =
    match t_elem pj 0 with
    | Some (JNum v) => a ← arpc_ancestor t (u64 v) ARPC_H_HANDLE; arpc_handle_get t a ARPC_H_HANDLE
    | _ => Ret 0
    end.
Proof.
  intros Hp. unfold req_handle. destruct (aj_elem_reads _ _ _ 0 Hp) as (n & -> & Hn). cbn [mbind outcome_bind].
  destruct (t_elem pj 0) as [j|]; [|by rewrite Hn]. pose proof Hn as [Hn0 _].
  destruct (Z.ltb_spec n 0); [lia|]. destruct (at_reads _ _ _ Hn) as (nd & Hat & Hnd).
  rewrite (at_node_at _ _ _ Hat).
  cbn [mbind outcome_bind]. destruct j as [|b|z|str|o kids]; cbn in Hnd; destruct_and?.
  3: { rewrite (bool_decide_true (n_type nd = AJ_NUM)) by congruence. cbn [negb]. by rewrite H2. }
  all: rewrite bool_decide_false by (try destruct o; congruence); done.
Qed.
End Requests.

(** ** Properties *)

Section Theorems.
Context {A : Allocator} {T : Tags} {W H : Type}
  {HP : Gpgme W} {R : Archive W} {GEN : Generated W H}.

(** What the generator promises of its table. *)
Definition methods_sorted : Prop := forall i j (x y : list Z * handler W H),
  (i < j)%nat -> arpc_methods !! i = Some x -> arpc_methods !! j = Some y -> strlt x.1 y.1.

Lemma find_builtin_spec (l : list (list Z * handler W H)) method :
  match find_builtin l method with
  | Some fn => exists name, (name, fn) ∈ l /\ cstr name = cstr method
  | None => forall x, x ∈ l -> cstr x.1 <> cstr method
  end.
Proof.
  induction l as [|[name fn] l IH]; cbn [find_builtin]; [by intros x Hx; inversion Hx|].
  unfold streq. case_bool_decide as Hn; [exists name; split; [by left|done]|].
  destruct (find_builtin l method) as [fn'|].
  - destruct IH as (name' & ? & ?). exists name'. split; [by right|done].
  - intros x Hx. apply elem_of_cons in Hx as [->|Hx]; [done|by apply IH].
Qed.

Lemma find_method_spec method :
  methods_sorted ->
  exists r, find_method method = Ret r /\
    match r with
    | Some fn =>
        (exists name, (name, fn) ∈ builtins /\ cstr name = cstr method) \/
        ((forall x, x ∈ builtins -> cstr x.1 <> cstr method) /\
         exists name, (name, fn) ∈ arpc_methods /\ cstr name = cstr method)
    | None => forall x, x ∈ builtins ++ arpc_methods -> cstr x.1 <> cstr method
    end.
Proof.
  intros Hs. unfold find_method. pose proof (find_builtin_spec builtins method) as Hb.
  destruct (find_builtin builtins method) as [fn|]; [exists (Some fn); split; [done|by left]|].
  destruct (bsearch_spec fst arpc_methods method Hs) as (r & E & Hr).
  change (bsearch (method_cmp method) arpc_methods) with (bsearch (fun x => strcmp method x.1) (@arpc_methods W H GEN)).
  rewrite E. cbn [mbind outcome_bind]. destruct r as [i|].
  - destruct Hr as ([name fn] & Hi & Hn). rewrite Hi. exists (Some fn). split; [done|]. right. split; [done|].
    exists name. split; [by eapply list_elem_of_lookup_2|done].
  - exists None. split; [done|]. intros x Hx. apply elem_of_app in Hx as [Hx|Hx]; [by apply Hb|].
    apply list_elem_of_lookup in Hx as [i Hi]. by apply (Hr i x).
Qed.

(** No method of this name, in the dispatcher or in the generated table. *)
Definition no_method (method : list Z) : Prop :=
  forall x, x ∈ builtins ++ @arpc_methods W H GEN -> cstr x.1 <> cstr method.

Lemma parse_reads `{!TotalAllocator A} text j :
  len text <= ARPC_MAX_FRAME -> ref_parse text = Ret j ->
  exists d, aj_parse text = Ret d /\ reads d 0 (Some j).
Proof.
  intros Hl E. pose proof (aj_parse_sim text Hl) as Hs. rewrite E in Hs.
  destruct (aj_parse text) as [d| | |]; [|done..]. exists d. by destruct Hs.
Qed.

Lemma parse_refused text : len text <= ARPC_MAX_FRAME -> ref_parse text = Fail -> aj_parse text = Fail.
Proof.
  intros Hl E. pose proof (aj_parse_sim text Hl) as Hs. rewrite E in Hs. by destruct (aj_parse text).
Qed.

(** The dispatcher finds a method by name: the infrastructure methods
    first, then the generated table, in which, sorted as the generator
    promises, the binary search finds the entry with the name exactly when
    there is one; no lookup leaves the table or runs on. *)
Theorem find_method_correct method :
  methods_sorted ->
  exists r, find_method method = Ret r /\
    match r with
    | Some fn =>
        (exists name, (name, fn) ∈ builtins /\ cstr name = cstr method) \/
        ((forall x, x ∈ builtins -> cstr x.1 <> cstr method) /\
         exists name, (name, fn) ∈ arpc_methods /\ cstr name = cstr method)
    | None => no_method method
    end.
Proof. apply find_method_spec. Qed.

(** C34. What is not a call is answered with an error that names it, and
    changes nothing: a text that is not JSON, with id 0; a request without
    a method; a method that does not exist, its name in the message, cut to
    the buffer; the last two with the id of the request. This is so as long
    as no memory is refused. *)
Theorem dispatch_refuses xchg text s :
  TotalAllocator A -> methods_sorted -> is_bytes text -> len text <= ARPC_MAX_FRAME ->
  (ref_parse text = Fail ->
     arpc_handle_frame xchg text s =
       Ret (s, Some (render (error_json 0 ARPC_E_PARSE (lit "malformed JSON"))))) /\
  (forall j, ref_parse text = Ret j -> req_method j = None ->
     arpc_handle_frame xchg text s =
       Ret (s, Some (render (error_json (req_id j) ARPC_E_INVALID_REQ (lit "missing method"))))) /\
  (forall j method, ref_parse text = Ret j -> req_method j = Some method ->
     method <> lit "arpc.shutdown" -> no_method method ->
     arpc_handle_frame xchg text s =
       Ret (s, Some (render (error_json (req_id j) ARPC_E_NO_METHOD
                               (take 255 (lit "no such method: " ++ method)))))).
Proof.
  intros HA Hs Hb Hl. unfold arpc_handle_frame. split_and!.
  - intros E. rewrite (parse_refused _ Hl E).
    destruct (reply_error_spec 0 ARPC_E_PARSE (lit "malformed JSON")) as (r & -> & _ & Hr);
      [done|done|by apply (bool_decide_unpack (is_bytes _))|done|]. by rewrite Hr.
  - intros j E Hm. destruct (parse_reads text j Hl E) as (d & -> & Hd).
    destruct (handle_parsed_reads xchg s d j Hd) as (p & _ & ->). rewrite Hm.
    apply ref_parse_fits in E as [_ Hj].
    destruct (reply_error_spec (req_id j) ARPC_E_INVALID_REQ (lit "missing method")) as (r & -> & _ & Hr);
      [by apply req_id_range|done|by apply (bool_decide_unpack (is_bytes _))|done|]. by rewrite Hr.
  - intros j method E Hm Hsh Hno. destruct (parse_reads text j Hl E) as (d & -> & Hd).
    destruct (handle_parsed_reads xchg s d j Hd) as (p & _ & ->). rewrite Hm.
    assert (Hc : cstr method = method).
    { unfold req_method in Hm. destruct (t_member _ _) as [[]|]; cbn in Hm; simplify_eq. apply cstr_idemp. }
    unfold streq at 1. rewrite Hc. rewrite bool_decide_false by done.
    destruct (find_method_spec method Hs) as (r & -> & Hr). cbn [mbind outcome_bind].
    destruct r as [fn|].
    { destruct Hr as [(name & Hin & Hn)|(_ & name & Hin & Hn)];
        destruct (Hno (name, fn)); try done; apply elem_of_app; auto. }
    pose proof (req_method_bytes j method (ref_parse_bytes _ _ Hb E) Hm) as Hmb.
    apply ref_parse_fits in E as [_ Hj].
    destruct (reply_error_spec (req_id j) ARPC_E_NO_METHOD (take 255 (lit "no such method: " ++ method)))
      as (r & -> & _ & Hr'); [by apply req_id_range|done| | |].
    + apply Forall_take, Forall_app. split; [by apply (bool_decide_unpack (is_bytes _))|done].
    + rewrite length_take. lia.
    + by rewrite Hr'.
Qed.

(** [arpc.shutdown] is answered at once, with the id of the request and
    a result of 0, and asks for the exit after the connection; nothing else
    changes. *)
Theorem dispatch_shutdown xchg text j s :
  TotalAllocator A -> len text <= ARPC_MAX_FRAME ->
  ref_parse text = Ret j -> req_method j = Some (lit "arpc.shutdown") ->
  arpc_handle_frame xchg text s =
    Ret (set_shutdown s, Some (render (result_json (req_id j) [(ARPC_RET_KEY, JNum 0)]))) /\
  arpc_shutdown_requested (set_shutdown s) = true.
Proof.
  intros HA Hl E Hm. split; [|done]. unfold arpc_handle_frame.
  destruct (parse_reads text j Hl E) as (d & -> & Hd).
  destruct (handle_parsed_reads xchg s d j Hd) as (p & _ & ->). rewrite Hm.
  change (streq (lit "arpc.shutdown") (lit "arpc.shutdown")) with true. cbn iota.
  apply ref_parse_fits in E as [_ Hj]. by rewrite reply_shutdown_spec by (done || by apply req_id_range).
Qed.

(** A method that is there is called, and its response is the reply. *)
Lemma handle_frame_calls xchg text j method fn s :
  TotalAllocator A -> len text <= ARPC_MAX_FRAME -> ref_parse text = Ret j ->
  req_method j = Some method -> method <> lit "arpc.shutdown" -> find_method method = Ret (Some fn) ->
  reachable (sv_tab s, sv_regs s) ->
  exists rq h, reads (rq_doc rq) (rq_params rq) (req_params j) /\ rq_bad rq = false /\
    match t_elem (req_params j) 0 with
    | Some (JNum v) => a ← arpc_ancestor (sv_tab s) (u64 v) ARPC_H_HANDLE; arpc_handle_get (sv_tab s) a ARPC_H_HANDLE
    | _ => Ret 0
    end = Ret h /\
    let '(w, g) := arpc_gpgdir_follow (sv_world s) (sv_gpg s) h in
    forall s' rq' rs kids,
      fn (arpc_cb_send xchg) rq res0 (set_gpg (set_world s w) g) = Ret (s', rq', rs) -> res_ok rs kids ->
      arpc_handle_frame xchg text s = Ret (s', Some (render (reply_json (req_id j) rs kids))).
Proof.
  intros HA Hl E Hm Hsh Hf Hre. unfold arpc_handle_frame.
  destruct (parse_reads text j Hl E) as (d & -> & Hd).
  destruct (handle_parsed_reads xchg s d j Hd) as (p & Hp & ->). rewrite Hm.
  assert (Hc : cstr method = method).
  { unfold req_method in Hm. destruct (t_member _ _) as [[]|]; cbn in Hm; simplify_eq. apply cstr_idemp. }
  unfold streq. rewrite Hc, bool_decide_false by done. rewrite Hf. cbn [mbind outcome_bind].
  pose proof (req_handle_reads (sv_tab s) (ArpcReq d p false) (req_params j) Hp) as Hh.
  assert (exists h, req_handle (sv_tab s) (ArpcReq d p false) = Ret h) as [h Eh].
  { rewrite Hh. destruct (reachable_repr _ _ Hre) as (a & Hr & _).
    destruct (t_elem _ 0) as [[| |v| |]|]; try by eexists. unfold arpc_ancestor.
    rewrite (ancestor_refines _ _ Hr). cbn [mbind outcome_bind]. rewrite (get_refines _ _ Hr). by eexists. }
  exists (ArpcReq d p false), h. split; [done|]. split; [done|]. split; [by rewrite <- Hh|].
  rewrite Eh. cbn [mbind outcome_bind]. destruct (arpc_gpgdir_follow _ _ h) as [w g].
  intros s' rq' rs kids Efn Hrs. rewrite Efn. cbn [mbind outcome_bind].
  apply ref_parse_fits in E as [_ Hj]. by rewrite (reply_of_spec _ _ kids) by (done || by apply req_id_range).
Qed.

(** C6. A call: the handler found for the method runs once, on the request's
    own parameters and an empty response, after gpgme has been pointed at
    the directory of the handle its first argument is under; and the reply
    is the canonical text of the id of the request with what the handler
    left: its error, or its members, null for a handler that returned
    nothing. This is so as long as no memory is refused. *)
Theorem dispatch_calls xchg text j method fn s :
  TotalAllocator A -> len text <= ARPC_MAX_FRAME -> ref_parse text = Ret j ->
  req_method j = Some method -> method <> lit "arpc.shutdown" -> find_method method = Ret (Some fn) ->
  reachable (sv_tab s, sv_regs s) ->
  exists rq h, reads (rq_doc rq) (rq_params rq) (req_params j) /\ rq_bad rq = false /\
    match t_elem (req_params j) 0 with
    | Some (JNum v) => a ← arpc_ancestor (sv_tab s) (u64 v) ARPC_H_HANDLE; arpc_handle_get (sv_tab s) a ARPC_H_HANDLE
    | _ => Ret 0
    end = Ret h /\
    let '(w, g) := arpc_gpgdir_follow (sv_world s) (sv_gpg s) h in
    forall s' rq' rs kids,
      fn (arpc_cb_send xchg) rq res0 (set_gpg (set_world s w) g) = Ret (s', rq', rs) -> res_ok rs kids ->
      arpc_handle_frame xchg text s = Ret (s', Some (render (reply_json (req_id j) rs kids))).
Proof. intros. by apply (handle_frame_calls xchg text j method). Qed.

(** A reply of success around a text that nobody looked at. *)
Definition spliced_reply (id : Z) (text : list Z) : list Z :=
  qlit "{`id`:" ++ render (JNum id) ++ qlit ",`result`:" ++ text ++ qlit "}".

(** C40. The dispatcher does not look whether the handler's own writer ran
    out of memory: a handler that left a response whose writer failed --
    its text cut off wherever the heap refused -- and no error of its own
    has that text spliced, unclosed, into a reply of success. *)
Theorem dispatch_splices_failed_text id rs :
  TotalAllocator A -> i64_min <= id <= i64_max -> rs_failed rs = false -> rs_has_ret rs = true ->
  w_err (rs_out rs) = true -> w_cap (rs_out rs) <> 0 -> len (w_buf (rs_out rs)) <= 2 ^ 59 ->
  reply_of id rs = Ret (Some (spliced_reply id (w_buf (rs_out rs)))).
Proof.
  intros HA Hid Hf Hr He Hc Hl. unfold reply_of. rewrite Hf, reply_result_run. unfold ensure_obj.
  rewrite (proj2 (Z.eqb_neq _ 0) Hc). cbn [mbind outcome_bind]. rewrite Hr. cbn [mbind outcome_bind].
  unfold on_out, ajw_obj_end, wclose, wgrow. rewrite He. cbn [mbind outcome_bind rs_out set_out].
  by rewrite splice_spec.
Qed.
End Theorems.

(** ** The properties at work *)

(** A libalpm, gpgme and libarchive with nothing in them, and three methods:
    one answers, one fails, one runs out of memory and does not say so. *)
Section Toy.
#[local] Instance toy_tags : Tags := {| ARPC_H_HANDLE := 3 |}.

#[local] Instance unit_gpgme : Gpgme unit := {
  alpm_errno_ok _ _ := true;
  alpm_option_get_gpgdir _ _ := (None, tt);
  gpgme_check_version w := w;
  gpgme_set_engine_info w _ := (true, w)
}.

#[local] Instance unit_archive : Archive unit := {
  ARPC_H_PKG := 4;
  alpm_pkg_mtree_open w _ := (0, w);
  alpm_pkg_mtree_next w _ _ := (None, w);
  alpm_pkg_mtree_close w _ _ := w;
  archive_write_new w := (0, w);
  archive_write_set_format_mtree w _ := w;
  archive_write_open w _ := (false, w);
  archive_write_header w _ _ := ([], false, w);
  archive_write_close w _ := ([], w);
  archive_write_free w _ := w
}.

Definition toy_answers : handler unit unit := fun _ rq rs s =>
  rs ← arpc_ret_str (A:=ample) rs (Some (lit "ok")); Ret (s, rq, rs).
Definition toy_fails : handler unit unit := fun _ rq rs s =>
  Ret (s, rq, (arpc_fail rs (-1) None).1).

(** A heap with no block of 1024 bytes. *)
Definition no_kilobyte : Allocator := {| grants := fun n => negb (n =? 1024) |}.
Definition toy_exhausted (rs : arpc_res) : outcome arpc_res :=
  rs ← arpc_ret_str (A:=no_kilobyte) rs (Some (replicate 300 97));
  rrun (A:=no_kilobyte) (C:=sample_cygwin) false rs [OJson (lit "more") (JStr (replicate 300 98))].

#[local] Instance toy_generated : Generated unit unit := {
  arpc_methods := [(lit "alpm_a", toy_answers); (lit "alpm_b", toy_fails)];
  arpc_cb_kinds := [lit "log"];
  cb_install w _ _ _ _ := (0, w);
  mtree_fuel := 1%nat
}.

Definition toy_server : server unit unit :=
  Server htab0 [] 1 (Some true) false false gpg0 tt tt.
Definition no_peer : exchanger unit unit := fun _ s => Ret (s, None).

Lemma toy_sorted : methods_sorted (W:=unit) (H:=unit).
Proof.
  intros [|[|i]] [|[|j]] x y Hij Hx Hy; try lia; cbn in Hx, Hy; try done.
  simplify_eq. by vm_compute.
Defined.

Lemma find_method_correct_witness :
  exists r, find_method (A:=ample) (W:=unit) (H:=unit) (lit "alpm_b") = Ret r.
Proof.
  destruct (find_method_correct (A:=ample) (W:=unit) (H:=unit) (lit "alpm_b") toy_sorted) as (r & E & _).
  by exists r.
Defined.

Lemma dispatch_refuses_witness :
  arpc_handle_frame (A:=ample) no_peer (qlit "{`id`:7,`method`:`nope`}") toy_server =
    Ret (toy_server, Some (render (error_json 7 ARPC_E_NO_METHOD (lit "no such method: nope")))).
Proof.
  refine (proj2 (proj2 (dispatch_refuses (A:=ample) no_peer (qlit "{`id`:7,`method`:`nope`}") toy_server _ toy_sorted _ _))
    (JObj [(lit "id", JNum 7); (lit "method", JStr (lit "nope"))]) (lit "nope") _ _ _ _).
  - by apply (bool_decide_unpack (is_bytes _)).
  - by vm_compute.
  - by vm_compute.
  - by vm_compute.
  - done.
  - intros x Hx. repeat (apply elem_of_cons in Hx as [->|Hx]; [done|]). inversion Hx.
Defined.

Lemma dispatch_shutdown_witness :
  arpc_handle_frame (A:=ample) no_peer (qlit "{`id`:1,`method`:`arpc.shutdown`,`params`:[]}") toy_server =
    Ret (set_shutdown toy_server, Some (qlit "{`id`:1,`result`:{`@ret`:0}}")).
Proof.
  refine (proj1 (dispatch_shutdown (A:=ample) no_peer _
    (JObj [(lit "id", JNum 1); (lit "method", JStr (lit "arpc.shutdown")); (lit "params", JArr [])]) toy_server _ _ _ _));
    by vm_compute.
Defined.

Lemma dispatch_calls_witness :
  exists s' r, arpc_handle_frame (A:=ample) no_peer (qlit "{`id`:5,`method`:`alpm_a`,`params`:[0]}") toy_server =
    Ret (s', Some r) /\ r = qlit "{`id`:5,`result`:{`@ret`:`ok`}}".
Proof.
  destruct (dispatch_calls (A:=ample) no_peer (qlit "{`id`:5,`method`:`alpm_a`,`params`:[0]}")
    (JObj [(lit "id", JNum 5); (lit "method", JStr (lit "alpm_a")); (lit "params", JArr [JNum 0])])
    (lit "alpm_a") toy_answers toy_server) as (rq & h & _ & _ & Hh & Hcall).
  - exact _.
  - by vm_compute.
  - by vm_compute.
  - by vm_compute.
  - done.
  - reflexivity.
  - exists [], []. split_and!; [constructor|done|reflexivity].
  - vm_compute in Hh. injection Hh as <-. eexists _, _. split.
    + eapply (Hcall _ _ _ [(ARPC_RET_KEY, JStr (lit "ok"))]); [vm_compute; reflexivity|].
      split; [|by vm_compute]. right. split_and!; [|done..]. right. split; [done|]. exists 8%nat. split; [lia|done].
    + by vm_compute.
Defined.

Lemma dispatch_splices_failed_text_witness :
  exists rs text, toy_exhausted res0 = Ret rs /\ reply_of (A:=ample) 1 rs = Ret (Some text) /\
    aj_parse (A:=ample) text = Fail.
Proof.
  eexists _, _. split; [vm_compute; reflexivity|]. split.
  - apply (dispatch_splices_failed_text (A:=ample) 1); [exact _|done|reflexivity|reflexivity|reflexivity|done|by vm_compute].
  - vm_compute. reflexivity.
Defined.
End Toy.
