(* ===== verification/Connection.v ===== *)
(** * A connection, served: src/server/main.c and the pipe under the callbacks

    [arpc_conn_exchange] sends a callback and serves whatever requests arrive
    until the answer does; a request served there may itself raise a callback.
    The recursion is closed here with fuel: every frame received costs one,
    and a frame takes at least four bytes off the pipe, so more fuel than
    there are bytes to come is enough. *)

From S2P Require Import Prelude Json JsonWriter JsonReader JsonAccess Base64 Wire CbRegistry.
From S2P Require Import HandleTable Paths Gpgdir Lookup Server Mtree Dispatch.

Section Connection.
Context {A : Allocator} {T : Tags} {W H : Type}
  {HP : Gpgme W} {R : Archive W} {GEN : Generated W H} {HO : HandleOps H}.
Implicit Types s : server W H.

(** [send_framed]: whether it was sent; the pipe is overlapped. *)
Definition send_framed (text : list Z) s : outcome (server W H * bool) :=
  match arpc_send_frame true (sv_pipe s) text with
  | (Ret _, p) => Ret (set_pipe s p, true)
  | (Fail, p) => Ret (set_pipe s p, false)
  | (Undef, _) => Undef
  | (NoFuel, _) => NoFuel
  end.

(** [recv_framed]: the frame, [None] for NULL. *)
Definition recv_framed s : outcome (server W H * option (list Z)) :=
  match arpc_recv_frame true (sv_pipe s) with
  | (Ret (buf, _), _, p) => Ret (set_pipe s p, Some buf)
  | (Fail, _, p) => Ret (set_pipe s p, None)
  | (Undef, _, _) => Undef
  | (NoFuel, _, _) => NoFuel
  end.

(** What [arpc_conn_exchange] does before its loop. *)
Definition conn_exchange (loop : server W H -> outcome (server W H * option (list Z))) : exchanger W H :=
  fun frame s =>
    if negb (bool_decide (sv_conn s = Some true)) then Ret (s, None)
    else
      '(s, sent) ← send_framed frame s;
      if sent : bool then loop s else Ret (s, None).

(** The request a frame is, if it is one: a text that parses and has a
    method. *)
Definition as_request (f : list Z) : outcome (option aj_doc) :=
  match aj_parse (cstr f) with
  | Ret d => m ← aj_member d 0 (lit "method"); Ret (if m <? 0 then None else Some d)
  | Fail => Ret None
  | Undef => Undef
  | NoFuel => NoFuel
  end.

(** The loop of [arpc_conn_exchange]: requests are served, anything else is
    the answer. *)
Fixpoint exchange_loop (fuel : nat) s : outcome (server W H * option (list Z)) :=
  match fuel with
  | O => NoFuel
  | S fuel =>
      '(s, f) ← recv_framed s;
      match f with
      | None => Ret (s, None)
      | Some f =>
          req ← as_request f;
          match req with
          | None => Ret (s, Some f)
          | Some d =>
              '(s, rsp) ← arpc_handle_parsed (conn_exchange (exchange_loop fuel)) d s;
              match rsp with
              | None => Ret (s, None)
              | Some rsp =>
                  '(s, sent) ← send_framed (cstr rsp) s;
                  if sent : bool then exchange_loop fuel s else Ret (s, None)
              end
          end
      end
  end.

Definition arpc_conn_exchange (fuel : nat) : exchanger W H := conn_exchange (exchange_loop fuel).

(** The loop of [serve_connection]. *)
Fixpoint serve_loop (fuel : nat) s : outcome (server W H) :=
  match fuel with
  | O => NoFuel
  | S fuel =>
      '(s, req) ← recv_framed s;
      match req with
      | None => Ret s
      | Some req =>
          '(s, rsp) ← arpc_handle_frame (arpc_conn_exchange fuel) (cstr req) s;
          match rsp with
          | None => Ret s
          | Some rsp =>
              '(s, ok) ← send_framed (cstr rsp) s;
              if ok : bool then serve_loop fuel s else Ret s
          end
      end
  end.

Definition serve_connection (fuel : nat) (pipe : H) s : outcome (server W H) :=
  let s := arpc_paths_set (arpc_cb_set_conn (set_pipe s pipe) (Some true)) false in
  s ← serve_loop fuel s;
  Ret (arpc_cb_set_conn s None).
End Connection.
