(* ===== verification/ConnectionTheorems.v ===== *)
(** * Callbacks and nested requests: the theorems

    What a callback sends and which answer it takes, the order in which
    requests that arrive meanwhile are served, and that every loop of a
    connection ends. *)

From S2P Require Import Prelude Json JsonWriter JsonReader JsonRef JsonArena JsonAccess Base64.
From S2P Require Import Wire CbRegistry HandleTable HandleSpec Paths Gpgdir Lookup Server.
From S2P Require Import Mtree Dispatch DispatchTheorems Connection.

(** ** The answer to a callback *)

(** What a callback makes of a reply: the value under the return key if the
    reply is the answer to this very callback, else the default. *)
Definition answer_value (reply : list Z) (seq dflt : Z) : Z :=
  match ref_parse (cstr reply) with
  | Ret a => if t_i64 (t_member (Some a) (lit "cbseq")) (-1) =? seq
             then t_i64 (t_member (Some a) ARPC_RET_KEY) dflt else dflt
  | _ => dflt
  end.

Section Callbacks.
Context {A : Allocator} {HA : TotalAllocator A}.

Lemma cb_value_spec reply seq dflt :
  len reply <= ARPC_MAX_FRAME -> cb_value reply seq dflt = Ret (answer_value reply seq dflt).
Proof.
  intros Hl. pose proof (cstr_length reply) as Hc. unfold cb_value, answer_value.
  pose proof (aj_parse_sim (cstr reply) ltac:(lia)) as Hs. pose proof (ref_parse_defined (cstr reply)) as [Hu Hf].
  destruct (ref_parse (cstr reply)) as [a| | |]; [|by destruct (aj_parse (cstr reply))|done..].
  destruct (aj_parse (cstr reply)) as [d| | |]; [|done..]. destruct Hs as [Hd _].
  destruct (aj_member_reads d 0 _ (lit "cbseq") Hd) as (c & -> & Hcs). cbn [mbind outcome_bind].
  rewrite (aj_i64_reads _ _ _ _ Hcs). destruct (_ =? seq); [|done].
  destruct (aj_member_reads d 0 _ ARPC_RET_KEY Hd) as (r & -> & Hr). cbn [mbind outcome_bind].
  by rewrite (aj_i64_reads _ _ _ _ Hr).
Qed.

Lemma cb_frame_spec name seq handle a args :
  is_bytes name -> len name <= 2 ^ 40 -> i64_min <= seq <= i64_max -> 0 <= handle < 18446744073709551616 ->
  w_cap a <> 0 -> w_buf a = render args -> len (render args) <= 2 ^ 59 ->
  exists w, cb_frame name seq handle (Some a) = Ret w /\ w_err w = false /\
    w_buf w = render (callback_json name seq handle args).
Proof.
  intros Hn Hnl Hs Hh Hc Hb Hl.
  assert (E : cb_frame name seq handle (Some a) = wrun (cb_ops name seq handle (Some (w_buf a))) ajw_init).
  { unfold cb_frame. rewrite (proj2 (Z.eqb_neq _ 0) Hc). cbn [wrun cb_ops app wstep].
    repeat match goal with
    | |- (?m ≫= _) = _ => destruct m as [?| | |]; [cbn [mbind outcome_bind]|done..]
    end. by destruct (ajw_obj_end _). }
  rewrite E, Hb. pose proof (i64_of_u64_range handle Hh) as Hi.
  destruct (finish_run (cb_ops name seq handle (Some (render args)))) as (w & -> & _ & Ht).
  - repeat constructor; try done; cbn; try lia; by apply (bool_decide_unpack (is_bytes _)).
  - by rewrite callback_text.
  - exists w. split; [done|]. rewrite callback_text in Ht. destruct Ht as (_ & Hbw & He); [done| |by split].
    unfold callback_json. rewrite render_obj_length. cbn [render_kids sep]. rewrite !length_app.
    pose proof (render_jstr_length name). pose proof (render_jnum_length seq).
    pose proof (render_jnum_length (i64_of_u64 handle)).
    change (length (render_key (lit "cb"))) with 5%nat. change (length (render_key (lit "seq"))) with 6%nat.
    change (length (render_key (lit "handle"))) with 9%nat. change (length (render_key (lit "args"))) with 7%nat.
    cbn [length reserved cb_ops app]. lia.
Qed.
End Callbacks.

(** ** Requests served meanwhile *)

Section Nested.
Context {A : Allocator} {T : Tags} {W H : Type}
  {HP : Gpgme W} {R : Archive W} {GEN : Generated W H} `{HH : Handle H}.
Implicit Types s : server W H.

(** These requests, each handled without touching the pipe, have these
    replies, the state after one being the state before the next. *)
Inductive served : server W H -> list (list Z) -> list (list Z) -> server W H -> Prop :=
| served_nil s : served s [] [] s
| served_cons s r d rsp s1 reqs rsps s2 :
    as_request r = Ret (Some d) ->
    (forall x p, arpc_handle_parsed x d (set_pipe s p) = Ret (set_pipe s1 p, Some rsp)) ->
    no_nul rsp -> len rsp < 4294967296 ->
    served s1 reqs rsps s2 -> served s (r :: reqs) (rsp :: rsps) s2.

Lemma exchange_loop_served `{!Connected H} {HA : TotalAllocator A} s reqs rsps s2 :
  served s reqs rsps s2 -> forall fuel p ans rest,
  Forall (fun r => 0 < len r <= ARPC_MAX_FRAME) (reqs ++ [ans]) -> as_request ans = Ret None ->
  incoming p = concat (frame <$> reqs) ++ frame ans ++ rest -> (length reqs < fuel)%nat ->
  exists p', exchange_loop fuel (set_pipe s p) = Ret (set_pipe s2 p', Some ans) /\
    incoming p' = rest /\ outgoing p' = outgoing p ++ concat (frame <$> rsps).
Proof.
  induction 1 as [s|s r d rsp s1 reqs rsps s2 Hreq Hh Hnn Hlr Hs IH]; intros fuel p ans rest Hlen Hans Hin Hf;
    (destruct fuel as [|fuel]; [lia|]); cbn [exchange_loop].
  - apply Forall_cons in Hlen as [Hla _]. cbn [fmap list_fmap concat app] in Hin.
    destruct (recv_connected true p ans rest Hla Hin) as (p' & E & Hi & Ho).
    unfold recv_framed. cbn [sv_pipe set_pipe]. rewrite E. cbn [mbind outcome_bind]. rewrite Hans.
    cbn [mbind outcome_bind]. exists p'. split_and!; [done|done|]. by rewrite app_nil_r.
  - cbn [app] in Hlen. apply Forall_cons in Hlen as [Hl1 Hlen]. cbn [fmap list_fmap concat length] in *.
    rewrite <- app_assoc in Hin. destruct (recv_connected true p r _ Hl1 Hin) as (p1 & E & Hi & Ho).
    unfold recv_framed. cbn [sv_pipe set_pipe]. rewrite E. cbn [mbind outcome_bind]. rewrite Hreq.
    cbn [mbind outcome_bind]. change (set_pipe (set_pipe s p) p1) with (set_pipe s p1). rewrite Hh.
    cbn [mbind outcome_bind]. rewrite (cstr_no_nul rsp) by done. unfold send_framed. cbn [sv_pipe set_pipe].
    destruct (send_connected true p1 rsp Hlr) as (p2 & -> & Ho2 & Hi2). cbn [mbind outcome_bind].
    change (set_pipe (set_pipe s1 p1) p2) with (set_pipe s1 p2).
    destruct (IH fuel p2 ans rest) as (p' & E' & Hi' & Ho'); [done|done|congruence|lia|].
    exists p'. split_and!; [done|done|]. by rewrite Ho', Ho2, Ho, <- app_assoc.
Qed.
End Nested.

(** ** Properties *)

Section Theorems.
Context {A : Allocator} {T : Tags} {W H : Type}
  {HP : Gpgme W} {R : Archive W} {GEN : Generated W H}.

(** What a callback sends over a connection, and what it makes of the reply. *)
Lemma cb_send_run `{!TotalAllocator A} (xchg : exchanger W H) kind name handle a args dflt s :
  arpc_cb_kinds !! Z.to_nat kind = Some name -> 0 <= kind ->
  is_bytes name -> len name <= 2 ^ 40 -> 0 <= sv_seq s < i64_max -> 0 <= handle < 18446744073709551616 ->
  w_cap a <> 0 -> w_buf a = render args -> len (render args) <= 2 ^ 59 -> sv_conn s <> None ->
  arpc_cb_send xchg kind handle (Some a) dflt s =
    ('(s', reply) ← xchg (render (callback_json name (sv_seq s) handle args)) (set_seq s (sv_seq s + 1));
     match reply with
     | None => Ret (s', dflt)
     | Some reply => r ← cb_value reply (sv_seq s) dflt; Ret (s', r)
     end).
Proof.
  intros Hk Hk0 Hn Hnl Hs Hh Hc Hb Hl Hconn. unfold arpc_cb_send.
  destruct (sv_conn s) as [c|]; [|done]. cbn zeta. unfold i64_max in *.
  destruct (Z.eqb_spec (sv_seq s) 9223372036854775807); [lia|]. cbn [mbind outcome_bind].
  destruct (Z.ltb_spec kind 0); [lia|]. rewrite Hk. cbn [mbind outcome_bind].
  destruct (cb_frame_spec name (sv_seq s) handle a args) as (w & -> & He & Hw); try done.
  { unfold i64_min, i64_max. lia. }
  cbn [mbind outcome_bind]. by rewrite He, Hw.
Qed.

(** A callback: with no connection nothing is sent and the default is
    returned; with one, the frame is the canonical text of the callback --
    its name, the next sequence number, the handle and the arguments -- and
    the value is what the answer returns, provided that the answer names
    this callback's sequence number; a connection that is gone, an answer
    that is not JSON or one to another callback give the default. *)
Theorem cb_send_correct (xchg : exchanger W H) kind name handle a args dflt s :
  TotalAllocator A -> arpc_cb_kinds !! Z.to_nat kind = Some name -> 0 <= kind ->
  is_bytes name -> len name <= 2 ^ 40 -> 0 <= sv_seq s < i64_max -> 0 <= handle < 18446744073709551616 ->
  w_cap a <> 0 -> w_buf a = render args -> len (render args) <= 2 ^ 59 ->
  (sv_conn s = None -> arpc_cb_send xchg kind handle (Some a) dflt s = Ret (s, dflt)) /\
  (sv_conn s <> None ->
     let frame := render (callback_json name (sv_seq s) handle args) in
     let s1 := set_seq s (sv_seq s + 1) in
     (forall s', xchg frame s1 = Ret (s', None) ->
        arpc_cb_send xchg kind handle (Some a) dflt s = Ret (s', dflt)) /\
     (forall s' reply, xchg frame s1 = Ret (s', Some reply) -> len reply <= ARPC_MAX_FRAME ->
        arpc_cb_send xchg kind handle (Some a) dflt s = Ret (s', answer_value reply (sv_seq s) dflt))).
Proof.
  intros HA Hk Hk0 Hn Hnl Hs Hh Hc Hb Hl. split.
  { unfold arpc_cb_send. by intros ->. }
  intros Hconn. rewrite (cb_send_run xchg kind name handle a args dflt s) by done. split.
  - intros s' ->. done.
  - intros s' reply -> Hlr. cbn [mbind outcome_bind]. by rewrite cb_value_spec.
Qed.

(** Requests that arrive while a callback waits for its answer are
    served in the order in which they come, each answered before the next
    is read, and the first frame that is not a request is the callback's
    answer: nothing is skipped, nothing after the answer is read, and what
    was sent is the callback followed by the replies, in order. *)
Theorem exchange_serves_nested `{HH : Handle H, !Connected H} fuel text s reqs rsps s2 ans rest :
  TotalAllocator A -> sv_conn s = Some true -> len text < 4294967296 ->
  served s reqs rsps s2 -> Forall (fun r => 0 < len r <= ARPC_MAX_FRAME) (reqs ++ [ans]) ->
  as_request ans = Ret None -> incoming (sv_pipe s) = concat (frame <$> reqs) ++ frame ans ++ rest ->
  (length reqs < fuel)%nat ->
  exists p', arpc_conn_exchange fuel text s = Ret (set_pipe s2 p', Some ans) /\
    incoming p' = rest /\
    outgoing p' = outgoing (sv_pipe s) ++ frame text ++ concat (frame <$> rsps).
Proof.
  intros HA Hc Hl Hs Hlen Hans Hin Hf. unfold arpc_conn_exchange, conn_exchange. rewrite Hc. cbn [negb].
  rewrite bool_decide_true by done. cbn [negb]. unfold send_framed.
  destruct (send_connected true (sv_pipe s) text Hl) as (p & -> & Ho & Hi). cbn [mbind outcome_bind].
  destruct (exchange_loop_served s reqs rsps s2 Hs fuel p ans rest) as (p' & E & Hi' & Ho'); [done..|congruence|lia|].
  exists p'. split_and!; [done|done|]. by rewrite Ho', Ho, <- app_assoc.
Qed.
End Theorems.

(** ** The properties at work *)

Section Toy.
#[local] Existing Instance DispatchTheorems.toy_tags.
#[local] Existing Instance unit_gpgme.
#[local] Existing Instance unit_archive.
#[local] Existing Instance toy_generated.

Definition toy_args : aj_w := AjW (qlit "[5]") 256 false true.
Definition toy_peer : exchanger unit unit := fun _ s => Ret (s, Some (qlit "{`cbseq`:1,`@ret`:7}")).

Lemma cb_send_correct_witness :
  arpc_cb_send (A:=ample) toy_peer 0 1099511627777 (Some toy_args) 0 toy_server = Ret (set_seq toy_server 2, 7).
Proof.
  assert (E : answer_value (qlit "{`cbseq`:1,`@ret`:7}") 1 0 = 7) by (by vm_compute). rewrite <- E.
  refine (proj2 (proj2 (cb_send_correct (A:=ample) toy_peer 0 (lit "log") 1099511627777 toy_args (JArr [JNum 5]) 0
    toy_server _ _ _ _ _ _ _ _ _ _) _) _ _ eq_refl _); try done.
  by apply (bool_decide_unpack (is_bytes _)).
Defined.

(** A method over a pipe that moves three bytes at a time. *)
#[local] Existing Instance Trickle.ops.
#[local] Existing Instance Trickle.handle.
#[local] Existing Instance Trickle.connected.

Definition pipe_answers : handler unit Trickle.pipe := fun _ rq rs s =>
  rs ← arpc_ret_str (A:=ample) rs (Some (lit "ok")); Ret (s, rq, rs).

#[local] Instance pipe_generated : Generated unit Trickle.pipe := {
  arpc_methods := [(lit "alpm_a", pipe_answers)];
  arpc_cb_kinds := [lit "log"];
  cb_install w _ _ _ _ := (0, w);
  mtree_fuel := 1%nat
}.

Definition nested_request : list Z := qlit "{`id`:2,`method`:`alpm_a`}".
Definition nested_reply : list Z := qlit "{`id`:2,`result`:{`@ret`:`ok`}}".
Definition cb_text : list Z := qlit "{`cb`:`log`}".
Definition cb_answer : list Z := qlit "{`cbseq`:1,`@ret`:1}".

Definition nested_pipe : Trickle.pipe :=
  Trickle.Pipe (frame nested_request ++ frame cb_answer ++ [9]) [] 0 [].
Definition nested_server : server unit Trickle.pipe :=
  Server htab0 [] 1 (Some true) false false gpg0 tt nested_pipe.

Lemma exchange_serves_nested_witness :
  exists p', arpc_conn_exchange (A:=ample) 2 cb_text nested_server = Ret (set_pipe nested_server p', Some cb_answer) /\
    incoming p' = [9] /\ outgoing p' = frame cb_text ++ frame nested_reply.
Proof.
  destruct (exchange_serves_nested (A:=ample) 2 cb_text nested_server [nested_request] [nested_reply]
    nested_server cb_answer [9]) as (p' & E & Hi & Ho).
  - exact _.
  - done.
  - done.
  - eapply served_cons; [vm_compute; reflexivity| | |done|apply served_nil].
    + intros x p. vm_compute. reflexivity.
    + by apply (bool_decide_unpack (no_nul _)).
  - repeat constructor; by vm_compute.
  - by vm_compute.
  - by vm_compute.
  - cbn. lia.
  - exists p'. split_and!; [exact E|exact Hi|]. rewrite Ho. cbn [fmap list_fmap concat]. by rewrite app_nil_r.
Defined.
End Toy.
