(* ===== verification/Ends.v ===== *)
(** * Every loop of a connection ends

    A function [ends] when it is not cut off by its fuel.  Nothing is assumed
    of the heap or of the lengths of texts here: the writer, the runtime, the
    dispatcher and the loops of a connection end whatever they are given, as
    long as the handlers do, because each frame received takes bytes off the
    pipe for good. *)

From S2P Require Import Prelude Json JsonWriter JsonReader JsonRef JsonArena JsonAccess Base64.
From S2P Require Import Wire CbRegistry HandleTable HandleSpec HandleTheorems Paths Gpgdir Lookup.
From S2P Require Import Server Mtree Dispatch DispatchTheorems Connection.

(** [m] ends, with [P] if it returns. *)
Definition ends {X} (P : X -> Prop) (m : outcome X) : Prop :=
  match m with Ret x => P x | NoFuel => False | _ => True end.

Lemma ends_bind {X Y} (P : X -> Prop) (Q : Y -> Prop) (m : outcome X) (f : X -> outcome Y) :
  ends P m -> (forall x, P x -> ends Q (f x)) -> ends Q (m ≫= f).
Proof. destruct m; cbn; auto. Qed.

Lemma ends_weaken {X} (P Q : X -> Prop) (m : outcome X) :
  ends P m -> (forall x, P x -> Q x) -> ends Q m.
Proof. destruct m; cbn; auto. Qed.

(** ** The writer *)

Section Writer.
Context {A : Allocator}.

(** The writer afterwards is a writer. *)
Definition winv1 {X} (wx : aj_w * X) : Prop := winv wx.1.

Lemma wgrow_ends w need : winv w -> ends winv1 (wgrow w need).
Proof.
  intros Hw. unfold wgrow. destruct (w_err w); [done|]. destruct (_ <=? _); [done|].
  destruct (winv_exp w Hw) as (k & Hk & -> & Hl).
  destruct (wgrow_loop_spec k 64 (u64 (w_len w + need + 1))) as [[-> _]|(i & Hi & -> & _)]; [lia|lia|done|].
  destruct (grants _); [|done]. right. cbn [fst w_cap set_cap]. split; [|exists i; split; [lia|done]].
  change (w_len (set_cap w (2 ^ Z.of_nat i))) with (w_len w). cbn [w_cap set_cap].
  assert (2 ^ Z.of_nat k <= 2 ^ Z.of_nat i) by (apply Z.pow_le_mono_r; lia). lia.
Qed.

(** What fits next to the NUL leaves a writer. *)
Lemma winv_room_app w s : winv w -> w_len w + len s + 1 <= w_cap w -> winv (set_buf w (w_buf w ++ s)).
Proof.
  unfold w_len. intros [[Hc _]|[_ Hk]] Hr; [lia|]. right. unfold w_len. cbn [w_buf w_cap set_buf].
  rewrite length_app. split; [lia|done].
Qed.

Lemma wraw_ends w s : winv w -> ends winv (wraw_ w s).
Proof.
  intros Hw. unfold wraw_. destruct (Z.leb_spec (w_len w + len s + 1) (w_cap w)); [|done]. by apply winv_room_app.
Qed.

Lemma wputc_ends w c : winv w -> ends winv (wputc_ w c).
Proof.
  intros Hw. unfold wputc_. destruct (Z.leb_spec (w_len w + 2) (w_cap w)); [|done].
  apply winv_room_app; [done|cbn; lia].
Qed.

Lemma ends_comma w c : winv w -> ends winv (Ret (set_comma w c)).
Proof. done. Qed.

(** Room, then something written into it, or nothing. *)
Lemma ends_grow w need (f : aj_w -> outcome aj_w) :
  winv w -> (forall w, winv w -> ends winv (f w)) ->
  ends winv ('(w, ok) ← wgrow w need; if ok : bool then f w else Ret w).
Proof.
  intros Hw Hf. eapply ends_bind; [by apply wgrow_ends|]. intros [w1 ok] Hw1. destruct ok; [by apply Hf|done].
Qed.

Lemma wsep_ends w : winv w -> ends winv (wsep w).
Proof.
  intros Hw. unfold wsep. destruct (w_comma w); [|done]. apply ends_grow; [done|]. intros w1 Hw1.
  by eapply ends_bind; [apply wputc_ends|].
Qed.

Lemma wput_ends w s : winv w -> ends winv (wput w s).
Proof. intros Hw. apply ends_grow; [done|]. intros. by apply wraw_ends. Qed.

Lemma wopen_ends w c : winv w -> ends winv (wopen w c).
Proof.
  intros Hw. eapply ends_bind; [by apply wsep_ends|]. intros w1 Hw1. apply ends_grow; [done|]. intros w2 Hw2.
  by eapply ends_bind; [apply wputc_ends|].
Qed.

Lemma wclose_ends w c : winv w -> ends winv (wclose w c).
Proof.
  intros Hw. apply ends_grow; [done|]. intros w2 Hw2. by eapply ends_bind; [apply wputc_ends|].
Qed.

Lemma wescape_ends w c : winv w -> ends winv (wescape w c).
Proof. intros Hw. unfold wescape. repeat (case_match; [by apply wraw_ends|]). by apply wraw_ends. Qed.

Lemma wstr_loop_ends p : forall run w, winv w -> ends winv1 (wstr_loop run p w).
Proof.
  assert (Hflush : forall run w, winv w -> ends winv1
    (if Z.of_nat (length run) =? 0 then Ret (w, true)
     else '(w, ok) ← wgrow w (Z.of_nat (length run));
          if ok : bool then w ← wraw_ w run; Ret (w, true) else Ret (w, false))).
  { intros run w Hw. destruct (_ =? 0); [done|]. eapply ends_bind; [by apply wgrow_ends|].
    intros [w1 ok] Hw1. destruct ok; [|done]. by eapply ends_bind; [apply wraw_ends|]. }
  induction p as [|c p IH]; intros run w Hw; cbn [wstr_loop].
  - eapply ends_bind; [by apply Hflush|]. intros [w1 ok] Hw1. destruct ok; done.
  - destruct (_ && _ && _); [by apply IH|]. eapply ends_bind; [by apply Hflush|].
    intros [w1 ok] Hw1. destruct ok; [|done]. destruct (c =? 0); [done|].
    eapply ends_bind; [by apply wgrow_ends|]. intros [w2 ok] Hw2. destruct ok; [|done].
    eapply ends_bind; [by apply wescape_ends|]. intros. by apply IH.
Qed.

Lemma wstr_ends w s : winv w -> ends winv (wstr_escaped w s).
Proof.
  intros Hw. apply ends_grow; [done|]. intros w1 Hw1. eapply ends_bind; [by apply wputc_ends|].
  intros w2 Hw2. eapply ends_bind; [by apply wstr_loop_ends|]. intros [w3 ok] Hw3. destruct ok; [|done].
  apply ends_grow; [done|]. intros. by apply wputc_ends.
Qed.

Lemma key_ends w k : winv w -> ends winv (ajw_key w k).
Proof.
  intros Hw. eapply ends_bind; [by apply wsep_ends|]. intros w1 Hw1. eapply ends_bind; [by apply wstr_ends|].
  intros w2 Hw2. apply ends_grow; [done|]. intros w3 Hw3. by eapply ends_bind; [apply wputc_ends|].
Qed.

Lemma null_ends w : winv w -> ends winv (ajw_null w).
Proof. intros Hw. eapply ends_bind; [by apply wsep_ends|]. intros. by apply wput_ends. Qed.

Lemma str_ends w s : winv w -> ends winv (ajw_str w s).
Proof.
  intros Hw. destruct s as [s|]; [|by apply null_ends]. eapply ends_bind; [by apply wsep_ends|].
  intros. by apply wstr_ends.
Qed.

Lemma i64_ends w v : winv w -> i64_min <= v <= i64_max -> ends winv (ajw_i64 w v).
Proof.
  intros Hw Hv. unfold i64_min, i64_max in Hv. eapply ends_bind; [by apply wsep_ends|]. intros w1 Hw1.
  apply ends_grow; [done|]. intros w2 Hw2.
  assert (Hu : 0 <= (if v <? 0 then u64 (- (v + 1) + 1) else v) < 10 ^ Z.of_nat 20).
  { change (10 ^ Z.of_nat 20) with 100000000000000000000. destruct (Z.ltb_spec v 0); [|lia]. rewrite u64_small by lia. lia. }
  rewrite (i64_digits_spec 20 21 []) by (cbn [length]; lia). cbn [mbind outcome_bind]. by apply wraw_ends.
Qed.

Lemma raw_ends w s : winv w -> ends winv (ajw_raw w s).
Proof.
  intros Hw. eapply ends_bind; [by apply wgrow_ends|]. intros [w1 ok] Hw1.
  apply (ends_bind winv); [destruct ok; [by apply wraw_ends|done]|]. done.
Qed.

Lemma reserve_ends w n : winv w -> ends winv1 (ajw_reserve w n).
Proof. apply wgrow_ends. Qed.
End Writer.

(** One call of the writer after another. *)
Ltac wends :=
  repeat match goal with
  | |- ends _ (wopen _ _ ≫= _) => eapply ends_bind; [by apply wopen_ends|intros ? ?]
  | |- ends _ (wclose _ _ ≫= _) => eapply ends_bind; [by apply wclose_ends|intros ? ?]
  | |- ends _ (ajw_key _ _ ≫= _) => eapply ends_bind; [by apply key_ends|intros ? ?]
  | |- ends _ (ajw_i64 _ _ ≫= _) => eapply ends_bind; [by apply i64_ends|intros ? ?]
  | |- ends _ (ajw_str _ _ ≫= _) => eapply ends_bind; [by apply str_ends|intros ? ?]
  | |- ends _ (ajw_raw _ _ ≫= _) => eapply ends_bind; [by apply raw_ends|intros ? ?]
  end.

(** ** The runtime *)

Section Runtime.
Context {A : Allocator}.

(** A response a handler may leave: a writer, and an error code that is an
    [int]. *)
Definition res_sane (rs : arpc_res) : Prop := winv (rs_out rs) /\ i64_min <= rs_code rs <= i64_max.

Lemma res0_sane : res_sane res0.
Proof. split; [apply winv_init|done]. Qed.

Lemma ensure_obj_ends rs : res_sane rs -> ends res_sane (ensure_obj rs).
Proof.
  intros [Hw Hc]. unfold ensure_obj. destruct (_ =? 0); [|done].
  eapply ends_bind; [apply (wopen_ends ajw_init 123), winv_init|]. done.
Qed.

Lemma on_out_ends rs f : res_sane rs -> (forall w, winv w -> ends winv (f w)) -> ends res_sane (on_out rs f).
Proof. intros [Hw Hc] Hf. unfold on_out. eapply ends_bind; [by apply Hf|]. done. Qed.

Lemma set_ret_ends rs : res_sane rs -> ends res_sane (set_ret rs).
Proof.
  intros Hr. eapply ends_bind; [by apply ensure_obj_ends|]. intros rs1 [Hw Hc].
  by eapply ends_bind; [apply key_ends|].
Qed.

Lemma ret_ends rs f : res_sane rs -> (forall w, winv w -> ends winv (f w)) -> ends res_sane (rs ← set_ret rs; on_out rs f).
Proof. intros Hr Hf. eapply ends_bind; [by apply set_ret_ends|]. intros. by apply on_out_ends. Qed.

Lemma fail_sane rs code msg : res_sane rs -> i64_min <= code <= i64_max -> res_sane (arpc_fail rs code msg).1.
Proof. by intros [? _]. Qed.

Lemma reply_error_ends id code msg :
  i64_min <= id <= i64_max -> i64_min <= code <= i64_max -> ends (fun _ => True) (reply_error id code msg).
Proof. intros Hid Hc. unfold reply_error, ajw_obj_begin, ajw_obj_end. pose proof winv_init. wends. done. Qed.

Lemma reply_shutdown_ends id : i64_min <= id <= i64_max -> ends (fun _ => True) (reply_shutdown id).
Proof.
  intros Hid. assert (i64_min <= 0 <= i64_max) by done.
  unfold reply_shutdown, ajw_obj_begin, ajw_obj_end. pose proof winv_init. wends. done.
Qed.

Lemma reply_of_ends id rs : i64_min <= id <= i64_max -> res_sane rs -> ends (fun _ => True) (reply_of id rs).
Proof.
  intros Hid Hr. unfold reply_of. apply (ends_bind (fun _ => True)).
  2: { intros [out|] _; [done|]. by apply reply_error_ends. }
  destruct (rs_failed rs); [apply reply_error_ends; [done|apply Hr]|]. unfold reply_result.
  eapply ends_bind; [by apply ensure_obj_ends|]. intros rs1 Hr1. apply (ends_bind res_sane).
  { destruct (rs_has_ret rs1); [done|]. apply ret_ends; [done|]. intros. by apply null_ends. }
  intros rs2 Hr2. eapply ends_bind; [apply on_out_ends; [done|]; intros; by apply wclose_ends|]. intros rs3 Hr3.
  unfold ajw_obj_begin, ajw_obj_end. pose proof winv_init. wends.
  eapply ends_bind; [by apply reserve_ends|]. intros [w ok] Hw. change (winv w) in Hw. wends. done.
Qed.

Lemma cb_frame_ends name seq handle args :
  i64_min <= seq <= i64_max -> 0 <= handle < 18446744073709551616 -> ends winv (cb_frame name seq handle args).
Proof.
  intros Hs Hh. pose proof (i64_of_u64_range handle Hh). unfold cb_frame, ajw_obj_begin, ajw_obj_end.
  pose proof winv_init. wends. apply (ends_bind winv); [|intros; by apply wclose_ends].
  destruct args as [a|]; [destruct (_ =? 0)|]; by (apply null_ends || apply raw_ends).
Qed.

Lemma bput_ends cap buf bs : ends (fun _ => True) (bput cap buf bs).
Proof. unfold bput. by destruct (_ <=? _). Qed.

Lemma b64_encode_ends b : ends (fun _ => True) (arpc_b64_encode b).
Proof.
  unfold arpc_b64_encode. destruct (grants _); [|done]. generalize (u64 (u64 (u64 (len b + 2) / 3 * 4) + 1)). intros cap.
  apply (ends_bind (fun _ => True)).
  - generalize (@nil Z). induction b as [| | |a1 b1 c1 b IH] using three_ind; intros out; [done..|].
    cbn [encode_loop]. do 4 (apply (ends_bind (fun _ => True)); [apply bput_ends|intros ? _]). apply IH.
  - intros [src out] _. apply (ends_bind (fun _ => True)).
    + destruct src as [|a1 src]; [done|]. cbn [encode_tail].
      do 3 (apply (ends_bind (fun _ => True)); [apply bput_ends|intros ? _]). apply bput_ends.
    + intros out' _. by apply (ends_bind (fun _ => True)); [apply bput_ends|].
Qed.

Lemma ret_bytes_ends rs b : res_sane rs -> ends res_sane (arpc_ret_bytes rs b).
Proof.
  intros Hr. unfold arpc_ret_bytes. apply (ends_bind (fun _ => True)).
  - destruct b as [b|]; [|done]. cbn [encode_or_null]. pose proof (b64_encode_ends b).
    by destruct (arpc_b64_encode b).
  - intros enc _. apply ret_ends; [done|]. intros. by apply str_ends.
Qed.
End Runtime.

(** ** The pipe *)

(** A read that fails may lose bytes; it does not put any on the pipe. *)
Class Steady (H : Type) `{Handle H} :=
  read_lost ev h n h' : io_read ev h n = (None, h') -> incoming h' `suffix_of` incoming h.

Section Pipe.
Context {A : Allocator} `{HS : Steady H}.

Lemma read_exact_suffix fuel ev h buf n r h' :
  0 <= n -> (Z.to_nat n < fuel)%nat -> read_exact fuel ev h buf n = (r, h') ->
  incoming h' `suffix_of` incoming h /\
  match r with
  | Ret b => exists bs, b = buf ++ bs /\ len bs = n /\ incoming h = bs ++ incoming h'
  | Fail => True
  | _ => False
  end.
Proof.
  revert h buf n. induction fuel as [|fuel IH]; intros h buf n Hn Hf; [lia|]. cbn [read_exact].
  destruct (Z.eqb_spec n 0) as [->|Hn0].
  { intros [= <- <-]. split; [done|]. exists []. by rewrite app_nil_r. }
  destruct (io_read ev h n) as [[bs|] h1] eqn:E; [|intros [= <- <-]; by apply read_lost in E].
  apply io_read_some in E as (Hl & Hi & _); [|lia].
  assert (Hsuf : incoming h1 `suffix_of` incoming h) by (by exists bs).
  destruct (Z.eqb_spec (len bs) 0); [intros [= <- <-]; by split|].
  destruct (Z.leb_spec (len bs) n); [|lia]. intros E. apply IH in E as [Hs E]; [|lia|lia].
  split; [by etrans|]. destruct r as [b| | |]; [|done..]. destruct E as (bs' & -> & Hl' & Hi').
  exists (bs ++ bs'). rewrite length_app, <- !app_assoc. split_and!; [done|lia|congruence].
Qed.

Lemma suffix_bytes (l l' : list Z) : l' `suffix_of` l -> is_bytes l -> is_bytes l'.
Proof. intros [k ->]. rewrite Forall_app. by intros [_ ?]. Qed.

(** A frame takes its length and four bytes more off the pipe. *)
Lemma recv_frame_suffix ev h r n h' :
  is_bytes (incoming h) -> arpc_recv_frame ev h = (r, n, h') ->
  incoming h' `suffix_of` incoming h /\
  match r with
  | Ret (b, _) => (length (incoming h') + 4 <= length (incoming h))%nat /\ len b <= ARPC_MAX_FRAME
  | Fail => True
  | _ => False
  end.
Proof.
  intros Hb. unfold arpc_recv_frame. destruct (read_exact 5 ev h [] 4) as [r1 h1] eqn:E1.
  apply read_exact_suffix in E1 as [Hs1 E1]; [|lia|cbn; lia].
  destruct r1 as [hdr| | |]; [|by intros [= <- <- <-]|done..].
  destruct E1 as (bs & -> & Hl & Hi). rewrite app_nil_l.
  assert (Hhb : is_bytes bs) by (rewrite Hi in Hb; by apply Forall_app in Hb as [? _]).
  destruct (le32_of_le32 bs) as [_ Hr]; [lia|done|]. fold (of_le32 bs). cbn zeta.
  destruct ((of_le32 bs =? 0) || (ARPC_MAX_FRAME <? of_le32 bs)) eqn:Hg; [by intros [= <- <- <-]|].
  apply orb_false_iff in Hg as [_ Hg]. zbool. destruct (grants _); [|by intros [= <- <- <-]].
  destruct (read_exact (S (Z.to_nat (of_le32 bs))) ev h1 [] (of_le32 bs)) as [r2 h2] eqn:E2.
  apply read_exact_suffix in E2 as [Hs2 E2]; [|lia|lia].
  destruct r2 as [b| | |]; [|intros [= <- <- <-]; split; [by etrans|done]|done..].
  intros [= <- <- <-]. split; [by etrans|]. destruct E2 as (bs2 & -> & Hl2 & Hi2).
  rewrite app_nil_l, Hi, Hi2, !length_app. lia.
Qed.
End Pipe.

(** ** The dispatcher and the connection *)

(** What libalpm and libarchive are relied on for: a package has fewer than
    [mtree_fuel] entries to go, each read is one less, and no entry makes more
    than a gigabyte of text. *)
Class SmallArchive (W H : Type) `{R : Archive W} `{GEN : Generated W H} := {
  to_go : W -> nat;
  to_go_bound w : (to_go w < mtree_fuel)%nat;
  next_to_go w pkg ain e w' : alpm_pkg_mtree_next w pkg ain = (Some e, w') -> (to_go w' < to_go w)%nat;
  header_small w out e bs ok w' :
    archive_write_header w out e = (bs, ok, w') -> (to_go w' <= to_go w)%nat /\ len (concat bs) <= 2 ^ 30;
  close_small w out : len (concat (archive_write_close w out).1) <= 2 ^ 30;
  fuel_small : Z.of_nat mtree_fuel <= 2 ^ 24
}.

Section Sinks.
Context {A : Allocator} {W H : Type} {R : Archive W} {GEN : Generated W H} {HA : SmallArchive W H}.

Lemma sink_blocks_ends bs : forall k,
  sink_inv k -> k_len k + len (concat bs) <= 2 ^ 60 ->
  ends (fun x => sink_inv x.1 /\ k_len x.1 <= k_len k + len (concat bs)) (sink_blocks k bs).
Proof.
  induction bs as [|b bs IH]; intros k Hk Hl; cbn [sink_blocks concat] in *; [split; [done|cbn; lia]|].
  rewrite length_app in *. destruct (sink_write_spec k b Hk) as (k1 & ok & -> & Hk1 & H1); [lia|].
  cbn [mbind outcome_bind]. unfold k_len in *.
  assert (len (k_buf k1) <= len (k_buf k) + len b /\ (ok = false -> len (k_buf k1) <= len (k_buf k))) as [H2 H3].
  { destruct ok; destruct H1 as [-> _]; [rewrite length_app; split; [lia|done]|split; lia]. }
  destruct ok; [|split; [done|cbn; specialize (H3 eq_refl); lia]].
  eapply ends_weaken; [apply (IH k1 Hk1); lia|]. intros x [Hx Hxl]. split; [done|lia].
Qed.

Lemma mtree_entries_ends pkg ain out fuel : forall w k,
  (to_go w < fuel)%nat -> Z.of_nat fuel <= 2 ^ 24 -> sink_inv k -> k_len k <= (2 ^ 24 - Z.of_nat fuel) * 2 ^ 30 ->
  ends (fun '(_, k', _) => sink_inv k' /\ k_len k' <= 2 ^ 54) (mtree_entries fuel w pkg ain out k).
Proof.
  induction fuel as [|fuel IH]; intros w k Hf Hf2 Hk Hl; [lia|]. cbn [mtree_entries].
  destruct (alpm_pkg_mtree_next w pkg ain) as [[e|] w1] eqn:En; [|split; [done|lia]].
  apply next_to_go in En. destruct (archive_write_header w1 out e) as [[bs ok] w2] eqn:Eh.
  apply header_small in Eh as [Eh Hb]. eapply ends_bind; [apply sink_blocks_ends; [done|lia]|].
  intros [k1 taken] [Hk1 Hl1]. cbn [fst] in *. destruct (ok && taken); [apply IH; [lia|lia|done|lia]|split; [done|lia]].
Qed.
End Sinks.

Section Ends.
Context {A : Allocator} {T : Tags} {W H : Type} {HP : Gpgme W} {R : Archive W} {GEN : Generated W H}.
Context `{HS : Steady H} {HA : SmallArchive W H}.
Implicit Types s : server W H.

(** The bytes still to come. *)
Definition left s : nat := length (incoming (sv_pipe s)).

(** A state the server can be in. *)
Definition sane s : Prop :=
  (exists a, repr (sv_tab s) a) /\ i64_min <= sv_seq s <= i64_max /\ is_bytes (incoming (sv_pipe s)).

(** A state after [s]: the pipe has been read, not filled. *)
Definition next s s' : Prop := sane s' /\ (left s' <= left s)%nat.

Lemma next_refl s : sane s -> next s s.
Proof. by split. Qed.

Lemma next_trans s1 s2 s3 : next s1 s2 -> next s2 s3 -> next s1 s3.
Proof. intros [_ ?] [? ?]. split; [done|lia]. Qed.

(** What is asked of a handler: if the callbacks it raises end, on a pipe with
    fewer than [n] bytes to come, then so does it, and leaves the server and
    its response in order. *)
Definition handler_ends (n : nat) (fn : handler W H) : Prop :=
  forall send, (forall kind h args d s, 0 <= h < 18446744073709551616 -> sane s -> (left s < n)%nat ->
      ends (fun '(s', _) => next s s') (send kind h args d s)) ->
  forall rq pj s, reads (rq_doc rq) (rq_params rq) pj -> (match pj with Some j => in_range j | None => True end) ->
    sane s -> (left s < n)%nat ->
    ends (fun '(s', _, rs) => next s s' /\ res_sane rs) (fn send rq res0 s).

(** Sending ends, and takes nothing off the pipe. *)
Lemma send_frame_keeps ev (h : H) text :
  match arpc_send_frame ev h text with
  | (NoFuel, _) | (Undef, _) => False
  | (_, h') => incoming h' = incoming h
  end.
Proof.
  assert (Hw : forall p bs,
    match write_exact (S (length bs)) ev p bs with (NoFuel, _) | (Undef, _) => False | (_, p') => incoming p' = incoming p end).
  { intros p bs. destruct (write_exact _ _ _ _) as [r p'] eqn:E.
    apply write_exact_spec in E as (Hi & k & _ & [[-> _]| ->]); [done|done|lia]. }
  unfold arpc_send_frame. cbn zeta. pose proof (Hw h (le32 (len text))) as Hk1.
  destruct (write_exact _ ev h _) as [[[]| | |] p1]; [|done..].
  pose proof (Hw p1 (take (Z.to_nat (u32 (len text))) text)) as Hk2.
  destruct (write_exact _ ev p1 _) as [[[]| | |] p2]; done || congruence.
Qed.

Lemma send_framed_ends text s : sane s -> ends (fun '(s', _) => next s s') (send_framed text s).
Proof.
  intros (Ha & Hq & Hb). unfold send_framed. pose proof (send_frame_keeps true (sv_pipe s) text) as Hk.
  destruct (arpc_send_frame true (sv_pipe s) text) as [[[]| | |] p]; try done; cbn; unfold next, sane, left;
    cbn [sv_tab sv_seq sv_pipe set_pipe]; rewrite Hk; split_and!; try done; try apply Hq; lia.
Qed.

Lemma recv_framed_ends s :
  sane s ->
  ends (fun '(s', f) => next s s' /\
          match f with Some f => (left s' + 4 <= left s)%nat /\ len f <= ARPC_MAX_FRAME | None => True end)
    (recv_framed s).
Proof.
  intros (Ha & Hq & Hb). unfold recv_framed. destruct (arpc_recv_frame true (sv_pipe s)) as [[r n] p] eqn:E.
  apply recv_frame_suffix in E as [Hs E]; [|done].
  assert (Hn : next s (set_pipe s p)).
  { unfold next, sane, left. cbn [sv_tab sv_seq sv_pipe set_pipe]. split; [|by apply suffix_length].
    split_and!; [done|apply Hq|apply Hq|by eapply suffix_bytes]. }
  destruct r as [[b l]| | |]; [by split| by split|done..].
Qed.

Lemma as_request_ends f :
  len f <= ARPC_MAX_FRAME ->
  ends (fun r => match r with Some d => exists j, reads d 0 (Some j) /\ in_range j | None => True end) (as_request f).
Proof.
  intros Hl. unfold as_request. pose proof (cstr_length f).
  pose proof (aj_parse_sim (cstr f) ltac:(lia)) as Hs. pose proof (ref_parse_defined (cstr f)) as [_ Hd].
  destruct (aj_parse (cstr f)) as [d| | |] eqn:E; [|done|done|by destruct (ref_parse (cstr f))].
  destruct (ref_parse (cstr f)) as [j| | |] eqn:Er; [|done..]. destruct Hs as [Hj _].
  destruct (aj_member_reads d 0 _ (lit "method") Hj) as (m & -> & _). cbn [mbind outcome_bind ends].
  destruct (m <? 0); [done|]. exists j. split; [done|]. by apply (ref_parse_fits _ _ Er).
Qed.

(** *** The infrastructure methods *)

Lemma arg_id_range pj i : 0 <= (arg_id_spec (t_elem pj i)).2 < 18446744073709551616.
Proof. destruct (t_elem pj i) as [j|]; [apply u64_range|done]. Qed.

Lemma arg_handle_ends rq pj t i tag :
  reads (rq_doc rq) (rq_params rq) pj -> (exists a, repr t a) ->
  exists bad p, arpc_arg_handle t rq i tag = Ret (mark rq bad, p).
Proof.
  intros Hrd [a Ha]. unfold arpc_arg_handle. rewrite (arg_id_reads rq pj Hrd).
  destruct (arg_id_spec (t_elem pj i)) as [bad id]. cbn [mbind outcome_bind].
  destruct (id =? 0); [by exists bad, 0|]. rewrite (get_refines _ _ Ha). cbn [mbind outcome_bind].
  destruct (_ =? 0); [|by eexists bad, _]. exists true, (a_get (a_map a) id tag). by destruct bad.
Qed.

Lemma mark_reads rq bad pj : reads (rq_doc rq) (rq_params rq) pj -> reads (rq_doc (mark rq bad)) (rq_params (mark rq bad)) pj.
Proof. by destruct bad. Qed.

Lemma next_world s w : sane s -> next s (set_world s w).
Proof. by split. Qed.

Lemma set_path_style_ends n : handler_ends n arpc_set_path_style.
Proof.
  intros send _ rq pj s Hrd _ Hs _. unfold arpc_set_path_style. rewrite (arg_str_reads rq pj Hrd).
  destruct (arg_str_spec _) as [bad [style|]]; cbn [mbind outcome_bind].
  2: { split; [by apply next_refl|apply fail_sane; [apply res0_sane|done]]. }
  destruct (_ || _); [split; [by apply next_refl|apply fail_sane; [apply res0_sane|done]]|].
  eapply ends_bind; [apply ret_ends; [apply res0_sane|]; intros; by apply i64_ends|].
  intros rs Hr. by split.
Qed.

Lemma mtree_method_ends n : handler_ends n mtree_method.
Proof.
  intros send _ rq pj s Hrd _ Hs _. unfold mtree_method, arpc_mtree_get.
  destruct (arg_handle_ends rq pj (sv_tab s) 0 ARPC_H_PKG Hrd (proj1 Hs)) as (bad & pkg & ->).
  cbn [mbind outcome_bind]. assert (Hfail : forall w rq code msg, i64_min <= code <= i64_max ->
    ends (fun '(s', _, rs) => next s s' /\ res_sane rs)
      ('(w, rq, rs) ← Ret (w, rq, (arpc_fail res0 code msg).1); Ret (set_world s w, rq : arpc_req, rs))).
  { intros w rq' code msg Hc. split; [by apply next_world|]. apply fail_sane; [apply res0_sane|done]. }
  destruct (_ || _); [by apply Hfail|]. destruct (alpm_pkg_mtree_open _ _) as [ain w1].
  destruct (ain =? 0).
  { eapply ends_bind; [eapply ends_bind; [apply ret_ends; [apply res0_sane|]; intros; by apply null_ends|]|].
    - intros rs Hr. exact (conj Hr (conj eq_refl eq_refl) : (fun x => res_sane x.2 /\ x.1.1 = w1 /\ x.1.2 = mark rq bad) (w1, mark rq bad, rs)).
    - intros [[w' rq'] rs] [Hr _]. split; [by apply next_world|done]. }
  destruct (archive_write_new w1) as [out w2]. destruct (out =? 0); [by apply Hfail|].
  destruct (archive_write_open _ out) as [ok w3]. destruct (negb ok); [by apply Hfail|].
  apply (ends_bind (fun x => res_sane x.2)); [|intros [[w' rq'] rs] Hr; split; [by apply next_world|done]].
  eapply ends_bind; [apply (mtree_entries_ends (H:=H)); [apply to_go_bound|apply fuel_small|by split; [|left]|]|].
  { pose proof (fuel_small (W:=W) (H:=H)). change (k_len sink0) with 0. apply Z.mul_nonneg_nonneg; lia. }
  intros [[w4 k] all] [Hk Hkl].
  pose proof (close_small w4 out) as Hc. destruct (archive_write_close w4 out) as [blocks w5]. cbn [fst] in Hc.
  destruct (sink_blocks_spec blocks k Hk) as (k' & took & -> & _); [lia|]. cbn [mbind outcome_bind].
  destruct (_ || _); [apply fail_sane; [apply res0_sane|done]|].
  by eapply ends_bind; [apply ret_bytes_ends, res0_sane|].
Qed.

(** What the installers of the callbacks return is an [int]. *)
Definition installs_int : Prop :=
  forall w kind h enabled ctx, i64_min <= (cb_install (W:=W) (H:=H) w kind h enabled ctx).1 <= i64_max.

Lemma cb_set_ends n : installs_int -> handler_ends n arpc_cb_set.
Proof.
  intros Hin send _ rq pj s Hrd _ Hs _. unfold arpc_cb_set. rewrite (arg_id_reads rq pj Hrd).
  destruct (arg_id_spec (t_elem pj 0)) as [bad hid]. cbn [mbind outcome_bind].
  apply (mark_reads rq bad) in Hrd. revert Hrd. generalize (mark rq bad). clear rq bad. intros rq Hrd.
  destruct (arg_handle_ends rq pj (sv_tab s) 0 ARPC_H_HANDLE Hrd (proj1 Hs)) as (bad & h & ->).
  cbn [mbind outcome_bind].
  apply (mark_reads rq bad) in Hrd. revert Hrd. generalize (mark rq bad). clear rq bad. intros rq Hrd.
  rewrite (arg_str_reads rq pj Hrd). destruct (arg_str_spec _) as [bad which]. cbn [mbind outcome_bind].
  apply (mark_reads rq bad) in Hrd. revert Hrd. generalize (mark rq bad). clear rq bad. intros rq Hrd.
  rewrite (arg_i64_reads rq pj Hrd). destruct (arg_i64_spec _) as [bad en]. cbn [mbind outcome_bind].
  assert (Hfail : forall rq code msg, i64_min <= code <= i64_max ->
    ends (fun '(s', _, rs) => next s s' /\ res_sane rs) (Ret (s, rq : arpc_req, fail_req res0 code msg))).
  { intros rq' code msg Hc. split; [by apply next_refl|]. apply fail_sane; [apply res0_sane|done]. }
  destruct which as [which|]; [|by apply Hfail]. destruct (rq_bad _); [by apply Hfail|].
  destruct (_ <? 0); [by apply Hfail|]. destruct (cb_register _ _ _ _) as [regs|]; [|by apply Hfail].
  pose proof (Hin (sv_world (set_regs s regs)) (find_kind arpc_cb_kinds 0 (-1) which) h (int_of en) hid) as Hrc.
  destruct (cb_install _ _ _ _ _) as [rc w]. cbn [fst] in Hrc.
  eapply ends_bind; [apply ret_ends; [apply res0_sane|]; intros; by apply i64_ends|]. intros rs Hr. by split.
Qed.

(** *** A request *)

(** What is asked of an exchange of frames, on such a pipe. *)
Definition exchange_ends (n : nat) (xchg : exchanger W H) : Prop :=
  forall frame s, sane s -> (left s < n)%nat -> ends (fun '(s', r) => next s s' /\ match r with Some f => len f <= ARPC_MAX_FRAME | None => True end) (xchg frame s).

Lemma cb_value_ends reply seq dflt : len reply <= ARPC_MAX_FRAME -> ends (fun _ => True) (cb_value reply seq dflt).
Proof.
  intros Hl. unfold cb_value. pose proof (cstr_length reply).
  pose proof (aj_parse_sim (cstr reply) ltac:(lia)) as Hs. pose proof (ref_parse_defined (cstr reply)) as [_ Hd].
  destruct (aj_parse (cstr reply)) as [d| | |] eqn:E; [|done|done|by destruct (ref_parse (cstr reply))].
  destruct (ref_parse (cstr reply)) as [j| | |]; [|done..]. destruct Hs as [Hj _].
  destruct (aj_member_reads d 0 _ (lit "cbseq") Hj) as (m & -> & _). cbn [mbind outcome_bind].
  destruct (_ =? seq); [|done]. by destruct (aj_member_reads d 0 _ ARPC_RET_KEY Hj) as (r & -> & _).
Qed.

Lemma cb_send_ends n xchg kind h args d s :
  exchange_ends n xchg -> 0 <= h < 18446744073709551616 -> sane s -> (left s < n)%nat ->
  ends (fun '(s', _) => next s s') (arpc_cb_send xchg kind h args d s).
Proof.
  intros Hx Hh Hs Hn. unfold arpc_cb_send. destruct (sv_conn s); [|by apply next_refl].
  pose proof Hs as (Ht & Hq & Hb). destruct (Z.eqb_spec (sv_seq s) i64_max) as [|Hne]; [done|]. cbn [mbind outcome_bind].
  assert (Hs1 : next s (set_seq s (sv_seq s + 1))).
  { unfold next, sane, i64_min, i64_max in *. cbn. split_and!; try done; lia. }
  destruct (kind <? 0); [done|]. destruct (arpc_cb_kinds !! _) as [name|]; [|done]. cbn [mbind outcome_bind].
  eapply ends_bind; [by apply cb_frame_ends|]. intros w _. destruct (w_err w); [done|].
  eapply ends_bind; [apply Hx; [apply Hs1|exact Hn]|]. intros [s2 [reply|]] [Hs2 Hl].
  - apply (ends_bind (fun _ => True)); [by apply cb_value_ends|]. intros r _. exact (next_trans _ _ _ Hs1 Hs2).
  - exact (next_trans _ _ _ Hs1 Hs2).
Qed.

Lemma bsearch_ends {X} (cmp : X -> comparison) l : forall fuel lo n,
  (n < fuel)%nat -> ends (fun _ => True) (bsearch_loop fuel cmp l lo n).
Proof.
  induction fuel as [|fuel IH]; intros lo n Hf; [lia|]. cbn [bsearch_loop].
  destruct (Nat.eqb_spec n 0); [done|]. assert ((n / 2 < n)%nat) by (apply Nat.div_lt; lia).
  destruct (l !! _) as [x|]; [|done]. destruct (cmp x); [done|apply IH; lia..].
Qed.

(** A method found is built in or generated. *)
Lemma find_method_ends method :
  ends (fun m => match m with
                 | Some fn => exists name, (name, fn) ∈ (builtins ++ arpc_methods)
                 | None => True
                 end) (find_method (W:=W) (H:=H) method).
Proof.
  assert (Hb : forall l : list (list Z * handler W H),
    match find_builtin l method with Some fn => exists name, (name, fn) ∈ l | None => True end).
  { induction l as [|[name fn] l IH]; [done|]. cbn [find_builtin]. destruct (streq name method).
    - exists name. apply list_elem_of_here.
    - destruct (find_builtin l method) as [fn'|]; [|done]. destruct IH as [name' ?]. exists name'. by apply list_elem_of_further. }
  unfold find_method. specialize (Hb builtins). destruct (find_builtin builtins method) as [fn|].
  { destruct Hb as [name ?]. exists name. apply elem_of_app. by left. }
  apply (ends_bind (fun _ => True)); [apply bsearch_ends; lia|]. intros [i|] _; [|done].
  destruct (arpc_methods !! i) as [[name fn]|] eqn:E; [|done]. exists name. apply elem_of_app. right.
  by eapply list_elem_of_lookup_2.
Qed.

(** The generated handlers, as long as the callbacks they raise end. *)
Definition generated_end : Prop :=
  forall n name fn, (name, fn) ∈ arpc_methods (W:=W) (H:=H) -> handler_ends n fn.

Lemma methods_end n name fn :
  installs_int -> generated_end -> (name, fn) ∈ (builtins ++ arpc_methods) -> handler_ends n fn.
Proof.
  intros Hi Hg [Hb|Ha]%elem_of_app; [|by eapply Hg]. unfold builtins in Hb. rewrite !elem_of_cons in Hb.
  destruct Hb as [[= _ ->]|[[= _ ->]|[[= _ ->]|[]%not_elem_of_nil]]];
    [apply set_path_style_ends|by apply cb_set_ends|apply mtree_method_ends].
Qed.

Lemma req_handle_ends s rq pj :
  sane s -> reads (rq_doc rq) (rq_params rq) pj -> exists h, req_handle (sv_tab s) rq = Ret h.
Proof.
  intros ([a Ha] & _) Hrd. rewrite (req_handle_reads (sv_tab s) rq pj Hrd).
  destruct (t_elem pj 0) as [[| |v| |]|]; try by eexists.
  unfold arpc_ancestor. rewrite (ancestor_refines _ _ Ha). cbn [mbind outcome_bind].
  rewrite (get_refines _ _ Ha). by eexists.
Qed.

Lemma handle_parsed_ends n xchg d j s :
  installs_int -> generated_end -> exchange_ends n xchg -> sane s -> (left s < n)%nat ->
  reads d 0 (Some j) -> in_range j ->
  ends (fun '(s', _) => next s s') (arpc_handle_parsed xchg d s).
Proof.
  intros Hi Hg Hx Hs Hn Hd Hj. destruct (handle_parsed_reads xchg s d j Hd) as (p & Hp & ->).
  pose proof (req_id_range j Hj) as Hid. pose proof (next_refl s Hs) as Hr.
  destruct (req_method j) as [method|].
  2: { apply (ends_bind (fun _ => True)); [by apply reply_error_ends|done]. }
  destruct (streq _ _). { apply (ends_bind (fun _ => True)); [by apply reply_shutdown_ends|done]. }
  eapply ends_bind; [apply find_method_ends|]. intros [fn|] Hfn.
  2: { apply (ends_bind (fun _ => True)); [by apply reply_error_ends|done]. }
  destruct Hfn as [name Hfn]. cbn zeta. destruct (req_handle_ends s (ArpcReq d p false) _ Hs Hp) as [h ->].
  cbn [mbind outcome_bind]. destruct (arpc_gpgdir_follow _ _ _) as [w g].
  eapply ends_bind.
  - apply (methods_end n name fn Hi Hg Hfn) with (pj := req_params j); [|exact Hp| |done|exact Hn].
    + intros. by apply (cb_send_ends n).
    + by apply t_member_in_range.
  - intros [[s1 rq1] rs] [Hs1 Hrs]. apply (ends_bind (fun _ => True)); [by apply reply_of_ends|]. intros r _. exact Hs1.
Qed.

Lemma handle_frame_ends n xchg text s :
  installs_int -> generated_end -> exchange_ends n xchg -> sane s -> (left s < n)%nat -> len text <= ARPC_MAX_FRAME ->
  ends (fun '(s', _) => next s s') (arpc_handle_frame xchg text s).
Proof.
  intros Hi Hg Hx Hs Hn Hl. unfold arpc_handle_frame.
  pose proof (aj_parse_sim text Hl) as Hp. pose proof (ref_parse_defined text) as [_ Hd].
  destruct (aj_parse text) as [d| | |] eqn:E; [| |done|by destruct (ref_parse text)].
  - destruct (ref_parse text) as [j| | |] eqn:Er; [|done..]. destruct Hp as [Hj _].
    apply (handle_parsed_ends n _ d j); try done. by apply (ref_parse_fits _ _ Er).
  - apply (ends_bind (fun _ => True)); [by apply reply_error_ends|]. intros r _. by apply next_refl.
Qed.

(** *** The loops *)

Lemma conn_exchange_ends n loop :
  (forall s, sane s -> (left s < n)%nat ->
     ends (fun '(s', r) => next s s' /\ match r with Some f => len f <= ARPC_MAX_FRAME | None => True end) (loop s)) ->
  exchange_ends n (conn_exchange loop).
Proof.
  intros Hl frame s Hs Hn. unfold conn_exchange. destruct (negb _); [by split; [apply next_refl|]|].
  eapply ends_bind; [by apply send_framed_ends|]. intros [s1 sent] Hs1. destruct sent; [|by split].
  destruct Hs1 as [Hs1 Hl1]. eapply ends_weaken; [apply Hl; [done|lia]|]. intros [s2 r] [[? ?] ?].
  split; [split; [done|lia]|done].
Qed.

Lemma exchange_loop_ends fuel :
  installs_int -> generated_end -> exchange_ends fuel (arpc_conn_exchange fuel).
Proof.
  intros Hi Hg. apply conn_exchange_ends. induction fuel as [|fuel IH]; intros s Hs Hn; [lia|]. cbn [exchange_loop].
  eapply ends_bind; [by apply recv_framed_ends|]. intros [s1 [f|]] [Hs1 Hf]; [|by split].
  destruct Hf as [Hl Hf]. pose proof (as_request_ends f Hf) as Hq.
  eapply ends_bind; [exact Hq|]. intros [d|] Hd; [|by split]. destruct Hd as (j & Hd & Hj).
  eapply ends_bind.
  { apply (handle_parsed_ends fuel _ d j); [done|done|apply conn_exchange_ends, IH|apply Hs1|lia|done|done]. }
  intros [s2 [rsp|]] Hs2; [|split; [by eapply next_trans|done]].
  eapply ends_bind; [apply send_framed_ends, Hs2|]. intros [s3 sent] Hs3.
  pose proof (next_trans _ _ _ Hs1 (next_trans _ _ _ Hs2 Hs3)) as Hs13. destruct sent; [|by split].
  eapply ends_weaken; [apply IH; [apply Hs13|]|].
  - destruct Hs2 as [_ ?], Hs3 as [_ ?]. lia.
  - intros [s4 r] [Hs4 Hr]. split; [by eapply next_trans|done].
Qed.

Lemma serve_loop_ends fuel : forall s,
  installs_int -> generated_end -> sane s -> (left s < fuel)%nat -> ends (next s) (serve_loop fuel s).
Proof.
  induction fuel as [|fuel IH]; intros s Hi Hg Hs Hn; [lia|]. cbn [serve_loop].
  eapply ends_bind; [by apply recv_framed_ends|]. intros [s1 [f|]] [Hs1 Hf]; [|done].
  destruct Hf as [Hl Hf]. apply (ends_bind (fun '(s', _) => next s1 s')).
  - pose proof (cstr_length f).
    apply (handle_frame_ends fuel); [done|done|by apply exchange_loop_ends|apply Hs1|lia|lia].
  - intros [s2 [rsp|]] Hs2; [|by eapply next_trans].
    eapply ends_bind; [apply send_framed_ends, Hs2|]. intros [s3 sent] Hs3.
    pose proof (next_trans _ _ _ Hs1 (next_trans _ _ _ Hs2 Hs3)) as Hs13. destruct sent; [|done].
    eapply ends_weaken; [apply IH; [done|done|apply Hs13|]|].
    + destruct Hs2 as [_ ?], Hs3 as [_ ?]. lia.
    + intros s4 Hs4. by eapply next_trans.
Qed.

(** C22. Serving a connection ends.  On a pipe of [n] bytes more than [n]
    rounds are never needed, callbacks and the requests nested in their
    exchanges included, however the heap behaves, as long as the generated
    handlers end when their callbacks do; and the process is left in order:
    without a connection, its handle table well-formed, nothing put back on
    the pipe. *)
Theorem connection_ends fuel pipe s :
  installs_int -> generated_end ->
  (exists a, repr (sv_tab s) a) -> i64_min <= sv_seq s <= i64_max -> is_bytes (incoming pipe) ->
  (length (incoming pipe) < fuel)%nat ->
  match serve_connection fuel pipe s with
  | Ret s' => sv_conn s' = None /\ (exists a, repr (sv_tab s') a) /\ i64_min <= sv_seq s' <= i64_max /\
              (length (incoming (sv_pipe s')) <= length (incoming pipe))%nat
  | NoFuel => False
  | _ => True
  end.
Proof.
  intros Hi Hg Hr Hq Hb Hf. unfold serve_connection.
  set (s0 := arpc_paths_set (arpc_cb_set_conn (set_pipe s pipe) (Some true)) false).
  pose proof (serve_loop_ends fuel s0 Hi Hg (conj Hr (conj Hq Hb)) Hf) as He. cbn zeta.
  destruct (serve_loop fuel s0) as [s'| | |]; [|done..]. destruct He as [(Hr' & Hq' & _) Hl].
  exact (conj eq_refl (conj Hr' (conj Hq' Hl))).
Qed.
End Ends.

(** ** A connection at work *)

Section Toy.
#[local] Existing Instance DispatchTheorems.toy_tags.
#[local] Existing Instance unit_gpgme.
#[local] Existing Instance unit_archive.
#[local] Existing Instance Trickle.ops.
#[local] Existing Instance Trickle.handle.

#[local] Instance trickle_steady : Steady Trickle.pipe.
Proof. intros ev h n h' E. destruct ev; cbn in E; unfold Trickle.get in E; case_match; by simplify_eq. Qed.

(** A method that asks the client something and answers with what it said. *)
Definition asks : handler unit Trickle.pipe := fun send rq rs s =>
  '(s, r) ← send 0 1099511627777 None 0 s;
  rs ← arpc_ret_i64 (A:=ample) rs (if r =? 7 then 1 else 0);
  Ret (s, rq, rs).

#[local] Instance asking_generated : Generated unit Trickle.pipe := {
  arpc_methods := [(lit "alpm_ask", asks)];
  arpc_cb_kinds := [lit "log"];
  cb_install w _ _ _ _ := (0, w);
  mtree_fuel := 1%nat
}.

#[local] Instance no_archive : SmallArchive unit Trickle.pipe.
Proof.
  refine {| to_go := fun _ => 0%nat |}; try done; [intros; apply Nat.lt_0_1|]. intros w out e bs ok w' [= <- _ _]. by split.
Defined.

Lemma asking_ends : generated_end (W:=unit) (H:=Trickle.pipe).
Proof.
  intros n name fn [[= -> ->]|[]%not_elem_of_nil]%elem_of_cons send Hsend rq pj s _ _ Hs Hn. unfold asks.
  eapply ends_bind; [by apply Hsend|]. intros [s1 r] Hs1.
  eapply ends_bind; [apply ret_ends; [apply res0_sane|]; intros; apply i64_ends; [done|by destruct (r =? 7)]|].
  intros rs Hrs. by split.
Qed.

(** A call, the answer to the callback it raises, and the end of the pipe in
    the middle of another frame. *)
Definition asked_pipe : Trickle.pipe :=
  Trickle.Pipe (frame (qlit "{`id`:2,`method`:`alpm_ask`}") ++ frame (qlit "{`cbseq`:1,`@ret`:7}") ++ [9; 0]) [] 0 [].
Definition idle_server : server unit Trickle.pipe :=
  Server htab0 [] 1 None false false gpg0 tt asked_pipe.

Lemma asked_installs : installs_int (W:=unit) (H:=Trickle.pipe).
Proof. by intros. Qed.

Lemma asked_seq : i64_min <= sv_seq idle_server <= i64_max.
Proof. done. Qed.

Lemma asked_bytes : is_bytes (incoming asked_pipe).
Proof. by apply (bool_decide_unpack (is_bytes (incoming asked_pipe))). Qed.

Lemma asked_fuel : (length (incoming asked_pipe) < 80)%nat.
Proof. apply Nat.ltb_lt. by vm_compute. Qed.

Lemma connection_ends_witness :
  exists s', serve_connection (A:=ample) 80 asked_pipe idle_server = Ret s' /\
    sv_conn s' = None /\ exists a, repr (sv_tab s') a.
Proof.
  assert (H := connection_ends (A:=ample) 80 asked_pipe idle_server asked_installs asking_ends
    (ex_intro _ atab0 repr_init) asked_seq asked_bytes asked_fuel).
  destruct (serve_connection 80 asked_pipe idle_server) as [s'| | |] eqn:E.
  - exists s'. split; [reflexivity|]. exact (conj (proj1 H) (proj1 (proj2 H))).
  - vm_compute in E. discriminate E.
  - vm_compute in E. discriminate E.
  - destruct H.
Defined.
End Toy.
