(* ===== verification/Uthash.v ===== *)
(** * The hash tables of the client, and its heap

    The caches of src/client/arpc_client.c are hash tables made by the macros
    of uthash, which is not part of the repository: the operations it has are
    a class here and what it documents another.  A table holds items that are
    pieces of the heap, so it is made of their addresses, each with the bytes
    it is filed under.  The addresses themselves are malloc's to choose. *)

From S2P Require Import Prelude.

(** ** uthash *)

(** [HASH_ADD_KEYPTR] and [HASH_ADD] are [None] when, out of memory, they leave
    the table as it was and the item's [hh.tbl] NULL.  [HASH_ITER] is the items
    in the order it visits them. *)
Class Uthash := {
  utab : Type;
  ut_null : utab;
  HASH_FIND : utab -> list Z -> option Z;
  HASH_ADD : utab -> list Z -> Z -> option utab;
  HASH_DEL : utab -> Z -> utab;
  HASH_ITER : utab -> list (list Z * Z)
}.

Definition HASH_COUNT `{Uthash} (t : utab) : Z := len (HASH_ITER t).

(** What is relied on, for tables with no item twice: an item found has the key
    asked for, one with the key is found, an item added is visited last, and
    deleting takes out that item only. *)
Class UthashOk `(U : Uthash) : Prop := {
  iter_null : HASH_ITER ut_null = [];
  find_some t k a : NoDup (HASH_ITER t).*2 -> HASH_FIND t k = Some a -> (k, a) ∈ HASH_ITER t;
  find_none t k a : NoDup (HASH_ITER t).*2 -> HASH_FIND t k = None -> (k, a) ∉ HASH_ITER t;
  add_some t k a t' : HASH_ADD t k a = Some t' -> HASH_ITER t' = HASH_ITER t ++ [(k, a)];
  del_iter t a : NoDup (HASH_ITER t).*2 -> HASH_ITER (HASH_DEL t a) = filter (fun ka => ka.2 <> a) (HASH_ITER t)
}.

(** A table that never runs out of memory. *)
Class UthashTotal `(U : Uthash) : Prop := add_total t k a : exists t', HASH_ADD t k a = Some t'.

(** ** The heap *)

(** Where a block goes, given the addresses taken: somewhere else, and not at
    NULL. *)
Class Placement := { place : gset Z -> Z }.
Class PlacementOk `(P : Placement) : Prop := {
  place_fresh X : place X ∉ X;
  place_not_null X : place X <> 0
}.

Section Facts.
Context {U : Uthash} {UO : UthashOk U}.
Implicit Types t : utab.

(** With no key twice either, what is found is what is there. *)
Lemma find_iff t k a :
  NoDup (HASH_ITER t).*2 -> NoDup (HASH_ITER t).*1 -> HASH_FIND t k = Some a <-> (k, a) ∈ HASH_ITER t.
Proof.
  intros Ha Hk. split; [by apply find_some|]. intros Hin.
  destruct (HASH_FIND t k) as [b|] eqn:E; [|by destruct (find_none t k a Ha E)]. f_equal.
  apply find_some in E; [|done].
  apply list_elem_of_lookup in Hin as [i Hi], E as [j Hj].
  assert (i = j) as ->.
  { apply (NoDup_lookup _ i j k Hk); rewrite list_lookup_fmap; [by rewrite Hi|by rewrite Hj]. }
  congruence.
Qed.

(** Deleting an item of the list. *)
Lemma del_mid t (K1 K2 : list (list Z * Z)) k a :
  HASH_ITER t = K1 ++ (k, a) :: K2 -> NoDup (HASH_ITER t).*2 -> HASH_ITER (HASH_DEL t a) = K1 ++ K2.
Proof.
  intros E Hn. rewrite del_iter, E by done. rewrite E, fmap_app in Hn. cbn in Hn.
  apply NoDup_app in Hn as (_ & H1 & [Ha _]%NoDup_cons). cbn in Ha.
  assert (Hk : forall K : list (list Z * Z), a ∉ K.*2 -> filter (fun ka => ka.2 <> a) K = K).
  { induction K as [|[k' b] K IH]; [done|]. rewrite fmap_cons. intros [Hb HL]%not_elem_of_cons.
    rewrite filter_cons_True by (cbn in *; congruence). by rewrite IH. }
  rewrite filter_app, filter_cons_False by (cbn; tauto). rewrite !Hk; [done|done|].
  intros Hin. apply (H1 _ Hin), list_elem_of_here.
Qed.
End Facts.

(** ** A table that is a list *)

Module Chain.
Fixpoint find (l : list (list Z * Z)) (k : list Z) : option Z :=
  match l with
  | [] => None
  | (k', a) :: l => if bool_decide (k' = k) then Some a else find l k
  end.

Definition chain : Uthash := {|
  utab := list (list Z * Z);
  ut_null := [];
  HASH_FIND := find;
  HASH_ADD l k a := Some (l ++ [(k, a)]);
  HASH_DEL l a := filter (fun ka => ka.2 <> a) l;
  HASH_ITER l := l
|}.

Lemma find_spec l k :
  match find l k with Some a => (k, a) ∈ l | None => forall a, (k, a) ∉ l end.
Proof.
  induction l as [|[k' a] l IH]; cbn [find]; [by intros a []%not_elem_of_nil|].
  case_bool_decide as E; [subst; apply list_elem_of_here|]. destruct (find l k); [by apply list_elem_of_further|].
  intros b [[= <- <-]|Hb]%elem_of_cons; [done|by apply (IH b)].
Qed.

#[export] Instance chain_ok : UthashOk chain.
Proof.
  split; cbn.
  - done.
  - intros t k a _ E. pose proof (find_spec t k) as H. by rewrite E in H.
  - intros t k a _ E. pose proof (find_spec t k) as H. by rewrite E in H.
  - by intros t k a t' [= <-].
  - done.
Qed.

#[export] Instance chain_total : UthashTotal chain.
Proof. intros t k a. by eexists. Qed.

(** Above everything taken. *)
Definition above : Placement := {| place X := 1 + foldr Z.max 4095 (elements X) |}.

Lemma above_all l : 4095 <= foldr Z.max 4095 l /\ Forall (fun a => a <= foldr Z.max 4095 l) l.
Proof.
  induction l as [|a l [IH1 IH2]]; [done|]. cbn. split; [lia|]. constructor; [lia|].
  eapply Forall_impl; [exact IH2|]. cbn. lia.
Qed.

#[export] Instance above_ok : PlacementOk above.
Proof.
  split; intros X; cbn; destruct (above_all (elements X)) as [H1 H2]; [|lia].
  intros Hin. rewrite Forall_forall in H2. specialize (H2 _ (proj2 (elem_of_elements _ _) Hin)). lia.
Qed.
End Chain.
