(* ===== verification/Peer.v ===== *)
(** * Who is at the other end: the tokens behind the identity check

    [token_info], [arpc_process_identity] and [arpc_peer_is] of
    src/common/arpc_wire.c, call by call: the handles they open and close, the
    blocks they are given and free, and the order they do it in.  Windows is
    the class [Security].  Wire.v has the same two functions as functions of
    what the token says; here they are shown to be implemented by the code,
    which leaves no handle open and no block behind on any path. *)

From S2P Require Import Prelude Wire Uthash.
Import (hints) Chain.

(** ** Windows *)

Inductive TOKEN_INFORMATION_CLASS := TokenUser | TokenIntegrityLevel.

(** The processes, tokens and SIDs of the system; which process is at an end of
    a pipe, which can be opened, and what its token answers.  [info_size] is
    the size the first [GetTokenInformation] leaves (0 when it fails),
    [token_sid] the SID in the structure the second one fills in, if it does.
    [local_alloc] picks an address, given those taken, or fails. *)
Class Security := {
  proc : Type;
  tok : Type;
  sid : Type;
  this_process : proc;
  process_by_id : Z -> option proc;
  pipe_client : Z -> option Z;
  pipe_server : Z -> option Z;
  process_token : proc -> option tok;
  info_size : tok -> TOKEN_INFORMATION_CLASS -> Z;
  token_sid : tok -> TOKEN_INFORMATION_CLASS -> option sid;
  sid_string : sid -> option (list Z);
  sub_authorities : sid -> list Z;
  local_alloc : gset Z -> Z -> option Z
}.

(** What is relied on: a block is somewhere else and not at NULL, and the SID of
    a mandatory label has a sub-authority, and at most the 15 any SID may. *)
Class SecurityOk `(S : Security) : Prop := {
  alloc_fresh X n a : local_alloc X n = Some a -> (a ∉ X) /\ a <> 0;
  label_levels t i : token_sid t TokenIntegrityLevel = Some i -> 1 <= len (sub_authorities i) <= 15
}.

Section Code.
Context {S : Security} {HP : Placement}.

(** What a handle is open on, and what is in a block of [LocalAlloc]'s. *)
Inductive object := Process (p : proc) | TokenOf (t : tok).
Inductive block := Blank (n : Z) | TokenSid (i : sid) | Text (t : list Z).
Record sys := Sys { handles : gmap Z object; blocks : gmap Z block }.
Implicit Types s : sys.

Definition open (o : object) s : Z * sys :=
  let h := place ({[-1]} ∪ dom (handles s)) in (h, Sys (<[h := o]> (handles s)) (blocks s)).

(** Closing what is not open, and freeing what is not there, are errors of
    the caller. *)
Definition CloseHandle (h : Z) s : outcome sys :=
  match handles s !! h with
  | Some _ => Ret (Sys (delete h (handles s)) (blocks s))
  | None => Undef
  end.

Definition LocalAlloc (b : block) (n : Z) s : Z * sys :=
  match local_alloc (dom (blocks s)) n with
  | Some a => (a, Sys (handles s) (<[a := b]> (blocks s)))
  | None => (0, s)
  end.

Definition LocalFree (a : Z) s : outcome sys :=
  match blocks s !! a with
  | Some _ => Ret (Sys (handles s) (delete a (blocks s)))
  | None => Undef
  end.

(** [OpenProcess(PROCESS_QUERY_LIMITED_INFORMATION, FALSE, pid)] *)
Definition OpenProcess (pid : Z) s : Z * sys :=
  match process_by_id pid with Some p => open (Process p) s | None => (0, s) end.

Definition GetCurrentProcess : Z := -1.

Definition process_at (h : Z) s : option proc :=
  if h =? GetCurrentProcess then Some this_process
  else match handles s !! h with Some (Process p) => Some p | _ => None end.

Definition OpenProcessToken (h : Z) s : outcome (option Z * sys) :=
  match process_at h s with
  | None => Undef
  | Some p =>
      match process_token p with
      | None => Ret (None, s)
      | Some t => let '(k, s) := open (TokenOf t) s in Ret (Some k, s)
      end
  end.

Definition token_at (h : Z) s : outcome tok :=
  match handles s !! h with Some (TokenOf t) => Ret t | _ => Undef end.

(** The two calls of [GetTokenInformation]: for the size, and to fill a block
    that has it. *)
Definition GetTokenInformation_size (h : Z) what s : outcome Z := t ← token_at h s; Ret (info_size t what).

Definition GetTokenInformation (h : Z) what (buf n : Z) s : outcome (bool * sys) :=
  t ← token_at h s;
  match blocks s !! buf with
  | Some (Blank m) =>
      if m <? n then Undef else
      match token_sid t what with
      | Some i => Ret (true, Sys (handles s) (<[buf := TokenSid i]> (blocks s)))
      | None => Ret (false, s)
      end
  | _ => Undef
  end.

(** The SID a block has, which points into it. *)
Definition sid_in (a : Z) s : outcome sid :=
  match blocks s !! a with Some (TokenSid i) => Ret i | _ => Undef end.

Definition ConvertSidToStringSidA (a : Z) s : outcome (bool * Z * sys) :=
  i ← sid_in a s;
  match sid_string i with
  | None => Ret (false, 0, s)
  | Some t => let '(p, s) := LocalAlloc (Text t) (strlen t + 1) s in Ret (negb (p =? 0), p, s)
  end.

Definition text_in (a : Z) s : outcome (list Z) :=
  match blocks s !! a with Some (Text t) => Ret (cstr t) | _ => Undef end.

Definition GetSidSubAuthorityCount (a : Z) s : outcome Z := i ← sid_in a s; Ret (len (sub_authorities i) mod 256).
Definition GetSidSubAuthority (a k : Z) s : outcome Z :=
  i ← sid_in a s;
  match sub_authorities i !! Z.to_nat k with Some v => Ret v | None => Undef end.

(** ** The functions *)

Definition token_info (h : Z) what s : outcome (Z * sys) :=
  need ← GetTokenInformation_size h what s;
  let '(buf, s) := if need =? 0 then (0, s) else LocalAlloc (Blank need) need s in
  if buf =? 0 then Ret (0, s) else
  '(ok, s) ← GetTokenInformation h what buf need s;
  if ok : bool then Ret (buf, s) else s ← LocalFree buf s; Ret (0, s).

(** The [arpc_identity] written to: 256 bytes for the SID, and the level. *)
Record ident := Ident { ident_sid : list Z; ident_integrity : Z }.
Definition zeroed : ident := Ident (replicate 256 0) 0.

(** [memcpy(out->sid, s, n + 1)] *)
Definition copy_sid (out : ident) (t : list Z) (n : Z) : outcome ident :=
  if n + 1 <=? 256
  then Ret (Ident (take (Z.to_nat (n + 1)) (t ++ [0]) ++ drop (Z.to_nat (n + 1)) (ident_sid out)) (ident_integrity out))
  else Undef.

(** The user's part. *)
Definition identity_user (h : Z) (out : ident) s : outcome (bool * ident * sys) :=
  '(tu, s) ← token_info h TokenUser s;
  if tu =? 0 then Ret (false, out, s) else
  '(got, p, s) ← ConvertSidToStringSidA tu s;
  '(ok, out, s) ←
    (if got && negb (p =? 0) then
       t ← text_in p s;
       let n := strlen t in
       '(ok, out) ← (if n <? 256 then out ← copy_sid out t n; Ret (true, out) else Ret (false, out));
       s ← LocalFree p s;
       Ret (ok, out, s)
     else Ret (false, out, s));
  s ← LocalFree tu s;
  Ret (ok, out, s).

(** The label's. *)
Definition identity_label (h : Z) (out : ident) s : outcome (bool * ident * sys) :=
  '(tml, s) ← token_info h TokenIntegrityLevel s;
  if tml =? 0 then Ret (false, out, s) else
  count ← GetSidSubAuthorityCount tml s;
  rid ← GetSidSubAuthority tml (u32 (count - 1)) s;
  s ← LocalFree tml s;
  Ret (true, Ident (ident_sid out) (u32 rid), s).

Definition arpc_process_identity (process : Z) s : outcome (bool * ident * sys) :=
  '(h, s) ← OpenProcessToken (if process =? 0 then GetCurrentProcess else process) s;
  match h with
  | None => Ret (false, zeroed, s)
  | Some h =>
      '(ok, out, s) ← identity_user h zeroed s;
      '(ok, out, s) ← (if ok : bool then identity_label h out s else Ret (ok, out, s));
      s ← CloseHandle h s;
      Ret (ok, out, s)
  end.

Definition arpc_peer_is (pipe : Z) (server_side : bool) (ours : ident) s : outcome (bool * sys) :=
  match (if server_side then pipe_client pipe else pipe_server pipe) with
  | None => Ret (false, s)
  | Some pid =>
      let '(h, s) := OpenProcess pid s in
      if h =? 0 then Ret (false, s) else
      '(ok, theirs, s) ← arpc_process_identity h s;
      let same := ok && streq (ident_sid theirs) (ident_sid ours) && (ident_integrity theirs =? ident_integrity ours) in
      s ← CloseHandle h s;
      Ret (same, s)
  end.

(** ** What they see *)

(** The block and the SID [token_info] comes back with, among the blocks [X]. *)
Definition info_at (X : gset Z) (t : tok) what : option (Z * sid) :=
  if info_size t what =? 0 then None else
  a ← local_alloc X (info_size t what); i ← token_sid t what; Some (a, i).

Definition user_seen (X : gset Z) (t : tok) : option (list Z) :=
  '(a, i) ← info_at X t TokenUser; str ← sid_string i; local_alloc ({[a]} ∪ X) (strlen str + 1) ≫= fun _ => Some str.

Definition label_seen (X : gset Z) (t : tok) : option Z :=
  '(_, i) ← info_at X t TokenIntegrityLevel; last (sub_authorities i).

(** The process as Wire.v takes it: what its token says, read from the state
    [s], in which an allocation may fail. *)
Definition token_seen s (p : proc) : option token :=
  t ← process_token p; Some (Token (user_seen (dom (blocks s)) t) (label_seen (dom (blocks s)) t)).

Definition peer_seen s (pipe : Z) (server_side : bool) : option (option token) :=
  pid ← (if server_side then pipe_client pipe else pipe_server pipe); p ← process_by_id pid; Some (token_seen s p).

Definition identity_of (o : ident) : arpc_identity := Identity (cstr (ident_sid o)) (ident_integrity o).
End Code.

Section Proofs.
Context {S : Security} {HP : Placement} {SO : SecurityOk S} {PO : PlacementOk HP}.
Implicit Types s : sys.

Lemma sys_eta s : Sys (handles s) (blocks s) = s.
Proof. by destruct s. Qed.

Lemma process_at_null h s p : process_at h s = Some p -> handles s !! 0 = None -> h <> 0.
Proof. unfold process_at. intros Hp Hn ->. cbn in Hp. by rewrite Hn in Hp. Qed.

(** ** Handles *)

(** A handle just opened is new; closing it takes it out again. *)
Lemma open_fresh (o : object) s :
  exists h, open o s = (h, Sys (<[h := o]> (handles s)) (blocks s)) /\ handles s !! h = None /\ h <> 0 /\ h <> -1.
Proof.
  eexists. split; [done|]. pose proof (place_fresh ({[-1]} ∪ dom (handles s))) as Hf.
  split_and!; [apply not_elem_of_dom; set_solver|apply place_not_null|set_solver].
Qed.

Lemma close_fresh h (o : object) (X : gmap Z object) b :
  X !! h = None -> CloseHandle h (Sys (<[h := o]> X) b) = Ret (Sys X b).
Proof. intros Hn. unfold CloseHandle. cbn [handles blocks]. by rewrite lookup_insert_eq, delete_insert_id. Qed.

(** ** Blocks *)

Lemma alloc_block (X : gmap Z block) n a : local_alloc (dom X) n = Some a -> X !! a = None /\ (a =? 0) = false.
Proof. intros [Hx Ha]%alloc_fresh. split; [by apply not_elem_of_dom|by apply Z.eqb_neq]. Qed.

Lemma free_fresh a (b : block) hs (X : gmap Z block) :
  X !! a = None -> LocalFree a (Sys hs (<[a := b]> X)) = Ret (Sys hs X).
Proof. intros Hn. unfold LocalFree. cbn [handles blocks]. by rewrite lookup_insert_eq, delete_insert_id. Qed.

(** What [token_info] leaves: a block with the SID, or nothing. *)
Lemma token_info_run h what s t :
  handles s !! h = Some (TokenOf t) ->
  token_info h what s =
    Ret match info_at (dom (blocks s)) t what with
        | Some (a, i) => (a, Sys (handles s) (<[a := TokenSid i]> (blocks s)))
        | None => (0, s)
        end.
Proof.
  intros Hh. unfold token_info, GetTokenInformation_size, GetTokenInformation, token_at, info_at. rewrite Hh, !bind_ret.
  destruct (info_size t what =? 0); [done|]. unfold LocalAlloc. destruct (local_alloc (dom (blocks s)) (info_size t what)) as [a|] eqn:Ea; [|done].
  destruct (alloc_block _ _ _ Ea) as [Hx ->]. cbn [handles blocks mbind option_bind].
  rewrite Hh, bind_ret, lookup_insert_eq, Z.ltb_irrefl.
  destruct (token_sid t what) as [i|]; rewrite bind_ret; cbn.
  - by rewrite insert_insert_eq.
  - by rewrite free_fresh, sys_eta by done.
Qed.

Lemma info_at_fresh (X : gmap Z block) t what a i :
  info_at (dom X) t what = Some (a, i) -> X !! a = None /\ (a =? 0) = false /\ token_sid t what = Some i.
Proof.
  unfold info_at. destruct (info_size t what =? 0); [done|]. destruct (local_alloc _ _) as [b|] eqn:Eb; [|done]. cbn.
  destruct (token_sid t what); [|done]. cbn. intros [= <- <-]. by destruct (alloc_block _ _ _ Eb).
Qed.

(** [copy_sid] has room, and what is there then is the string. *)
Lemma copy_sid_run out t :
  strlen t < 256 -> exists o, copy_sid out (cstr t) (strlen t) = Ret o /\ cstr (ident_sid o) = cstr t.
Proof.
  intros Hl. unfold copy_sid. destruct (Z.leb_spec (strlen t + 1) 256); [|lia]. eexists. split; [done|].
  cbn [ident_sid]. rewrite take_ge by (rewrite length_app; unfold strlen; cbn; lia).
  rewrite <- app_assoc. cbn [app]. by rewrite cstr_nul_app, cstr_idemp.
Qed.

(** ** The parts of an identity *)

(** The user's part keeps the state, and finds the user seen, if it fits. *)
Lemma identity_user_run h out s t :
  handles s !! h = Some (TokenOf t) ->
  exists ok o, identity_user h out s = Ret (ok, o, s) /\
    (if ok then Some (cstr (ident_sid o)) else None) =
    (str ← user_seen (dom (blocks s)) t; if strlen str <? 256 then Some (cstr str) else None).
Proof.
  intros Hh. unfold identity_user, user_seen. rewrite (token_info_run _ _ _ t), bind_ret by done.
  destruct (info_at _ t TokenUser) as [[a i]|] eqn:Ei; [|by eexists _, _].
  destruct (info_at_fresh _ _ _ _ _ Ei) as (Ha & -> & _). cbn [mbind option_bind].
  unfold ConvertSidToStringSidA, sid_in. cbn [handles blocks]. rewrite lookup_insert_eq, bind_ret.
  destruct (sid_string i) as [str|]; cbn [mbind option_bind].
  2: { rewrite !bind_ret. cbn [andb]. rewrite bind_ret, free_fresh, sys_eta by done. by eexists _, _. }
  unfold LocalAlloc. cbn [handles blocks]. rewrite dom_insert_L.
  destruct (local_alloc ({[a]} ∪ dom (blocks s)) (strlen str + 1)) as [b|] eqn:Eb; cbn [mbind option_bind].
  2: { rewrite !bind_ret. cbn [andb negb Z.eqb]. rewrite bind_ret, free_fresh, sys_eta by done. by eexists _, _. }
  rewrite <- dom_insert_L with (x := TokenSid i) in Eb. destruct (alloc_block _ _ _ Eb) as [Hb E0].
  rewrite bind_ret, E0. cbn [andb negb]. unfold text_in. cbn [handles blocks].
  rewrite lookup_insert_eq, bind_ret.
  assert (strlen (cstr str) = strlen str) as -> by (unfold strlen; by rewrite cstr_idemp).
  destruct (Z.ltb_spec (strlen str) 256) as [Hl|Hl].
  - destruct (copy_sid_run out str Hl) as (o & -> & Hc). rewrite !bind_ret.
    rewrite free_fresh, !bind_ret by done. rewrite free_fresh, bind_ret, sys_eta by done. eexists _, _. by rewrite Hc.
  - rewrite !bind_ret, free_fresh, !bind_ret, free_fresh, bind_ret, sys_eta by done. by eexists _, _.
Qed.

(** The last of a SID's sub-authorities is where the code looks for it. *)
Lemma last_level i :
  1 <= len (sub_authorities i) <= 15 ->
  exists v, sub_authorities i !! Z.to_nat (u32 (len (sub_authorities i) mod 256 - 1)) = Some v /\
    last (sub_authorities i) = Some v.
Proof.
  intros Hl. rewrite Z.mod_small, u32_small, last_lookup by lia.
  replace (Z.to_nat _) with (pred (length (sub_authorities i))) by lia.
  destruct (lookup_lt_is_Some_2 (sub_authorities i) (pred (length (sub_authorities i)))) as [v Hv]; [lia|].
  rewrite Hv. by exists v.
Qed.

Lemma identity_label_run h out s t :
  handles s !! h = Some (TokenOf t) ->
  exists ok o, identity_label h out s = Ret (ok, o, s) /\ ident_sid o = ident_sid out /\
    (if ok then Some (ident_integrity o) else None) = u32 <$> label_seen (dom (blocks s)) t.
Proof.
  intros Hh. unfold identity_label, label_seen. rewrite (token_info_run _ _ _ t), bind_ret by done.
  destruct (info_at _ t TokenIntegrityLevel) as [[a i]|] eqn:Ei; [|by eexists _, _].
  destruct (info_at_fresh _ _ _ _ _ Ei) as (Ha & -> & Hi). cbn [mbind option_bind].
  unfold GetSidSubAuthorityCount, GetSidSubAuthority, sid_in. cbn [blocks]. rewrite lookup_insert_eq, !bind_ret.
  destruct (last_level i (label_levels _ _ Hi)) as (v & -> & ->).
  rewrite bind_ret, free_fresh, bind_ret, sys_eta by done. by eexists _, _.
Qed.

(** ** The functions *)

Lemma identity_run process s p :
  process_at (if process =? 0 then GetCurrentProcess else process) s = Some p ->
  exists ok out, arpc_process_identity process s = Ret (ok, out, s) /\
    (if ok then Some (identity_of out) else None) = Wire.arpc_process_identity (token_seen s p).
Proof.
  intros Hp. unfold arpc_process_identity, OpenProcessToken, token_seen. rewrite Hp.
  destruct (process_token p) as [t|]; [|by eexists _, _]. cbn [mbind option_bind].
  destruct (open_fresh (TokenOf t) s) as (h & -> & Hn & _). rewrite bind_ret.
  set (s1 := Sys (<[h := TokenOf t]> (handles s)) (blocks s)).
  assert (Hh : handles s1 !! h = Some (TokenOf t)) by (cbn; apply lookup_insert_eq).
  assert (Hc : CloseHandle h s1 = Ret s) by (unfold s1; by rewrite close_fresh, sys_eta).
  cbn [Wire.arpc_process_identity tok_user tok_label].
  destruct (identity_user_run h zeroed s1 t Hh) as (ok & o & -> & Hu). rewrite bind_ret. cbn [blocks s1] in Hu.
  destruct (user_seen _ t) as [str|]; cbn [mbind option_bind] in Hu.
  2: { destruct ok; [done|]. rewrite bind_ret, Hc. by eexists _, _. }
  destruct (strlen str <? 256), ok; try done.
  2: { rewrite bind_ret, Hc. by eexists _, _. }
  injection Hu as Hu. destruct (identity_label_run h o s1 t Hh) as (ok & o' & -> & Hs & Hl). rewrite bind_ret, Hc.
  eexists _, _. split; [done|]. cbn [blocks s1] in Hl.
  destruct (label_seen _ t), ok; cbn in Hl; try done. injection Hl as Hl. unfold identity_of. by rewrite Hs, Hu, Hl.
Qed.

(** A process is opened with a handle that stands for it. *)
Lemma process_at_open p s h b :
  h <> 0 -> h <> -1 ->
  process_at (if h =? 0 then GetCurrentProcess else h) (Sys (<[h := Process p]> (handles s)) b) = Some p.
Proof.
  intros H0 H1. unfold process_at, GetCurrentProcess. destruct (Z.eqb_spec h 0); [done|].
  destruct (Z.eqb_spec h (-1)); [done|]. cbn [handles]. by rewrite lookup_insert_eq.
Qed.

(** C17. The identity check of the code implements the one the rest is written
    with.  Asked for the identity of a process it has a handle of, or of its
    own, [arpc_process_identity] answers what Wire.v computes from the token of
    that process, [out] being filled when it answers 1; asked whether the
    other end of a pipe is [ours], [arpc_peer_is] answers what Wire.v computes
    from the token of the process found there.  And whatever fails on the way
    (an allocation, the size, the contents, the string, a SID too long, a token
    or a process that does not open) every block is freed and every handle
    closed, once: the state is the one before. *)
Theorem identity_implemented s :
  (forall process p, process_at (if process =? 0 then GetCurrentProcess else process) s = Some p ->
    exists ok out, arpc_process_identity process s = Ret (ok, out, s) /\
      (if ok then Some (identity_of out) else None) = Wire.arpc_process_identity (token_seen s p)) /\
  (forall pipe server_side ours,
    arpc_peer_is pipe server_side ours s =
      Ret (Wire.arpc_peer_is (peer_seen s pipe server_side) (identity_of ours), s)).
Proof.
  split; [intros process p; by apply identity_run|]. intros pipe side ours. unfold arpc_peer_is, peer_seen.
  destruct (if side then pipe_client pipe else pipe_server pipe) as [pid|]; [|done]. cbn [mbind option_bind].
  unfold OpenProcess. destruct (process_by_id pid) as [p|]; [|done]. cbn [mbind option_bind].
  destruct (open_fresh (Process p) s) as (h & -> & Hn & H0 & H1). rewrite (proj2 (Z.eqb_neq h 0)) by done.
  destruct (identity_run h _ p (process_at_open p s h (blocks s) H0 H1)) as (ok & o & -> & Ho). rewrite bind_ret.
  rewrite close_fresh, bind_ret, sys_eta by done. do 2 f_equal.
  change (token_seen (Sys _ _) p) with (token_seen s p) in Ho. cbn [Wire.arpc_peer_is]. rewrite <- Ho.
  destruct ok; [|done]. unfold identity_of, streq. cbn [id_sid id_integrity andb]. by rewrite !cstr_idemp.
Qed.
End Proofs.

(** ** A small system *)

(** Processes 1 (this one), 2 (of the same user and level), 3 (elevated) and 4
    (whose token has no label to read); pipe [n] leads to process [n]. *)
Definition toy_security : Security := {|
  proc := Z; tok := Z; sid := list Z * list Z;
  this_process := 1;
  process_by_id pid := if (1 <=? pid) && (pid <=? 4) then Some pid else None;
  pipe_client := Some; pipe_server := Some;
  process_token := Some;
  info_size _ _ := 44;
  token_sid t what :=
    match what with
    | TokenUser => Some (lit "S-1-5-21-7", [21; 7])
    | TokenIntegrityLevel => if t =? 4 then None else Some (lit "S-1-16", [if t =? 3 then 12288 else 8192])
    end;
  sid_string i := Some i.1;
  sub_authorities i := i.2;
  local_alloc X n := Some (place (Placement:=Chain.above) X)
|}.

#[export] Instance toy_security_ok : SecurityOk toy_security.
Proof.
  split; cbn.
  - intros X n a [= <-]. split; [apply (place_fresh (P:=Chain.above))|apply (place_not_null (P:=Chain.above))].
  - intros t i. destruct (t =? 4); intros [= <-]. cbn. lia.
Qed.

(** A block and a handle that were there before. *)
Definition toy_sys : @sys toy_security := Sys {[4096 := Process (S:=toy_security) 2]} {[4097 := Text (lit "x")]}.

Definition toy_ours : ident :=
  match arpc_process_identity (S:=toy_security) (HP:=Chain.above) 0 toy_sys with Ret (_, o, _) => o | _ => zeroed end.

Lemma identity_implemented_witness :
  (exists o, arpc_process_identity (S:=toy_security) (HP:=Chain.above) 0 toy_sys = Ret (true, o, toy_sys)) /\
  arpc_peer_is (S:=toy_security) (HP:=Chain.above) 2 true toy_ours toy_sys = Ret (true, toy_sys) /\
  arpc_peer_is (S:=toy_security) (HP:=Chain.above) 3 false toy_ours toy_sys = Ret (false, toy_sys) /\
  arpc_peer_is (S:=toy_security) (HP:=Chain.above) 4 true toy_ours toy_sys = Ret (false, toy_sys) /\
  arpc_peer_is (S:=toy_security) (HP:=Chain.above) 5 true toy_ours toy_sys = Ret (false, toy_sys).
Proof.
  destruct (identity_implemented (S:=toy_security) (HP:=Chain.above) toy_sys) as [H1 H2]. split.
  - destruct (H1 0 1 eq_refl) as (ok & o & E & Ho). exists o. rewrite E. destruct ok; [reflexivity|].
    exfalso. revert Ho. vm_compute. discriminate.
  - split; [|split; [|split]]; rewrite H2; f_equal; f_equal; vm_compute; reflexivity.
Defined.
