(* ===== verification/Blocks.v ===== *)
(** * The blocks of texts and documents: who frees them

    The frames that are received, the buffers of writers and the nodes and
    strings of parsed documents are blocks of malloc's that one function
    hands to another until one of them frees it.  The other files hold their
    contents only.  Here is the heap they are blocks of, as the set of the
    addresses that are taken, with the functions of src/common/arpc_json.c
    that take and free: freeing what is not there, and reading what was freed,
    are undefined.  ClientBlocks.v and ServerBlocks.v go through the call
    cycle and the service of a request with it. *)

From S2P Require Import Prelude Json JsonWriter JsonReader Uthash.

(** What a text that does not parse leaves in the document: whether there are
    nodes, and a string buffer.  The parser of JsonReader.v does not say, so
    it may be anything here. *)
Class Leftovers := { left_nodes : list Z -> bool; left_sbuf : list Z -> bool }.

Section Blocks.
Context {A : Allocator} {P : Placement} {L : Leftovers}.

Abbreviation heap := (gset Z).

(** [malloc] where it is granted, and [free], of NULL too. *)
Definition block_malloc (h : heap) : Z * heap := let a := place h in (a, {[a]} ∪ h).
Definition block_free (a : Z) (h : heap) : outcome heap :=
  if a =? 0 then Ret h else if decide (a ∈ h) then Ret (h ∖ {[a]}) else Undef.

(** A block if there is one to have, else NULL. *)
Definition block_if (b : bool) (h : heap) : Z * heap := if b then block_malloc h else (0, h).

(** ** Texts *)

Record text := Text { text_at : Z; text_bytes : list Z }.

Definition read_text (t : text) (h : heap) : outcome (list Z) :=
  if decide (text_at t ∈ h) then Ret (text_bytes t) else Undef.

(** ** Documents *)

Record document := Document { doc : aj_doc; nodes_at : Z; sbuf_at : Z }.

Definition doc_blocks (d : document) : heap :=
  (if nodes_at d =? 0 then ∅ else {[nodes_at d]}) ∪ (if sbuf_at d =? 0 then ∅ else {[sbuf_at d]}).

(** What is read of a document, while its blocks are there. *)
Definition read_doc {X} (d : document) (h : heap) (f : aj_doc -> outcome X) : outcome X :=
  if decide (doc_blocks d ⊆ h) then f (doc d) else Undef.

(** [aj_parse]: whether it parsed, and the document, which has blocks to free
    in either case. *)
Definition aj_parse (t : list Z) (h : heap) : outcome (bool * document * heap) :=
  let made ok d ns ss :=
    let '(n, h) := block_if ns h in let '(s, h) := block_if ss h in Ret (ok, Document d n s, h) in
  match JsonReader.aj_parse t with
  | Ret d => made true d (negb (d_cap d =? 0)) (negb (d_scap d =? 0))
  | Fail => made false doc0 (left_nodes t) (left_sbuf t)
  | Undef => Undef
  | NoFuel => NoFuel
  end.

Definition aj_free (d : document) (h : heap) : outcome heap :=
  h ← block_free (nodes_at d) h; block_free (sbuf_at d) h.

(** ** Writers *)

Record writer := Writer { writer_w : aj_w; writer_at : Z }.

(** The buffer after writes that took the capacity from [cap] to [cap']:
    [realloc] moved it, if it grew. *)
Definition grow (a cap cap' : Z) (h : heap) : outcome (Z * heap) :=
  if cap' =? cap then Ret (a, h) else h ← block_free a h; Ret (block_malloc h).

(** Writes, from the writer's state to another. *)
Definition write (w : writer) (f : aj_w -> outcome aj_w) (h : heap) : outcome (writer * heap) :=
  w' ← f (writer_w w);
  '(a, h) ← grow (writer_at w) (w_cap (writer_w w)) (w_cap w') h;
  Ret (Writer w' a, h).

(** A writer just initialised. *)
Definition writer0 : writer := Writer ajw_init 0.

Definition ajw_free (w : writer) (h : heap) : outcome heap := block_free (writer_at w) h.

(** What is read of the buffer. *)
Definition read_writer (w : writer) (h : heap) : outcome (list Z) :=
  if (writer_at w =? 0) || bool_decide (writer_at w ∈ h) then Ret (w_buf (writer_w w)) else Undef.
End Blocks.

(** ** What they come to *)

(** [m] comes to an end as [s] does, with a result that is related to the
    other's. *)
Definition same {X Y} (R : X -> Y -> Prop) (m : outcome X) (s : outcome Y) : Prop :=
  match m, s with
  | Ret x, Ret y => R x y
  | Fail, Fail | Undef, Undef | NoFuel, NoFuel => True
  | _, _ => False
  end.

Lemma same_bind {X Y X' Y'} (R : X -> Y -> Prop) (Q : X' -> Y' -> Prop) m s f g :
  same R m s -> (forall x y, R x y -> same Q (f x) (g y)) -> same Q (m ≫= f) (s ≫= g).
Proof. destruct m, s; cbn; auto; done. Qed.

Lemma same_eq {X Y} (m : outcome X) (s : outcome Y) (f : Y -> X) : same (fun x y => x = f y) m s -> m = (y ← s; Ret (f y)).
Proof. destruct m, s; cbn; by intros; subst. Qed.

Lemma eq_same {X Y} (m : outcome X) (s : outcome Y) (f : Y -> X) : m = (y ← s; Ret (f y)) -> same (fun x y => x = f y) m s.
Proof. intros ->. by destruct s. Qed.

Lemma bind_assoc {X Y Z} (m : outcome X) (f : X -> outcome Y) (g : Y -> outcome Z) : ((m ≫= f) ≫= g) = (m ≫= fun x => f x ≫= g).
Proof. by destruct m. Qed.

Lemma same_refl {X} (m : outcome X) : same eq m m.
Proof. by destruct m. Qed.

(** A function that leaves the heap as it was. *)
Definition keeps {S X} (m : outcome (S * X)) (h : gset Z) : outcome (S * X * gset Z) :=
  '(s, r) ← m; Ret (s, r, h).

(** One that hands over a text in a block that is new. *)
Definition hands `{Placement} {S} (m : outcome (S * option (list Z))) (h : gset Z) : outcome (S * option text * gset Z) :=
  '(s, r) ← m;
  match r with
  | None => Ret (s, None, h)
  | Some t => let '(a, h) := block_malloc h in Ret (s, Some (Text a t), h)
  end.

(** [keeps], as a relation. *)
Definition kept {S X} (h : gset Z) (x : S * X * gset Z) (y : S * X) : Prop := x = (y, h).

Lemma kept_keeps {S X} (m : outcome (S * X * gset Z)) s h : same (kept h) m s <-> m = keeps s h.
Proof. unfold kept, keeps. destruct s as [[c r]| | |], m; cbn; (split; intros E; by simplify_eq). Qed.

Section Facts.
Context {A : Allocator} {P : Placement} {PO : PlacementOk P} {L : Leftovers}.
Implicit Types h : gset Z.

Lemma block_free_run a h : a <> 0 -> a ∈ h -> block_free a h = Ret (h ∖ {[a]}).
Proof. intros H0 Hin. unfold block_free. destruct (Z.eqb_spec a 0); [done|]. by rewrite decide_True. Qed.

Lemma block_malloc_run h : exists a, block_malloc h = (a, {[a]} ∪ h) /\ (a ∉ h) /\ a <> 0.
Proof. exists (place h). split_and!; [done|apply place_fresh|apply place_not_null]. Qed.

(** A block just made can be freed again. *)
Lemma block_free_fresh a h : a ∉ h -> a <> 0 -> block_free a ({[a]} ∪ h) = Ret h.
Proof. intros Hn H0. rewrite block_free_run by set_solver. f_equal. apply set_eq. set_solver. Qed.

(** The blocks of a document were not in the heap before it, and are two. *)
Definition fresh_doc (d : document) h : Prop :=
  doc_blocks d ## h /\ (nodes_at d = sbuf_at d -> nodes_at d = 0).

(** [aj_parse] adds the document's blocks to the heap, and nothing else. *)
Lemma aj_parse_run t h :
  match JsonReader.aj_parse t with
  | Ret d => exists d', aj_parse t h = Ret (true, d', doc_blocks d' ∪ h) /\ doc d' = d /\ fresh_doc d' h
  | Fail => exists d', aj_parse t h = Ret (false, d', doc_blocks d' ∪ h) /\ fresh_doc d' h /\
              (left_nodes t = true -> nodes_at d' <> 0)
  | Undef => aj_parse t h = Undef
  | NoFuel => aj_parse t h = NoFuel
  end.
Proof.
  assert (Hm : forall d (ns ss : bool) (ok : bool), exists d',
    (let '(n, h) := block_if ns h in let '(s, h) := block_if ss h in Ret (ok, Document d n s, h)) = Ret (ok, d', doc_blocks d' ∪ h) /\
    doc d' = d /\ fresh_doc d' h /\ (ns = true -> nodes_at d' <> 0)).
  { intros d ns ss ok. unfold block_if.
    destruct ns; [destruct (block_malloc_run h) as (a & -> & Ha & Ha0)|].
    all: destruct ss; [destruct (block_malloc_run ({[a]} ∪ h)) as (b & -> & Hb & Hb0) ||
                       destruct (block_malloc_run h) as (b & -> & Hb & Hb0)|].
    all: eexists; split; [do 2 f_equal|split; [done|split; [|done]]]; unfold fresh_doc, doc_blocks; cbn [nodes_at sbuf_at].
    all: repeat match goal with |- context [?x =? 0] => destruct (Z.eqb_spec x 0); [done|] end.
    all: cbn [Z.eqb]; try (apply set_eq; set_solver); split; set_solver. }
  unfold aj_parse. destruct (JsonReader.aj_parse t) as [d| | |]; [| |done..].
  - destruct (Hm d (negb (d_cap d =? 0)) (negb (d_scap d =? 0)) true) as (d' & E & Hd & Hf & _). by exists d'.
  - destruct (Hm doc0 (left_nodes t) (left_sbuf t) false) as (d' & E & _ & Hf & Hn). by exists d'.
Qed.

Lemma aj_free_run d h :
  (exists h0, fresh_doc d h0) -> doc_blocks d ⊆ h -> aj_free d h = Ret (h ∖ doc_blocks d).
Proof.
  intros (h0 & _ & Hd). unfold doc_blocks, aj_free. intros Hs.
  destruct (Z.eqb_spec (nodes_at d) 0) as [E|Hn], (Z.eqb_spec (sbuf_at d) 0) as [E'|Hs'].
  - rewrite E, E'. cbn. f_equal. apply set_eq. set_solver.
  - rewrite E. cbn. rewrite block_free_run by set_solver. f_equal. apply set_eq. set_solver.
  - rewrite E', block_free_run by set_solver. cbn. f_equal. apply set_eq. set_solver.
  - rewrite block_free_run by set_solver. cbn. rewrite block_free_run by set_solver. f_equal. apply set_eq. set_solver.
Qed.
End Facts.

Section Run.
Context {A : Allocator} {P : Placement} {PO : PlacementOk P} {L : Leftovers}.
Implicit Types h : gset Z.

(** The heap is [h0] and the block at [a], if [a] is one. *)
Definition at_blocks (a : Z) : gset Z := if a =? 0 then ∅ else {[a]}.
Definition holds (a : Z) h0 h : Prop := h = at_blocks a ∪ h0 /\ at_blocks a ## h0.

Lemma holds_null h : holds 0 h h.
Proof. unfold holds, at_blocks. cbn [Z.eqb]. split; [apply set_eq|]; set_solver. Qed.

Lemma holds_null_inv h0 h : holds 0 h0 h -> h = h0.
Proof. intros [-> _]. apply set_eq. unfold at_blocks. cbn [Z.eqb]. set_solver. Qed.

Lemma holds_free a h0 h : holds a h0 h -> block_free a h = Ret h0.
Proof.
  intros [-> Hd]. unfold at_blocks in *. destruct (Z.eqb_spec a 0) as [->|Ha].
  - cbn. f_equal. apply set_eq. set_solver.
  - apply block_free_fresh; [set_solver|done].
Qed.

Lemma holds_grow a cap cap' h0 h :
  holds a h0 h -> exists a' h', grow a cap cap' h = Ret (a', h') /\ holds a' h0 h'.
Proof.
  intros Hh. unfold grow. destruct (cap' =? cap); [by eauto|]. rewrite (holds_free _ _ _ Hh). cbn.
  destruct (block_malloc_run h0) as (b & -> & Hb & Hb0). eexists _, _. split; [done|]. unfold holds, at_blocks.
  destruct (Z.eqb_spec b 0); [done|]. split; set_solver.
Qed.

Lemma holds_read w h0 h : holds (writer_at w) h0 h -> read_writer w h = Ret (w_buf (writer_w w)).
Proof.
  intros [-> _]. unfold read_writer, at_blocks. destruct (writer_at w =? 0); [done|]. cbn.
  by rewrite bool_decide_true by set_solver.
Qed.

(** A document freed under a block that was made after it. *)
Lemma holds_free_doc a d h0 h :
  fresh_doc d h0 -> holds a (doc_blocks d ∪ h0) h -> exists h', aj_free d h = Ret h' /\ holds a h0 h'.
Proof.
  intros Hf [-> Ha]. rewrite aj_free_run by (eauto || set_solver). eexists. split; [done|]. destruct Hf as [Hf _].
  split; [|set_solver]. apply set_eq. set_solver.
Qed.

Lemma holds_free_under a b h0 h :
  b ∉ h0 -> b <> 0 -> holds a ({[b]} ∪ h0) h -> exists h', block_free b h = Ret h' /\ holds a h0 h'.
Proof.
  intros Hb H0 [-> Ha]. rewrite block_free_run by (done || set_solver). eexists. split; [done|].
  split; [|set_solver]. apply set_eq. set_solver.
Qed.

Lemma read_doc_run {X} d h (f : aj_doc -> outcome X) : doc_blocks d ⊆ h -> read_doc d h f = f (doc d).
Proof. intros. unfold read_doc. by rewrite decide_True. Qed.

Lemma read_text_run t h : text_at t ∈ h -> read_text t h = Ret (text_bytes t).
Proof. intros. unfold read_text. by rewrite decide_True. Qed.

(** Writes into a writer that holds its block. *)
Lemma write_run w f h0 h :
  holds (writer_at w) h0 h ->
  same (fun '(w', h') v => writer_w w' = v /\ holds (writer_at w') h0 h') (write w f h) (f (writer_w w)).
Proof.
  intros Hh. unfold write. destruct (f (writer_w w)) as [w'| | |]; [|done..]. cbn.
  destruct (holds_grow _ (w_cap (writer_w w)) (w_cap w') _ _ Hh) as (a' & h' & -> & Hh'). done.
Qed.

(** A block freed under a document that was made after it. *)
Lemma free_beneath b d h :
  fresh_doc d ({[b]} ∪ h) -> b ∉ h -> b <> 0 -> block_free b (doc_blocks d ∪ ({[b]} ∪ h)) = Ret (doc_blocks d ∪ h).
Proof.
  intros [Hd _] Hb H0. rewrite block_free_run by (done || set_solver). f_equal. apply set_eq. set_solver.
Qed.

Lemma holds_free_beneath a d h0 h :
  holds a h0 h -> doc_blocks d ## h -> block_free a (doc_blocks d ∪ h) = Ret (doc_blocks d ∪ h0).
Proof.
  intros [-> Ha] Hd. unfold at_blocks in *. destruct (Z.eqb_spec a 0) as [->|H0].
  - cbn [block_free Z.eqb]. unfold block_free. cbn [Z.eqb]. f_equal. apply set_eq. set_solver.
  - rewrite block_free_run by (done || set_solver). f_equal. apply set_eq. set_solver.
Qed.

(** Nothing but the document is left on the heap. *)
Lemma aj_free_last d h : fresh_doc d h -> aj_free d (doc_blocks d ∪ h) = Ret h.
Proof.
  intros Hf. rewrite aj_free_run by (eauto || set_solver). destruct Hf as [Hf _]. f_equal. apply set_eq. set_solver.
Qed.

(** Writes into a writer just initialised: it has a block if it has room. *)
Lemma write0_run f h :
  same (fun '(w', h') v => writer_w w' = v /\ holds (writer_at w') h h' /\ (writer_at w' =? 0) = (w_cap v =? 0))
    (write writer0 f h) (f ajw_init).
Proof.
  unfold write, grow. cbn [writer0 writer_w writer_at ajw_init w_cap]. destruct (f _) as [w| | |]; [|done..]. cbn [mbind outcome_bind].
  destruct (Z.eqb_spec (w_cap w) 0) as [E|E].
  - cbn. rewrite E. split_and!; [done|apply holds_null|done].
  - cbn [block_free Z.eqb mbind outcome_bind]. unfold block_free. cbn [Z.eqb mbind outcome_bind].
    destruct (block_malloc_run h) as (a & -> & Ha & Ha0). cbn. unfold holds, at_blocks.
    destruct (Z.eqb_spec a 0), (Z.eqb_spec (w_cap w) 0); try done. split_and!; [done|done|set_solver|done].
Qed.

(** A block freed under one that was made after it. *)
Lemma holds_free_below a b h0 h1 h :
  holds b h0 h1 -> holds a h1 h -> exists h', block_free b h = Ret h' /\ holds a h0 h'.
Proof.
  intros [-> Hb] [-> Ha]. destruct (Z.eqb_spec b 0) as [->|H0].
  - eexists. split; [done|]. change (at_blocks 0) with (∅ : gset Z) in *. rewrite union_empty_l_L in *. done.
  - assert (E : at_blocks b = {[b]}) by (unfold at_blocks; by apply Z.eqb_neq in H0 as ->). rewrite E in *.
    rewrite block_free_run by (done || set_solver). eexists. split; [done|].
    split; [|set_solver]. apply set_eq. set_solver.
Qed.

Lemma holds_block a h0 h : a <> 0 -> holds a h0 h -> h = {[a]} ∪ h0 /\ a ∉ h0.
Proof.
  intros Ha [-> Hd]. assert (E : at_blocks a = {[a]}) by (unfold at_blocks; by apply Z.eqb_neq in Ha as ->).
  rewrite E in *. split; [done|set_solver].
Qed.

(** What is new on a heap makes it another. *)
Lemma new_blocks (D h : gset Z) : D ## h -> D <> ∅ -> D ∪ h <> h.
Proof. intros Hd Hn E. apply Hn, set_eq. set_solver. Qed.
End Run.
