(* ===== verification/ServerBlocks.v ===== *)
(** * The blocks of a service: arpc_server.c, arpc_callbacks.c and main.c of src/server

    The service of requests with the heap of Blocks.v: the frames received,
    their documents, the writers of callbacks and replies, the object a
    handler builds, and the reply that is handed up to be sent and freed.
    What each function does to the server is what it does in Dispatch.v and
    Connection.v; what is added is which block is whose.  Blocks that a function
    takes and frees itself are not followed here: those of the base64 coder and
    of the mtree. *)

From S2P Require Import Prelude Json JsonWriter JsonReader Base64 Wire CbRegistry.
From S2P Require Import HandleTable Paths Gpgdir Lookup Server Mtree Dispatch DispatchTheorems.
From S2P Require Import Connection Uthash Blocks.

(** ** The functions *)

(** A response, with the block of its writer. *)
Record response := Response { res_of : arpc_res; out_at : Z }.

Definition cb_sender (W H : Type) : Type :=
  Z -> Z -> option aj_w -> Z -> server W H -> gset Z -> outcome (server W H * Z * gset Z).
(** [arpc_conn_exchange]: the answer is the caller's to free. *)
Definition exchanger (W H : Type) : Type :=
  list Z -> server W H -> gset Z -> outcome (server W H * option text * gset Z).
(** What [arpc_method.fn] is: it has the request's document for as long as it
    runs, and leaves what it built. *)
Definition handler (W H : Type) : Type :=
  cb_sender W H -> document -> arpc_req -> server W H -> gset Z -> outcome (server W H * arpc_req * response * gset Z).

(** The generated [arpc_methods]. *)
Class MethodBlocks (W H : Type) := { arpc_methods : list (list Z * handler W H) }.

Section Code.
Context {A : Allocator} {P : Placement} {L : Leftovers} {T : Tags} {W H : Type}
  {HP : Gpgme W} {R : Archive W} {GEN : Generated W H} {MB : MethodBlocks W H} {HO : HandleOps H}.
Implicit Types (s : server W H) (h : gset Z).

(** ** Replies *)

(** [finish]: the buffer is handed on, or freed. *)
Definition finish (w : writer) h : outcome (option text * gset Z) :=
  if w_err (writer_w w) then h ← ajw_free w h; Ret (None, h)
  else if w_cap (writer_w w) =? 0 then Ret (None, h)
  else Ret (Some (Text (writer_at w) (w_buf (writer_w w))), h).

Definition reply_error (id code : Z) (msg : list Z) h : outcome (option text * gset Z) :=
  '(w, h) ← write writer0 (fun w =>
    w ← ajw_obj_begin w;
    w ← ajw_key w (lit "id"); w ← ajw_i64 w id;
    w ← ajw_key w (lit "error"); w ← ajw_obj_begin w;
    w ← ajw_key w (lit "code"); w ← ajw_i64 w code;
    w ← ajw_key w (lit "message"); w ← ajw_str w (Some msg);
    w ← ajw_obj_end w;
    ajw_obj_end w) h;
  finish w h.

Definition reply_shutdown (id : Z) h : outcome (option text * gset Z) :=
  '(w, h) ← write writer0 (fun w =>
    w ← ajw_obj_begin w;
    w ← ajw_key w (lit "id"); w ← ajw_i64 w id;
    w ← ajw_key w (lit "result"); w ← ajw_obj_begin w;
    w ← ajw_key w ARPC_RET_KEY; w ← ajw_i64 w 0;
    w ← ajw_obj_end w;
    ajw_obj_end w) h;
  finish w h.

(** Writes to what a handler built. *)
Definition on_res (rb : response) (f : arpc_res -> outcome arpc_res) h : outcome (response * gset Z) :=
  rs ← f (res_of rb);
  '(a, h) ← grow (out_at rb) (w_cap (rs_out (res_of rb))) (w_cap (rs_out rs)) h;
  Ret (Response rs a, h).

(** The reply around it, which is read from its buffer. *)
Definition reply_result (id : Z) (rb : response) h : outcome (option text * response * gset Z) :=
  '(rb, h) ← on_res rb (fun rs =>
    rs ← ensure_obj rs;
    rs ← (if rs_has_ret rs then Ret rs else arpc_ret_null rs);
    on_out rs ajw_obj_end) h;
  b ← read_writer (Writer (rs_out (res_of rb)) (out_at rb)) h;
  '(w, h) ← write writer0 (fun w =>
    w ← ajw_obj_begin w;
    w ← ajw_key w (lit "id"); w ← ajw_i64 w id;
    '(w, _) ← ajw_reserve w (len b + 2);
    w ← ajw_key w (lit "result");
    w ← ajw_raw w b;
    ajw_obj_end w) h;
  '(out, h) ← finish w h;
  Ret (out, rb, h).

(** ** Dispatch *)

(** The infrastructure methods raise no callback. *)
Definition builtin (fn : Dispatch.handler W H) : handler W H := fun _ _ rq s h =>
  '(s, rq, rs) ← fn (fun _ _ _ dflt s => Ret (s, dflt)) rq res0 s;
  '(a, h) ← grow 0 0 (w_cap (rs_out rs)) h;
  Ret (s, rq, Response rs a, h).

Definition builtins : list (list Z * handler W H) :=
  [(lit "arpc.set_path_style", builtin arpc_set_path_style);
   (lit "arpc.set_callback", builtin arpc_cb_set);
   (lit "arpc.mtree", builtin mtree_method)].

Fixpoint find_builtin (l : list (list Z * handler W H)) (method : list Z) : option (handler W H) :=
  match l with
  | [] => None
  | (name, fn) :: l => if streq name method then Some fn else find_builtin l method
  end.

Definition find_method (method : list Z) : outcome (option (handler W H)) :=
  match find_builtin builtins method with
  | Some fn => Ret (Some fn)
  | None =>
      i ← bsearch (method_cmp method) Dispatch.arpc_methods;
      match i with
      | None => Ret None
      | Some i => match arpc_methods !! i with Some (_, fn) => Ret (Some fn) | None => Undef end
      end
  end.

(** What the answer [d] to the callback [seq] says. *)
Definition answer_value (d : aj_doc) (seq dflt : Z) : outcome Z :=
  c ← aj_member d 0 (lit "cbseq");
  if aj_i64 d c (-1) =? seq then r ← aj_member d 0 ARPC_RET_KEY; Ret (aj_i64 d r dflt) else Ret dflt.

Definition arpc_cb_send (xchg : exchanger W H) : cb_sender W H := fun kind handle args dflt s h =>
  match sv_conn s with
  | None => Ret (s, dflt, h)
  | Some _ =>
      let seq := sv_seq s in
      s ← (if seq =? i64_max then Undef else Ret (set_seq s (seq + 1)));
      name ← (if kind <? 0 then Undef
              else match arpc_cb_kinds !! Z.to_nat kind with Some n => Ret n | None => Undef end);
      '(w, h) ← write writer0 (fun _ => cb_frame name seq handle args) h;
      if w_err (writer_w w) then h ← ajw_free w h; Ret (s, dflt, h)
      else
        b ← read_writer w h;
        '(s, reply, h) ← xchg b s h;
        h ← ajw_free w h;
        match reply with
        | None => Ret (s, dflt, h)
        | Some reply =>
            t ← read_text reply h;
            '(ok, d, h) ← aj_parse (cstr t) h;
            r ← (if ok : bool then read_doc d h (fun d => answer_value d seq dflt) else Ret dflt);
            h ← aj_free d h; h ← block_free (text_at reply) h;
            Ret (s, r, h)
        end
  end.

(** [arpc_handle_parsed], which frees the document. *)
Definition arpc_handle_parsed (xchg : exchanger W H) (d : document) s h : outcome (server W H * option text * gset Z) :=
  i ← read_doc d h (fun d => aj_member d 0 (lit "id"));
  let id := aj_i64 (doc d) i 0 in
  m ← read_doc d h (fun d => aj_member d 0 (lit "method"));
  params ← read_doc d h (fun d => aj_member d 0 (lit "params"));
  match aj_str (doc d) m with
  | None => h ← aj_free d h; '(r, h) ← reply_error id ARPC_E_INVALID_REQ (lit "missing method") h; Ret (s, r, h)
  | Some method =>
      if streq method (lit "arpc.shutdown") then
        h ← aj_free d h; '(r, h) ← reply_shutdown id h; Ret (set_shutdown s, r, h)
      else
        m ← read_doc d h (fun _ => find_method method);
        match m with
        | None =>
            msg ← read_doc d h (fun _ => Ret (take 255 (lit "no such method: " ++ cstr method)));
            h ← aj_free d h; '(r, h) ← reply_error id ARPC_E_NO_METHOD msg h; Ret (s, r, h)
        | Some fn =>
            let rq := ArpcReq (doc d) params false in
            hd ← read_doc d h (fun _ => req_handle (sv_tab s) rq);
            let '(w, g) := arpc_gpgdir_follow (sv_world s) (sv_gpg s) hd in
            '(s, _, rb, h) ← fn (arpc_cb_send xchg) d rq (set_gpg (set_world s w) g) h;
            '(out, rb, h) ←
              (if rs_failed (res_of rb) then
                 '(out, h) ← reply_error id (rs_code (res_of rb)) (rs_msg (res_of rb)) h; Ret (out, rb, h)
               else reply_result id rb h);
            h ← block_free (out_at rb) h;
            h ← aj_free d h;
            match out with
            | Some out => Ret (s, Some out, h)
            | None => '(r, h) ← reply_error id ARPC_E_INTERNAL (lit "out of memory") h; Ret (s, r, h)
            end
        end
  end.

Definition arpc_handle_frame (xchg : exchanger W H) (req : list Z) s h : outcome (server W H * option text * gset Z) :=
  '(ok, d, h) ← aj_parse req h;
  if ok : bool then arpc_handle_parsed xchg d s h
  else h ← aj_free d h; '(r, h) ← reply_error 0 ARPC_E_PARSE (lit "malformed JSON") h; Ret (s, r, h).

(** ** The connection *)

(** [recv_framed]: the buffer of [arpc_recv_frame], freed there if the read of
    it fails. *)
Definition recv_framed s h : outcome (server W H * option text * gset Z) :=
  '(s, f) ← Connection.recv_framed s;
  match f with
  | None => Ret (s, None, h)
  | Some f => let '(a, h) := block_malloc h in Ret (s, Some (Text a f), h)
  end.

(** A reply, sent and freed. *)
Definition send_reply (rsp : text) s h : outcome (server W H * bool * gset Z) :=
  t ← read_text rsp h;
  '(s, sent) ← send_framed (cstr t) s;
  h ← block_free (text_at rsp) h;
  Ret (s, sent, h).

Definition conn_exchange (loop : server W H -> gset Z -> outcome (server W H * option text * gset Z)) : exchanger W H :=
  fun frame s h =>
    if negb (bool_decide (sv_conn s = Some true)) then Ret (s, None, h)
    else
      '(s, sent) ← send_framed frame s;
      if sent : bool then loop s h else Ret (s, None, h).

(** The loop of [arpc_conn_exchange]: the frame of a request is freed before
    the request is served. *)
Fixpoint exchange_loop (fuel : nat) s h : outcome (server W H * option text * gset Z) :=
  match fuel with
  | O => NoFuel
  | S fuel =>
      '(s, f, h) ← recv_framed s h;
      match f with
      | None => Ret (s, None, h)
      | Some f =>
          t ← read_text f h;
          '(ok, d, h) ← aj_parse (cstr t) h;
          m ← (if ok : bool then read_doc d h (fun d => aj_member d 0 (lit "method")) else Ret (-1));
          if m <? 0 then h ← aj_free d h; Ret (s, Some f, h)
          else
            h ← block_free (text_at f) h;
            '(s, rsp, h) ← arpc_handle_parsed (conn_exchange (exchange_loop fuel)) d s h;
            match rsp with
            | None => Ret (s, None, h)
            | Some rsp =>
                '(s, sent, h) ← send_reply rsp s h;
                if sent : bool then exchange_loop fuel s h else Ret (s, None, h)
            end
      end
  end.

Definition arpc_conn_exchange (fuel : nat) : exchanger W H := conn_exchange (exchange_loop fuel).

(** The loop of [serve_connection]: the request is freed once it is answered. *)
Fixpoint serve_loop (fuel : nat) s h : outcome (server W H * gset Z) :=
  match fuel with
  | O => NoFuel
  | S fuel =>
      '(s, req, h) ← recv_framed s h;
      match req with
      | None => Ret (s, h)
      | Some req =>
          t ← read_text req h;
          '(s, rsp, h) ← arpc_handle_frame (arpc_conn_exchange fuel) (cstr t) s h;
          h ← block_free (text_at req) h;
          match rsp with
          | None => Ret (s, h)
          | Some rsp =>
              '(s, ok, h) ← send_reply rsp s h;
              if ok : bool then serve_loop fuel s h else Ret (s, h)
          end
      end
  end.

Definition serve_connection (fuel : nat) (pipe : H) s h : outcome (server W H * gset Z) :=
  let s := arpc_paths_set (arpc_cb_set_conn (set_pipe s pipe) (Some true)) false in
  '(s, h) ← serve_loop fuel s h;
  Ret (arpc_cb_set_conn s None, h).
End Code.

(** ** What the heap comes to *)

(** A text handed over is in a block that is new; without one the heap is as
    it was. *)
Definition answered (h : gset Z) (x : option text * gset Z) (y : option (list Z)) : Prop :=
  match x.1, y with
  | Some t, Some b => text_bytes t = b /\ text_at t <> 0 /\ holds (text_at t) h x.2
  | None, None => x.2 = h
  | _, _ => False
  end.
Definition replied {S} (h : gset Z) (x : S * option text * gset Z) (y : S * option (list Z)) : Prop :=
  x.1.1 = y.1 /\ answered h (x.1.2, x.2) y.2.

(** The callback transport, with blocks and without. *)
Definition sends {W H} (sb : cb_sender W H) (sc : Dispatch.cb_sender W H) : Prop :=
  forall kind handle args dflt s h, same (kept h) (sb kind handle args dflt s h) (sc kind handle args dflt s).
Definition exchanges {W H} (xb : exchanger W H) (x : Dispatch.exchanger W H) : Prop :=
  forall frame s h, same (replied h) (xb frame s h) (x frame s).

(** A handler that leaves what it built, and nothing else. *)
Definition built {S} (h : gset Z) (x : S * arpc_req * response * gset Z) (y : S * arpc_req * arpc_res) : Prop :=
  let '(s, rq, rb, h') := x in (s, rq, res_of rb) = y /\ holds (out_at rb) h h'.
Definition builds {W H} (hb : list Z * handler W H) (hc : list Z * Dispatch.handler W H) : Prop :=
  hb.1 = hc.1 /\
  forall sb sc, sends sb sc -> forall d rq s h, doc_blocks d ⊆ h -> rq_doc rq = doc d ->
    same (built h) (hb.2 sb d rq s h) (hc.2 sc rq res0 s).

Class MethodBlocksOk {W H} (GEN : Generated W H) (MB : MethodBlocks W H) : Prop :=
  methods_build : Forall2 builds arpc_methods Dispatch.arpc_methods.

Section Proofs.
Context {A : Allocator} {P : Placement} {PO : PlacementOk P} {L : Leftovers} {T : Tags} {W H : Type}
  {HP : Gpgme W} {R : Archive W} {GEN : Generated W H} {MB : MethodBlocks W H} {MO : MethodBlocksOk GEN MB} {HO : HandleOps H}.
Implicit Types (s : server W H) (h : gset Z).

(** ** Replies *)

Lemma write_finish_run f m h :
  m = (w ← f ajw_init; Ret (Server.finish w)) -> same (answered h) ('(w, h) ← write writer0 f h; finish w h) m.
Proof.
  intros ->.
  eapply same_bind; [apply write0_run|]. intros [[w a] h'] ? (<- & Hh & E). cbn [writer_w writer_at] in *.
  unfold finish, Server.finish, ajw_free. cbn [writer_w writer_at]. destruct (w_err w); cbn [orb].
  - rewrite (holds_free _ _ _ Hh). done.
  - destruct (Z.eqb_spec (w_cap w) 0); cbn; [|split_and!; [done|by apply Z.eqb_neq|done]].
    apply Z.eqb_eq in E as ->. by apply holds_null_inv.
Qed.

Lemma write_finish_then {X} (Q : X -> option (list Z) -> Prop) (k : option text -> gset Z -> X) f m h :
  m = (w ← f ajw_init; Ret (Server.finish w)) -> (forall x y, answered h x y -> Q (k x.1 x.2) y) ->
  same Q ('(w, h) ← write writer0 f h; '(out, h) ← finish w h; Ret (k out h)) m.
Proof.
  intros Hm Hk. pose proof (write_finish_run f m h Hm) as Hw.
  destruct (write writer0 f h) as [[w h']| | |], m; cbn in *; try done.
  destruct (finish w h') as [[out h2]| | |]; cbn in *; try done. by apply (Hk (out, h2)).
  all: by destruct (finish w h') as [[]| | |].
Qed.

(** The same writes, bound to the left and to the right. *)
Ltac same_writes :=
  cbv beta; repeat match goal with
  | |- (?m ≫= _) = _ => destruct m as [?| | |]; cbn [mbind outcome_bind]; [|done..]
  end; done.

Lemma reply_error_answers id code msg h : same (answered h) (reply_error id code msg h) (Server.reply_error id code msg).
Proof.
  apply write_finish_run. unfold Server.reply_error. same_writes.
Qed.

Lemma reply_shutdown_answers id h : same (answered h) (reply_shutdown id h) (Dispatch.reply_shutdown id).
Proof. apply write_finish_run. unfold Dispatch.reply_shutdown. same_writes. Qed.

(** Writes to what a handler built, and the reply around it. *)
Lemma on_res_run rb f h0 h :
  holds (out_at rb) h0 h ->
  same (fun '(rb', h') rs => res_of rb' = rs /\ holds (out_at rb') h0 h') (on_res rb f h) (f (res_of rb)).
Proof.
  intros Hh. unfold on_res. destruct (f (res_of rb)) as [rs| | |]; [|done..]. cbn [mbind outcome_bind].
  by destruct (holds_grow _ (w_cap (rs_out (res_of rb))) (w_cap (rs_out rs)) _ _ Hh) as (a & h' & -> & Hh').
Qed.

(** A text over the block of a response. *)
Definition spliced h0 (x : option text * response * gset Z) (y : option (list Z)) : Prop :=
  exists h, holds (out_at x.1.2) h0 h /\ answered h (x.1.1, x.2) y.

Lemma reply_result_splices id rb h0 h :
  holds (out_at rb) h0 h -> same (spliced h0) (reply_result id rb h) (Dispatch.reply_result id (res_of rb)).
Proof.
  intros Hh. unfold reply_result, Dispatch.reply_result.
  set (m := on_res _ _ _). assert (Hm : same (fun '(rb', h') rs => res_of rb' = rs /\ holds (out_at rb') h0 h') m
    (rs ← ensure_obj (res_of rb); rs ← (if rs_has_ret rs then Ret rs else arpc_ret_null rs); on_out rs ajw_obj_end))
    by apply (on_res_run rb (fun rs => rs ← ensure_obj rs; rs ← (if rs_has_ret rs then Ret rs else arpc_ret_null rs); on_out rs ajw_obj_end) _ _ Hh).
  revert Hm. generalize m. clear m. intros m. destruct (ensure_obj (res_of rb)) as [rs1| | |]; cbn [mbind outcome_bind].
  2-4: by destruct m as [[]| | |].
  destruct (if rs_has_ret rs1 then _ else _) as [rs2| | |]; cbn [mbind outcome_bind]. 2-4: by destruct m as [[]| | |].
  destruct (on_out rs2 ajw_obj_end) as [rs3| | |]; cbn [mbind outcome_bind]. 2-4: by destruct m as [[]| | |].
  destruct m as [[rb' h']| | |]; [|done..]. cbn [same mbind outcome_bind]. intros [<- Hh'].
  rewrite (holds_read (Writer (rs_out (res_of rb')) (out_at rb')) _ _ Hh'). cbn [writer_w mbind outcome_bind].
  match goal with |- same _ (write writer0 ?f _ ≫= _) _ =>
    eapply (write_finish_then (spliced h0) (fun out h => (out, rb', h)) f)
  end.
  - cbv beta. unfold w_len.
    repeat match goal with
    | |- (ajw_reserve _ _ ≫= _) = _ => destruct (ajw_reserve _ _) as [[? ?]| | |]; cbn [mbind outcome_bind]; [|done..]
    | |- (?m ≫= _) = _ => destruct m as [?| | |]; cbn [mbind outcome_bind]; [|done..]
    end. done.
  - intros [out h2] y Ha. by exists h'.
Qed.

(** ** Callbacks *)

Lemma answer_value_run reply seq dflt d :
  JsonReader.aj_parse (cstr reply) = Ret d -> cb_value reply seq dflt = answer_value d seq dflt.
Proof. intros E. unfold cb_value. by rewrite E. Qed.

Lemma cb_send_sends xb x : exchanges xb x -> sends (arpc_cb_send xb) (Dispatch.arpc_cb_send x).
Proof.
  intros Hx kind handle args dflt s h. unfold arpc_cb_send, Dispatch.arpc_cb_send. destruct (sv_conn s); [|done].
  eapply (same_bind eq); [apply same_refl|]. intros s1 ? <-.
  eapply (same_bind eq); [apply same_refl|]. intros name ? <-.
  eapply same_bind; [apply write0_run|]. intros [[w a] h1] ? (<- & Hh & _). cbn [writer_w writer_at] in *.
  unfold ajw_free. cbn [writer_at]. destruct (w_err w); [by rewrite (holds_free _ _ _ Hh)|].
  rewrite (holds_read (Writer w a) _ _ Hh). cbn [writer_w mbind outcome_bind].
  eapply same_bind; [apply Hx|]. intros [[s2 [r|]] h2] [? [reply|]] [E Ha]; cbn in E, Ha; subst; try done.
  - destruct r as [fa fb]. cbn in Ha. destruct Ha as (-> & Hf0 & Hf).
    destruct (holds_free_below _ _ _ _ _ Hh Hf) as (h3 & -> & Hf3). cbn [mbind outcome_bind].
    destruct (holds_block _ _ _ Hf0 Hf3) as [-> Hn]. rewrite read_text_run by (cbn; set_solver). cbn [text_bytes mbind outcome_bind].
    pose proof (aj_parse_run (cstr reply) ({[fa]} ∪ h)) as Hp. unfold cb_value.
    destruct (JsonReader.aj_parse (cstr reply)) as [d| | |]; [| |by rewrite Hp..].
    + destruct Hp as (d' & -> & Hdoc & Hfd). cbn [mbind outcome_bind]. rewrite read_doc_run, Hdoc by set_solver.
      eapply (same_bind eq); [apply same_refl|]. intros r ? <-. rewrite aj_free_last by done. cbn [mbind outcome_bind text_at].
      by rewrite block_free_fresh.
    + destruct Hp as (d' & -> & Hfd & _). cbn [mbind outcome_bind]. rewrite aj_free_last by done. cbn [mbind outcome_bind text_at].
      by rewrite block_free_fresh.
  - rewrite (holds_free _ _ _ Hh). done.
Qed.

(** ** Dispatch *)

Lemma builtin_builds name fn :
  (forall sc rq s, fn sc rq res0 s = fn (fun _ _ _ dflt s => Ret (s, dflt)) rq res0 s) -> builds (name, builtin fn) (name, fn).
Proof.
  intros Hfn. split; [done|]. intros sb sc _ d rq s h _ _. cbn [snd]. rewrite Hfn. unfold builtin.
  destruct (fn _ rq res0 s) as [[[s1 rq1] rs]| | |]; [|done..]. cbn [mbind outcome_bind].
  by destruct (holds_grow _ 0 (w_cap (rs_out rs)) _ _ (holds_null h)) as (a & h' & -> & Hh).
Qed.

Lemma builtins_build : Forall2 builds builtins Dispatch.builtins.
Proof. repeat constructor; by apply builtin_builds. Qed.

Lemma find_builtin_builds lb (l : list (list Z * Dispatch.handler W H)) method :
  Forall2 builds lb l -> option_Forall2 (fun fb fn => builds ([], fb) ([], fn)) (find_builtin lb method) (Dispatch.find_builtin l method).
Proof.
  induction 1 as [|[nb fb] [n fn] lb l [Hn Hf] _ IH]; [constructor|]. cbn in Hn. subst nb. cbn [find_builtin Dispatch.find_builtin].
  destruct (streq n method); [|done]. by constructor.
Qed.

Lemma find_method_run method :
  same (option_Forall2 (fun fb fn => builds ([], fb) ([], fn))) (find_method method) (Dispatch.find_method method).
Proof.
  unfold find_method, Dispatch.find_method. pose proof (find_builtin_builds _ _ method builtins_build) as Hb.
  destruct (find_builtin _ _), (Dispatch.find_builtin _ _); [done|by inversion Hb..|].
  eapply (same_bind eq); [apply same_refl|]. intros [i|] ? <-; [|constructor].
  pose proof (proj1 (Forall2_lookup _ _ _) methods_build i) as Hi.
  destruct Hi as [[nb fb] [n fn] [_ Hf]|]; [|done]. by constructor.
Qed.

(** The document and the reply: what every answer without a handler does. *)
Lemma free_then_reply {S} (s : S) d m m' h :
  fresh_doc d h -> same (answered h) (m h) m' ->
  same (replied h) (h' ← aj_free d (doc_blocks d ∪ h); '(r, h) ← m h'; Ret (s, r, h)) (r ← m'; Ret (s, r)).
Proof.
  intros Hf Hm. rewrite aj_free_last by done. cbn [mbind outcome_bind]. eapply same_bind; [exact Hm|].
  by intros [r h'] y Ha.
Qed.

Lemma handle_parsed_replies xb x d s h :
  exchanges xb x -> fresh_doc d h ->
  same (replied h) (arpc_handle_parsed xb d s (doc_blocks d ∪ h)) (Dispatch.arpc_handle_parsed x (doc d) s).
Proof.
  intros Hx Hf. unfold arpc_handle_parsed, Dispatch.arpc_handle_parsed. rewrite !read_doc_run by set_solver.
  eapply (same_bind eq); [apply same_refl|]. intros i ? <-.
  eapply (same_bind eq); [apply same_refl|]. intros m ? <-.
  eapply (same_bind eq); [apply same_refl|]. intros params ? <-.
  destruct (aj_str (doc d) m) as [method|]; [|apply free_then_reply; [done|apply reply_error_answers]].
  destruct (streq method _); [apply free_then_reply; [done|apply reply_shutdown_answers]|].
  rewrite !read_doc_run by set_solver.
  eapply same_bind; [apply find_method_run|]. intros fb fn [fb' fn' [_ Hb]|]; clear fb fn.
  2: { cbn [mbind outcome_bind]. apply free_then_reply; [done|apply reply_error_answers]. }
  eapply (same_bind eq); [apply same_refl|]. intros hd ? <-.
  destruct (arpc_gpgdir_follow _ _ _) as [w g].
  eapply same_bind; [apply Hb; [by apply cb_send_sends|set_solver|done]|]. intros [[[s1 rq1] rb] h1] [[? ?] rs] ([= <- <- <-] & Hh).
  unfold reply_of. rewrite bind_assoc.
  eapply (same_bind (spliced (doc_blocks d ∪ h))).
  { destruct (rs_failed (res_of rb)); [|by apply reply_result_splices].
    pose proof (reply_error_answers (aj_i64 (doc d) i 0) (rs_code (res_of rb)) (rs_msg (res_of rb)) h1) as Hr.
    destruct (reply_error _ _ _ _) as [[out h2]| | |], (Server.reply_error _ _ _); cbn in *; try done. by exists h1. }
  intros [[out rb'] h2] y (h' & Hh' & Ha). cbn [fst snd] in *.
  destruct out as [out|], y as [b|]; cbn in Ha; try done.
  - destruct Ha as (Et & Ht0 & Ht). destruct (holds_free_below _ _ _ _ _ Hh' Ht) as (h3 & -> & Ht3). cbn [mbind outcome_bind].
    by destruct (holds_free_doc _ _ _ _ Hf Ht3) as (h4 & -> & Ht4).
  - subst h2. rewrite (holds_free _ _ _ Hh'). cbn [mbind outcome_bind]. by apply free_then_reply; [|apply reply_error_answers].
Qed.

Lemma handle_frame_replies xb x req s h :
  exchanges xb x -> same (replied h) (arpc_handle_frame xb req s h) (Dispatch.arpc_handle_frame x req s).
Proof.
  intros Hx. unfold arpc_handle_frame, Dispatch.arpc_handle_frame. pose proof (aj_parse_run req h) as Hp.
  destruct (JsonReader.aj_parse req) as [d| | |]; [| |by rewrite Hp..].
  - destruct Hp as (d' & -> & <- & Hf). cbn [mbind outcome_bind]. by apply handle_parsed_replies.
  - destruct Hp as (d' & -> & Hf & _). cbn [mbind outcome_bind]. apply free_then_reply; [done|apply reply_error_answers].
Qed.

(** ** The connection *)

(** A text received is in a new block. *)
Lemma recv_framed_replies s h : same (replied h) (recv_framed s h) (Connection.recv_framed s).
Proof.
  unfold recv_framed. destruct (Connection.recv_framed s) as [[s1 [f|]]| | |]; [|done..]. cbn [mbind outcome_bind].
  destruct (block_malloc_run h) as (a & -> & Ha & Ha0). split; [done|]. cbn. split_and!; [done|done|].
  unfold holds, at_blocks. apply Z.eqb_neq in Ha0 as ->. split; [done|set_solver].
Qed.

(** A reply is read in its block and the block freed. *)
Lemma send_reply_keeps rsp b s h0 h :
  text_bytes rsp = b -> text_at rsp <> 0 -> holds (text_at rsp) h0 h ->
  same (kept h0) (send_reply rsp s h) (send_framed (cstr b) s).
Proof.
  intros <- H0 Hh. unfold send_reply. destruct (holds_block _ _ _ H0 Hh) as [-> Hn]. rewrite read_text_run by set_solver.
  cbn [mbind outcome_bind]. destruct (send_framed _ _) as [[s1 sent]| | |]; [|done..]. cbn [mbind outcome_bind].
  by rewrite block_free_fresh.
Qed.

Lemma conn_exchanges lb l : (forall s h, same (replied h) (lb s h) (l s)) -> exchanges (conn_exchange lb) (Connection.conn_exchange l).
Proof.
  intros Hl frame s h. unfold conn_exchange, Connection.conn_exchange. destruct (negb _); [done|].
  eapply (same_bind eq); [apply same_refl|]. intros [s1 [|]] ? <-; [apply Hl|done].
Qed.

Lemma exchange_loop_replies fuel s h : same (replied h) (exchange_loop fuel s h) (Connection.exchange_loop fuel s).
Proof.
  revert s h. induction fuel as [|fuel IH]; intros s h; [done|]. cbn [exchange_loop Connection.exchange_loop].
  eapply same_bind; [apply recv_framed_replies|]. intros [[s1 [f|]] h1] [s1' [b|]] [E Ha]; cbn in E, Ha; subst s1'; try done.
  destruct Ha as (<- & Hf0 & Hf). destruct (holds_block _ _ _ Hf0 Hf) as [-> Hn]. rewrite read_text_run by set_solver.
  cbn [mbind outcome_bind]. pose proof (aj_parse_run (cstr (text_bytes f)) ({[text_at f]} ∪ h)) as Hp. unfold as_request.
  assert (Hans : forall d, fresh_doc d ({[text_at f]} ∪ h) ->
    same (replied h) (h' ← aj_free d (doc_blocks d ∪ ({[text_at f]} ∪ h)); Ret (s1, Some f, h')) (Ret (s1, Some (text_bytes f)))).
  { intros d Hd. by rewrite aj_free_last by done. }
  destruct (JsonReader.aj_parse _) as [d| | |]; [| |by rewrite Hp..].
  2: { destruct Hp as (d' & -> & Hd & _). apply Hans, Hd. }
  destruct Hp as (d' & -> & <- & Hd). cbn [mbind outcome_bind]. rewrite read_doc_run by set_solver. rewrite bind_assoc.
  eapply (same_bind eq); [apply same_refl|]. intros m ? <-. cbn [mbind outcome_bind]. destruct (m <? 0); [by apply Hans|].
  rewrite free_beneath by done. cbn [mbind outcome_bind].
  eapply same_bind; [apply handle_parsed_replies; [by apply conn_exchanges|split; [destruct Hd; set_solver|apply Hd]]|].
  intros [[s2 [rsp|]] h2] [s2' [t|]] [E Hr]; cbn in E, Hr; subst s2'; try done. destruct Hr as (Et & Ht0 & Ht).
  eapply same_bind; [by apply send_reply_keeps|]. intros [[s3 sent] h3] [? ?] [= -> -> ->].
  match goal with |- context [if ?b then _ else _] => by destruct b end.
Qed.

Lemma serve_loop_frees fuel s h : same (fun x y => x = (y, h)) (serve_loop fuel s h) (Connection.serve_loop fuel s).
Proof.
  revert s h. induction fuel as [|fuel IH]; intros s h; [done|]. cbn [serve_loop Connection.serve_loop].
  eapply same_bind; [apply recv_framed_replies|]. intros [[s1 [f|]] h1] [s1' [b|]] [E Ha]; cbn in E, Ha; subst s1'; try done.
  2: { by subst h1. }
  destruct Ha as (<- & Hf0 & Hf). destruct (holds_block _ _ _ Hf0 Hf) as [E Hn]. rewrite E at 1. rewrite read_text_run by set_solver.
  cbn [mbind outcome_bind].
  eapply same_bind; [apply handle_frame_replies, conn_exchanges, exchange_loop_replies|].
  intros [[s2 [rsp|]] h2] [s2' [t|]] [E2 Hr]; cbn in E2, Hr; subst s2'; try done.
  - destruct Hr as (Et & Ht0 & Ht). destruct (holds_free_below _ _ _ _ _ Hf Ht) as (h3 & -> & Ht3). cbn [mbind outcome_bind].
    eapply same_bind; [by apply send_reply_keeps|]. intros [[s3 sent] h4] [? ?] [= -> -> ->].
    match goal with |- context [if ?b then _ else _] => by destruct b end.
  - subst h2. by rewrite (holds_free _ _ _ Hf).
Qed.

(** C13. Serving a connection frees what it allocated.  Whatever the client
    sends, the heap refuses and the handlers do, as long as a handler leaves
    nothing but what it built: the server comes to what it comes to without
    its blocks, never reads or frees one that is gone, and leaves the heap as
    it found it.  So does an exchange of a callback, whose answer is the one
    block more, however many requests were served while it was waited for. *)
Theorem connection_frees fuel pipe s h :
  serve_connection fuel pipe s h = (s ← Connection.serve_connection fuel pipe s; Ret (s, h)) /\
  forall frame, match arpc_conn_exchange fuel frame s h, Connection.arpc_conn_exchange fuel frame s with
    | Ret (s1, None, h1), Ret (s2, None) => s1 = s2 /\ h1 = h
    | Ret (s1, Some t, h1), Ret (s2, Some b) => s1 = s2 /\ text_bytes t = b /\ h1 = {[text_at t]} ∪ h /\ (text_at t ∉ h)
    | Fail, Fail | Undef, Undef | NoFuel, NoFuel => True
    | _, _ => False
    end.
Proof.
  split.
  - unfold serve_connection, Connection.serve_connection. pose proof (serve_loop_frees fuel
      (arpc_paths_set (arpc_cb_set_conn (set_pipe s pipe) (Some true)) false) h) as Hs.
    destruct (serve_loop _ _ _), (Connection.serve_loop _ _); cbn in *; try done. by subst.
  - intros frame. pose proof (conn_exchanges _ _ (exchange_loop_replies fuel) frame s h) as Hx.
    unfold arpc_conn_exchange, Connection.arpc_conn_exchange.
    destruct (conn_exchange _ _ _ _) as [[[s1 [t|]] h1]| | |], (Connection.conn_exchange _ _ _) as [[s2 [b|]]| | |];
      cbn in Hx; try done; destruct Hx as [Es Hx]; cbn in Es, Hx; try done.
    destruct Hx as (Et & Ht0 & Ht). by destruct (holds_block _ _ _ Ht0 Ht).
Qed.
End Proofs.

(** ** The property at work *)

Module ToyService.
#[export] Existing Instance DispatchTheorems.toy_tags.
#[export] Existing Instance unit_gpgme.
#[export] Existing Instance unit_archive.
#[export] Existing Instance Chain.above.
#[export] Existing Instance Chain.above_ok.
#[export] Existing Instance Trickle.ops.
#[export] Existing Instance Trickle.handle.
#[export] Existing Instance ample.

(** A refused text leaves nodes and strings. *)
#[export] Instance leaves : Leftovers := {| left_nodes := fun _ => true; left_sbuf := fun _ => true |}.

(** A method that calls back and returns what it is told, and one that returns
    a number. *)
Definition ask : Dispatch.handler unit Trickle.pipe := fun send rq rs s =>
  '(s, r) ← send 0 7 None 0 s; rs ← arpc_ret_i64 rs r; Ret (s, rq, rs).
Definition one : Dispatch.handler unit Trickle.pipe := fun _ rq rs s =>
  rs ← arpc_ret_i64 rs 41; Ret (s, rq, rs).

Definition ask_blocks : handler unit Trickle.pipe := fun send _ rq s h =>
  '(s, r, h) ← send 0 7 None 0 s h;
  rs ← arpc_ret_i64 res0 r;
  '(a, h) ← grow 0 0 (w_cap (rs_out rs)) h;
  Ret (s, rq, Response rs a, h).

#[export] Instance methods : Generated unit Trickle.pipe := {
  Dispatch.arpc_methods := [(lit "alpm_ask", ask); (lit "alpm_one", one)];
  arpc_cb_kinds := [lit "log"];
  cb_install w _ _ _ _ := (0, w);
  mtree_fuel := 1%nat
}.
#[export] Instance method_blocks : MethodBlocks unit Trickle.pipe :=
  {| arpc_methods := [(lit "alpm_ask", ask_blocks); (lit "alpm_one", builtin one)] |}.

#[export] Instance methods_ok : MethodBlocksOk methods method_blocks.
Proof.
  constructor; [|constructor; [by apply builtin_builds|constructor]].
  split; [done|]. intros sb sc Hs d rq s h _ _. cbn [snd]. unfold ask_blocks, ask.
  eapply same_bind; [apply Hs|]. intros [[s1 r] h1] [? ?] [= -> -> ->].
  destruct (arpc_ret_i64 res0 _) as [rs| | |]; [|done..]. cbn [mbind outcome_bind].
  by destruct (holds_grow _ 0 (w_cap (rs_out rs)) _ _ (holds_null h)) as (a & h' & -> & Hh).
Qed.

(** A request that calls back; a request served meanwhile, the answer, and a
    text that is no request. *)
Definition pipe : Trickle.pipe := Trickle.Pipe
  (frame (qlit "{`id`:1,`method`:`alpm_ask`,`params`:[]}") ++
   frame (qlit "{`id`:2,`method`:`alpm_one`,`params`:[]}") ++
   frame (qlit "{`cbseq`:1,`@ret`:12}") ++ frame (lit "[")) [] 0 [].
Definition service : server unit Trickle.pipe := Server htab0 [] 1 None false false gpg0 tt (Trickle.Pipe [] [] 0 []).
End ToyService.

Section Toy.
Import ToyService.

Lemma connection_frees_witness :
  exists s, serve_connection 9 pipe service {[4096]} = Ret (s, {[4096]}) /\ incoming (sv_pipe s) = [] /\
    outgoing (sv_pipe s) = frame (qlit "{`cb`:`log`,`seq`:1,`handle`:7,`args`:null}") ++
      frame (qlit "{`id`:2,`result`:{`@ret`:41}}") ++ frame (qlit "{`id`:1,`result`:{`@ret`:12}}") ++
      frame (qlit "{`id`:0,`error`:{`code`:-32700,`message`:`malformed JSON`}}").
Proof.
  pose proof (proj1 (connection_frees 9 pipe service {[4096]})) as Hs.
  eexists. split; [rewrite Hs; vm_compute; reflexivity|]. split; vm_compute; reflexivity.
Defined.
End Toy.
