(* ===== verification/Cache.v ===== *)
(** * What libalpm lends: the cache of src/client/arpc_client.c

    Strings and lists that libalpm lends stay valid as long as the object they
    came from, and a repeated call returns the same pointer.  The client keeps
    them by owner and getter until the owner goes.  An entry whose result may
    have changed is detached: it answers no lookup, but is not freed, as a
    caller may hold what it points at.

    The entries and the strings are blocks of a heap, so that reading or
    freeing one that is gone is [Undef]. *)

From S2P Require Import Prelude Wire Uthash.

(** ** The state *)

(** What [release] points to: [free], or a function of the generated code,
    which is what [arpc_cache] is given. *)
Inductive releaser := RFree | RGen (fn : Z).

(** [o_k] is the buffer [k] points to, [klen] its length. *)
Record owned := Owned {
  o_k : list Z;
  o_owner : Z;
  o_value : Z;
  o_release : option releaser;
  o_is_str : bool
}.

(** [g_owned], [g_detached] and [g_static], the last two as the addresses along
    their links; the entries, the strings; and the calls made so far to the
    releasing functions of the generated code. *)
Record cache `{Uthash} := Cache {
  c_owned : utab;
  c_detached : list Z;
  c_static : list Z;
  c_ents : gmap Z owned;
  c_strs : gmap Z (list Z);
  c_released : list (Z * Z)
}.

Definition sizeof_owner : Z := 8.
Definition sizeof_owned : Z := 112.
Definition sizeof_sstr : Z := 16.
Definition key_stack : Z := sizeof_owner + 128.

(** The bytes of a [uint64_t] in memory. *)
Definition le64 (v : Z) : list Z := le32 (u32 v) ++ le32 (Z.shiftr v 32).

(** What is hashed for an owner and a getter's name. *)
Definition hash_key (owner : Z) (key : list Z) : list Z := le64 owner ++ cstr key.

Section Cache.
Context {A : Allocator} {P : Placement} {U : Uthash}.
Implicit Types c : cache.

Definition cache0 : cache := Cache _ ut_null [] [] ∅ ∅ [].

Definition set_owned c t : cache :=
  Cache _ t (c_detached c) (c_static c) (c_ents c) (c_strs c) (c_released c).
Definition set_detached c l : cache :=
  Cache _ (c_owned c) l (c_static c) (c_ents c) (c_strs c) (c_released c).
Definition set_ents c e : cache :=
  Cache _ (c_owned c) (c_detached c) (c_static c) e (c_strs c) (c_released c).
Definition set_strs c s : cache :=
  Cache _ (c_owned c) (c_detached c) (c_static c) (c_ents c) s (c_released c).
Definition set_static c l : cache :=
  Cache _ (c_owned c) (c_detached c) l (c_ents c) (c_strs c) (c_released c).
Definition set_released c l : cache :=
  Cache _ (c_owned c) (c_detached c) (c_static c) (c_ents c) (c_strs c) l.

(** ** The heap *)

Definition ent c (a : Z) : outcome owned :=
  match c_ents c !! a with Some o => Ret o | None => Undef end.

Definition str_at c (p : Z) : outcome (list Z) :=
  match c_strs c !! p with Some s => Ret s | None => Undef end.

(** An assignment to fields of an entry. *)
Definition put_ent c (a : Z) (o : owned) : cache := set_ents c (<[a := o]> (c_ents c)).

(** [_strdup] *)
Definition strdup_ c (s : list Z) : cache * Z :=
  if grants (strlen s + 1) then
    let p := place (dom (c_strs c)) in (set_strs c (<[p := cstr s]> (c_strs c)), p)
  else (c, 0).

(** [free] of a string. *)
Definition free_str c (p : Z) : outcome cache :=
  if p =? 0 then Ret c
  else s ← str_at c p; Ret (set_strs c (delete p (c_strs c))).

Definition arpc_dup c (s : option (list Z)) : cache * Z :=
  match s with Some s => strdup_ c s | None => (c, 0) end.

(** A call of a releasing function. *)
Definition call_release c (r : releaser) (value : Z) : outcome cache :=
  match r with
  | RFree => free_str c value
  | RGen fn => Ret (set_released c (c_released c ++ [(fn, value)]))
  end.

(** ** Keys *)

(** [make_key]: [None] for NULL. *)
Definition make_key (owner : Z) (key : list Z) : option (list Z) :=
  if grants (sizeof_owner + strlen key) then Some (hash_key owner key) else None.

Definition key_is (o : owned) (key : list Z) : bool :=
  (len (o_k o) =? sizeof_owner + strlen key) && bool_decide (drop 8 (o_k o) = cstr key).

(** The getter's name, or the name and a colon. *)
Definition key_names (o : owned) (getter : list Z) : bool :=
  let n := length (cstr getter) in
  let k := drop 8 (o_k o) in
  (n <=? length k)%nat && bool_decide (take n k = cstr getter) &&
  ((length k =? n)%nat || (nth n k 0 =? 58)).

(** ** Entries *)

Definition release_owned c (a : Z) : outcome cache :=
  o ← ent c a;
  c ← match o_release o with Some r => call_release c r (o_value o) | None => Ret c end;
  Ret (set_ents c (delete a (c_ents c))).

(** The entry's address, [None] for NULL: also when the key is long and there
    is no room to build it. *)
Definition find_owned c (owner : Z) (key : list Z) : option Z :=
  if (key_stack <? sizeof_owner + strlen key) && negb (grants (sizeof_owner + strlen key)) then None
  else HASH_FIND (c_owned c) (hash_key owner key).

Definition add_owned c (owner : Z) (key : list Z) : cache * option Z :=
  if grants sizeof_owned then
    match make_key owner key with
    | None => (c, None)
    | Some k =>
        let a := place (dom (c_ents c)) in
        match HASH_ADD (c_owned c) k a with
        | None => (c, None)
        | Some t => (put_ent (set_owned c t) a (Owned k owner 0 None false), Some a)
        end
    end
  else (c, None).

(** [HASH_DEL] and a push on [g_detached]. *)
Definition detach_owned c (a : Z) : cache :=
  set_detached (set_owned c (HASH_DEL (c_owned c) a)) (a :: c_detached c).

(** Does the string at [p] read [value]?  [value && p && !strcmp(p, value)] *)
Definition reads_as c (p : Z) (value : option (list Z)) : outcome bool :=
  match value with
  | Some v => if p =? 0 then Ret false else s ← str_at c p; Ret (streq s v)
  | None => Ret false
  end.

(** The loop over [g_detached]: the table with the entry back in it, its
    value, and the links left. *)
Fixpoint take_back c (owner : Z) (key : list Z) (value : option (list Z)) (l : list Z)
  : outcome (option (utab * Z * list Z)) :=
  match l with
  | [] => Ret None
  | q :: l =>
      o ← ent c q;
      same ← (if o_is_str o && (o_owner o =? owner) && key_is o key then reads_as c (o_value o) value else Ret false);
      match (if same : bool then HASH_ADD (c_owned c) (o_k o) q else None) with
      | Some t => Ret (Some (t, o_value o, l))
      | None =>
          r ← take_back c owner key value l;
          Ret (match r with Some (t, v, l) => Some (t, v, q :: l) | None => None end)
      end
  end.

(** The end of [intern]: an entry of its own for the string. *)
Definition intern_new c (owner : Z) (key : list Z) (value : option (list Z)) : cache * Z :=
  match add_owned c owner key with
  | (c, None) => (c, 0)
  | (c, Some n) =>
      let '(c, p) := arpc_dup c value in
      (put_ent c n (Owned (hash_key owner key) owner p (Some RFree) true), p)
  end.

(** What [intern] does once no live string is in the way. *)
Definition intern_rest c (owner : Z) (key : list Z) (value : option (list Z)) : outcome (cache * Z) :=
  back ← take_back c owner key value (c_detached c);
  match back with
  | Some (t, v, l) => Ret (set_detached (set_owned c t) l, v)
  | None => Ret (intern_new c owner key value)
  end.

(** [intern]: the pointer, 0 for NULL. *)
Definition intern c (owner : Z) (key : list Z) (value : option (list Z)) : outcome (cache * Z) :=
  match find_owned c owner key with
  | Some p =>
      o ← ent c p;
      if o_is_str o then
        same ← reads_as c (o_value o) value;
        if same : bool then Ret (c, o_value o) else intern_rest (detach_owned c p) owner key value
      else intern_rest c owner key value
  | None => intern_rest c owner key value
  end.

(** [arpc_cached]: [None] for a miss. *)
Definition arpc_cached c (owner : Z) (key : list Z) : outcome (option Z) :=
  match find_owned c owner key with
  | Some p => o ← ent c p; Ret (if o_is_str o then None else Some (o_value o))
  | None => Ret None
  end.

Definition arpc_cache c (owner : Z) (key : list Z) (value release : Z) : outcome (cache * Z) :=
  let add :=
    match add_owned c owner key with
    | (c, Some p) => (put_ent c p (Owned (hash_key owner key) owner value (Some (RGen release)) false), value)
    | (c, None) => (c, value)
    end in
  match find_owned c owner key with
  | Some p =>
      o ← ent c p;
      if o_is_str o then Ret add
      else c ← call_release c (RGen release) value; Ret (c, o_value o)
  | None => Ret add
  end.

(** ** Letting go *)

(** The loop over the live entries, the items being those the iteration
    visits. *)
Fixpoint purge_live (dropped : owned -> bool) (items : list Z) c : outcome cache :=
  match items with
  | [] => Ret c
  | a :: items =>
      o ← ent c a;
      if dropped o then
        c ← release_owned (set_owned c (HASH_DEL (c_owned c) a)) a; purge_live dropped items c
      else purge_live dropped items c
  end.

(** The loop over [g_detached]: what is left of it. *)
Fixpoint purge_detached (dropped : owned -> bool) (l : list Z) c : outcome (cache * list Z) :=
  match l with
  | [] => Ret (c, [])
  | a :: l =>
      o ← ent c a;
      if dropped o then c ← release_owned c a; purge_detached dropped l c
      else '(c, l) ← purge_detached dropped l c; Ret (c, a :: l)
  end.

Definition purge_where (dropped : owned -> bool) c : outcome cache :=
  c ← purge_live dropped (HASH_ITER (c_owned c)).*2 c;
  '(c, l) ← purge_detached dropped (c_detached c) c;
  Ret (set_detached c l).

Definition owned_by (owner : Z) (o : owned) : bool := o_owner o =? owner.
Definition under_root (root : Z) (o : owned) : bool := ARPC_ROOT (o_owner o) =? root.

Definition arpc_purge_owner c (owner : Z) : outcome cache := purge_where (owned_by owner) c.

(** Whether [arpc_detach] takes the entry out: it is in the scope, and answers
    for one of the getters. *)
Definition detaches (owner : Z) (whole_root : bool) (keys : list (list Z)) (o : owned) : bool :=
  (if whole_root then ARPC_ROOT (o_owner o) =? ARPC_ROOT owner else o_owner o =? owner) &&
  existsb (key_names o) keys.

Fixpoint detach_loop (f : owned -> bool) (items : list Z) c : outcome cache :=
  match items with
  | [] => Ret c
  | a :: items => o ← ent c a; detach_loop f items (if f o then detach_owned c a else c)
  end.

Definition arpc_detach c (owner : Z) (whole_root : bool) (keys : list (list Z)) : outcome cache :=
  detach_loop (detaches owner whole_root keys) (HASH_ITER (c_owned c)).*2 c.

(** The entries [arpc_stats_cached] counts. *)
Definition count_owned c : Z := HASH_COUNT (c_owned c) + len (c_detached c).

(** ** Strings that belong to nobody *)

Fixpoint find_static c (l : list Z) (s : list Z) : outcome (option Z) :=
  match l with
  | [] => Ret None
  | p :: l => t ← str_at c p; if streq t s then Ret (Some p) else find_static c l s
  end.

(** [arpc_intern_static], given the string of the response. *)
Definition intern_static c (s : option (list Z)) : outcome (cache * Z) :=
  match s with
  | None => Ret (c, 0)
  | Some s =>
      p ← find_static c (c_static c) s;
      match p with
      | Some p => Ret (c, p)
      | None =>
          if grants sizeof_sstr then
            let '(c, p) := strdup_ c s in
            if p =? 0 then Ret (c, 0) else Ret (set_static c (p :: c_static c), p)
          else Ret (c, 0)
      end
  end.
End Cache.
