(* ===== verification/CacheTheorems.v ===== *)
(** * The client's cache keeps what it lent

    The cache as two lists of entries, the live ones in the order of the table
    and the detached ones in the order of their links, and what each operation
    makes of them.  Then programs of operations: nothing is read or freed that
    is gone, what was lent is there until its owner is purged, everything
    handed in is released once. *)

From S2P Require Import Prelude Wire Uthash Cache.

(** ** Keys *)

Lemma le64_length v : length (le64 v) = 8%nat.
Proof. done. Qed.

Lemma le64_inj a b : is_u64 a -> is_u64 b -> le64 a = le64 b -> a = b.
Proof.
  unfold is_u64, le64. intros Ha Hb E.
  apply app_inj_1 in E as [E1 E2]; [|done].
  assert (Hu : forall z, 0 <= z < 4294967296 -> of_le32 (le32 z) = z).
  { intros z Hz. rewrite of_le32_le32 by lia. by apply u32_small. }
  apply (f_equal of_le32) in E1, E2. rewrite !Z.shiftr_div_pow2 in E2 by lia.
  rewrite !Hu in E1 by apply u32_range. rewrite !Hu in E2 by (split; [|]; Z.to_euclidean_division_equations; lia).
  unfold u32 in E1. change (2 ^ 32) with 4294967296 in E2. Z.to_euclidean_division_equations; lia.
Qed.

Lemma hash_key_inj o o' k k' :
  is_u64 o -> is_u64 o' -> hash_key o k = hash_key o' k' -> o = o' /\ cstr k = cstr k'.
Proof.
  unfold hash_key. intros Ho Ho' E. apply app_inj_1 in E as [E ->]; [|done]. by rewrite (le64_inj o o').
Qed.

Lemma hash_key_name o k : drop 8 (hash_key o k) = cstr k.
Proof. done. Qed.

Lemma hash_key_length o k : len (hash_key o k) = sizeof_owner + strlen k.
Proof. unfold hash_key, strlen, sizeof_owner. rewrite length_app, le64_length. lia. Qed.

(** ** The cache as lists of entries *)

(** The string an entry owns, and the release it owes. *)
Definition sval (o : owned) : list Z := if o_is_str o && negb (o_value o =? 0) then [o_value o] else [].
Definition rval (o : owned) : list (Z * Z) :=
  match o_release o with Some (RGen fn) => [(fn, o_value o)] | _ => [] end.

Abbreviation entries := (list (Z * owned)).
Definition svals (E : entries) : list Z := E ≫= (fun ao => sval ao.2).
Definition rvals (E : entries) : list (Z * Z) := E ≫= (fun ao => rval ao.2).

#[export] Instance svals_perm : Proper ((≡ₚ) ==> (≡ₚ)) svals.
Proof. intros E E' H. unfold svals. by rewrite H. Qed.
#[export] Instance rvals_perm : Proper ((≡ₚ) ==> (≡ₚ)) rvals.
Proof. intros E E' H. unfold rvals. by rewrite H. Qed.

Section Theorems.
Context {A : Allocator} {P : Placement} {U : Uthash} {PO : PlacementOk P} {UO : UthashOk U}.
(** Which getters return strings: a getter is used with [intern] or with
    [arpc_cache], not with both. *)
Context (G : list Z -> bool).
Implicit Types c : cache.

(** A name a getter is cached under, and the kind of its results. *)
Definition getter_ok (str : bool) (owner : Z) (key : list Z) : Prop :=
  no_nul key /\ is_u64 owner /\ G key = str.

Definition entry_ok (o : owned) : Prop := exists name,
  getter_ok (o_is_str o) (o_owner o) name /\ o_k o = hash_key (o_owner o) name /\
  grants (sizeof_owner + strlen name) = true /\
  if o_is_str o then o_release o = Some RFree else exists fn, o_release o = Some (RGen fn).

(** The heap holds these entries and their strings, and nothing else. *)
Record heap_ok c (E : entries) : Prop := {
  ho_ents a o : c_ents c !! a = Some o <-> (a, o) ∈ E;
  ho_addrs : NoDup E.*1;
  ho_ok a o : (a, o) ∈ E -> entry_ok o;
  ho_strs p : is_Some (c_strs c !! p) <-> p ∈ c_static c ++ svals E;
  ho_once : NoDup (c_static c ++ svals E);
  ho_static : 0 ∉ c_static c
}.

(** [c] has the live entries [L] and the detached entries [D]. *)
Record crep c (L D : entries) : Prop := {
  cr_iter : HASH_ITER (c_owned c) = (fun ao => (o_k ao.2, ao.1)) <$> L;
  cr_detached : c_detached c = D.*1;
  cr_keys : NoDup ((fun ao => o_k ao.2) <$> L);
  cr_heap : heap_ok c (L ++ D)
}.

#[local] Instance heap_ok_perm : Proper (eq ==> (≡ₚ) ==> iff) heap_ok.
Proof.
  assert (H : forall c E E', E ≡ₚ E' -> heap_ok c E -> heap_ok c E').
  { intros c E E' HE [H1 H2 H3 H4 H5 H6]. split.
    - intros a o. rewrite <- HE. apply H1.
    - by rewrite <- HE.
    - intros a o. rewrite <- HE. apply H3.
    - intros p. rewrite <- HE. apply H4.
    - by rewrite <- HE.
    - done. }
  intros c c' <- E E' HE. split; by apply H.
Qed.

Lemma crep_init : crep cache0 [] [].
Proof.
  split; cbn; [apply iter_null|done|constructor|]. split; cbn; try (by constructor).
  - intros a o. rewrite lookup_empty. split; [done|intros []%not_elem_of_nil].
  - by intros a o ?%not_elem_of_nil.
  - intros p. rewrite lookup_empty. split; [intros []; done|intros []%not_elem_of_nil].
  - apply not_elem_of_nil.
Qed.

(** *** Heap *)

Lemma ent_in c E a o : heap_ok c E -> (a, o) ∈ E -> ent c a = Ret o.
Proof. intros [H1 _ _ _ _ _] Hin. unfold ent. by rewrite (proj2 (H1 a o) Hin). Qed.

Lemma sval_elem E a o :
  (a, o) ∈ E -> o_is_str o = true -> o_value o <> 0 -> o_value o ∈ svals E.
Proof.
  intros Hin Hs Hv. apply list_elem_of_bind. exists (a, o). split; [|done]. unfold sval. cbn.
  rewrite Hs. destruct (Z.eqb_spec (o_value o) 0); [done|]. by apply list_elem_of_singleton.
Qed.

Lemma svals_not_null E : 0 ∉ svals E.
Proof.
  intros ([a o] & Hin & _)%list_elem_of_bind. unfold sval in Hin. cbn in Hin.
  destruct (Z.eqb_spec (o_value o) 0); destruct (o_is_str o); cbn in Hin;
    by (apply not_elem_of_nil in Hin || apply list_elem_of_singleton in Hin).
Qed.

Lemma str_at_in c E a o :
  heap_ok c E -> (a, o) ∈ E -> o_is_str o = true -> o_value o <> 0 -> exists s, c_strs c !! o_value o = Some s.
Proof.
  intros HE Hin Hs Hv. apply (ho_strs _ _ HE), elem_of_app. right. by eapply sval_elem.
Qed.

Lemma reads_as_spec c E a o v :
  heap_ok c E -> (a, o) ∈ E -> o_is_str o = true ->
  exists b, reads_as c (o_value o) v = Ret b /\
    (b = true <-> exists s t, v = Some t /\ o_value o <> 0 /\ c_strs c !! o_value o = Some s /\ cstr s = cstr t).
Proof.
  intros HE Hin Hs. unfold reads_as. destruct v as [t|]; [|exists false; split; [done|split; [done|naive_solver]]].
  destruct (Z.eqb_spec (o_value o) 0) as [E0|E0]; [exists false; split; [done|split; [done|naive_solver]]|].
  destruct (str_at_in _ _ _ _ HE Hin Hs E0) as [s Es]. unfold str_at. rewrite Es. cbn [mbind outcome_bind].
  exists (streq s t). split; [done|]. unfold streq. rewrite bool_decide_eq_true. naive_solver.
Qed.

(** Taking an entry out of the heap. *)
Lemma release_owned_spec c E a o :
  heap_ok c ((a, o) :: E) ->
  exists c', release_owned c a = Ret c' /\ heap_ok c' E /\ c_released c' = c_released c ++ rval o /\
    c_owned c' = c_owned c /\ c_detached c' = c_detached c /\ c_static c' = c_static c /\
    (forall p, p ∉ sval o -> c_strs c' !! p = c_strs c !! p).
Proof.
  intros HE. pose proof HE as [H1 H2 H3 H4 H5 H6]. apply NoDup_cons in H2 as [Ha H2].
  unfold release_owned. rewrite (ent_in _ _ _ _ HE) by apply list_elem_of_here. cbn [mbind outcome_bind].
  assert (Hents : forall c' a' o', c_ents c' = c_ents c -> c_ents (set_ents c' (delete a (c_ents c'))) !! a' = Some o' <-> (a', o') ∈ E).
  { intros c' a' o' ->. cbn. rewrite lookup_delete_Some, H1, elem_of_cons. split.
    - intros [Hne [[= ]|]]; [congruence|done].
    - intros Hin. split; [|by right]. intros <-. apply Ha. by eapply (list_elem_of_fmap_2' fst). }
  destruct (H3 a o ltac:(apply list_elem_of_here)) as (name & _ & _ & _ & Hrel).
  change (svals ((a, o) :: E)) with (sval o ++ svals E) in *.
  assert (H3' : forall a' o', (a', o') ∈ E -> entry_ok o') by (intros; eapply H3, list_elem_of_further; done).
  unfold rval. destruct (o_is_str o) eqn:Es.
  - rewrite Hrel. cbn [call_release]. unfold free_str.
    destruct (Z.eqb_spec (o_value o) 0) as [E0|E0].
    + cbn [mbind outcome_bind]. eexists. split; [reflexivity|]. unfold sval in *. rewrite Es, E0 in *. cbn [andb negb Z.eqb app] in *.
      split_and!; try done; [|by rewrite app_nil_r]. split; [intros; by apply (Hents c)|done..].
    + destruct (str_at_in c ((a, o) :: E) a o HE) as [s Hs]; [apply list_elem_of_here|done|done|]. unfold str_at. rewrite Hs.
      cbn [mbind outcome_bind]. eexists. split; [reflexivity|]. unfold sval in *. rewrite Es in *.
      destruct (Z.eqb_spec (o_value o) 0); [done|]. cbn [andb negb app] in *.
      assert (Hp : c_static c ++ o_value o :: svals E ≡ₚ o_value o :: (c_static c ++ svals E)) by (by rewrite Permutation_middle).
      rewrite Hp in H5. apply NoDup_cons in H5 as [Hv H5].
      split_and!; try done; [|by cbn; rewrite app_nil_r|].
      * split; [intros; by apply (Hents (set_strs c _))|done|done| |done|done]. intros p. cbn. specialize (H4 p). rewrite Hp, elem_of_cons in H4.
        destruct (decide (p = o_value o)) as [->|Hne].
        { rewrite lookup_delete_eq. split; [by intros []|]. intros Hin. by destruct (Hv Hin). }
        rewrite lookup_delete_ne by congruence. naive_solver.
      * cbn. intros p Hne. rewrite lookup_delete_ne; [done|]. intros <-. apply Hne, list_elem_of_singleton. done.
  - destruct Hrel as [fn ->]. cbn [call_release mbind outcome_bind]. eexists. split; [reflexivity|].
    unfold sval in *. rewrite Es in *. cbn [andb app] in *. split_and!; try done. split; [intros; by apply (Hents (set_released c _))|done..].
Qed.

(** A block more. *)
Lemma heap_add c c' E a o :
  heap_ok c E -> entry_ok o -> c_ents c !! a = None ->
  c_ents c' = <[a := o]> (c_ents c) -> c_static c' = c_static c ->
  (sval o = [] /\ c_strs c' = c_strs c \/
   exists p s, sval o = [p] /\ c_strs c !! p = None /\ c_strs c' = <[p := s]> (c_strs c)) ->
  heap_ok c' ((a, o) :: E).
Proof.
  intros [H1 H2 H3 H4 H5 H6] Hok Ha Ee Es Hs.
  assert (Hna : forall o', (a, o') ∉ E) by (intros o' Hin; apply H1 in Hin; congruence).
  change (svals ((a, o) :: E)) with (sval o ++ svals E).
  split; change (svals ((a, o) :: E)) with (sval o ++ svals E); rewrite ?Es; [| | | | |done].
  - intros a' o'. rewrite Ee, elem_of_cons. destruct (decide (a' = a)) as [->|Hne].
    + rewrite lookup_insert_eq. split; [intros [= ->]; by left|]. intros [[= ->]|Hin]; [done|by destruct (Hna o')].
    + rewrite lookup_insert_ne, H1 by congruence. naive_solver.
  - cbn. apply NoDup_cons. split; [|done]. intros ([a' o'] & Heq & Hin)%list_elem_of_fmap. cbn in Heq. subst.
    by destruct (Hna o').
  - intros a' o' [[= -> ->]|Hin]%elem_of_cons; [done|by eapply H3].
  - intros p. destruct Hs as [[-> ->]|(q & s & -> & Hq & ->)]; [apply H4|].
    specialize (H4 p). rewrite elem_of_app, elem_of_app in *. rewrite list_elem_of_singleton.
    destruct (decide (p = q)) as [->|Hne]; [rewrite lookup_insert_eq; naive_solver|].
    rewrite lookup_insert_ne by congruence. naive_solver.
  - destruct Hs as [[-> _]|(q & s & -> & Hq & _)]; [done|]. cbn. rewrite <- Permutation_middle.
    apply NoDup_cons. split; [|done]. intros Hin. apply H4 in Hin as [? Hin]. congruence.
Qed.

(** *** Finding *)

Lemma entry_key o str owner key :
  entry_ok o -> getter_ok str owner key -> o_k o = hash_key owner key ->
  o_owner o = owner /\ o_is_str o = str /\ grants (sizeof_owner + strlen key) = true.
Proof.
  intros (name & (Hn & Ho & Hg) & Hk & Hgr & _) (Hn' & Ho' & Hg') E. rewrite E in Hk.
  apply hash_key_inj in Hk as [-> Hk]; [|done..]. rewrite !cstr_no_nul in Hk by done. subst. by subst.
Qed.

Lemma crep_ok c L D a o : crep c L D -> (a, o) ∈ L ++ D -> entry_ok o.
Proof. intros H. eapply ho_ok, H. Qed.

Lemma crep_ent c L D a o : crep c L D -> (a, o) ∈ L ++ D -> ent c a = Ret o.
Proof. intros H. eapply ent_in, H. Qed.

Lemma crep_items c L D : crep c L D -> (HASH_ITER (c_owned c)).*2 = L.*1.
Proof. intros H. rewrite (cr_iter _ _ _ H), <- list_fmap_compose. done. Qed.

Lemma crep_nodup c L D : crep c L D -> NoDup (HASH_ITER (c_owned c)).*2.
Proof.
  intros H. rewrite (crep_items _ _ _ H). pose proof (ho_addrs _ _ (cr_heap _ _ _ H)) as Hn.
  rewrite fmap_app in Hn. by apply NoDup_app in Hn as [? _].
Qed.

Lemma find_owned_spec c L D str owner key :
  crep c L D -> getter_ok str owner key ->
  match find_owned c owner key with
  | Some a => exists o, (a, o) ∈ L /\ o_k o = hash_key owner key
  | None => forall a o, (a, o) ∈ L -> o_k o <> hash_key owner key
  end.
Proof.
  intros H Hg. unfold find_owned. destruct ((_ <? _) && negb _) eqn:Ec.
  { apply andb_prop in Ec as [_ Ec]. intros a o Hin E.
    destruct (entry_key o str owner key) as (_ & _ & Hgr); [|done|done|by rewrite Hgr in Ec].
    eapply crep_ok; [done|]. apply elem_of_app. by left. }
  destruct (HASH_FIND _ _) as [a|] eqn:Ef.
  - apply find_some in Ef; [|by eapply crep_nodup]. rewrite (cr_iter _ _ _ H) in Ef.
    apply list_elem_of_fmap in Ef as ([a' o] & [= Ek ->] & Hin). by exists o.
  - intros a o Hin E. apply (find_none _ _ a) in Ef; [|by eapply crep_nodup]. apply Ef.
    rewrite (cr_iter _ _ _ H). apply list_elem_of_fmap. exists (a, o). by rewrite <- E.
Qed.

(** *** Moving between the lists *)

Lemma key_once (L : entries) a o b o' :
  NoDup ((fun ao => o_k ao.2) <$> L) -> (a, o) ∈ L -> (b, o') ∈ L -> o_k o = o_k o' -> (a, o) = (b, o').
Proof.
  intros Hn Ha Hb E. apply list_elem_of_lookup in Ha as [i Hi], Hb as [j Hj].
  assert (i = j) as ->; [|congruence].
  apply (NoDup_lookup _ i j (o_k o) Hn); rewrite list_lookup_fmap; [by rewrite Hi|by rewrite Hj, E].
Qed.

Definition item (ao : Z * owned) : list Z * Z := (o_k ao.2, ao.1).

Lemma crep_del c L1 a o L2 D :
  crep c (L1 ++ (a, o) :: L2) D -> HASH_ITER (HASH_DEL (c_owned c) a) = item <$> L1 ++ L2.
Proof.
  intros H. rewrite (fmap_app item). apply (del_mid _ _ _ (o_k o)); [|by eapply crep_nodup].
  by rewrite (cr_iter _ _ _ H), fmap_app.
Qed.

Lemma keys_drop (L1 L2 : entries) ao :
  NoDup ((fun ao => o_k ao.2) <$> L1 ++ ao :: L2) -> NoDup ((fun ao => o_k ao.2) <$> L1 ++ L2).
Proof. rewrite !fmap_app, fmap_cons, <- Permutation_middle. by intros [_ ?]%NoDup_cons. Qed.

Lemma detach_spec c L1 a o L2 D :
  crep c (L1 ++ (a, o) :: L2) D -> crep (detach_owned c a) (L1 ++ L2) ((a, o) :: D).
Proof.
  intros H. split.
  - by eapply crep_del.
  - cbn. by rewrite (cr_detached _ _ _ H).
  - eapply keys_drop, H.
  - destruct (cr_heap _ _ _ H) as [H1 H2 H3 H4 H5 H6].
    assert (E : L1 ++ L2 ++ (a, o) :: D ≡ₚ (L1 ++ (a, o) :: L2) ++ D).
    { rewrite <- app_assoc. cbn. by rewrite <- !Permutation_middle. }
    rewrite <- app_assoc. rewrite E. by split.
Qed.

(** *** Interning *)

(** The entry is what a string getter was last given, and it reads [v]. *)
Definition lent_as c (owner : Z) (key v : list Z) (o : owned) : Prop :=
  o_is_str o = true /\ o_k o = hash_key owner key /\ o_value o <> 0 /\
  exists s, c_strs c !! o_value o = Some s /\ cstr s = cstr v.

Lemma reads_lent c E a o v owner key :
  heap_ok c E -> (a, o) ∈ E -> o_is_str o = true -> o_k o = hash_key owner key ->
  exists b, reads_as c (o_value o) (Some v) = Ret b /\ (b = true <-> lent_as c owner key v o).
Proof.
  intros HE Hin Hs Hk. destruct (reads_as_spec c E a o (Some v) HE Hin Hs) as (b & -> & Hb).
  exists b. split; [done|]. rewrite Hb. unfold lent_as. naive_solver.
Qed.

Lemma key_is_spec o str key :
  entry_ok o -> getter_ok str (o_owner o) key -> key_is o key = true <-> o_k o = hash_key (o_owner o) key.
Proof.
  intros (name & _ & Hk & _) _. unfold key_is. rewrite Hk, hash_key_length, hash_key_name. split.
  - intros [_ E]%andb_prop. apply bool_decide_eq_true in E. unfold hash_key. by rewrite E.
  - intros E. apply (f_equal (drop 8)) in E. rewrite !hash_key_name in E.
    unfold strlen. rewrite E. by rewrite Z.eqb_refl, bool_decide_true.
Qed.

(** Whether the entry is the one looked for. *)
Lemma same_spec c E a o owner key v str :
  heap_ok c E -> (a, o) ∈ E -> getter_ok str owner key ->
  exists b, (if o_is_str o && (o_owner o =? owner) && key_is o key then reads_as c (o_value o) (Some v) else Ret false) = Ret b /\
    (b = true <-> lent_as c owner key v o).
Proof.
  intros HE Hin Hg. pose proof (ho_ok _ _ HE a o Hin) as Hok.
  destruct (o_is_str o) eqn:Es; cbn [andb]; [|exists false; unfold lent_as; split; [done|rewrite Es; naive_solver]].
  destruct (Z.eqb_spec (o_owner o) owner) as [<-|Hne]; cbn [andb].
  - pose proof (key_is_spec o str key Hok Hg) as Hk. destruct (key_is o key).
    + eapply reads_lent; [done|done|done|by apply Hk].
    + exists false. split; [done|]. split; [done|]. intros (_ & E' & _). by apply Hk in E'.
  - exists false. split; [done|]. split; [done|]. intros (_ & E' & _).
    destruct (entry_key o str owner key Hok Hg E') as [? _]. done.
Qed.

Lemma take_back_spec c L D0 owner key v str : getter_ok str owner key -> forall D,
  crep c L (D0 ++ D) ->
  exists r, take_back c owner key (Some v) D.*1 = Ret r /\
    match r with
    | Some (t, val, l) => exists K1 a o K2, D = K1 ++ (a, o) :: K2 /\ l = (K1 ++ K2).*1 /\ val = o_value o /\
        lent_as c owner key v o /\ HASH_ADD (c_owned c) (o_k o) a = Some t
    | None => UthashTotal U -> forall a o, (a, o) ∈ D -> ~ lent_as c owner key v o
    end.
Proof.
  intros Hg D. revert D0. induction D as [|[a o] D IH]; intros D0 H.
  { exists None. split; [done|]. by intros _ a o ?%not_elem_of_nil. }
  cbn [fmap list_fmap fst take_back].
  assert (Hin : (a, o) ∈ L ++ D0 ++ (a, o) :: D) by (rewrite !elem_of_app; right; right; apply list_elem_of_here).
  rewrite (crep_ent _ _ _ _ _ H Hin). cbn [mbind outcome_bind].
  destruct (same_spec c _ a o owner key v str (cr_heap _ _ _ H) Hin Hg) as (b & -> & Hb). cbn [mbind outcome_bind].
  destruct (IH (D0 ++ [(a, o)])) as (r & Er & Hr); [by rewrite <- app_assoc|].
  change ((fix go (l : entries) : list Z := match l with [] => [] | x :: l0 => x.1 :: go l0 end) D) with (D.*1).
  destruct b; [destruct (HASH_ADD _ _ _) as [t|] eqn:Ea|].
  - eexists. split; [reflexivity|]. exists [], a, o, D. split_and!; try done. by apply Hb.
  - rewrite Er. eexists. split; [reflexivity|]. destruct r as [[[t val] l]|].
    + destruct Hr as (K1 & a' & o' & K2 & -> & -> & ? & ? & ?). by exists ((a, o) :: K1), a', o', K2.
    + intros Ht. by destruct (add_total (c_owned c) (o_k o) a) as [t Et]; rewrite Et in Ea.
  - rewrite Er. eexists. split; [reflexivity|]. destruct r as [[[t val] l]|].
    + destruct Hr as (K1 & a' & o' & K2 & -> & -> & ? & ? & ?). by exists ((a, o) :: K1), a', o', K2.
    + intros Ht a' o' [[= -> ->]|Hin']%elem_of_cons; [by intros ?%Hb|by apply (Hr Ht a')].
Qed.

(** Back among the live ones. *)
Lemma crep_back c L D1 a o D2 t :
  crep c L (D1 ++ (a, o) :: D2) -> HASH_ADD (c_owned c) (o_k o) a = Some t ->
  (forall b o', (b, o') ∈ L -> o_k o' <> o_k o) ->
  crep (set_detached (set_owned c t) (D1 ++ D2).*1) (L ++ [(a, o)]) (D1 ++ D2).
Proof.
  intros H Et Hk. split; cbn.
  - rewrite (add_some _ _ _ _ Et), (cr_iter _ _ _ H), fmap_app. done.
  - done.
  - rewrite fmap_app. apply NoDup_app. split_and!; [apply H| |apply NoDup_singleton].
    intros k ([b o'] & Ek & Hb)%list_elem_of_fmap Hin%list_elem_of_singleton. apply (Hk b o' Hb). cbn in *. congruence.
  - destruct (cr_heap _ _ _ H) as [H1 H2 H3 H4 H5 H6].
    assert (E : (L ++ [(a, o)]) ++ D1 ++ D2 ≡ₚ L ++ D1 ++ (a, o) :: D2).
    { rewrite <- app_assoc. cbn. by rewrite <- !Permutation_middle. }
    rewrite E. by split.
Qed.

Lemma crep_add c c' L D a o t :
  crep c L D -> entry_ok o -> c_ents c !! a = None ->
  (forall b o', (b, o') ∈ L -> o_k o' <> o_k o) ->
  HASH_ADD (c_owned c) (o_k o) a = Some t ->
  c_owned c' = t -> c_detached c' = c_detached c ->
  c_ents c' = <[a := o]> (c_ents c) -> c_static c' = c_static c ->
  (sval o = [] /\ c_strs c' = c_strs c \/
   exists p s, sval o = [p] /\ c_strs c !! p = None /\ c_strs c' = <[p := s]> (c_strs c)) ->
  crep c' (L ++ [(a, o)]) D.
Proof.
  intros H Hok Ha Hk Et Ht Hd He Hst Hs. split.
  - rewrite Ht, (add_some _ _ _ _ Et), (cr_iter _ _ _ H), fmap_app. done.
  - rewrite Hd. apply H.
  - rewrite fmap_app. apply NoDup_app. split_and!; [apply H| |apply NoDup_singleton].
    intros k ([b o'] & Ek & Hb)%list_elem_of_fmap Hin%list_elem_of_singleton. apply (Hk b o' Hb). cbn in *. congruence.
  - assert (E : (L ++ [(a, o)]) ++ D ≡ₚ (a, o) :: (L ++ D)) by (rewrite <- app_assoc; cbn; by rewrite <- Permutation_middle).
    rewrite E. by eapply heap_add; [apply H|..].
Qed.

(** Two entries that read the same for one getter of one owner are one. *)
Definition texts_once c (E : entries) : Prop := forall a o b o' owner key v,
  (a, o) ∈ E -> (b, o') ∈ E -> lent_as c owner key v o -> lent_as c owner key v o' -> a = b.

Lemma lent_mono c c' owner key v o : c_strs c ⊆ c_strs c' -> lent_as c owner key v o -> lent_as c' owner key v o.
Proof. intros Hsub (? & ? & ? & s & ? & ?). split_and!; [done..|]. exists s. split; [by eapply lookup_weaken|done]. Qed.

(** The string of an entry of the heap reads what it read. *)
Lemma lent_back c c' E a o owner key v :
  heap_ok c E -> (a, o) ∈ E -> c_strs c ⊆ c_strs c' -> lent_as c' owner key v o -> lent_as c owner key v o.
Proof.
  intros HE Hin Hsub (Hs & Hk & Hv & s & Es & Et). split_and!; [done..|].
  destruct (str_at_in c E a o HE Hin Hs Hv) as [s' Es']. exists s'. split; [done|].
  apply (lookup_weaken _ _ _ _ Es') in Hsub. congruence.
Qed.

(** What is lent is lent by an entry. *)
Definition lends c (E : entries) (owner : Z) (key v : list Z) (p : Z) : Prop :=
  exists a o, (a, o) ∈ E /\ o_owner o = owner /\ o_value o = p /\ lent_as c owner key v o.

Lemma strdup_spec c v :
  exists c' p, strdup_ c v = (c', p) /\ c_ents c' = c_ents c /\ c_owned c' = c_owned c /\
    c_detached c' = c_detached c /\ c_static c' = c_static c /\ c_released c' = c_released c /\
    (p = 0 /\ c_strs c' = c_strs c /\ ~ TotalAllocator A \/
     p <> 0 /\ c_strs c !! p = None /\ c_strs c' = <[p := cstr v]> (c_strs c)).
Proof.
  unfold strdup_. destruct (grants _) eqn:Eg.
  - eexists _, _. split; [reflexivity|]. split_and!; try done. right. split_and!; [apply place_not_null| |done].
    apply not_elem_of_dom, place_fresh.
  - eexists _, _. split; [reflexivity|]. split_and!; try done. left. split_and!; [done..|].
    intros HT. by rewrite HT in Eg.
Qed.

Lemma intern_new_spec c L D owner key v :
  crep c L D -> getter_ok true owner key -> (forall a o, (a, o) ∈ L -> o_k o <> hash_key owner key) ->
  exists c' p N, intern_new c owner key (Some v) = (c', p) /\ crep c' (L ++ N) D /\
    c_released c' = c_released c /\ c_static c' = c_static c /\ c_strs c ⊆ c_strs c' /\
    (forall a o, (a, o) ∈ N -> o_k o = hash_key owner key /\ rval o = []) /\ (length N <= 1)%nat /\
    (p <> 0 -> lends c' N owner key v p) /\
    (TotalAllocator A -> UthashTotal U -> p <> 0).
Proof.
  intros H Hg Hk. unfold intern_new, add_owned.
  assert (Hno : forall p, (TotalAllocator A -> UthashTotal U -> p <> 0) -> p = 0 ->
    exists c' p N, (c, 0) = (c', p) /\ crep c' (L ++ N) D /\
    c_released c' = c_released c /\ c_static c' = c_static c /\ c_strs c ⊆ c_strs c' /\
    (forall a o, (a, o) ∈ N -> o_k o = hash_key owner key /\ rval o = []) /\ (length N <= 1)%nat /\
    (p <> 0 -> lends c' N owner key v p) /\
    (TotalAllocator A -> UthashTotal U -> p <> 0)).
  { intros p Hp ->. exists c, 0, []. rewrite app_nil_r. split_and!; try done; [|by cbn; lia]. by intros a o ?%not_elem_of_nil. }
  destruct (grants sizeof_owned) eqn:E1; [|apply (Hno 0); [|done]; intros HT; by rewrite HT in E1].
  unfold make_key. destruct (grants (_ + _)) eqn:E2; [|apply (Hno 0); [|done]; intros HT; by rewrite HT in E2].
  destruct (HASH_ADD _ _ _) as [t|] eqn:Et.
  2: { apply (Hno 0); [|done]. intros _ HT. destruct (add_total (c_owned c) (hash_key owner key) (place (dom (c_ents c)))) as [t Et'].
       by rewrite Et' in Et. }
  clear Hno. set (a := place (dom (c_ents c))) in *. cbn [arpc_dup].
  destruct (strdup_spec (put_ent (set_owned c t) a (Owned (hash_key owner key) owner 0 None false)) v)
    as (c1 & p & -> & He & Ho & Hd & Hs & Hr & Hp). cbn in He, Ho, Hd, Hs, Hr, Hp.
  set (o := Owned (hash_key owner key) owner p (Some RFree) true).
  assert (Hsub : c_strs c ⊆ c_strs c1).
  { destruct Hp as [(_ & -> & _)|(_ & Hp & ->)]; [done|by apply insert_subseteq]. }
  exists (put_ent c1 a o), p, [(a, o)]. split_and!; [done| | done | done | done | | cbn; lia | |].
  - eapply (crep_add c _ L D a o t); [done| | |done|exact Et|done..| | |].
    + exists key. by split_and!.
    + apply not_elem_of_dom, place_fresh.
    + cbn. by rewrite He, insert_insert_eq.
    + done.
    + cbn [c_strs put_ent set_ents]. destruct Hp as [(-> & -> & _)|(Hp0 & Hp & ->)]; [by left|].
      right. exists p, (cstr v). split_and!; [|done..]. unfold sval. cbn. by destruct (Z.eqb_spec p 0).
  - by intros a' o' [= -> ->]%list_elem_of_singleton.
  - intros Hp0. destruct Hp as [[? _]|(_ & _ & Es)]; [done|]. exists a, o. split; [apply list_elem_of_here|].
    do 2 (split; [done|]). do 3 (split; [done|]). exists (cstr v). cbn. rewrite Es, lookup_insert_eq. split; [done|apply cstr_idemp].
  - intros HT _. by destruct Hp as [(_ & _ & ?)|(? & _)].
Qed.

(** What interning a text makes of the cache: [N], at most one entry, is new. *)
Record interned c (L D : entries) owner key v c' p (L' D' N : entries) : Prop := {
  in_crep : crep c' L' D';
  in_entries : L' ++ D' ≡ₚ N ++ (L ++ D);
  in_released : c_released c' = c_released c;
  in_static : c_static c' = c_static c;
  in_strs : c_strs c ⊆ c_strs c';
  in_new : (length N <= 1)%nat /\ forall a o, (a, o) ∈ N -> o_k o = hash_key owner key /\ rval o = [];
  in_others a o : o_k o <> hash_key owner key -> (a, o) ∈ L' <-> (a, o) ∈ L;
  in_lends : p <> 0 -> lends c' L' owner key v p;
  in_total : TotalAllocator A -> UthashTotal U ->
    p <> 0 /\ (N = [] \/ forall a o, (a, o) ∈ L ++ D -> ~ lent_as c owner key v o)
}.

Lemma intern_rest_spec c L D owner key v :
  crep c L D -> getter_ok true owner key -> (forall a o, (a, o) ∈ L -> o_k o <> hash_key owner key) ->
  exists c' p L' D' N, intern_rest c owner key (Some v) = Ret (c', p) /\ interned c L D owner key v c' p L' D' N.
Proof.
  intros H Hg Hk. unfold intern_rest. rewrite (cr_detached _ _ _ H).
  destruct (take_back_spec c L [] owner key v true Hg D H) as (r & -> & Hr). cbn [mbind outcome_bind].
  destruct r as [[[t val] l]|].
  - destruct Hr as (K1 & a & o & K2 & -> & -> & -> & Hl & Et).
    assert (Hin : (a, o) ∈ L ++ K1 ++ (a, o) :: K2) by (rewrite !elem_of_app; right; right; apply list_elem_of_here).
    pose proof Hl as (Hs & Hok & Hv & Htext). rewrite Hok in Et.
    pose proof (crep_ok _ _ _ _ _ H Hin) as He. destruct (entry_key o true owner key He Hg Hok) as (Ho & _ & _).
    eexists _, _, (L ++ [(a, o)]), (K1 ++ K2), []. split; [reflexivity|]. split; cbn; try done.
    + eapply crep_back; [done|by rewrite Hok|by rewrite Hok].
    + rewrite <- app_assoc. cbn. by rewrite <- !Permutation_middle.
    + split; [lia|]. by intros a' o' ?%not_elem_of_nil.
    + intros a' o' Hne. rewrite elem_of_app, list_elem_of_singleton. split; [|tauto].
      intros [?|[= -> ->]]; [done|by rewrite Hok in Hne].
    + intros _. exists a, o. rewrite elem_of_app, list_elem_of_singleton. split; [by right|done].
    + intros _ _. split; [done|by left].
  - destruct (intern_new_spec c L D owner key v H Hg Hk) as (c' & p & N & -> & Hc & Hr1 & Hr2 & Hr3 & Hr4 & Hr5 & Hr6 & Hr7).
    exists c', p, (L ++ N), D, N. split; [done|]. split; try done.
    + rewrite <- app_assoc. apply Permutation_app_swap_app.
    + intros a o Hne. rewrite elem_of_app. split; [|tauto]. intros [?|Hin]; [done|]. by apply Hr4 in Hin as [? _].
    + intros Hp. destruct (Hr6 Hp) as (a & o & Hin & ?). exists a, o. rewrite elem_of_app. by split; [right|].
    + intros HT HU. split; [by apply Hr7|]. right. intros a o [Hin|Hin]%elem_of_app.
      * intros (_ & ? & _). by apply (Hk a o).
      * by apply (Hr HU a).
Qed.

Lemma detach_interned c L1 a o L2 D owner key v c' p L' D' N :
  o_k o = hash_key owner key ->
  interned (detach_owned c a) (L1 ++ L2) ((a, o) :: D) owner key v c' p L' D' N ->
  ~ lent_as c owner key v o ->
  interned c (L1 ++ (a, o) :: L2) D owner key v c' p L' D' N.
Proof.
  intros Hk [H1 H2 H3 H4 H5 H6 H7 H8 H9] Hno.
  assert (E : (L1 ++ (a, o) :: L2) ++ D ≡ₚ (L1 ++ L2) ++ (a, o) :: D).
  { rewrite <- !app_assoc. cbn. by rewrite <- !Permutation_middle. }
  split; try done.
  - by rewrite H2, E.
  - intros b o' Hne. rewrite H7, !elem_of_app, elem_of_cons by done. naive_solver.
  - intros HT HU. destruct (H9 HT HU) as [Hp Hn]. split; [done|]. destruct Hn as [Hn|Hn]; [by left|right].
    intros b o' Hin. rewrite E in Hin. by apply (Hn b o').
Qed.

Lemma intern_spec c L D owner key v :
  crep c L D -> getter_ok true owner key ->
  exists c' p L' D' N, intern c owner key (Some v) = Ret (c', p) /\ interned c L D owner key v c' p L' D' N.
Proof.
  intros H Hg. unfold intern. pose proof (find_owned_spec c L D true owner key H Hg) as Hf.
  destruct (find_owned c owner key) as [a|]; [|by apply intern_rest_spec].
  destruct Hf as (o & Hin & Hk). assert (Hin' : (a, o) ∈ L ++ D) by (apply elem_of_app; by left).
  rewrite (crep_ent _ _ _ _ _ H Hin'). cbn [mbind outcome_bind].
  destruct (entry_key o true owner key (crep_ok _ _ _ _ _ H Hin') Hg Hk) as (Ho & Hs & _). rewrite Hs.
  destruct (reads_lent c _ a o v owner key (cr_heap _ _ _ H) Hin' Hs Hk) as (b & -> & Hb). cbn [mbind outcome_bind].
  destruct b.
  - exists c, (o_value o), L, D, []. split; [done|]. pose proof (proj1 Hb eq_refl) as Hl. split; try done.
    + split; [cbn; lia|]. by intros a' o' ?%not_elem_of_nil.
    + intros _. by exists a, o.
    + intros _ _. split; [apply Hl|by left].
  - apply list_elem_of_split in Hin as (L1 & L2 & ->).
    assert (Hno : forall b o', (b, o') ∈ L1 ++ L2 -> o_k o' <> hash_key owner key).
    { intros b o' Hb' E. pose proof (cr_keys _ _ _ H) as Hn. rewrite fmap_app, fmap_cons, <- Permutation_middle in Hn.
      apply NoDup_cons in Hn as [Hn _]. apply Hn. cbn. rewrite Hk, <- E, <- fmap_app.
      by apply (list_elem_of_fmap_2 (fun ao => o_k ao.2) _ (b, o')). }
    destruct (intern_rest_spec (detach_owned c a) (L1 ++ L2) ((a, o) :: D) owner key v) as (c' & p & L' & D' & N & E & Hi);
      [by apply detach_spec|done|done|].
    exists c', p, L', D', N. split; [done|]. apply detach_interned; [done..|]. intros Hl. by apply Hb in Hl.
Qed.

(** *** Caching *)

Lemma cached_spec c L D owner key :
  crep c L D -> getter_ok false owner key ->
  exists r, arpc_cached c owner key = Ret r /\
    match r with
    | Some v => exists a o, (a, o) ∈ L /\ o_k o = hash_key owner key /\ o_owner o = owner /\ o_value o = v
    | None => forall a o, (a, o) ∈ L -> o_k o <> hash_key owner key
    end.
Proof.
  intros H Hg. unfold arpc_cached. pose proof (find_owned_spec c L D false owner key H Hg) as Hf.
  destruct (find_owned c owner key) as [a|]; [|by exists None].
  destruct Hf as (o & Hin & Hk). assert (Hin' : (a, o) ∈ L ++ D) by (apply elem_of_app; by left).
  rewrite (crep_ent _ _ _ _ _ H Hin'). cbn [mbind outcome_bind].
  destruct (entry_key o false owner key (crep_ok _ _ _ _ _ H Hin') Hg Hk) as (Ho & Hs & _). rewrite Hs.
  eexists. split; [reflexivity|]. by exists a, o.
Qed.

(** What caching a value makes of the cache: it is turned down for what is
    there already, or filed, or, out of memory, handed back unfiled. *)
Lemma cache_spec c L D owner key value release :
  crep c L D -> getter_ok false owner key ->
  exists c' r N, arpc_cache c owner key value release = Ret (c', r) /\
    crep c' (L ++ N) D /\ c_strs c' = c_strs c /\ c_static c' = c_static c /\
    ((exists a o, (a, o) ∈ L /\ o_k o = hash_key owner key /\ o_owner o = owner /\ r = o_value o /\
       N = [] /\ c_released c' = c_released c ++ [(release, value)]) \/
     ((forall a o, (a, o) ∈ L -> o_k o <> hash_key owner key) /\ r = value /\ c_released c' = c_released c /\
      ((exists a, N = [(a, Owned (hash_key owner key) owner value (Some (RGen release)) false)]) \/
       (N = [] /\ (TotalAllocator A -> UthashTotal U -> False))))).
Proof.
  intros H Hg. unfold arpc_cache. pose proof (find_owned_spec c L D false owner key H Hg) as Hf.
  destruct (find_owned c owner key) as [a|].
  { destruct Hf as (o & Hin & Hk). assert (Hin' : (a, o) ∈ L ++ D) by (apply elem_of_app; by left).
    rewrite (crep_ent _ _ _ _ _ H Hin'). cbn [mbind outcome_bind].
    destruct (entry_key o false owner key (crep_ok _ _ _ _ _ H Hin') Hg Hk) as (Ho & Hs & _). rewrite Hs. cbn [call_release mbind outcome_bind].
    eexists _, _, []. split; [reflexivity|]. rewrite app_nil_r. split_and!; [|done|done|].
    - destruct H as [H1 H2 H3 [H4 H5 H6 H7 H8 H9]]. by split; [..|split].
    - left. by exists a, o. }
  unfold add_owned.
  assert (Hno : (TotalAllocator A -> UthashTotal U -> False) -> exists c' r N, Ret (c, value) = Ret (c', r) /\
    crep c' (L ++ N) D /\ c_strs c' = c_strs c /\ c_static c' = c_static c /\
    ((exists a o, (a, o) ∈ L /\ o_k o = hash_key owner key /\ o_owner o = owner /\ r = o_value o /\
       N = [] /\ c_released c' = c_released c ++ [(release, value)]) \/
     ((forall a o, (a, o) ∈ L -> o_k o <> hash_key owner key) /\ r = value /\ c_released c' = c_released c /\
      ((exists a, N = [(a, Owned (hash_key owner key) owner value (Some (RGen release)) false)]) \/
       (N = [] /\ (TotalAllocator A -> UthashTotal U -> False)))))).
  { intros Hn. exists c, value, []. rewrite app_nil_r. split_and!; try done. right. split_and!; try done. by right. }
  destruct (grants sizeof_owned) eqn:E1; [|apply Hno; intros HT _; by rewrite HT in E1].
  unfold make_key. destruct (grants (_ + _)) eqn:E2; [|apply Hno; intros HT _; by rewrite HT in E2].
  destruct (HASH_ADD _ _ _) as [t|] eqn:Et.
  2: { apply Hno. intros _ HT. destruct (add_total (c_owned c) (hash_key owner key) (place (dom (c_ents c)))) as [t Et'].
       by rewrite Et' in Et. }
  clear Hno. set (o := Owned (hash_key owner key) owner value (Some (RGen release)) false).
  set (a := place (dom (c_ents c))) in *.
  eexists _, _, [(a, o)]. split; [reflexivity|]. split_and!; [| done | done |].
  - eapply (crep_add c _ L D a o t); [done| | |done|exact Et|done..| | |].
    + exists key. split_and!; [done..|]. by exists release.
    + apply not_elem_of_dom, place_fresh.
    + cbn. by rewrite insert_insert_eq.
    + done.
    + by left.
  - right. split_and!; [done..|]. left. by eexists.
Qed.

(** *** Purging and detaching *)

Definition kept (f : owned -> bool) (E : entries) : entries := filter (fun ao => f ao.2 = false) E.
Definition gone (f : owned -> bool) (E : entries) : entries := filter (fun ao => f ao.2 = true) E.

Lemma kept_cons f ao E : kept f (ao :: E) = if f ao.2 then kept f E else ao :: kept f E.
Proof. unfold kept. rewrite filter_cons. by destruct (f ao.2). Qed.
Lemma gone_cons f ao E : gone f (ao :: E) = if f ao.2 then ao :: gone f E else gone f E.
Proof. unfold gone. rewrite filter_cons. by destruct (f ao.2). Qed.

Lemma kept_gone f E : kept f E ++ gone f E ≡ₚ E.
Proof.
  induction E as [|ao E IH]; [done|]. rewrite kept_cons, gone_cons.
  destruct (f ao.2); [by rewrite <- Permutation_middle, IH|cbn; by rewrite IH].
Qed.

Lemma kept_gone_both f L D : (kept f L ++ kept f D) ++ (gone f L ++ gone f D) ≡ₚ L ++ D.
Proof.
  rewrite <- (kept_gone f L), <- (kept_gone f D) at 3. rewrite <- !app_assoc. apply Permutation_app_head.
  rewrite !app_assoc. apply Permutation_app_tail, Permutation_app_comm.
Qed.

(** The string of an entry is not one of an entry on the other side. *)
Lemma svals_apart c E E' a o :
  heap_ok c (E ++ E') -> (a, o) ∈ E -> o_is_str o = true -> o_value o <> 0 -> o_value o ∉ svals E'.
Proof.
  intros H Hin Hs Hv Hx. pose proof (ho_once _ _ H) as Hn. apply NoDup_app in Hn as (_ & _ & Hn).
  unfold svals in Hn. rewrite bind_app in Hn. apply NoDup_app in Hn as (_ & Hn & _).
  apply (Hn (o_value o)); [by eapply sval_elem|done].
Qed.

(** [c'] has let go of the entries [E]. *)
Record let_go c (E : entries) c' : Prop := {
  lg_released : c_released c' = c_released c ++ rvals E;
  lg_static : c_static c' = c_static c;
  lg_strs p : p ∉ svals E -> c_strs c' !! p = c_strs c !! p
}.

Lemma let_go_nil c : let_go c [] c.
Proof. split; [by rewrite app_nil_r|done..]. Qed.

Lemma let_go_app c1 E1 c2 E2 c3 : let_go c1 E1 c2 -> let_go c2 E2 c3 -> let_go c1 (E1 ++ E2) c3.
Proof.
  intros [H1 H2 H3] [H4 H5 H6]. split.
  - rewrite H4, H1. unfold rvals. by rewrite bind_app, app_assoc.
  - congruence.
  - intros p Hp. unfold svals in *. rewrite bind_app, not_elem_of_app in Hp. rewrite H6 by apply Hp. apply H3, Hp.
Qed.

Lemma purge_live_spec f D L : forall K c,
  crep c (K ++ L) D ->
  exists c', purge_live f L.*1 c = Ret c' /\ crep c' (K ++ kept f L) D /\ let_go c (gone f L) c'.
Proof.
  induction L as [|[a o] L IH]; intros K c H; [exists c; split; [done|split; [done|apply let_go_nil]]|].
  rewrite fmap_cons. cbn [purge_live fst].
  assert (Hin : (a, o) ∈ (K ++ (a, o) :: L) ++ D).
  { rewrite !elem_of_app. left. right. apply list_elem_of_here. }
  rewrite (crep_ent _ _ _ _ _ H Hin). cbn [mbind outcome_bind]. rewrite kept_cons, gone_cons. cbn [snd].
  destruct (f o) eqn:Ef.
  - assert (HE : heap_ok (set_owned c (HASH_DEL (c_owned c) a)) ((a, o) :: (K ++ L) ++ D)).
    { destruct (cr_heap _ _ _ H) as [H1 H2 H3 H4 H5 H6].
      assert (E : (a, o) :: (K ++ L) ++ D ≡ₚ (K ++ (a, o) :: L) ++ D).
      { rewrite <- !app_assoc. cbn. by rewrite Permutation_middle. }
      rewrite E. by split. }
    destruct (release_owned_spec _ _ _ _ HE) as (c1 & -> & H1 & Hr & Ho & Hd & Hs & Hp). cbn [mbind outcome_bind].
    destruct (IH K c1) as (c' & -> & Hc' & Hl).
    { split; [|by rewrite Hd; apply H| |done].
      - rewrite Ho. cbn. by eapply crep_del.
      - eapply keys_drop, H. }
    exists c'. split_and!; [done|done|]. apply (let_go_app c [(a, o)] c1); [|done]. split.
    + rewrite Hr. cbn. by rewrite app_nil_r.
    + done.
    + intros p Hp'. apply Hp. cbn in Hp'. by rewrite app_nil_r in Hp'.
  - destruct (IH (K ++ [(a, o)]) c) as (c' & -> & Hc' & Hl); [by rewrite <- app_assoc|].
    exists c'. rewrite <- app_assoc in Hc'. by split_and!.
Qed.

Lemma purge_detached_spec f D : forall X c,
  heap_ok c (X ++ D) ->
  exists c', purge_detached f D.*1 c = Ret (c', (kept f D).*1) /\ heap_ok c' (X ++ kept f D) /\
    let_go c (gone f D) c' /\ c_owned c' = c_owned c.
Proof.
  induction D as [|[a o] D IH]; intros X c H; [exists c; split_and!; [done|done|apply let_go_nil|done]|].
  rewrite fmap_cons. cbn [purge_detached fst]. rewrite (ent_in _ _ a o H) by (apply elem_of_app; right; apply list_elem_of_here).
  cbn [mbind outcome_bind]. rewrite kept_cons, gone_cons. cbn [snd].
  destruct (f o) eqn:Ef.
  - assert (E : X ++ (a, o) :: D ≡ₚ (a, o) :: X ++ D) by (by rewrite Permutation_middle). rewrite E in H.
    destruct (release_owned_spec _ _ _ _ H) as (c1 & -> & H1 & Hr & Ho & Hd & Hs & Hp). cbn [mbind outcome_bind].
    destruct (IH X c1 H1) as (c' & -> & Hc' & Hl & Ho'). exists c'. split_and!; [done|done| |congruence].
    apply (let_go_app c [(a, o)] c1); [|done]. split; [rewrite Hr; cbn; by rewrite app_nil_r|done|].
    intros p Hp'. apply Hp. cbn in Hp'. by rewrite app_nil_r in Hp'.
  - destruct (IH (X ++ [(a, o)]) c) as (c' & -> & Hc' & Hl & Ho'); [by rewrite <- app_assoc|].
    exists c'. rewrite <- app_assoc in Hc'. by split_and!.
Qed.

Lemma purge_where_spec f c L D :
  crep c L D ->
  exists c', purge_where f c = Ret c' /\ crep c' (kept f L) (kept f D) /\ let_go c (gone f L ++ gone f D) c'.
Proof.
  intros H. unfold purge_where. rewrite (crep_items _ _ _ H).
  destruct (purge_live_spec f D L [] c H) as (c1 & -> & H1 & Hl1). cbn [mbind outcome_bind app] in *.
  rewrite (cr_detached _ _ _ H1).
  destruct (purge_detached_spec f D (kept f L) c1) as (c2 & -> & H2 & Hl2 & Ho); [apply H1|].
  cbn [mbind outcome_bind]. eexists. split; [reflexivity|].
  pose proof (let_go_app _ _ _ _ _ Hl1 Hl2) as [Hr Hs Hp].
  split; [|by split]. split; cbn; [rewrite Ho; apply H1|done|apply H1|].
  destruct H2 as [G1 G2 G3 G4 G5 G6]. by split.
Qed.

Lemma detach_loop_spec f L : forall K D c,
  crep c (K ++ L) D ->
  exists c', detach_loop f L.*1 c = Ret c' /\ crep c' (K ++ kept f L) (reverse (gone f L) ++ D) /\
    c_released c' = c_released c /\ c_static c' = c_static c /\ c_strs c' = c_strs c.
Proof.
  induction L as [|[a o] L IH]; intros K D c H; [by exists c|].
  rewrite fmap_cons. cbn [detach_loop fst].
  assert (Hin : (a, o) ∈ (K ++ (a, o) :: L) ++ D).
  { rewrite !elem_of_app. left. right. apply list_elem_of_here. }
  rewrite (crep_ent _ _ _ _ _ H Hin). cbn [mbind outcome_bind]. rewrite kept_cons, gone_cons. cbn [snd].
  destruct (f o) eqn:Ef.
  - destruct (IH K ((a, o) :: D) (detach_owned c a)) as (c' & -> & Hc' & ? & ? & ?); [by apply detach_spec|].
    exists c'. rewrite reverse_cons, <- app_assoc. by split_and!.
  - destruct (IH (K ++ [(a, o)]) D c) as (c' & -> & Hc' & ? & ? & ?); [by rewrite <- app_assoc|].
    exists c'. rewrite <- app_assoc in Hc'. by split_and!.
Qed.

(** The names an entry answers for. *)
Lemma key_names_spec o name getter :
  o_k o = hash_key (o_owner o) name -> no_nul name -> no_nul getter ->
  key_names o getter = true <-> name = getter \/ exists args, name = getter ++ 58 :: args.
Proof.
  intros Hk Hn Hg. unfold key_names. rewrite Hk, hash_key_name, !cstr_no_nul by done.
  rewrite !andb_true_iff, orb_true_iff, bool_decide_eq_true, Nat.leb_le, Nat.eqb_eq, Z.eqb_eq. split.
  - intros [[Hl Ht] Hr]. rewrite <- (take_drop (length getter) name), Ht.
    destruct (drop (length getter) name) as [|c args] eqn:Ed; [left; apply app_nil_r|].
    assert (Hlen : length name = (length getter + S (length args))%nat).
    { rewrite <- (take_drop (length getter) name), Ht, Ed, length_app. done. }
    destruct Hr as [Hr|Hr]; [lia|]. right. exists args. do 2 f_equal. rewrite <- Hr.
    rewrite <- (take_drop (length getter) name), Ht, Ed, app_nth2, Nat.sub_diag by lia. done.
  - intros [-> |[args ->]]; (split; [split|]).
    + lia.
    + by rewrite take_ge.
    + by left.
    + rewrite length_app. lia.
    + by rewrite take_app_length.
    + right. by rewrite app_nth2, Nat.sub_diag by lia.
Qed.

(** *** Strings that belong to nobody *)

Lemma find_static_spec c L D s : crep c L D -> forall l, l ⊆ c_static c ->
  exists r, find_static c l s = Ret r /\
    match r with
    | Some p => p ∈ l /\ exists t, c_strs c !! p = Some t /\ cstr t = cstr s
    | None => forall p t, p ∈ l -> c_strs c !! p = Some t -> cstr t <> cstr s
    end.
Proof.
  intros H l. induction l as [|p l IH]; intros Hl; cbn [find_static].
  { exists None. split; [done|]. by intros p t ?%not_elem_of_nil. }
  assert (Hp : is_Some (c_strs c !! p)).
  { apply (ho_strs _ _ (cr_heap _ _ _ H)), elem_of_app. left. apply Hl, list_elem_of_here. }
  destruct Hp as [t Ht]. unfold str_at. rewrite Ht. cbn [mbind outcome_bind]. unfold streq. case_bool_decide as E.
  - exists (Some p). split; [done|]. split; [apply list_elem_of_here|by exists t].
  - destruct IH as (r & -> & Hr); [intros q Hq; by apply Hl, list_elem_of_further|]. exists r. split; [done|].
    destruct r as [q|]; [destruct Hr as [? ?]; split; [by apply list_elem_of_further|done]|].
    intros q t' [->|Hq]%elem_of_cons Ht'; [congruence|by apply (Hr q)].
Qed.

Lemma intern_static_spec c L D s :
  crep c L D ->
  exists c' p, intern_static c (Some s) = Ret (c', p) /\ crep c' L D /\ c_released c' = c_released c /\
    c_strs c ⊆ c_strs c' /\
    (p <> 0 -> p ∈ c_static c' /\ exists t, c_strs c' !! p = Some t /\ cstr t = cstr s) /\
    (TotalAllocator A -> p <> 0) /\
    (forall q t, q ∈ c_static c -> c_strs c !! q = Some t -> cstr t = cstr s -> p ∈ c_static c) /\
    c_static c' = (if bool_decide (p ∈ c_static c) || (p =? 0) then c_static c else p :: c_static c).
Proof.
  intros H. unfold intern_static. destruct (find_static_spec c L D s H (c_static c)) as (r & -> & Hr); [done|].
  cbn [mbind outcome_bind]. destruct r as [p|].
  { destruct Hr as [Hin Ht]. exists c, p. split_and!; try done; [|by rewrite bool_decide_true].
    intros _ ->. by apply (ho_static _ _ (cr_heap _ _ _ H)). }
  assert (Hz : 0 ∉ c_static c) by apply (ho_static _ _ (cr_heap _ _ _ H)).
  assert (Hno : (TotalAllocator A -> 0 <> 0) -> exists c' p, Ret (c, 0) = Ret (c', p) /\ crep c' L D /\
    c_released c' = c_released c /\ c_strs c ⊆ c_strs c' /\
    (p <> 0 -> p ∈ c_static c' /\ exists t, c_strs c' !! p = Some t /\ cstr t = cstr s) /\
    (TotalAllocator A -> p <> 0) /\
    (forall q t, q ∈ c_static c -> c_strs c !! q = Some t -> cstr t = cstr s -> p ∈ c_static c) /\
    c_static c' = (if bool_decide (p ∈ c_static c) || (p =? 0) then c_static c else p :: c_static c)).
  { intros Ha. exists c, 0. split_and!; try done; [|by rewrite bool_decide_false]. intros q t Hq Ht E. by destruct (Hr q t). }
  destruct (grants sizeof_sstr) eqn:Eg; [|apply Hno; intros HT; by rewrite HT in Eg].
  destruct (strdup_spec c s) as (c1 & p & -> & He & Ho & Hd & Hs & Hl & Hp).
  destruct (Z.eqb_spec p 0) as [->|Hp0].
  { destruct Hp as [(_ & Est & Ha)|[? _]]; [|done].
    destruct c as [? ? ? ? ? ?], c1 as [? ? ? ? ? ?]. cbn in *. subst. by apply Hno. }
  destruct Hp as [[? _]|(_ & Hp & Est)]; [done|]. exists (set_static c1 (p :: c_static c1)), p.
  rewrite Hs. assert (Hps : p ∉ c_static c ++ svals (L ++ D)).
  { intros Hin. apply (ho_strs _ _ (cr_heap _ _ _ H)) in Hin as [? ?]. congruence. }
  split_and!; try done.
  - destruct H as [H1 H2 H3 [H4 H5 H6 H7 H8 H9]]. split; cbn; [by rewrite Ho|by rewrite Hd|done|].
    split; cbn; rewrite ?He, ?Est; try done.
    + intros q. rewrite elem_of_cons, <- H7. destruct (decide (q = p)) as [->|].
      * rewrite lookup_insert_eq. naive_solver.
      * rewrite lookup_insert_ne by congruence. naive_solver.
    + by apply NoDup_cons.
    + rewrite not_elem_of_cons. split; [congruence|done].
  - cbn. rewrite Est. by apply insert_subseteq.
  - intros _. cbn. split; [apply list_elem_of_here|]. exists (cstr s). rewrite Est, lookup_insert_eq. split; [done|apply cstr_idemp].
  - intros q t Hq Ht E. by destruct (Hr q t).
  - cbn. rewrite bool_decide_false; [by destruct (Z.eqb_spec p 0)|]. intros Hin. apply Hps, elem_of_app. by left.
Qed.

(** ** Programs *)

Inductive cop :=
| OpCached (owner : Z) (key : list Z)
| OpCache (owner : Z) (key : list Z) (value release : Z)
| OpIntern (owner : Z) (key : list Z) (text : list Z)
| OpStatic (text : list Z)
| OpDetach (owner : Z) (whole_root : bool) (keys : list (list Z))
| OpPurgeOwner (owner : Z)
| OpPurgeRoot (handle : Z).

Definition cstep c (op : cop) : outcome (cache * option Z) :=
  match op with
  | OpCached owner key => r ← arpc_cached c owner key; Ret (c, r)
  | OpCache owner key value release => '(c, r) ← arpc_cache c owner key value release; Ret (c, Some r)
  | OpIntern owner key text => '(c, r) ← intern c owner key (Some text); Ret (c, Some r)
  | OpStatic text => '(c, r) ← intern_static c (Some text); Ret (c, Some r)
  | OpDetach owner whole keys => c ← arpc_detach c owner whole keys; Ret (c, None)
  | OpPurgeOwner owner => c ← arpc_purge_owner c owner; Ret (c, None)
  | OpPurgeRoot handle => c ← purge_where (under_root (ARPC_ROOT handle)) c; Ret (c, None)
  end.

Fixpoint crun c (ops : list cop) : outcome cache :=
  match ops with
  | [] => Ret c
  | op :: ops => '(c, _) ← cstep c op; crun c ops
  end.

Definition op_ok (op : cop) : Prop :=
  match op with
  | OpCached owner key | OpCache owner key _ _ => getter_ok false owner key
  | OpIntern owner key _ => getter_ok true owner key
  | OpDetach _ _ keys => Forall no_nul keys
  | _ => True
  end.

(** Whether the operation lets the entry go, whether it takes it out of the
    way, and the value it hands in. *)
Definition purges (op : cop) (o : owned) : bool :=
  match op with
  | OpPurgeOwner owner => owned_by owner o
  | OpPurgeRoot handle => under_root (ARPC_ROOT handle) o
  | _ => false
  end.
Definition displaces (op : cop) (o : owned) : bool :=
  match op with OpDetach owner whole keys => detaches owner whole keys o | _ => false end.
Definition puts (op : cop) : list (Z * Z) :=
  match op with OpCache _ _ value release => [(release, value)] | _ => [] end.

(** One operation. *)
Record stepped c (L D : entries) (op : cop) c' (L' D' : entries) : Prop := {
  st_crep : crep c' L' D';
  st_keeps a o : (a, o) ∈ L ++ D -> purges op o = false ->
    (a, o) ∈ L' ++ D' /\ (o_is_str o = true -> o_value o <> 0 -> c_strs c' !! o_value o = c_strs c !! o_value o);
  st_live a o : (a, o) ∈ L -> purges op o = false -> displaces op o = false -> o_is_str o = false -> (a, o) ∈ L';
  st_once : TotalAllocator A -> UthashTotal U -> texts_once c (L ++ D) -> texts_once c' (L' ++ D');
  st_account : exists lost, c_released c' ++ rvals (L' ++ D') ++ lost ≡ₚ c_released c ++ rvals (L ++ D) ++ puts op /\
    (TotalAllocator A -> UthashTotal U -> lost = [])
}.

(** An operation that only looks. *)
Lemma stepped_refl c L D op : crep c L D -> puts op = [] -> stepped c L D op c L D.
Proof. intros H Hp. split; try done. exists []. by rewrite Hp, !app_nil_r. Qed.

Lemma texts_once_mono c c' E E' :
  heap_ok c E -> (forall a o, (a, o) ∈ E' -> (a, o) ∈ E /\
    (o_is_str o = true -> o_value o <> 0 -> c_strs c' !! o_value o = c_strs c !! o_value o)) ->
  texts_once c E -> texts_once c' E'.
Proof.
  intros HE Hsub Ho a o b o' owner key v Ha Hb (H1 & H2 & H3 & H4) (H5 & H6 & H7 & H8).
  apply Hsub in Ha as [Ha Ea], Hb as [Hb Eb]. apply (Ho a o b o' owner key v); [done..| |].
  - by rewrite Ea in H4.
  - by rewrite Eb in H8.
Qed.

Lemma interned_once c L D owner key v c' p L' D' N :
  crep c L D -> interned c L D owner key v c' p L' D' N -> TotalAllocator A -> UthashTotal U ->
  texts_once c (L ++ D) -> texts_once c' (L' ++ D').
Proof.
  intros H I HT HU Ho. destruct (in_total _ _ _ _ _ _ _ _ _ _ _ I HT HU) as [Hp HN].
  pose proof (in_entries _ _ _ _ _ _ _ _ _ _ _ I) as HE. pose proof (cr_heap _ _ _ H) as Hh.
  pose proof (in_strs _ _ _ _ _ _ _ _ _ _ _ I) as Hsub.
  assert (Hold : forall a o owner' key' w, (a, o) ∈ L ++ D -> lent_as c' owner' key' w o -> lent_as c owner' key' w o).
  { intros a o owner' key' w Hin. by apply (lent_back c c' (L ++ D) a). }
  destruct HN as [->|HN].
  { intros a o b o' owner' key' w Ha Hb Hl Hl'. rewrite HE in Ha, Hb. cbn [app] in Ha, Hb.
    apply (Ho a o b o' owner' key' w); [done..|by eapply Hold|by eapply Hold]. }
  destruct (in_lends _ _ _ _ _ _ _ _ _ _ _ I Hp) as (a1 & o1 & Hin1 & _ & _ & Hl1).
  assert (HN1 : (a1, o1) ∈ N).
  { assert (Hin : (a1, o1) ∈ L' ++ D') by (apply elem_of_app; by left). rewrite HE in Hin.
    apply elem_of_app in Hin as [?|Hin]; [done|]. destruct (HN a1 o1 Hin). by eapply Hold. }
  destruct (in_new _ _ _ _ _ _ _ _ _ _ _ I) as [Hlen Hnk].
  assert (HN' : forall a o, (a, o) ∈ N -> a = a1 /\ o = o1).
  { intros a o Hin. destruct N as [|x [|y N]]; [by apply not_elem_of_nil in Hin| |cbn in Hlen; lia].
    apply list_elem_of_singleton in Hin, HN1. naive_solver. }
  assert (Hnew : forall b o' owner' key' w, (b, o') ∈ L ++ D -> lent_as c' owner' key' w o1 -> lent_as c' owner' key' w o' -> False).
  { intros b o' owner' key' w Hb Hl Hl'. apply (HN b o' Hb). apply (Hold b) in Hl'; [|done].
    destruct Hl as (_ & Hk & _ & s & Es & Et), Hl1 as (_ & Hk1 & _ & s1 & Es1 & Et1), Hl' as (H1 & H2 & H3 & s' & Es' & Et').
    split_and!; [done|congruence|done|]. exists s'. split; [done|congruence]. }
  intros a o b o' owner' key' w Ha Hb Hl Hl'. rewrite HE, elem_of_app in Ha, Hb.
  destruct Ha as [Ha|Ha], Hb as [Hb|Hb].
  - apply HN' in Ha as [-> _], Hb as [-> _]. done.
  - apply HN' in Ha as [_ ->]. by destruct (Hnew b o' owner' key' w).
  - apply HN' in Hb as [_ ->]. by destruct (Hnew a o owner' key' w).
  - apply (Ho a o b o' owner' key' w); [done..|by eapply Hold|by eapply Hold].
Qed.

Lemma interned_stepped c L D owner key v c' p L' D' N :
  crep c L D -> getter_ok true owner key -> interned c L D owner key v c' p L' D' N ->
  stepped c L D (OpIntern owner key v) c' L' D'.
Proof.
  intros H Hg I. pose proof (cr_heap _ _ _ H) as Hh. pose proof I as [I1 I2 I3 I4 I5 [I6 I6'] I7 I8 I9].
  split; [done| | | |].
  - intros a o Hin _. split; [rewrite I2; apply elem_of_app; by right|]. intros Hs Hv.
    destruct (str_at_in c _ a o Hh Hin Hs Hv) as [s Es]. rewrite Es. by eapply lookup_weaken.
  - intros a o Hin _ _ Hs. apply I7; [|done]. intros Hk.
    destruct (entry_key o true owner key) as (_ & Hs' & _); [|done|done|congruence].
    apply (crep_ok c L D a); [done|]. apply elem_of_app. by left.
  - intros HT HU. by eapply interned_once.
  - exists []. split; [|done]. rewrite I3. cbn [puts]. rewrite !app_nil_r. apply Permutation_app_head.
    rewrite I2. unfold rvals. rewrite bind_app. replace (N ≫= (fun ao => rval ao.2)) with (@nil (Z * Z)); [done|].
    symmetry. clear -I6'. induction N as [|[a o] N IH]; [done|]. cbn. destruct (I6' a o) as [_ ->]; [apply list_elem_of_here|].
    apply IH. intros b o' Hin. apply (I6' b). by apply list_elem_of_further.
Qed.

(** An operation that lets go of what is not kept. *)
Lemma purged_stepped c L D op c' :
  crep c L D -> displaces op = (fun _ => false) -> puts op = [] ->
  crep c' (kept (purges op) L) (kept (purges op) D) ->
  let_go c (gone (purges op) L ++ gone (purges op) D) c' ->
  stepped c L D op c' (kept (purges op) L) (kept (purges op) D).
Proof.
  intros H Hd Hp Hc [Hr _ Hs]. pose proof (cr_heap _ _ _ H) as Hh.
  set (K := kept (purges op) L ++ kept (purges op) D) in *. set (X := gone (purges op) L ++ gone (purges op) D) in *.
  pose proof (kept_gone_both (purges op) L D : K ++ X ≡ₚ L ++ D) as HE.
  assert (Hkeep : forall a o, (a, o) ∈ K -> (a, o) ∈ L ++ D /\
    (o_is_str o = true -> o_value o <> 0 -> c_strs c' !! o_value o = c_strs c !! o_value o)).
  { intros a o Hin. split; [rewrite <- HE; apply elem_of_app; by left|]. intros Ho Hv. apply Hs.
    rewrite <- HE in Hh. by eapply svals_apart. }
  assert (Hin : forall a o E, (a, o) ∈ E -> purges op o = false -> (a, o) ∈ kept (purges op) E).
  { intros a o E Ha Ho. by apply list_elem_of_filter. }
  split; [done| | | |].
  - intros a o Ha Ho. assert (HaK : (a, o) ∈ K).
    { unfold K. rewrite elem_of_app in *. destruct Ha; [left|right]; by apply Hin. }
    split; [done|by apply (Hkeep a)].
  - intros a o Ha Ho _ _. by apply Hin.
  - intros _ _. by eapply texts_once_mono.
  - exists []. split; [|done]. rewrite Hr, Hp, !app_nil_r, <- app_assoc. apply Permutation_app_head.
    fold K. rewrite <- HE. unfold rvals. rewrite bind_app. apply Permutation_app_comm.
Qed.

Lemma cstep_spec c L D op :
  crep c L D -> op_ok op -> exists c' r L' D', cstep c op = Ret (c', r) /\ stepped c L D op c' L' D'.
Proof.
  intros H Hok. destruct op as [owner key|owner key value release|owner key v|v|owner whole keys|owner|handle]; cbn [cstep op_ok] in *.
  - destruct (cached_spec c L D owner key H Hok) as (r & -> & _). exists c, r, L, D. split; [done|by apply stepped_refl].
  - destruct (cache_spec c L D owner key value release H Hok) as (c' & r & N & -> & Hc & Hs & Hst & Hr).
    cbn [mbind outcome_bind]. exists c', (Some r), (L ++ N), D. split; [done|].
    assert (Hs' : forall a o, (a, o) ∈ N -> o_is_str o = false).
    { destruct Hr as [(a & o & _ & _ & _ & _ & -> & _)|(_ & _ & _ & [[a ->]|[-> _]])]; intros b o' Hb;
        [by apply not_elem_of_nil in Hb|apply list_elem_of_singleton in Hb; by simplify_eq|by apply not_elem_of_nil in Hb]. }
    split; [done| | | |].
    + intros a o Hin _. rewrite Hs, !elem_of_app in *. tauto.
    + intros a o Hin _ _ _. apply elem_of_app. by left.
    + intros _ _ Ho a o b o' w k v Ha Hb Hl Hl'. apply (Ho a o b o' w k v).
      * rewrite !elem_of_app in *. destruct Ha as [[?|Ha]|?]; [tauto| |tauto]. destruct Hl as [Hx _]. by rewrite (Hs' a o Ha) in Hx.
      * rewrite !elem_of_app in *. destruct Hb as [[?|Hb]|?]; [tauto| |tauto]. destruct Hl' as [Hx _]. by rewrite (Hs' b o' Hb) in Hx.
      * unfold lent_as in *. by rewrite Hs in Hl.
      * unfold lent_as in *. by rewrite Hs in Hl'.
    + cbn [puts]. destruct Hr as [(a & o & _ & _ & _ & _ & -> & ->)|(_ & _ & -> & [[a ->]|[-> Hno]])].
      * exists []. rewrite !app_nil_r, <- app_assoc. split; [|done]. apply Permutation_app_head, Permutation_app_comm.
      * exists []. rewrite app_nil_r. split; [|done]. apply Permutation_app_head. unfold rvals.
        rewrite !bind_app, <- !app_assoc. apply Permutation_app_head, (Permutation_app_comm [_]).
      * exists [(release, value)]. rewrite app_nil_r. split; [done|]. intros HT HU. by destruct Hno.
  - destruct (intern_spec c L D owner key v H Hok) as (c' & p & L' & D' & N & -> & HI). cbn [mbind outcome_bind].
    exists c', (Some p), L', D'. split; [done|by eapply interned_stepped].
  - destruct (intern_static_spec c L D v H) as (c' & p & -> & Hc & Hr & Hs & _). cbn [mbind outcome_bind].
    exists c', (Some p), L, D. split; [done|].
    assert (Hk : forall a o, (a, o) ∈ L ++ D -> o_is_str o = true -> o_value o <> 0 -> c_strs c' !! o_value o = c_strs c !! o_value o).
    { intros a o Hin Ho Hv. destruct (str_at_in c _ a o (cr_heap _ _ _ H) Hin Ho Hv) as [s Es]. rewrite Es. by eapply lookup_weaken. }
    split; try done.
    + intros a o Hin _. split; [done|by apply (Hk a)].
    + intros _ _. apply texts_once_mono; [apply H|]. intros a o Hin. split; [done|by apply (Hk a)].
    + exists []. by rewrite Hr, !app_nil_r.
  - unfold arpc_detach. rewrite (crep_items _ _ _ H).
    destruct (detach_loop_spec (detaches owner whole keys) L [] D c H) as (c' & -> & Hc & Hr & Hst & Hs).
    cbn [mbind outcome_bind app] in *. set (f := detaches owner whole keys) in *.
    exists c', None, (kept f L), (reverse (gone f L) ++ D). split; [done|].
    assert (HE : kept f L ++ reverse (gone f L) ++ D ≡ₚ L ++ D).
    { rewrite app_assoc. apply Permutation_app_tail. rewrite reverse_Permutation. apply kept_gone. }
    split; [done| | | |].
    + intros a o Hin _. split; [by rewrite HE|by rewrite Hs].
    + intros a o Hin _ Hd _. by apply list_elem_of_filter.
    + intros _ _. apply texts_once_mono; [apply H|]. intros a o Hin. rewrite HE in Hin. split; [done|by rewrite Hs].
    + exists []. cbn [puts]. rewrite Hr, !app_nil_r. split; [|done]. apply Permutation_app_head. by rewrite HE.
  - destruct (purge_where_spec (owned_by owner) c L D H) as (c' & E & Hc & Hl). unfold arpc_purge_owner. rewrite E.
    cbn [mbind outcome_bind]. eexists _, _, _, _. split; [reflexivity|]. by apply (purged_stepped c L D (OpPurgeOwner owner)).
  - destruct (purge_where_spec (under_root (ARPC_ROOT handle)) c L D H) as (c' & E & Hc & Hl). rewrite E.
    cbn [mbind outcome_bind]. eexists _, _, _, _. split; [reflexivity|]. by apply (purged_stepped c L D (OpPurgeRoot handle)).
Qed.

(** Any number of them. *)
Record ran c (L D : entries) (ops : list cop) c' (L' D' : entries) : Prop := {
  rn_crep : crep c' L' D';
  rn_keeps a o : (a, o) ∈ L ++ D -> Forall (fun op => purges op o = false) ops ->
    (a, o) ∈ L' ++ D' /\ (o_is_str o = true -> o_value o <> 0 -> c_strs c' !! o_value o = c_strs c !! o_value o);
  rn_live a o : (a, o) ∈ L -> Forall (fun op => purges op o = false /\ displaces op o = false) ops ->
    o_is_str o = false -> (a, o) ∈ L';
  rn_once : TotalAllocator A -> UthashTotal U -> texts_once c (L ++ D) -> texts_once c' (L' ++ D');
  rn_account : exists lost, c_released c' ++ rvals (L' ++ D') ++ lost ≡ₚ c_released c ++ rvals (L ++ D) ++ (ops ≫= puts) /\
    (TotalAllocator A -> UthashTotal U -> lost = [])
}.

Lemma account_trans {X} (a b c d e f l1 l2 p1 p2 : list X) :
  a ++ b ++ l2 ≡ₚ c ++ d ++ p2 -> c ++ d ++ l1 ≡ₚ e ++ f ++ p1 -> a ++ b ++ l1 ++ l2 ≡ₚ e ++ f ++ p1 ++ p2.
Proof.
  intros H1 H2. transitivity (l1 ++ (a ++ b) ++ l2).
  { rewrite (app_assoc a). apply Permutation_app_swap_app. }
  rewrite <- (app_assoc a), H1. transitivity ((c ++ d ++ l1) ++ p2).
  { rewrite (app_assoc c), (app_assoc c), <- (app_assoc (c ++ d)). apply Permutation_app_swap_app. }
  by rewrite H2, <- !app_assoc.
Qed.

Lemma crun_spec ops : forall c L D,
  crep c L D -> Forall op_ok ops -> exists c' L' D', crun c ops = Ret c' /\ ran c L D ops c' L' D'.
Proof.
  induction ops as [|op ops IH]; intros c L D H Hok.
  { exists c, L, D. split; [done|]. split; try done. exists []. split; [|done]. cbn. by rewrite !app_nil_r. }
  apply Forall_cons in Hok as [Hop Hok].
  destruct (cstep_spec c L D op H Hop) as (c1 & r & L1 & D1 & E1 & [H1 H2 H3 H4 (lost1 & H5 & H5')]).
  destruct (IH c1 L1 D1 H1 Hok) as (c2 & L2 & D2 & E2 & [G1 G2 G3 G4 (lost2 & G5 & G5')]).
  exists c2, L2, D2. split; [cbn [crun]; by rewrite E1|]. split; [done| | | |].
  - intros a o Hin [Ho Hos]%Forall_cons. destruct (H2 a o Hin Ho) as [Hin1 Hs1].
    destruct (G2 a o Hin1 Hos) as [Hin2 Hs2]. split; [done|]. intros Hi Hv. by rewrite Hs2, Hs1.
  - intros a o Hin [[Ho Hd] Hos]%Forall_cons Hs. apply G3; [by apply H3|done|done].
  - intros HT HU Ho. apply G4; [done|done|]. by apply H4.
  - exists (lost1 ++ lost2). split; [|intros HT HU; by rewrite H5', G5'].
    cbn [mbind list_bind]. by eapply account_trans.
Qed.

(** *** What is promised *)

(** The releases the cache owes. *)
Definition held c : list (Z * Z) := map_to_list (c_ents c) ≫= (fun ao => rval ao.2).

Lemma heap_ents c E : heap_ok c E -> map_to_list (c_ents c) ≡ₚ E.
Proof.
  intros [H1 H2 _ _ _ _]. apply NoDup_Permutation; [apply NoDup_map_to_list|by eapply NoDup_fmap_1|].
  intros [a o]. by rewrite elem_of_map_to_list, H1.
Qed.

Lemma held_rvals c E : heap_ok c E -> held c ≡ₚ rvals E.
Proof. intros H. unfold held. by rewrite (heap_ents _ _ H). Qed.

(** The operation leaves what is under [owner] alone. *)
Definition spares (owner : Z) (op : cop) : Prop :=
  match op with
  | OpPurgeOwner w => w <> owner
  | OpPurgeRoot h => ARPC_ROOT h <> ARPC_ROOT owner
  | _ => True
  end.

Lemma spares_purges owner o op : o_owner o = owner -> spares owner op -> purges op o = false.
Proof.
  intros <-. destruct op; try done; cbn; unfold owned_by, under_root; intros; (case Z.eqb_spec; [congruence|done]).
Qed.

(** The operation does not say that results of the getter may have changed. *)
Definition leaves (owner : Z) (key : list Z) (op : cop) : Prop :=
  match op with
  | OpDetach w whole keys =>
      (if whole then ARPC_ROOT w <> ARPC_ROOT owner else w <> owner) \/
      Forall (fun g => key <> g /\ forall args, key <> g ++ 58 :: args) keys
  | _ => True
  end.

Lemma leaves_displaces o key op :
  o_k o = hash_key (o_owner o) key -> no_nul key -> op_ok op -> leaves (o_owner o) key op -> displaces op o = false.
Proof.
  intros Hk Hn. destruct op as [| | | |w whole keys| |]; try done. cbn [op_ok displaces leaves]. intros Hok Hl. unfold detaches.
  destruct Hl as [Hl|Hl].
  - apply andb_false_iff. left. destruct whole; apply Z.eqb_neq; congruence.
  - apply andb_false_iff. right. apply not_true_iff_false. rewrite existsb_exists. intros (g & Hg & Hkn).
    apply list_elem_of_In in Hg. rewrite Forall_forall in Hl, Hok. specialize (Hl g Hg) as [H1 H2].
    apply (key_names_spec o key g) in Hkn as [?|[args ?]]; [done|by apply (H2 args)|done|done|by apply Hok].
Qed.

(** C5. The cache is memory safe and frees everything once.  Whatever is done to
    it, on whatever heap: no entry or string is read or freed that is gone;
    what was handed in is released at most once and not while the cache still
    has it, and when nothing is refused all of it is released or still there;
    and the strings allocated are those of the entries and the static ones. *)
Theorem cache_safe ops :
  Forall op_ok ops ->
  exists c, crun cache0 ops = Ret c /\
    c_released c ++ held c ⊆+ ops ≫= puts /\
    (TotalAllocator A -> UthashTotal U -> c_released c ++ held c ≡ₚ ops ≫= puts) /\
    (forall p, is_Some (c_strs c !! p) <->
       p ∈ c_static c \/ exists a o, c_ents c !! a = Some o /\ o_is_str o = true /\ o_value o = p /\ p <> 0) /\
    count_owned c = Z.of_nat (size (c_ents c)).
Proof.
  intros Hok. destruct (crun_spec ops cache0 [] [] crep_init Hok) as (c & L & D & -> & [H _ _ _ (lost & Ha & Hn)]).
  exists c. split; [done|]. pose proof (cr_heap _ _ _ H) as Hh. cbn in Ha. rewrite app_assoc, <- (held_rvals c _ Hh) in Ha.
  split_and!.
  - rewrite <- Ha. by apply submseteq_inserts_r.
  - intros HT HU. by rewrite (Hn HT HU), app_nil_r in Ha.
  - intros p. rewrite (ho_strs _ _ Hh), elem_of_app. apply or_iff_compat_l. unfold svals. rewrite list_elem_of_bind. split.
    + intros ([a o] & Hp & Hin). unfold sval in Hp. cbn in Hp. destruct (o_is_str o) eqn:Es; [|by apply not_elem_of_nil in Hp].
      destruct (Z.eqb_spec (o_value o) 0); [by apply not_elem_of_nil in Hp|]. apply list_elem_of_singleton in Hp as ->.
      exists a, o. split; [by apply Hh|done].
    + intros (a & o & Ha' & Hs & <- & Hv). apply Hh in Ha'. exists (a, o). split; [|done].
      unfold sval. cbn. rewrite Hs. destruct (Z.eqb_spec (o_value o) 0); [done|]. by apply list_elem_of_singleton.
  - unfold count_owned, HASH_COUNT. rewrite (cr_iter _ _ _ H), (cr_detached _ _ _ H), !length_fmap.
    rewrite <- length_map_to_list, (heap_ents _ _ Hh), length_app. lia.
Qed.

(** A cache some operations have made. *)
Definition reachable c : Prop := exists ops, Forall op_ok ops /\ crun cache0 ops = Ret c.

Lemma reachable_crep c : reachable c -> exists L D, crep c L D /\ (TotalAllocator A -> UthashTotal U -> texts_once c (L ++ D)).
Proof.
  intros (ops & Hok & E). destruct (crun_spec ops cache0 [] [] crep_init Hok) as (c' & L & D & E' & [H _ _ Ho _]).
  rewrite E in E'. injection E' as <-. exists L, D. split; [done|]. intros HT HU. apply Ho; [done|done|].
  by intros ? ? ? ? ? ? ? ?%not_elem_of_nil.
Qed.

Lemma lends_again c c' L D ops L' D' owner key v p :
  crep c L D -> getter_ok true owner key -> ran c L D ops c' L' D' -> Forall (spares owner) ops ->
  lends c (L ++ D) owner key v p -> lends c' (L' ++ D') owner key v p.
Proof.
  intros H Hg R Hsp (a & o & Hin & Ho & <- & (Hs & Hk & Hv & Hl)).
  destruct (rn_keeps _ _ _ _ _ _ _ R a o Hin) as [Hin' Hstr].
  { eapply Forall_impl; [exact Hsp|]. intros op. by apply spares_purges. }
  exists a, o. split_and!; try done. unfold lent_as. by rewrite (Hstr Hs Hv).
Qed.

(** A string lent stays what it was until its owner goes: after any other
    operations, interning and detaching of the same getter included, on
    whatever heap, the pointer still reads the text. *)
Theorem cache_lends c owner key v c1 p ops c2 :
  reachable c -> getter_ok true owner key ->
  intern c owner key (Some v) = Ret (c1, p) -> p <> 0 ->
  Forall op_ok ops -> Forall (spares owner) ops -> crun c1 ops = Ret c2 ->
  exists s, c_strs c2 !! p = Some s /\ cstr s = cstr v.
Proof.
  intros Hc Hg E Hp Hok Hsp E2. apply reachable_crep in Hc as (L & D & H & _).
  destruct (intern_spec c L D owner key v H Hg) as (c1' & p' & L1 & D1 & N & E' & I). rewrite E in E'. injection E' as <- <-.
  pose proof (in_crep _ _ _ _ _ _ _ _ _ _ _ I) as H1.
  destruct (crun_spec ops c1 L1 D1 H1 Hok) as (c2' & L2 & D2 & E2' & R). rewrite E2 in E2'. injection E2' as <-.
  destruct (in_lends _ _ _ _ _ _ _ _ _ _ _ I Hp) as (a & o & Hin & Hl).
  destruct (lends_again c1 c2 L1 D1 ops L2 D2 owner key v p H1 Hg R Hsp) as (b & o' & _ & _ & <- & (_ & _ & _ & s & ? & ?)).
  { exists a, o. split; [apply elem_of_app; by left|done]. }
  by exists s.
Qed.

(** C15. The same string is the same pointer.  When nothing is refused, a getter
    that returns a text again, its owner not gone since, gets the pointer it
    was given, whatever was detached, changed and changed back in between. *)
Theorem cache_same_string c owner key v c1 p ops c2 :
  TotalAllocator A -> UthashTotal U -> reachable c -> getter_ok true owner key ->
  intern c owner key (Some v) = Ret (c1, p) ->
  Forall op_ok ops -> Forall (spares owner) ops -> crun c1 ops = Ret c2 ->
  exists c3, intern c2 owner key (Some v) = Ret (c3, p).
Proof.
  intros HT HU Hc Hg E Hok Hsp E2. apply reachable_crep in Hc as (L & D & H & Ho). specialize (Ho HT HU).
  destruct (intern_spec c L D owner key v H Hg) as (c1' & p' & L1 & D1 & N & E' & I). rewrite E in E'. injection E' as <- <-.
  pose proof (in_crep _ _ _ _ _ _ _ _ _ _ _ I) as H1. pose proof (interned_once _ _ _ _ _ _ _ _ _ _ _ H I HT HU Ho) as Ho1.
  destruct (in_total _ _ _ _ _ _ _ _ _ _ _ I HT HU) as [Hp _].
  destruct (crun_spec ops c1 L1 D1 H1 Hok) as (c2' & L2 & D2 & E2' & R). rewrite E2 in E2'. injection E2' as <-.
  pose proof (rn_crep _ _ _ _ _ _ _ R) as H2. pose proof (rn_once _ _ _ _ _ _ _ R HT HU Ho1) as Ho2.
  destruct (in_lends _ _ _ _ _ _ _ _ _ _ _ I Hp) as (a1 & o1 & Hin1 & Hl1).
  destruct (lends_again c1 c2 L1 D1 ops L2 D2 owner key v p H1 Hg R Hsp) as (a2 & o2 & Hin2 & Hw2 & Hv2 & Hl2).
  { exists a1, o1. split; [apply elem_of_app; by left|done]. }
  destruct (intern_spec c2 L2 D2 owner key v H2 Hg) as (c3 & q & L3 & D3 & N3 & E3 & I3). exists c3. rewrite E3. do 2 f_equal.
  pose proof (interned_once _ _ _ _ _ _ _ _ _ _ _ H2 I3 HT HU Ho2) as Ho3.
  destruct (in_total _ _ _ _ _ _ _ _ _ _ _ I3 HT HU) as [Hq _].
  destruct (in_lends _ _ _ _ _ _ _ _ _ _ _ I3 Hq) as (a3 & o3 & Hin3 & Hw3 & <- & Hl3).
  assert (Hin2' : (a2, o2) ∈ L3 ++ D3).
  { rewrite (in_entries _ _ _ _ _ _ _ _ _ _ _ I3). apply elem_of_app. by right. }
  assert (Hin3' : (a3, o3) ∈ L3 ++ D3) by (apply elem_of_app; by left).
  assert (a2 = a3) as ->.
  { apply (Ho3 a2 o2 a3 o3 owner key v); [done|done| |done].
    eapply lent_mono; [|exact Hl2]. apply (in_strs _ _ _ _ _ _ _ _ _ _ _ I3). }
  pose proof (cr_heap _ _ _ (in_crep _ _ _ _ _ _ _ _ _ _ _ I3)) as Hh.
  apply (ho_ents _ _ Hh) in Hin2', Hin3'. congruence.
Qed.

(** The same list is the same pointer.  What [arpc_cache] answers, the one it
    was given or the one a callback had cached meanwhile, is what a repeated
    call of the getter finds, until its owner goes or something that may have
    changed the result is called. *)
Theorem cache_same_list c owner key value release c1 p ops c2 :
  TotalAllocator A -> UthashTotal U -> reachable c -> getter_ok false owner key ->
  arpc_cache c owner key value release = Ret (c1, p) ->
  Forall op_ok ops -> Forall (spares owner) ops -> Forall (leaves owner key) ops -> crun c1 ops = Ret c2 ->
  arpc_cached c2 owner key = Ret (Some p).
Proof.
  intros HT HU Hc Hg E Hok Hsp Hlv E2. apply reachable_crep in Hc as (L & D & H & _).
  destruct (cache_spec c L D owner key value release H Hg) as (c1' & p' & N & E' & H1 & _ & _ & Hp).
  rewrite E in E'. injection E' as <- <-.
  assert (Hin : exists a o, (a, o) ∈ L ++ N /\ o_k o = hash_key owner key /\ o_owner o = owner /\ o_value o = p /\ o_is_str o = false).
  { destruct Hp as [(a & o & Hin & Hk & Hw & -> & _ & _)|(_ & -> & _ & [[a ->]|[_ Hn]])]; [| |by destruct Hn].
    - exists a, o. rewrite elem_of_app. split_and!; try done; [by left|].
      apply (entry_key o false owner key); [|done|done]. apply (crep_ok c L D a); [done|]. apply elem_of_app. by left.
    - eexists a, _. rewrite elem_of_app, list_elem_of_singleton. split; [by right|done]. }
  destruct Hin as (a & o & Hin & Hk & Hw & Hv & Hs).
  destruct (crun_spec ops c1 _ D H1 Hok) as (c2' & L2 & D2 & E2' & R). rewrite E2 in E2'. injection E2' as <-.
  pose proof (rn_crep _ _ _ _ _ _ _ R) as H2.
  assert (Hin2 : (a, o) ∈ L2).
  { apply (rn_live _ _ _ _ _ _ _ R); [done| |done]. rewrite Forall_forall in *. intros op Hop. split.
    - apply (spares_purges owner); [done|by apply Hsp].
    - subst owner. eapply leaves_displaces; [done|apply Hg|by apply Hok|by apply Hlv]. }
  destruct (cached_spec c2 L2 D2 owner key H2 Hg) as (r & -> & Hr). destruct r as [q|]; [|by destruct (Hr a o)].
  destruct Hr as (b & o' & Hb & Hk' & _ & <-). do 2 f_equal.
  assert (Heq : (a, o) = (b, o')) by (eapply key_once; [apply H2|done|done|congruence]). congruence.
Qed.

(** One purge, exactly. *)
Lemma purge_exact c L D op :
  crep c L D -> displaces op = (fun _ => false) -> puts op = [] ->
  let f := purges op in
  exists c', purge_where f c = Ret c' /\ crep c' (kept f L) (kept f D) /\
    c_released c' = c_released c ++ rvals (gone f L ++ gone f D) /\ c_static c' = c_static c /\
    (forall a o, (a, o) ∈ L ++ D -> f o = false -> c_ents c' !! a = Some o /\
       (o_is_str o = true -> o_value o <> 0 -> c_strs c' !! o_value o = c_strs c !! o_value o)) /\
    (forall a o, (a, o) ∈ L ++ D -> f o = true -> c_ents c' !! a = None /\
       (o_is_str o = true -> c_strs c' !! o_value o = None)).
Proof.
  intros H Hd Hp f. destruct (purge_where_spec f c L D H) as (c' & E & Hc & Hl). exists c'. rewrite E.
  pose proof (purged_stepped c L D op c' H Hd Hp Hc Hl) as S. destruct Hl as [Hr Hs Hx].
  pose proof (cr_heap _ _ _ Hc) as Hh. pose proof (cr_heap _ _ _ H) as Hh0. split_and!; try done.
  - intros a o Hin Ho. destruct (st_keeps _ _ _ _ _ _ _ S a o Hin Ho) as [Hin' Hstr]. split; [by apply Hh|done].
  - intros a o Hin Ho. split.
    + destruct (c_ents c' !! a) as [o'|] eqn:Ea; [|done]. apply Hh in Ea.
      assert (Ha : (a, o') ∈ L ++ D /\ f o' = false).
      { unfold kept in Ea. rewrite elem_of_app, !list_elem_of_filter in *. naive_solver. }
      destruct Ha as [Ha Hf]. apply (ho_ents _ _ Hh0) in Ha, Hin. congruence.
    + intros Hi. destruct (c_strs c' !! o_value o) eqn:Es; [exfalso|done].
      assert (Hz : o_value o ∈ c_static c' ++ svals (kept f L ++ kept f D)) by (apply (ho_strs _ _ Hh); by eexists).
      assert (E0 : o_value o <> 0).
      { intros E0. rewrite E0 in Hz. apply elem_of_app in Hz as [Hz|Hz]; [by apply (ho_static _ _ Hh) in Hz|by apply svals_not_null in Hz]. }
      rewrite <- (kept_gone_both f L D), Permutation_app_comm in Hh0, Hin.
      assert (Hg : (a, o) ∈ gone f L ++ gone f D).
      { unfold kept, gone in *. rewrite !elem_of_app, !list_elem_of_filter in *. naive_solver. }
      rewrite Hs in Hz. apply elem_of_app in Hz as [Hz|Hz].
      * pose proof (ho_once _ _ Hh0) as Hn. apply NoDup_app in Hn as (_ & Hn & _). apply (Hn (o_value o)); [done|].
        apply (sval_elem _ a); [apply elem_of_app; by left|done..].
      * by apply (svals_apart c _ _ a o Hh0 Hg Hi E0).
Qed.

(** C30. Detaching is exact: of the entries in the scope, those of the getters
    named, with whatever arguments, answer no more; nothing is freed or
    released, and every other entry is where it was. *)
Theorem cache_detach_correct c L D owner whole keys :
  crep c L D -> Forall no_nul keys ->
  let f := detaches owner whole keys in
  exists c', arpc_detach c owner whole keys = Ret c' /\
    crep c' (kept f L) (reverse (gone f L) ++ D) /\
    c_strs c' = c_strs c /\ c_released c' = c_released c /\ c_static c' = c_static c /\
    (forall a o name, (a, o) ∈ L -> o_k o = hash_key (o_owner o) name -> no_nul name ->
       (a, o) ∈ gone f L <->
       (if whole then ARPC_ROOT (o_owner o) = ARPC_ROOT owner else o_owner o = owner) /\
       exists g, g ∈ keys /\ (name = g \/ exists args, name = g ++ 58 :: args)) /\
    (forall a o name, (a, o) ∈ gone f L -> getter_ok false (o_owner o) name -> o_k o = hash_key (o_owner o) name ->
       arpc_cached c' (o_owner o) name = Ret None).
Proof.
  intros H Hkeys f. unfold arpc_detach. fold f. rewrite (crep_items _ _ _ H).
  destruct (detach_loop_spec f L [] D c H) as (c' & -> & Hc & Hr & Hst & Hs). exists c'. cbn [app] in Hc.
  split_and!; try done.
  - intros a o name Hin Hk Hn. unfold gone. rewrite list_elem_of_filter. cbn [snd]. unfold f, detaches.
    rewrite andb_true_iff, existsb_exists. split.
    + intros [[Hsc (g & Hg & Hkn)] _]. apply list_elem_of_In in Hg. split; [by destruct whole; apply Z.eqb_eq in Hsc|].
      exists g. split; [done|]. rewrite Forall_forall in Hkeys. apply (key_names_spec o); [done|done|by apply Hkeys|done].
    + intros [Hsc (g & Hg & Hkn)]. split; [|done]. split; [by destruct whole; apply Z.eqb_eq|].
      exists g. split; [by apply list_elem_of_In|]. rewrite Forall_forall in Hkeys. apply (key_names_spec o name); [done|done|by apply Hkeys|done].
  - intros a o name Hin Hg Hk. destruct (cached_spec c' _ _ (o_owner o) name Hc Hg) as (r & -> & Hv).
    destruct r as [v|]; [|done]. exfalso. destruct Hv as (b & o' & Hb & Hk' & _).
    apply list_elem_of_filter in Hb as [Hf Hb], Hin as [Hf' Hin]. cbn [snd] in *.
    assert (E : (a, o) = (b, o')) by (eapply key_once; [apply H|done|done|congruence]). congruence.
Qed.
End Theorems.

(** ** A cache at work *)

Section Toy.
#[local] Existing Instance Chain.chain.
#[local] Existing Instance Chain.above.
#[local] Existing Instances Chain.chain_ok Chain.chain_total Chain.above_ok.

Definition toy_getters (key : list Z) : bool := bool_decide (key = lit "alpm_pkg_get_name").
Definition toy_pkg : Z := 1099511627781.
Definition toy_db : Z := 1099511627778.

(** A name, a list with arguments, a detached name, and the same name again. *)
Definition toy_ops : list cop :=
  [OpIntern toy_pkg (lit "alpm_pkg_get_name") (lit "glibc");
   OpCache toy_db (lit "alpm_db_search:a") 77 5;
   OpDetach toy_pkg true [lit "alpm_pkg_get_name"; lit "alpm_db_search"];
   OpIntern toy_pkg (lit "alpm_pkg_get_name") (lit "glibc");
   OpPurgeOwner toy_db].

Lemma toy_ops_ok : Forall (op_ok toy_getters) toy_ops.
Proof. repeat constructor; try (by apply (bool_decide_unpack (no_nul _))); by vm_compute. Qed.

Lemma cache_safe_witness :
  exists c, crun (A:=ample) cache0 toy_ops = Ret c /\ c_released c ++ held c ≡ₚ [(5, 77)].
Proof.
  destruct (cache_safe (A:=ample) toy_getters toy_ops toy_ops_ok) as (c & E & _ & H & _).
  exists c. split; [exact E|]. exact (H _ _).
Defined.

Definition toy_name : list Z := lit "alpm_pkg_get_name".
Definition toy_mid : list cop := [OpDetach toy_pkg true [toy_name]; OpIntern toy_pkg toy_name (lit "other"); OpPurgeOwner toy_db].

Lemma toy_mid_ok : Forall (op_ok toy_getters) toy_mid.
Proof. repeat constructor; try (by apply (bool_decide_unpack (no_nul _))); by vm_compute. Qed.

Lemma toy_mid_spares : Forall (spares toy_pkg) toy_mid.
Proof. by repeat constructor. Qed.

Lemma toy_name_ok : getter_ok toy_getters true toy_pkg toy_name.
Proof. split_and!; [by apply (bool_decide_unpack (no_nul _))|done|by vm_compute]. Qed.

Lemma toy_reachable : reachable (A:=ample) toy_getters cache0.
Proof. by exists []. Qed.

Definition run_or {X} (m : outcome X) (x : X) : X := match m with Ret y => y | _ => x end.
Definition toy_c1 : cache := (run_or (intern (A:=ample) cache0 toy_pkg toy_name (Some (lit "glibc"))) (cache0, 0)).1.
Definition toy_c2 : cache := run_or (crun (A:=ample) toy_c1 toy_mid) cache0.

Lemma toy_run1 : intern (A:=ample) cache0 toy_pkg toy_name (Some (lit "glibc")) = Ret (toy_c1, 4096).
Proof. vm_compute. reflexivity. Qed.
Lemma toy_run2 : crun (A:=ample) toy_c1 toy_mid = Ret toy_c2.
Proof. vm_compute. reflexivity. Qed.

Lemma cache_lends_witness : exists s, c_strs toy_c2 !! 4096 = Some s /\ cstr s = lit "glibc".
Proof.
  exact (cache_lends (A:=ample) toy_getters cache0 toy_pkg toy_name (lit "glibc") toy_c1 4096 toy_mid toy_c2
    toy_reachable toy_name_ok toy_run1 ltac:(done) toy_mid_ok toy_mid_spares toy_run2).
Defined.

Lemma cache_same_string_witness :
  exists c3, intern (A:=ample) toy_c2 toy_pkg toy_name (Some (lit "glibc")) = Ret (c3, 4096).
Proof.
  exact (cache_same_string (A:=ample) toy_getters cache0 toy_pkg toy_name (lit "glibc") toy_c1 4096 toy_mid toy_c2
    _ _ toy_reachable toy_name_ok toy_run1 toy_mid_ok toy_mid_spares toy_run2).
Defined.

Definition toy_list : list Z := lit "alpm_db_get_pkgcache".
Definition toy_later : list cop := [OpDetach toy_db true [toy_name; lit "alpm_db"]; OpPurgeOwner toy_pkg; OpCached toy_pkg toy_list].
Definition toy_l1 : cache := (run_or (arpc_cache (A:=ample) cache0 toy_db toy_list 77 5) (cache0, 0)).1.
Definition toy_l2 : cache := run_or (crun (A:=ample) toy_l1 toy_later) cache0.

Lemma toy_later_ok : Forall (op_ok toy_getters) toy_later.
Proof. repeat constructor; try (by apply (bool_decide_unpack (no_nul _))); by vm_compute. Qed.

Lemma toy_leaves : Forall (leaves toy_db toy_list) toy_later.
Proof.
  constructor; [|by repeat constructor]. right. constructor; [|constructor; [|constructor]]; (split; [done|]); intros args E.
  - by apply (f_equal (take 10)) in E.
  - by apply (f_equal (take 8)) in E.
Qed.

Lemma cache_same_list_witness : arpc_cached (A:=ample) toy_l2 toy_db toy_list = Ret (Some 77).
Proof.
  apply (cache_same_list (A:=ample) toy_getters cache0 toy_db toy_list 77 5 toy_l1 77 toy_later toy_l2).
  - exact _.
  - exact _.
  - exact toy_reachable.
  - split_and!; [by apply (bool_decide_unpack (no_nul _))|done|by vm_compute].
  - vm_compute. reflexivity.
  - exact toy_later_ok.
  - by repeat constructor.
  - exact toy_leaves.
  - vm_compute. reflexivity.
Defined.

(** A cache with a name and a list in it. *)
Definition toy_entries : entries :=
  [(4096, Owned (hash_key toy_pkg toy_name) toy_pkg 4096 (Some RFree) true);
   (4097, Owned (hash_key toy_db toy_list) toy_db 77 (Some (RGen 5)) false)].
Definition toy_full : cache :=
  Cache _ (item <$> toy_entries) [] [] (list_to_map toy_entries) {[4096 := lit "glibc"]} [].

Lemma toy_full_crep : crep (A:=ample) toy_getters toy_full toy_entries [].
Proof.
  split; [done|done|by apply (bool_decide_unpack (NoDup _))|]. split.
  - intros a o. cbn [c_ents toy_full app]. rewrite app_nil_r. symmetry.
    apply elem_of_list_to_map. by apply (bool_decide_unpack (NoDup _)).
  - by apply (bool_decide_unpack (NoDup _)).
  - intros a o [[= -> ->]|[[= -> ->]|[]%not_elem_of_nil]%elem_of_cons]%elem_of_cons.
    + exists toy_name. split; [exact toy_name_ok|done].
    + exists toy_list. split; [split_and!; [by apply (bool_decide_unpack (no_nul _))|done|by vm_compute]|].
      split; [done|]. split; [done|by exists 5].
  - intros p. change (is_Some (({[4096 := lit "glibc"]} : gmap Z (list Z)) !! p) <-> p ∈ [4096]).
    rewrite list_elem_of_singleton. destruct (decide (p = 4096)) as [->|Hne]; [by rewrite lookup_singleton_eq|].
    rewrite lookup_singleton_ne by done. split; [by intros []|done].
  - by apply (bool_decide_unpack (NoDup [4096])).
  - apply not_elem_of_nil.
Qed.

Lemma cache_detach_correct_witness :
  exists c', arpc_detach toy_full toy_pkg true [lit "alpm_db_get_pkgcache"] = Ret c' /\
    c_released c' = [] /\ arpc_cached (A:=ample) c' toy_db toy_list = Ret None.
Proof.
  destruct (cache_detach_correct (A:=ample) toy_getters toy_full toy_entries [] toy_pkg true [lit "alpm_db_get_pkgcache"]
    toy_full_crep) as (c' & E & _ & _ & Hr & _ & _ & Hn).
  - repeat constructor; by apply (bool_decide_unpack (no_nul _)).
  - exists c'. split; [exact E|]. split; [exact Hr|]. apply (Hn 4097 (Owned (hash_key toy_db toy_list) toy_db 77 (Some (RGen 5)) false) toy_list).
    + apply list_elem_of_filter. split; [by vm_compute|]. apply list_elem_of_further, list_elem_of_here.
    + split_and!; [by apply (bool_decide_unpack (no_nul _))|done|by vm_compute].
    + done.
Defined.
End Toy.
