(* ===== verification/Groups.v ===== *)
(** * Batched package fields: the groups of src/client/arpc_client.c

    A package list that was materialised is a group; the first read of a field
    fetches it for the whole group.  A table says which group a package is in
    and where.  Groups and slots are blocks of the heap: following a pointer to
    a group that was freed is [Undef].

    The fetch itself is a call, and is in ClientFields.v. *)

From S2P Require Import Prelude Wire Uthash Cache.

(** ** The state *)

(** [co_str]: the strings, one per member, [None] for NULL. *)
Record column := Column {
  co_field : list Z;
  co_str : option (list (option (list Z)));
  co_num : option (list Z)
}.

(** [n] is the length of [gr_ids]. *)
Record pkg_group := Group { gr_ids : list Z; gr_cols : list column }.

Record pkg_slot := PkgSlot { sl_id : Z; sl_g : Z; sl_slot : Z }.

(** [g_groups], the addresses along the links, and [g_slots]; the groups and
    the slots. *)
Record groups `{Uthash} := Groups {
  g_groups : list Z;
  g_slots : utab;
  gs_group : gmap Z pkg_group;
  gs_slot : gmap Z pkg_slot
}.

Definition sizeof_group : Z := 32.
Definition sizeof_pkg_slot : Z := 80.
Definition sizeof_column : Z := 32.

Section Groups.
Context {A : Allocator} {P : Placement} {U : Uthash}.
Implicit Types t : groups.

Definition groups0 : groups := Groups _ [] ut_null ∅ ∅.

Definition set_groups t l : groups := Groups _ l (g_slots t) (gs_group t) (gs_slot t).
Definition set_slots t h : groups := Groups _ (g_groups t) h (gs_group t) (gs_slot t).
Definition set_group t m : groups := Groups _ (g_groups t) (g_slots t) m (gs_slot t).
Definition set_slot_map t m : groups := Groups _ (g_groups t) (g_slots t) (gs_group t) m.

Definition group_at t (a : Z) : outcome pkg_group :=
  match gs_group t !! a with Some g => Ret g | None => Undef end.
Definition slot_at t (a : Z) : outcome pkg_slot :=
  match gs_slot t !! a with Some s => Ret s | None => Undef end.

(** [free_group]: the columns and the ids go with it. *)
Definition free_group t (a : Z) : outcome groups :=
  g ← group_at t a; Ret (set_group t (delete a (gs_group t))).

(** [ids[0]], of a group that has one. *)
Definition group_root (g : pkg_group) : outcome Z :=
  match gr_ids g with id :: _ => Ret (ARPC_ROOT id) | [] => Undef end.

(** The loop of [free_groups_of] over the groups: the links left. *)
Fixpoint free_groups_loop (root : Z) (l : list Z) t : outcome (groups * list Z) :=
  match l with
  | [] => Ret (t, [])
  | a :: l =>
      g ← group_at t a;
      r ← group_root g;
      if r =? root then t ← free_group t a; free_groups_loop root l t
      else '(t, l) ← free_groups_loop root l t; Ret (t, a :: l)
  end.

(** Its loop over the slots. *)
Fixpoint free_slots_loop (root : Z) (items : list Z) t : outcome groups :=
  match items with
  | [] => Ret t
  | a :: items =>
      s ← slot_at t a;
      if ARPC_ROOT (sl_id s) =? root
      then free_slots_loop root items (set_slot_map (set_slots t (HASH_DEL (g_slots t) a)) (delete a (gs_slot t)))
      else free_slots_loop root items t
  end.

Definition free_groups_of t (root : Z) : outcome groups :=
  '(t, l) ← free_groups_loop root (g_groups t) t;
  free_slots_loop root (HASH_ITER (g_slots t)).*2 (set_groups t l).

(** The columns without the first of the field. *)
Fixpoint drop_first (cols : list column) (field : list Z) : list column :=
  match cols with
  | [] => []
  | c :: cols => if streq (co_field c) field then cols else c :: drop_first cols field
  end.

Definition put_group t (a : Z) (g : pkg_group) : groups := set_group t (<[a := g]> (gs_group t)).

Definition drop_column t (pkg : Z) (field : list Z) : outcome groups :=
  match HASH_FIND (g_slots t) (le64 pkg) with
  | None => Ret t
  | Some a =>
      s ← slot_at t a;
      g ← group_at t (sl_g s);
      Ret (put_group t (sl_g s) (Group (gr_ids g) (drop_first (gr_cols g) field)))
  end.

Definition arpc_drop_column t (pkg : Z) (field : list Z) : outcome groups := drop_column t pkg field.

(** [col->next = g->cols; g->cols = col;] *)
Definition push_column t (a : Z) (col : column) : outcome groups :=
  g ← group_at t a; Ret (put_group t a (Group (gr_ids g) (col :: gr_cols g))).

Definition count_groups t : Z := len (g_groups t).

(** The loop of [group_new] over the ids, from the [i]th on, for the group at
    [g]; how many were placed. *)
Fixpoint place_loop t (g : Z) (ids : list Z) (i placed : Z) : groups * Z :=
  match ids with
  | [] => (t, placed)
  | id :: ids =>
      match HASH_FIND (g_slots t) (le64 id) with
      | Some _ => place_loop t g ids (i + 1) placed
      | None =>
          if grants sizeof_pkg_slot then
            let a := place (dom (gs_slot t)) in
            match HASH_ADD (g_slots t) (le64 id) a with
            | Some h => place_loop (set_slot_map (set_slots t h) (<[a := PkgSlot id g i]> (gs_slot t))) g ids (i + 1) (placed + 1)
            | None => place_loop t g ids (i + 1) placed
            end
          else place_loop t g ids (i + 1) placed
      end
  end.

(** [group_new]: the group's address, [None] for NULL. *)
Definition group_new t (ids : list Z) : outcome (groups * option Z) :=
  let n := len ids in
  if grants sizeof_group && grants (u64 ((if n =? 0 then 1 else n) * 8)) then
    let a := place (dom (gs_group t)) in
    let '(t, placed) := place_loop (put_group t a (Group ids [])) a ids 0 0 in
    if placed =? 0 then t ← free_group t a; Ret (t, None)
    else Ret (set_groups t (a :: g_groups t), Some a)
  else Ret (t, None).

(** [arpc_pkg_group_register], of the ids in the list. *)
Definition arpc_pkg_group_register t (pkgs : list Z) : outcome groups :=
  if len pkgs =? 0 then Ret t
  else if grants (len pkgs * 8) then '(t, _) ← group_new t pkgs; Ret t
  else Ret t.

(** [group_for_pkg]: the group and the position. *)
Definition group_for_pkg t (id : Z) : outcome (groups * option (Z * Z)) :=
  match HASH_FIND (g_slots t) (le64 id) with
  | Some a => s ← slot_at t a; Ret (t, Some (sl_g s, sl_slot s))
  | None => '(t, g) ← group_new t [id]; Ret (t, match g with Some a => Some (a, 0) | None => None end)
  end.
End Groups.
