(* ===== verification/GroupTheorems.v ===== *)
(** * Every slot leads to its package

    The groups and the slots as two lists, and what the operations make of
    them: no slot ever points to a group that is gone, and the position it
    gives holds its package.  The one assumption is the comment's: the ids of a
    list share a root. *)

From S2P Require Import Prelude Wire Uthash Cache CacheTheorems Groups.

(** Ids of one root. *)
Definition ids_ok (ids : list Z) : Prop := exists root, Forall (fun id => is_u64 id /\ ARPC_ROOT id = root) ids.

(** One cell per member. *)
Definition column_ok (n : nat) (c : column) : Prop :=
  match co_str c with Some l => length l = n | None => True end /\
  match co_num c with Some l => length l = n | None => True end.

Definition group_ok (g : pkg_group) : Prop :=
  gr_ids g <> [] /\ ids_ok (gr_ids g) /\ Forall (column_ok (length (gr_ids g))) (gr_cols g).

Abbreviation glist := (list (Z * pkg_group)).
Abbreviation slist := (list (Z * pkg_slot)).

Definition sitem (x : Z * pkg_slot) : list Z * Z := (le64 (sl_id x.2), x.1).

(** The slot points to one of the groups, at its own id. *)
Definition leads (G : glist) (s : pkg_slot) : Prop :=
  0 <= sl_slot s /\ exists g, (sl_g s, g) ∈ G /\ gr_ids g !! Z.to_nat (sl_slot s) = Some (sl_id s).

Section Theorems.
Context {A : Allocator} {P : Placement} {U : Uthash} {PO : PlacementOk P} {UO : UthashOk U}.
Implicit Types t : groups.

(** The blocks and the table. *)
Record gheap t (G : glist) (S : slist) : Prop := {
  gh_items : HASH_ITER (g_slots t) = sitem <$> S;
  gh_groups a g : gs_group t !! a = Some g <-> (a, g) ∈ G;
  gh_slots a s : gs_slot t !! a = Some s <-> (a, s) ∈ S;
  gh_gaddrs : NoDup G.*1;
  gh_saddrs : NoDup S.*1;
  gh_once : NoDup ((fun x => sl_id x.2) <$> S);
  gh_ok a g : (a, g) ∈ G -> group_ok g;
  gh_leads a s : (a, s) ∈ S -> is_u64 (sl_id s) /\ leads G s
}.

(** The groups [G], in the order of their links, each with a slot that leads to
    it, and the slots [S]. *)
Record grep t (G : glist) (S : slist) : Prop := {
  gr_links : g_groups t = G.*1;
  gr_heap : gheap t G S;
  gr_asked a g : (a, g) ∈ G -> exists b s, (b, s) ∈ S /\ sl_g s = a
}.

Lemma grep_init : grep groups0 [] [].
Proof.
  split; [done| |by intros a g ?%not_elem_of_nil]. split; cbn; try (by constructor).
  - apply iter_null.
  - intros a g. rewrite lookup_empty. split; [done|by intros ?%not_elem_of_nil].
  - intros a g. rewrite lookup_empty. split; [done|by intros ?%not_elem_of_nil].
  - by intros a g ?%not_elem_of_nil.
  - by intros a g ?%not_elem_of_nil.
Qed.

Lemma gheap_items t G S : gheap t G S -> (HASH_ITER (g_slots t)).*2 = S.*1.
Proof. intros H. by rewrite (gh_items _ _ _ H), <- list_fmap_compose. Qed.

(** ** Looking a package up *)

Lemma slot_find t G S id :
  gheap t G S -> is_u64 id ->
  match HASH_FIND (g_slots t) (le64 id) with
  | Some a => exists s, (a, s) ∈ S /\ sl_id s = id
  | None => forall a s, (a, s) ∈ S -> sl_id s <> id
  end.
Proof.
  intros H Hid. assert (Hn : NoDup (HASH_ITER (g_slots t)).*2) by (rewrite (gheap_items _ _ _ H); apply H).
  destruct (HASH_FIND _ _) as [a|] eqn:E.
  - apply find_some in E; [|done]. rewrite (gh_items _ _ _ H) in E. apply list_elem_of_fmap in E as ([b s] & Ex & Hin).
    pose proof (f_equal fst Ex) as Ek. apply (f_equal snd) in Ex. cbn in Ek, Ex. subst a.
    exists s. split; [done|]. symmetry. apply le64_inj; [done|by apply (gh_leads _ _ _ H b)|done].
  - intros a s Hin <-. apply (find_none _ _ a) in E; [|done]. apply E. rewrite (gh_items _ _ _ H).
    by apply (list_elem_of_fmap_2 sitem _ (a, s)).
Qed.

Lemma slot_unique t G S a s b s' :
  gheap t G S -> (a, s) ∈ S -> (b, s') ∈ S -> sl_id s = sl_id s' -> s = s'.
Proof.
  intros H Ha Hb E. apply list_elem_of_lookup in Ha as [i Hi], Hb as [j Hj].
  assert (i = j) as ->; [|congruence].
  apply (NoDup_lookup _ i j (sl_id s) (gh_once _ _ _ H)); rewrite list_lookup_fmap; [by rewrite Hi|by rewrite Hj, E].
Qed.

Lemma group_unique t G S a g g' : gheap t G S -> (a, g) ∈ G -> (a, g') ∈ G -> g = g'.
Proof. intros H Ha Hb. apply (gh_groups _ _ _ H) in Ha, Hb. congruence. Qed.

(** ** A group more *)

Lemma gheap_group t G S g :
  gheap t G S -> group_ok g ->
  let a := place (dom (gs_group t)) in gheap (put_group t a g) ((a, g) :: G) S /\ forall g', (a, g') ∉ G.
Proof.
  intros H Hg a. assert (Hna : forall g', (a, g') ∉ G).
  { intros g' Hin. apply (gh_groups _ _ _ H) in Hin. apply (place_fresh (dom (gs_group t))). by eapply elem_of_dom_2. }
  split; [|done]. destruct H as [H1 H2 H3 H4 H5 H6 H7 H8]. split; try done.
  - intros b g'. cbn. rewrite elem_of_cons. destruct (decide (b = a)) as [->|Hne].
    + rewrite lookup_insert_eq. split; [intros [= ->]; by left|]. intros [[= ->]|Hin]; [done|by destruct (Hna g')].
    + rewrite lookup_insert_ne, H2 by congruence. naive_solver.
  - cbn. apply NoDup_cons. split; [|done]. intros ([b g'] & Heq & Hin)%list_elem_of_fmap. cbn in Heq. subst. by destruct (Hna g').
  - intros b g' [[= -> ->]|Hin]%elem_of_cons; [done|by apply (H7 b)].
  - intros b s Hin. destruct (H8 b s Hin) as (Hid & H0 & g' & Hin' & Hs). split; [done|]. split; [done|].
    exists g'. split; [by apply list_elem_of_further|done].
Qed.

Lemma gheap_slot t G S g ga i id h :
  let a := place (dom (gs_slot t)) in
  gheap t G S -> (ga, g) ∈ G -> 0 <= i -> gr_ids g !! Z.to_nat i = Some id -> is_u64 id ->
  (forall b s, (b, s) ∈ S -> sl_id s <> id) ->
  HASH_ADD (g_slots t) (le64 id) a = Some h ->
  gheap (set_slot_map (set_slots t h) (<[a := PkgSlot id ga i]> (gs_slot t))) G (S ++ [(a, PkgSlot id ga i)]).
Proof.
  intros a H Hin Hi Hid Hu Hno Hh. assert (Hna : forall s', (a, s') ∉ S).
  { intros s' Hs. apply (gh_slots _ _ _ H) in Hs. apply (place_fresh (dom (gs_slot t))). by eapply elem_of_dom_2. }
  destruct H as [H1 H2 H3 H4 H5 H6 H7 H8]. split; cbn; try done.
  - by rewrite (add_some _ _ _ _ Hh), H1, fmap_app.
  - intros b s. rewrite elem_of_app, list_elem_of_singleton. destruct (decide (b = a)) as [->|Hne].
    + rewrite lookup_insert_eq. split; [intros [= <-]; by right|]. intros [Hs|[= ->]]; [by destruct (Hna s)|done].
    + rewrite lookup_insert_ne, H3 by congruence. naive_solver.
  - rewrite fmap_app. apply NoDup_app. split_and!; [done| |apply NoDup_singleton].
    intros b ([b' s'] & -> & Hs)%list_elem_of_fmap Hb%list_elem_of_singleton. cbn in Hb. subst. by destruct (Hna s').
  - rewrite fmap_app. apply NoDup_app. split_and!; [done| |apply NoDup_singleton].
    intros k ([b' s'] & -> & Hs)%list_elem_of_fmap Hb%list_elem_of_singleton. by apply (Hno b' s').
  - intros b s [Hs|[= -> ->]%list_elem_of_singleton]%elem_of_app; [by apply (H8 b)|]. split; [done|]. split; [done|by exists g].
Qed.

Lemma place_loop_spec G g ga : forall ids pre t S placed,
  gheap t G S -> (ga, g) ∈ G -> gr_ids g = pre ++ ids -> Forall is_u64 ids ->
  exists t' N, place_loop t ga ids (len pre) placed = (t', placed + len N) /\
    gheap t' G (S ++ N) /\ g_groups t' = g_groups t /\ gs_group t' = gs_group t /\
    (forall b s, (b, s) ∈ N -> sl_g s = ga) /\
    (TotalAllocator A -> UthashTotal U -> forall id, id ∈ ids -> exists b s, (b, s) ∈ S ++ N /\ sl_id s = id).
Proof.
  induction ids as [|id ids IH]; intros pre t S placed H Hin Hids Hu; cbn [place_loop].
  { exists t, []. rewrite app_nil_r, Z.add_0_r. split_and!; try done; [by intros b s ?%not_elem_of_nil|by intros _ _ id ?%not_elem_of_nil]. }
  apply Forall_cons in Hu as [Hid Hu]. rewrite cons_middle, app_assoc in Hids.
  assert (Hl : len pre + 1 = len (pre ++ [id])) by (rewrite length_app; cbn; lia). rewrite Hl.
  assert (Hskip : (TotalAllocator A -> UthashTotal U -> exists b s, (b, s) ∈ S /\ sl_id s = id) ->
    exists t' N, place_loop t ga ids (len (pre ++ [id])) placed = (t', placed + len N) /\
    gheap t' G (S ++ N) /\ g_groups t' = g_groups t /\ gs_group t' = gs_group t /\
    (forall b s, (b, s) ∈ N -> sl_g s = ga) /\
    (TotalAllocator A -> UthashTotal U -> forall id', id' ∈ id :: ids -> exists b s, (b, s) ∈ S ++ N /\ sl_id s = id')).
  { intros Hhas. destruct (IH (pre ++ [id]) t S placed H Hin Hids Hu) as (t' & N & E & Hh & Hg & Hm & Hn & Ht).
    exists t', N. split_and!; try done. intros HT HU id' [->|Hi]%elem_of_cons; [|by apply Ht].
    destruct (Hhas HT HU) as (b & s & Hs & <-). exists b, s. split; [apply elem_of_app; by left|done]. }
  pose proof (slot_find t G S id H Hid) as Hf. destruct (HASH_FIND _ _) as [b|].
  { destruct Hf as (s & Hs & He). apply Hskip. intros _ _. by exists b, s. }
  destruct (grants sizeof_pkg_slot) eqn:Eg; [|apply Hskip; intros HT; by rewrite HT in Eg].
  destruct (HASH_ADD _ _ _) as [h|] eqn:Eh.
  2: { apply Hskip. intros _ HU. destruct (add_total (g_slots t) (le64 id) (place (dom (gs_slot t)))) as [h Eh']. by rewrite Eh' in Eh. }
  assert (Hat : gr_ids g !! Z.to_nat (len pre) = Some id).
  { rewrite Nat2Z.id, Hids, <- app_assoc. by apply list_lookup_middle. }
  pose proof (gheap_slot t G S g ga (len pre) id h H Hin ltac:(lia) Hat Hid Hf Eh) as H1.
  edestruct (IH (pre ++ [id]) _ _ (placed + 1) H1 Hin Hids Hu) as (t' & N & E & Hh & Hg & Hm & Hn & Ht).
  eexists t', (_ :: N). split; [etrans; [exact E|]; f_equal; cbn [length]; lia|].
  rewrite <- app_assoc in Hh, Ht. split_and!; [exact Hh|exact Hg|exact Hm| |].
  - intros b s [[= -> ->]|Hs]%elem_of_cons; [done|by apply (Hn b)].
  - intros HT HU id' [->|Hi]%elem_of_cons; [|by apply Ht]. exists (place (dom (gs_slot t))), (PkgSlot id ga (len pre)). split; [|done].
    rewrite elem_of_app. right. apply list_elem_of_here.
Qed.

(** Taking a group out of the heap that no slot leads to. *)
Lemma gheap_drop t G S a g :
  gheap t ((a, g) :: G) S -> (forall b s, (b, s) ∈ S -> sl_g s <> a) ->
  gheap (set_group t (delete a (gs_group t))) G S.
Proof.
  intros [H1 H2 H3 H4 H5 H6 H7 H8] Hno. apply NoDup_cons in H4 as [Ha H4]. split; try done.
  - intros b g'. cbn. rewrite lookup_delete_Some, H2, elem_of_cons. split.
    + intros [Hne [[= ]|]]; [congruence|done].
    + intros Hin. split; [|by right]. intros <-. apply Ha. by eapply (list_elem_of_fmap_2' fst).
  - intros b g' Hin. by apply (H7 b), list_elem_of_further.
  - intros b s Hs. destruct (H8 b s Hs) as (Hid & H0 & g' & Hin & He). split; [done|]. split; [done|].
    exists g'. split; [|done]. apply elem_of_cons in Hin as [[= E _]|Hin]; [|done]. by destruct (Hno b s).
Qed.

Lemma group_new_spec t G S ids :
  grep t G S -> ids <> [] -> ids_ok ids ->
  exists t' r G' N, group_new t ids = Ret (t', r) /\ grep t' G' (S ++ N) /\
    match r with
    | Some a => G' = (a, Group ids []) :: G /\ N <> [] /\ forall b s, (b, s) ∈ N -> sl_g s = a
    | None => G' = G /\ N = []
    end /\
    (TotalAllocator A -> UthashTotal U -> forall id, id ∈ ids -> exists b s, (b, s) ∈ S ++ N /\ sl_id s = id).
Proof.
  intros H Hne Hok. unfold group_new.
  destruct (grants sizeof_group && _) eqn:Eg.
  2: { exists t, None, G, []. rewrite app_nil_r. split_and!; try done. intros HT _. by rewrite !HT in Eg. }
  clear Eg. destruct H as [Hl H Ha]. assert (Hgo : group_ok (Group ids [])) by (split; [done|split; [done|constructor]]).
  pose proof (gheap_group t G S _ H Hgo) as [H1 Hna]. set (a := place (dom (gs_group t))) in *.
  assert (Hu : Forall is_u64 ids) by (destruct Hok as [root Hr]; eapply Forall_impl; [exact Hr|]; by intros x [? _]).
  destruct (place_loop_spec ((a, Group ids []) :: G) (Group ids []) a ids [] _ S 0 H1) as (t' & N & E & H2 & Hg & Hm & Hn & Ht);
    [apply list_elem_of_here|done|done|]. change (len []) with 0 in E. rewrite E.
  destruct (Z.eqb_spec (0 + len N) 0) as [E0|E0].
  - assert (N = []) as -> by (destruct N; [done|cbn in E0; lia]). rewrite app_nil_r in *.
    assert (Ea : gs_group t' !! a = Some (Group ids [])) by (rewrite Hm; apply lookup_insert_eq).
    unfold free_group, group_at. rewrite Ea. cbn [mbind outcome_bind].
    eexists _, None, G, []. rewrite app_nil_r. split; [reflexivity|]. split_and!; try done. split; [by cbn; rewrite Hg| |done].
    eapply gheap_drop; [exact H2|]. intros b s Hs Hb.
    destruct (gh_leads _ _ _ H b s Hs) as (_ & _ & g & Hin & _). rewrite Hb in Hin. by apply (Hna g).
  - exists (set_groups t' (a :: g_groups t')), (Some a), ((a, Group ids []) :: G), N. split; [done|].
    assert (HN : N <> []) by (intros ->; cbn in E0; lia). split_and!; try done.
    split; [cbn; by rewrite Hg, <- Hl|by destruct H2|].
    intros b g [[= -> ->]|Hin]%elem_of_cons.
    + destruct N as [|[c s] N]; [done|]. exists c, s. rewrite elem_of_app. split; [right; apply list_elem_of_here|].
      apply (Hn c), list_elem_of_here.
    + destruct (Ha b g Hin) as (c & s & Hs & <-). exists c, s. split; [apply elem_of_app; by left|done].
Qed.

Lemma register_spec t G S pkgs :
  grep t G S -> ids_ok pkgs ->
  exists t' G' N, arpc_pkg_group_register t pkgs = Ret t' /\ grep t' G' (S ++ N) /\
    (forall b s, (b, s) ∈ N -> G' = (sl_g s, Group pkgs []) :: G) /\
    (TotalAllocator A -> UthashTotal U -> forall id, id ∈ pkgs -> exists b s, (b, s) ∈ S ++ N /\ sl_id s = id).
Proof.
  intros H Hok. unfold arpc_pkg_group_register.
  assert (Hno : (TotalAllocator A -> pkgs = []) -> exists t' G' N, Ret t = Ret t' /\ grep t' G' (S ++ N) /\
    (forall b s, (b, s) ∈ N -> G' = (sl_g s, Group pkgs []) :: G) /\
    (TotalAllocator A -> UthashTotal U -> forall id, id ∈ pkgs -> exists b s, (b, s) ∈ S ++ N /\ sl_id s = id)).
  { intros Hn. exists t, G, []. rewrite app_nil_r. split_and!; try done; [by intros b s ?%not_elem_of_nil|].
    intros HT _ id Hin. rewrite (Hn HT) in Hin. by apply not_elem_of_nil in Hin. }
  destruct (Z.eqb_spec (len pkgs) 0) as [E0|E0]; [apply Hno; intros _; destruct pkgs; [done|cbn in E0; lia]|].
  destruct (grants (len pkgs * 8)) eqn:Eg; [|apply Hno; intros HT; by rewrite HT in Eg].
  destruct (group_new_spec t G S pkgs H) as (t' & r & G' & N & -> & Hg & Hr & Ht); [by intros ->|done|].
  exists t', G', N. split_and!; try done. destruct r as [a|].
  - destruct Hr as (-> & _ & Hn). intros b s Hs. by rewrite (Hn b s Hs).
  - destruct Hr as [_ ->]. by intros b s ?%not_elem_of_nil.
Qed.

Lemma slot_at_in t G S a s : gheap t G S -> (a, s) ∈ S -> slot_at t a = Ret s.
Proof. intros H Hin. unfold slot_at. by rewrite (proj2 (gh_slots _ _ _ H a s) Hin). Qed.
Lemma group_at_in t G S a g : gheap t G S -> (a, g) ∈ G -> group_at t a = Ret g.
Proof. intros H Hin. unfold group_at. by rewrite (proj2 (gh_groups _ _ _ H a g) Hin). Qed.

(** The group a package is read through, and its position in it. *)
Lemma group_for_pkg_spec t G S id :
  grep t G S -> is_u64 id ->
  exists t' r G' N, group_for_pkg t id = Ret (t', r) /\ grep t' G' (S ++ N) /\
    match r with
    | Some (a, i) => 0 <= i /\ exists g, (a, g) ∈ G' /\ gr_ids g !! Z.to_nat i = Some id
    | None => G' = G /\ N = [] /\ (TotalAllocator A -> UthashTotal U -> False)
    end.
Proof.
  intros H Hid. unfold group_for_pkg. pose proof (slot_find t G S id (gr_heap _ _ _ H) Hid) as Hf.
  destruct (HASH_FIND _ _) as [a|].
  - destruct Hf as (s & Hs & <-). rewrite (slot_at_in _ _ _ _ _ (gr_heap _ _ _ H) Hs). cbn [mbind outcome_bind].
    exists t, (Some (sl_g s, sl_slot s)), G, []. rewrite app_nil_r. split_and!; try done; by apply (gh_leads _ _ _ (gr_heap _ _ _ H) a).
  - destruct (group_new_spec t G S [id] H) as (t' & r & G' & N & -> & Hg & Hr & Ht);
      [done|exists (ARPC_ROOT id); constructor; [done|constructor]|]. cbn [mbind outcome_bind].
    destruct r as [a|].
    + eexists t', (Some (a, 0)), G', N. split_and!; try done. destruct Hr as (-> & _). exists (Group [id] []). split; [apply list_elem_of_here|done].
    + destruct Hr as [-> ->]. eexists t', None, G, []. split_and!; try done. intros HT HU.
      destruct (Ht HT HU id) as (b & s & Hs & He); [apply list_elem_of_here|]. rewrite app_nil_r in Hs. by apply (Hf b s).
Qed.

(** ** Letting a root go *)

Definition keeps_group (root : Z) (x : Z * pkg_group) : Prop := head (gr_ids x.2) <> None /\ (ARPC_ROOT <$> head (gr_ids x.2)) <> Some root.
Definition keeps_slot (root : Z) (x : Z * pkg_slot) : Prop := ARPC_ROOT (sl_id x.2) <> root.

#[export] Instance keeps_group_dec root x : Decision (keeps_group root x).
Proof. unfold keeps_group. apply _. Defined.
#[export] Instance keeps_slot_dec root x : Decision (keeps_slot root x).
Proof. unfold keeps_slot. apply _. Defined.

Lemma group_ok_root g : group_ok g -> exists id ids, gr_ids g = id :: ids /\ Forall (fun id' => ARPC_ROOT id' = ARPC_ROOT id) (gr_ids g).
Proof.
  intros (Hne & [root Hr] & _). destruct (gr_ids g) as [|id ids]; [done|]. exists id, ids. split; [done|].
  pose proof (Forall_inv Hr) as [_ <-]. eapply Forall_impl; [exact Hr|]. by intros x [_ ?].
Qed.

Lemma free_groups_loop_spec root G : forall t,
  NoDup G.*1 -> (forall a g, (a, g) ∈ G -> gs_group t !! a = Some g /\ group_ok g) ->
  exists m, free_groups_loop root G.*1 t = Ret (set_group t m, (filter (keeps_group root) G).*1) /\
    forall a g, m !! a = Some g <-> gs_group t !! a = Some g /\ ((a, g) ∈ G -> keeps_group root (a, g)).
Proof.
  induction G as [|[a g] G IH]; intros t Hn Hok.
  { exists (gs_group t). split; [by destruct t|]. intros a g. split; [|tauto]. intros ?. split; [done|by intros ?%not_elem_of_nil]. }
  rewrite fmap_cons in *. apply NoDup_cons in Hn as [Ha Hn]. cbn [fst free_groups_loop].
  destruct (Hok a g) as [Hg Hgok]; [apply list_elem_of_here|]. unfold group_at. rewrite Hg. cbn [mbind outcome_bind].
  destruct (group_ok_root g Hgok) as (id & ids & Hids & _). unfold group_root. rewrite Hids. cbn [mbind outcome_bind].
  assert (Hna : forall g', (a, g') ∉ G) by (intros g' Hin; apply Ha; by eapply (list_elem_of_fmap_2' fst)).
  destruct (Z.eqb_spec (ARPC_ROOT id) root) as [Er|Er].
  - rewrite filter_cons_False by (unfold keeps_group; cbn; rewrite Hids; cbn; intros [_ H]; by rewrite Er in H).
    unfold free_group, group_at. rewrite Hg. cbn [mbind outcome_bind].
    destruct (IH (set_group t (delete a (gs_group t))) Hn) as (m & -> & Hm).
    { intros b g' Hin. cbn. rewrite lookup_delete_ne by (intros <-; by apply (Hna g')).
      by apply Hok, list_elem_of_further. }
    exists m. split; [done|]. intros b g'. rewrite Hm. cbn. rewrite lookup_delete_Some, elem_of_cons. split.
    + intros [[Hne Hb] Hk]. split; [done|]. intros [[= ]|]; [congruence|by apply Hk].
    + intros [Hb Hk]. assert (b <> a).
      { intros ->. assert (g' = g) as -> by congruence. destruct (Hk (or_introl eq_refl)) as [_ Hk']. cbn in Hk'. rewrite Hids in Hk'. cbn in Hk'. congruence. }
      split; [by split|]. intros Hin. apply Hk. by right.
  - rewrite filter_cons_True by (unfold keeps_group; cbn; rewrite Hids; cbn; split; congruence).
    destruct (IH t Hn) as (m & -> & Hm); [intros b g' Hin; by apply Hok, list_elem_of_further|].
    exists m. split; [done|]. intros b g'. rewrite Hm, elem_of_cons. split; intros [Hb Hk]; (split; [done|]).
    + intros [[= -> ->]|Hin]; [|by apply Hk]. unfold keeps_group. cbn. rewrite Hids. cbn. split; congruence.
    + intros Hin. apply Hk. by right.
Qed.

Lemma free_slots_loop_spec root S : forall K t,
  HASH_ITER (g_slots t) = sitem <$> K ++ S -> NoDup (K ++ S).*1 ->
  (forall a s, (a, s) ∈ S -> gs_slot t !! a = Some s) ->
  exists t', free_slots_loop root S.*1 t = Ret t' /\ g_groups t' = g_groups t /\ gs_group t' = gs_group t /\
    HASH_ITER (g_slots t') = sitem <$> K ++ filter (keeps_slot root) S /\
    forall a s, gs_slot t' !! a = Some s <-> gs_slot t !! a = Some s /\ ((a, s) ∈ S -> keeps_slot root (a, s)).
Proof.
  induction S as [|[a s] S IH]; intros K t Hi Hn Hok.
  { exists t. split_and!; try done. intros a s. split; [|tauto]. intros ?. split; [done|by intros ?%not_elem_of_nil]. }
  rewrite fmap_cons. cbn [fst free_slots_loop]. unfold slot_at. rewrite (Hok a s) by apply list_elem_of_here. cbn [mbind outcome_bind].
  assert (Hna : forall s', (a, s') ∉ S).
  { intros s' Hin. rewrite fmap_app in Hn. apply NoDup_app in Hn as (_ & _ & [Ha _]%NoDup_cons).
    apply Ha. by eapply (list_elem_of_fmap_2' fst). }
  destruct (Z.eqb_spec (ARPC_ROOT (sl_id s)) root) as [Er|Er].
  - rewrite filter_cons_False by (unfold keeps_slot; cbn; tauto).
    assert (Hd : HASH_ITER (HASH_DEL (g_slots t) a) = sitem <$> K ++ S).
    { rewrite fmap_app. apply (del_mid _ _ _ (le64 (sl_id s))); [by rewrite Hi, fmap_app|].
      by rewrite Hi, <- list_fmap_compose. }
    edestruct (IH K (set_slot_map (set_slots t (HASH_DEL (g_slots t) a)) (delete a (gs_slot t))) Hd) as (t' & -> & H1 & H2 & H3 & H4).
    { rewrite fmap_app, fmap_cons, <- Permutation_middle in Hn. apply NoDup_cons in Hn as [_ Hn]. by rewrite fmap_app. }
    { intros b s' Hin. cbn. rewrite lookup_delete_ne by (intros <-; by apply (Hna s')). by apply Hok, list_elem_of_further. }
    exists t'. split_and!; try done. intros b s'. rewrite H4. cbn. rewrite lookup_delete_Some, elem_of_cons. split.
    + intros [[Hne Hb] Hk]. split; [done|]. intros [[= ]|]; [congruence|by apply Hk].
    + intros [Hb Hk]. assert (b <> a).
      { intros ->. rewrite (Hok a s) in Hb by apply list_elem_of_here. injection Hb as <-. by apply (Hk (or_introl eq_refl)). }
      split; [by split|]. intros Hin. apply Hk. by right.
  - rewrite filter_cons_True by done.
    destruct (IH (K ++ [(a, s)]) t) as (t' & -> & H1 & H2 & H3 & H4).
    { by rewrite <- app_assoc. }
    { by rewrite <- app_assoc. }
    { intros b s' Hin. by apply Hok, list_elem_of_further. }
    exists t'. rewrite <- app_assoc in H3. split_and!; try done. intros b s'. rewrite H4, elem_of_cons.
    split; intros [Hb Hk]; (split; [done|]); [|intros Hin; apply Hk; by right].
    intros [[= -> ->]|Hin]; [done|by apply Hk].
Qed.

(** A group is kept with all that leads to it. *)
Lemma keeps_leads t G S root a s g :
  gheap t G S -> (a, s) ∈ S -> (sl_g s, g) ∈ G -> gr_ids g !! Z.to_nat (sl_slot s) = Some (sl_id s) ->
  keeps_group root (sl_g s, g) <-> keeps_slot root (a, s).
Proof.
  intros H Hs Hg Hi. destruct (group_ok_root g (gh_ok _ _ _ H _ _ Hg)) as (id & ids & Hids & Hr).
  rewrite Forall_lookup in Hr. specialize (Hr _ _ Hi). unfold keeps_group, keeps_slot. cbn. rewrite Hids. cbn. rewrite Hr.
  split; [intros [_ ?]; congruence|]. intros. split; congruence.
Qed.

Lemma free_groups_of_spec t G S root :
  grep t G S -> exists t', free_groups_of t root = Ret t' /\ grep t' (filter (keeps_group root) G) (filter (keeps_slot root) S).
Proof.
  intros [Hl H Ha]. unfold free_groups_of. rewrite Hl.
  destruct (free_groups_loop_spec root G t) as (m & -> & Hm); [apply H| |].
  { intros a g Hin. split; [by apply H|by apply (gh_ok _ _ _ H a)]. }
  cbn [mbind outcome_bind set_group g_slots]. rewrite (gheap_items _ _ _ H).
  destruct (free_slots_loop_spec root S [] (set_groups (set_group t m) (filter (keeps_group root) G).*1)) as (t' & -> & H1 & H2 & H3 & H4).
  { apply H. } { apply H. } { intros a s Hin. by apply (gh_slots _ _ _ H). }
  exists t'. split; [done|]. cbn in H1, H2, H3, H4.
  split; [done| |].
  - pose proof H as [G1 G2 G3 G4 G5 G6 G7 G8]. split; try done.
    + intros a g. rewrite H2, Hm, G2, list_elem_of_filter. tauto.
    + intros a s. rewrite H4, G3, list_elem_of_filter. tauto.
    + eapply sublist_NoDup; [exact G4|]. apply fmap_sublist, sublist_filter.
    + eapply sublist_NoDup; [exact G5|]. apply fmap_sublist, sublist_filter.
    + eapply sublist_NoDup; [exact G6|]. apply fmap_sublist, sublist_filter.
    + intros a g [_ Hin]%list_elem_of_filter. by apply (G7 a).
    + intros a s [Hk Hin]%list_elem_of_filter. destruct (G8 a s Hin) as (Hid & H0 & g & Hg & Hi). split; [done|]. split; [done|].
      exists g. split; [|done]. apply list_elem_of_filter. split; [|done]. by apply (keeps_leads t G S root a s g).
  - intros a g [Hk Hin]%list_elem_of_filter. destruct (Ha a g Hin) as (b & s & Hs & <-). exists b, s. split; [|done].
    apply list_elem_of_filter. split; [|done]. destruct (gh_leads _ _ _ H b s Hs) as (_ & _ & g' & Hg & Hi).
    assert (g' = g) as -> by (by eapply group_unique). by apply (keeps_leads t G S root b s g).
Qed.

(** ** Columns *)

Definition with_group (G : glist) (a : Z) (g : pkg_group) : glist :=
  (fun x => if decide (x.1 = a) then (a, g) else x) <$> G.

Lemma with_group_in (G : glist) a g b h :
  NoDup G.*1 -> a ∈ G.*1 -> (b, h) ∈ with_group G a g <-> (b = a /\ h = g) \/ (b <> a /\ (b, h) ∈ G).
Proof.
  intros Hn Ha. unfold with_group. rewrite list_elem_of_fmap. split.
  - intros ([c k] & E & Hin). cbn in E. case_decide; [left; by injection E as -> ->|right]. injection E as -> ->. done.
  - intros [[-> ->]|[Hne Hin]].
    + apply list_elem_of_fmap in Ha as ([c k] & -> & Hin). exists (c, k). cbn. by rewrite decide_True.
    + exists (b, h). cbn. by rewrite decide_False.
Qed.

Lemma with_group_addrs (G : glist) a g : (with_group G a g).*1 = G.*1.
Proof.
  unfold with_group. rewrite <- list_fmap_compose. apply list_fmap_ext. intros i [b h] _. cbn. by case_decide.
Qed.

(** Only the columns of a group change. *)
Lemma grep_columns t G S a g cols :
  grep t G S -> (a, g) ∈ G -> Forall (column_ok (length (gr_ids g))) cols ->
  grep (put_group t a (Group (gr_ids g) cols)) (with_group G a (Group (gr_ids g) cols)) S.
Proof.
  intros [Hl [H1 H2 H3 H4 H5 H6 H7 H8] Ha] Hin Hc.
  assert (Hin1 : a ∈ G.*1) by (by eapply (list_elem_of_fmap_2' fst)).
  assert (Hw : forall b h, (b, h) ∈ with_group G a (Group (gr_ids g) cols) <->
    (b = a /\ h = Group (gr_ids g) cols) \/ (b <> a /\ (b, h) ∈ G)) by (intros; by apply with_group_in).
  split; [by rewrite with_group_addrs| |].
  - split; try done.
    + intros b h. cbn. rewrite Hw. destruct (decide (b = a)) as [->|Hne].
      * rewrite lookup_insert_eq. naive_solver.
      * rewrite lookup_insert_ne, H2 by congruence. naive_solver.
    + by rewrite with_group_addrs.
    + intros b h [[-> ->]|[_ Hb]]%Hw; [|by apply (H7 b)]. destruct (H7 a g Hin) as (? & ? & _). by split_and!.
    + intros b s Hs. destruct (H8 b s Hs) as (Hid & H0 & h & Hh & Hi). split; [done|]. split; [done|].
      destruct (decide (sl_g s = a)) as [E|E].
      * exists (Group (gr_ids g) cols). rewrite Hw. split; [by left|]. cbn. rewrite E in Hh.
        apply H2 in Hin, Hh. congruence.
      * exists h. rewrite Hw. split; [by right|done].
  - intros b h [[-> _]|[_ Hb]]%Hw; [by apply (Ha a g)|by apply (Ha b h)].
Qed.

Lemma drop_first_ok n cols field : Forall (column_ok n) cols -> Forall (column_ok n) (drop_first cols field).
Proof. induction 1 as [|c cols Hc Hcs IH]; cbn; [constructor|]. destruct (streq _ _); [done|by constructor]. Qed.

Lemma drop_column_spec t G S pkg field :
  grep t G S -> is_u64 pkg ->
  exists t', drop_column t pkg field = Ret t' /\
    ((t' = t /\ forall a s, (a, s) ∈ S -> sl_id s <> pkg) \/
     exists a s g, (a, s) ∈ S /\ sl_id s = pkg /\ (sl_g s, g) ∈ G /\
       let g' := Group (gr_ids g) (drop_first (gr_cols g) field) in
       t' = put_group t (sl_g s) g' /\ grep t' (with_group G (sl_g s) g') S).
Proof.
  intros H Hid. unfold drop_column. pose proof (slot_find t G S pkg (gr_heap _ _ _ H) Hid) as Hf.
  destruct (HASH_FIND _ _) as [a|]; [|exists t; split; [done|by left]].
  destruct Hf as (s & Hs & He). rewrite (slot_at_in _ _ _ _ _ (gr_heap _ _ _ H) Hs). cbn [mbind outcome_bind].
  destruct (gh_leads _ _ _ (gr_heap _ _ _ H) a s Hs) as (_ & _ & g & Hg & _).
  rewrite (group_at_in _ _ _ _ _ (gr_heap _ _ _ H) Hg). cbn [mbind outcome_bind]. eexists. split; [reflexivity|]. right.
  exists a, s, g. split_and!; try done. apply grep_columns; [done|done|].
  apply drop_first_ok. by apply (gh_ok _ _ _ (gr_heap _ _ _ H) (sl_g s)).
Qed.

Lemma push_column_spec t G S a g col :
  grep t G S -> (a, g) ∈ G -> column_ok (length (gr_ids g)) col ->
  exists t', push_column t a col = Ret t' /\ grep t' (with_group G a (Group (gr_ids g) (col :: gr_cols g))) S.
Proof.
  intros H Hg Hc. unfold push_column. rewrite (group_at_in _ _ _ _ _ (gr_heap _ _ _ H) Hg). cbn [mbind outcome_bind].
  eexists. split; [reflexivity|]. apply grep_columns; [done|done|]. constructor; [done|].
  by apply (gh_ok _ _ _ (gr_heap _ _ _ H) a).
Qed.

(** ** Programs *)

Inductive gop :=
| GRegister (pkgs : list Z)
| GResolve (id : Z)
| GStore (id : Z) (cells : Z -> column)
| GDrop (pkg : Z) (field : list Z)
| GFree (root : Z).

(** [GStore] is what a fetch does with the group of a package: a column of as
    many cells as there are members. *)
Definition gstep t (op : gop) : outcome groups :=
  match op with
  | GRegister pkgs => arpc_pkg_group_register t pkgs
  | GResolve id => '(t, _) ← group_for_pkg t id; Ret t
  | GStore id cells =>
      '(t, g) ← group_for_pkg t id;
      match g with
      | Some (a, _) => g ← group_at t a; push_column t a (cells (len (gr_ids g)))
      | None => Ret t
      end
  | GDrop pkg field => arpc_drop_column t pkg field
  | GFree root => free_groups_of t root
  end.

Fixpoint grun t (ops : list gop) : outcome groups :=
  match ops with [] => Ret t | op :: ops => t ← gstep t op; grun t ops end.

Definition gop_ok (op : gop) : Prop :=
  match op with
  | GRegister pkgs => ids_ok pkgs
  | GResolve id | GDrop id _ => is_u64 id
  | GStore id cells => is_u64 id /\ forall n, column_ok n (cells (Z.of_nat n))
  | GFree _ => True
  end.

Lemma gstep_spec t G S op : grep t G S -> gop_ok op -> exists t' G' S', gstep t op = Ret t' /\ grep t' G' S'.
Proof.
  intros H Hok. destruct op as [pkgs|id|id cells|pkg field|root]; cbn [gstep gop_ok] in *.
  - destruct (register_spec t G S pkgs H Hok) as (t' & G' & N & -> & Hg & _). by eexists _, _, _.
  - destruct (group_for_pkg_spec t G S id H Hok) as (t' & r & G' & N & -> & Hg & _). by eexists _, _, _.
  - destruct Hok as [Hid Hc]. destruct (group_for_pkg_spec t G S id H Hid) as (t' & r & G' & N & -> & Hg & Hr).
    cbn [mbind outcome_bind]. destruct r as [[a i]|]; [|by eexists _, _, _]. destruct Hr as (_ & g & Hin & _).
    rewrite (group_at_in _ _ _ _ _ (gr_heap _ _ _ Hg) Hin). cbn [mbind outcome_bind].
    destruct (push_column_spec t' G' _ a g (cells (len (gr_ids g))) Hg Hin (Hc _)) as (t2 & -> & H2). by eexists _, _, _.
  - destruct (drop_column_spec t G S pkg field H Hok) as (t' & E & Hd). unfold arpc_drop_column. rewrite E.
    destruct Hd as [[-> _]|(a & s & g & _ & _ & _ & _ & Hg)]; by eexists _, _, _.
  - destruct (free_groups_of_spec t G S root H) as (t' & -> & Hg). by eexists _, _, _.
Qed.

Lemma grun_spec ops : forall t G S,
  grep t G S -> Forall gop_ok ops -> exists t' G' S', grun t ops = Ret t' /\ grep t' G' S'.
Proof.
  induction ops as [|op ops IH]; intros t G S H Hok; [by exists t, G, S|].
  apply Forall_cons in Hok as [Hop Hok]. destruct (gstep_spec t G S op H Hop) as (t1 & G1 & S1 & E & H1).
  destruct (IH t1 G1 S1 H1 Hok) as (t' & G' & S' & E' & H'). exists t', G', S'. cbn [grun]. by rewrite E.
Qed.

(** C19. The slots never dangle.  Whatever lists are registered, fields stored
    and dropped, and roots let go, on whatever heap: no group or slot is read
    or freed that is gone, and the slot of a package leads to a live group that
    has the package at that position and as many cells in each column as
    members. *)
Theorem groups_safe ops :
  Forall gop_ok ops ->
  exists t, grun groups0 ops = Ret t /\
    (forall id a, is_u64 id -> HASH_FIND (g_slots t) (le64 id) = Some a ->
       exists s g, slot_at t a = Ret s /\ sl_g s ∈ g_groups t /\ group_at t (sl_g s) = Ret g /\
         0 <= sl_slot s /\ gr_ids g !! Z.to_nat (sl_slot s) = Some id /\
         Forall (column_ok (length (gr_ids g))) (gr_cols g)) /\
    count_groups t = Z.of_nat (size (gs_group t)).
Proof.
  intros Hok. destruct (grun_spec ops groups0 [] [] grep_init Hok) as (t & G & S & -> & [Hl H Ha]).
  exists t. split; [done|]. split.
  - intros id a Hid Hf. pose proof (slot_find t G S id H Hid) as Hs. rewrite Hf in Hs. destruct Hs as (s & Hs & <-).
    destruct (gh_leads _ _ _ H a s Hs) as (_ & H0 & g & Hg & Hi). exists s, g.
    split_and!; [by eapply slot_at_in| |by eapply group_at_in|done|done|by apply (gh_ok _ _ _ H (sl_g s))].
    rewrite Hl. by eapply (list_elem_of_fmap_2' fst).
  - unfold count_groups. rewrite Hl, length_fmap, <- length_map_to_list. f_equal.
    assert (HE : map_to_list (gs_group t) ≡ₚ G).
    { apply NoDup_Permutation; [apply NoDup_map_to_list|by eapply NoDup_fmap_1, (gh_gaddrs _ _ _ H)|].
      intros [a g]. by rewrite elem_of_map_to_list, (gh_groups _ _ _ H). }
    symmetry. apply Permutation_length, HE.
Qed.

(** One fetch serves the list.  After a list is registered, when nothing is
    refused, every package of it resolves to a live group that holds it at the
    position given, without making a group; a package that had a group keeps
    it, and those that had none are in the list's own. *)
Theorem group_register_correct t G S pkgs :
  TotalAllocator A -> UthashTotal U -> grep t G S -> ids_ok pkgs ->
  exists t', arpc_pkg_group_register t pkgs = Ret t' /\
    forall id, id ∈ pkgs ->
      exists a i g, group_for_pkg t' id = Ret (t', Some (a, i)) /\ group_at t' a = Ret g /\ 0 <= i /\
        gr_ids g !! Z.to_nat i = Some id /\
        ((exists b s, (b, s) ∈ S /\ s = PkgSlot id a i) \/ (gr_ids g = pkgs /\ forall b s, (b, s) ∈ S -> sl_id s <> id)).
Proof.
  intros HT HU H Hok.
  destruct (register_spec t G S pkgs H Hok) as (t' & G' & N & E & Hg & HN & Hp). exists t'. split; [done|].
  intros id Hin. destruct (Hp HT HU id Hin) as (b & s & Hs & Hid). pose proof (gr_heap _ _ _ Hg) as Hh.
  destruct (gh_leads _ _ _ Hh b s Hs) as (Hu & H0 & g & Hgr & Hi). rewrite Hid in Hu, Hi.
  exists (sl_g s), (sl_slot s), g.
  assert (Ef : group_for_pkg t' id = Ret (t', Some (sl_g s, sl_slot s))).
  { unfold group_for_pkg. pose proof (slot_find t' G' _ id Hh Hu) as Hf. destruct (HASH_FIND _ _) as [c|].
    - destruct Hf as (s' & Hs' & He). rewrite (slot_at_in _ _ _ _ _ Hh Hs').
      by rewrite (slot_unique t' G' _ c s' b s Hh Hs' Hs) by congruence.
    - by destruct (Hf b s Hs). }
  split_and!; [done|by eapply group_at_in|done|done|]. destruct s as [sid a i]. cbn in *. subst sid.
  apply elem_of_app in Hs as [Hs|Hs]; [left; by exists b, (PkgSlot id a i)|right].
  rewrite (HN b _ Hs) in Hgr, Hg. cbn in Hgr. split.
  - by rewrite (group_unique t' _ _ a g (Group pkgs []) (gr_heap _ _ _ Hg) Hgr) by apply list_elem_of_here.
  - intros c s' Hs' E'. pose proof (gh_once _ _ _ Hh) as Hn. rewrite fmap_app in Hn. apply NoDup_app in Hn as (_ & Hn & _).
    apply (Hn id).
    + apply list_elem_of_fmap. by exists (c, s').
    + apply list_elem_of_fmap. by exists (b, PkgSlot id a i).
Qed.

(** Letting a root go takes its groups and its slots, all of them and
    nothing else. *)
Theorem groups_free_correct t G S root :
  grep t G S ->
  exists t', free_groups_of t root = Ret t' /\
    grep t' (filter (keeps_group root) G) (filter (keeps_slot root) S) /\
    (forall a g, (a, g) ∈ G -> group_at t' a = (if decide (keeps_group root (a, g)) then Ret g else Undef)) /\
    (forall id, is_u64 id -> ARPC_ROOT id = root -> HASH_FIND (g_slots t') (le64 id) = None) /\
    (forall a s g, (a, s) ∈ S -> (sl_g s, g) ∈ G -> ARPC_ROOT (sl_id s) <> root -> group_at t' (sl_g s) = Ret g).
Proof.
  intros H. destruct (free_groups_of_spec t G S root H) as (t' & E & H'). exists t'.
  pose proof (gr_heap _ _ _ H') as Hh. pose proof (gr_heap _ _ _ H) as Hh0. split_and!; try done.
  - intros a g Hin. unfold group_at. destruct (gs_group t' !! a) as [g'|] eqn:Eg.
    + apply Hh, list_elem_of_filter in Eg as [Hk Hin']. assert (g' = g) as -> by (by eapply group_unique). by rewrite decide_True.
    + case_decide as Hk; [|done]. assert (Ea : (a, g) ∈ filter (keeps_group root) G) by (by apply list_elem_of_filter).
      apply Hh in Ea. congruence.
  - intros id Hid Hr. pose proof (slot_find t' _ _ id Hh Hid) as Hf. destruct (HASH_FIND _ _) as [a|]; [|done].
    destruct Hf as (s & [Hk _]%list_elem_of_filter & <-). by destruct Hk.
  - intros a s g Hs Hg Hr. eapply group_at_in; [exact Hh|]. apply list_elem_of_filter. split; [|done].
    destruct (gh_leads _ _ _ Hh0 a s Hs) as (_ & _ & g' & Hg' & Hi). assert (g' = g) as -> by (by eapply group_unique).
    by apply (keeps_leads t G S root a s g).
Qed.
End Theorems.

(** ** Groups at work *)

Section Toy.
#[local] Existing Instance Chain.chain.
#[local] Existing Instance Chain.above.
#[local] Existing Instances Chain.chain_ok Chain.chain_total Chain.above_ok.

(** Three packages of one handle, a list of two of them, then one of all. *)
Definition toy_id (k : Z) : Z := 1099511627776 + k.
Definition toy_pair : list Z := [toy_id 5; toy_id 6].
Definition toy_three : list Z := [toy_id 7; toy_id 5; toy_id 6].
Definition toy_cells (n : Z) : column := Column (lit "size") None (Some (replicate (Z.to_nat n) 0)).
Definition toy_gops : list gop :=
  [GRegister toy_pair; GStore (toy_id 6) toy_cells; GRegister toy_three; GResolve (toy_id 9); GDrop (toy_id 5) (lit "size"); GFree 1; GResolve (toy_id 5)].

Lemma toy_three_ok : ids_ok toy_three.
Proof. exists 1. repeat (constructor; [by split|]). constructor. Qed.

Lemma toy_pair_ok : ids_ok toy_pair.
Proof. exists 1. repeat (constructor; [by split|]). constructor. Qed.

Lemma toy_gops_ok : Forall gop_ok toy_gops.
Proof.
  constructor; [exact toy_pair_ok|]. constructor.
  { split; [done|]. intros n. split; [done|]. cbn. by rewrite length_replicate, Nat2Z.id. }
  constructor; [exact toy_three_ok|]. repeat (constructor; [done|]). constructor.
Qed.

Lemma groups_safe_witness :
  exists t, grun (A:=ample) groups0 toy_gops = Ret t /\ count_groups t = Z.of_nat (size (gs_group t)) /\ count_groups t = 1.
Proof.
  destruct (groups_safe (A:=ample) toy_gops toy_gops_ok) as (t & E & _ & Hc). exists t. split; [exact E|]. split; [exact Hc|].
  vm_compute in E. injection E as <-. reflexivity.
Defined.

(** The groups after the first list. *)
Definition toy_g : glist := [(4096, Group toy_pair [])].
Definition toy_s : slist := [(4096, PkgSlot (toy_id 5) 4096 0); (4097, PkgSlot (toy_id 6) 4096 1)].
Definition toy_groups : groups := Groups _ [4096] (sitem <$> toy_s) (list_to_map toy_g) (list_to_map toy_s).

Lemma toy_grep : grep toy_groups toy_g toy_s.
Proof.
  assert (Hg : forall a g, (a, g) ∈ toy_g -> a = 4096 /\ g = Group toy_pair []) by (by intros a g [= -> ->]%list_elem_of_singleton).
  split; [done| |].
  - split.
    + done.
    + intros a g. symmetry. apply elem_of_list_to_map. by apply (bool_decide_unpack (NoDup _)).
    + intros a s. symmetry. apply elem_of_list_to_map. by apply (bool_decide_unpack (NoDup _)).
    + by apply (bool_decide_unpack (NoDup _)).
    + by apply (bool_decide_unpack (NoDup _)).
    + by apply (bool_decide_unpack (NoDup _)).
    + intros a g [-> ->]%Hg. split; [done|]. split; [exact toy_pair_ok|constructor].
    + intros a s [[= -> ->]|[[= -> ->]|[]%not_elem_of_nil]%elem_of_cons]%elem_of_cons; (split; [done|]); (split; [done|]);
        exists (Group toy_pair []); (split; [apply list_elem_of_here|done]).
  - intros a g [-> ->]%Hg. exists 4096, (PkgSlot (toy_id 5) 4096 0). split; [apply list_elem_of_here|done].
Qed.

Lemma group_register_correct_witness :
  exists t' a i g, arpc_pkg_group_register (A:=ample) toy_groups toy_three = Ret t' /\
    group_for_pkg (A:=ample) t' (toy_id 7) = Ret (t', Some (a, i)) /\ group_at t' a = Ret g /\ gr_ids g = toy_three.
Proof.
  destruct (group_register_correct (A:=ample) toy_groups toy_g toy_s toy_three _ _ toy_grep toy_three_ok) as (t' & E & H).
  destruct (H (toy_id 7) (list_elem_of_here _ _)) as (a & i & g & Hf & Hg & _ & _ & Ho). exists t', a, i, g.
  split; [exact E|]. split; [exact Hf|]. split; [exact Hg|]. destruct Ho as [(b & s & Hs & ->)|[Hi _]]; [|exact Hi].
  exfalso. apply elem_of_cons in Hs as [[=]|[[=]|[]%not_elem_of_nil]%elem_of_cons].
Defined.

Lemma groups_free_correct_witness :
  exists t', free_groups_of toy_groups 1 = Ret t' /\ group_at t' 4096 = Undef.
Proof.
  destruct (groups_free_correct toy_groups toy_g toy_s 1 toy_grep) as (t' & E & _ & Hg & _).
  exists t'. split; [exact E|]. rewrite (Hg 4096 (Group toy_pair []) (list_elem_of_here _ _)).
  apply decide_False. intros [_ H]. by apply H.
Defined.
End Toy.
