(* ===== verification/ClientState.v ===== *)
(** * The client's state, and the process it lives in

    The file-scope variables of src/client/arpc_client.c, with the registry of
    src/client/arpc_callbacks.c, as one record.  Windows is a parameter: the
    environment, the modules, the processes and the pipes there are to open are
    a world [W] that the calls of [Win] read and change; an open pipe is an
    [H].  The lock is not state here: a stub holds it for the whole of a call,
    so calls are taken one at a time, and what runs inside one nests; the
    threads are in ClientThreads.v. *)

From S2P Require Import Prelude Json Wire Uthash Cache Groups.

(** ** Callbacks a caller registered *)

Definition ARPC_CB_SLOTS : Z := 32.

(** Function pointers and contexts are addresses, 0 for NULL. *)
Record reg := Reg { rg_handle : Z; rg_fn : list Z; rg_ctx : list Z }.

(** [g_regs], in the order of the links. *)
Abbreviation regs := (list reg).

Definition sizeof_reg : Z := 528.

Fixpoint find_reg (l : regs) (handle : Z) : option reg :=
  match l with
  | [] => None
  | r :: l => if rg_handle r =? handle then Some r else find_reg l handle
  end.

Definition new_reg (handle : Z) : reg :=
  Reg handle (replicate (Z.to_nat ARPC_CB_SLOTS) 0) (replicate (Z.to_nat ARPC_CB_SLOTS) 0).

(** [reg_for]: made at the head of the list when asked; [None] for NULL. *)
Definition reg_for `{Allocator} (l : regs) (handle : Z) (create : bool) : regs * option reg :=
  match find_reg l handle with
  | Some r => (l, Some r)
  | None =>
      if negb create then (l, None)
      else if grants sizeof_reg then let r := new_reg handle in (r :: l, Some r)
      else (l, None)
  end.

Fixpoint arpc_callbacks_purge (l : regs) (handle : Z) : regs :=
  match l with
  | [] => []
  | r :: l => if rg_handle r =? handle then arpc_callbacks_purge l handle else r :: arpc_callbacks_purge l handle
  end.

Definition slot_ok (kind : Z) : bool := (0 <=? kind) && (kind <? ARPC_CB_SLOTS).

(** [r->fn[kind] = fn; r->ctx[kind] = ctx;] of the registration found. *)
Fixpoint set_reg (l : regs) (handle kind fn ctx : Z) : regs :=
  match l with
  | [] => []
  | r :: l =>
      if rg_handle r =? handle
      then Reg handle (<[Z.to_nat kind := fn]> (rg_fn r)) (<[Z.to_nat kind := ctx]> (rg_ctx r)) :: l
      else r :: set_reg l handle kind fn ctx
  end.

(** [arpc_cb_fn] and [arpc_cb_ctx]. *)
Definition arpc_cb_fn (l : regs) (handle kind : Z) : Z :=
  match find_reg l handle with
  | Some r => if slot_ok kind then nth (Z.to_nat kind) (rg_fn r) 0 else 0
  | None => 0
  end.
Definition arpc_cb_ctx (l : regs) (handle kind : Z) : Z :=
  match find_reg l handle with
  | Some r => if slot_ok kind then nth (Z.to_nat kind) (rg_ctx r) 0 else 0
  | None => 0
  end.

(** ** Windows *)

(** [GetEnvironmentVariableA]'s variable, the path of this module if it can be
    told, the token of this process and of the one at the other end of a pipe,
    what is at a path, and the calls that change things. *)
Class Win (W H : Type) := {
  win_env : W -> list Z -> option (list Z);
  win_module : W -> option (list Z);
  win_self : W -> option token;
  win_peer : W -> H -> option (option token);
  win_exists : W -> list Z -> bool;
  win_error : W -> Z;
  CreateFileA : W -> list Z -> option H * W;
  CreateProcessA : W -> list Z -> bool * W;
  Sleep : W -> Z -> W;
  CloseHandle : W -> H -> W
}.

(** ** The client *)

(** [cl_pipe] is [None] for [INVALID_HANDLE_VALUE], [cl_self] for an identity
    not known yet. *)
Record client `{Uthash} (W H : Type) := Client {
  cl_pipe : option H;
  cl_self : option arpc_identity;
  cl_next_id : Z;
  cl_conn_refs : Z;
  cl_err : list Z;
  cl_regs : regs;
  cl_cache : cache;
  cl_groups : groups;
  cl_world : W
}.
Arguments Client {_ W H}.
Arguments cl_pipe {_ W H}.
Arguments cl_self {_ W H}.
Arguments cl_next_id {_ W H}.
Arguments cl_conn_refs {_ W H}.
Arguments cl_err {_ W H}.
Arguments cl_regs {_ W H}.
Arguments cl_cache {_ W H}.
Arguments cl_groups {_ W H}.
Arguments cl_world {_ W H}.

Section State.
Context {U : Uthash} {W H : Type}.
Implicit Types c : client W H.

(** The static initialisers, in a world. *)
Definition client0 (w : W) : client W H := Client None None 1 0 [] [] cache0 groups0 w.

Definition cl_set_pipe c (p : option H) : client W H :=
  Client p (cl_self c) (cl_next_id c) (cl_conn_refs c) (cl_err c) (cl_regs c) (cl_cache c) (cl_groups c) (cl_world c).
Definition cl_set_self c (i : arpc_identity) : client W H :=
  Client (cl_pipe c) (Some i) (cl_next_id c) (cl_conn_refs c) (cl_err c) (cl_regs c) (cl_cache c) (cl_groups c) (cl_world c).
Definition cl_set_next_id c (n : Z) : client W H :=
  Client (cl_pipe c) (cl_self c) n (cl_conn_refs c) (cl_err c) (cl_regs c) (cl_cache c) (cl_groups c) (cl_world c).
Definition cl_set_conn_refs c (n : Z) : client W H :=
  Client (cl_pipe c) (cl_self c) (cl_next_id c) n (cl_err c) (cl_regs c) (cl_cache c) (cl_groups c) (cl_world c).
Definition cl_set_regs c (l : regs) : client W H :=
  Client (cl_pipe c) (cl_self c) (cl_next_id c) (cl_conn_refs c) (cl_err c) l (cl_cache c) (cl_groups c) (cl_world c).
Definition cl_set_cache c (k : cache) : client W H :=
  Client (cl_pipe c) (cl_self c) (cl_next_id c) (cl_conn_refs c) (cl_err c) (cl_regs c) k (cl_groups c) (cl_world c).
Definition cl_set_groups c (g : groups) : client W H :=
  Client (cl_pipe c) (cl_self c) (cl_next_id c) (cl_conn_refs c) (cl_err c) (cl_regs c) (cl_cache c) g (cl_world c).
Definition cl_set_world c (w : W) : client W H :=
  Client (cl_pipe c) (cl_self c) (cl_next_id c) (cl_conn_refs c) (cl_err c) (cl_regs c) (cl_cache c) (cl_groups c) w.

(** [set_err]: the text, cut off at the size of [g_err]. *)
Definition set_err c (text : list Z) : client W H :=
  Client (cl_pipe c) (cl_self c) (cl_next_id c) (cl_conn_refs c) (take 255 (cstr text)) (cl_regs c) (cl_cache c) (cl_groups c) (cl_world c).

Definition arpc_last_error c : list Z := cl_err c.
End State.
