(* ===== verification/Client.v ===== *)
(** * A call, from the client's side: src/client/arpc_client.c

    Finding and connecting to the server, building a request, sending it and
    serving callbacks until the reply arrives, checking the reply and reading
    it.  The dispatch of a callback, of src/client/arpc_callbacks.c, is here
    too.

    A callback runs the caller's code, which may call libalpm again: it is
    given the exchange of frames as an argument, closed here with fuel as in
    Connection.v. *)

From S2P Require Import Prelude Json JsonWriter JsonReader Base64 Wire Uthash Cache.
From S2P Require Import Groups ClientState Server.

(** [transact]: the reply, [None] for NULL. *)
Definition transactor `{Uthash} (W H : Type) : Type :=
  list Z -> client W H -> outcome (client W H * option (list Z)).

(** An [arpc_cb_kind]: the function called with the caller's function and
    context, the frame and the node of its arguments; what it returns. *)
Definition cb_call `{Uthash} (W H : Type) : Type :=
  transactor W H -> Z -> Z -> aj_doc -> Z -> client W H -> outcome (client W H * Z).

(** The generated files and the build: the callbacks there are, and
    [ALPMRPC_WIN32_PATHS]. *)
Class Stubs `{Uthash} (W H : Type) := {
  cb_kinds : list (list Z * cb_call W H);
  win32_paths : bool
}.

Record arpc_call := Call {
  ca_req : aj_w;
  ca_rsp : aj_doc;
  ca_id : Z;
  ca_result : Z;
  ca_parsed : bool
}.

Definition MAX_PATH : Z := 260.

(** [%u], [%zu] and [%lld] *)
Definition fmt_num (v : Z) : list Z := render_num v.

Definition ARPC_ID (p : Z) : Z := p.

Section Client.
Context {A : Allocator} {P : Placement} {U : Uthash} {W H : Type}
  {HO : HandleOps H} {WN : Win W H} {ST : Stubs W H}.
Implicit Types c : client W H.

(** ** Finding the server *)

(** The value of a variable, when it is there, not empty, and fits. *)
Definition env_value (w : W) (name : list Z) (size : Z) : option (list Z) :=
  match win_env w name with
  | Some v => if (0 <? strlen v) && (strlen v <? size) then Some (cstr v) else None
  | None => None
  end.

(** [while (n > 1 && out[n - 1] is a separator)]; the text is reversed. *)
Fixpoint strip_seps (r : list Z) : list Z :=
  match r with
  | ch :: r' => match r' with
                | [] => r
                | _ => if (ch =? 92) || (ch =? 47) then strip_seps r' else r
                end
  | [] => r
  end.

Definition msys_root (w : W) (outsz : Z) : option (list Z) :=
  match env_value w (lit "ALPMRPC_ROOT") outsz with
  | Some v => Some (reverse (strip_seps (reverse v)))
  | None =>
      match win_module w with
      | None => None
      | Some path =>
          if (strlen path =? 0) || (MAX_PATH <=? strlen path) then None
          else
            let '(path, ok) := arpc_strip_dirs (cstr path) 3 in
            if negb ok then None
            else if outsz <? strlen path + 1 then None
            else Some (cstr path)
      end
  end.

(** [try_open]: 1, 0 or -1. *)
Definition try_open c (name : list Z) : client W H * Z :=
  let '(h, w) := CreateFileA (cl_world c) name in
  let c := cl_set_world c w in
  match h with
  | None => (c, 0)
  | Some h =>
      if match cl_self c with Some me => arpc_peer_is (win_peer (cl_world c) h) me | None => false end
      then (cl_set_pipe c (Some h), 1)
      else
        (set_err (cl_set_world c (CloseHandle (cl_world c) h))
           (name ++ lit " is held by a process that is not this user's at this elevation; refusing it"), -1)
  end.

Definition launch_server c (root : list Z) : client W H * bool :=
  let exe := match env_value (cl_world c) (lit "ALPMRPC_SERVER") (MAX_PATH * 2) with
             | Some v => v
             | None => snprintf_s (MAX_PATH * 2) (root ++ lit "\usr\bin\alpmrpcd.exe")
             end in
  if negb (win_exists (cl_world c) exe) then (set_err c (lit "server not found at " ++ exe), false)
  else
    let cmd := snprintf_s (MAX_PATH * 4 + 64) (qlit "`" ++ exe ++ qlit "` --root `" ++ root ++ qlit "`") in
    let '(ok, w) := CreateProcessA (cl_world c) cmd in
    let c := cl_set_world c w in
    if ok then (c, true)
    else (set_err c (lit "CreateProcess failed (" ++ fmt_num (win_error w) ++ lit ")"), false).

(** The loop that waits for a server that was started. *)
Fixpoint wait_open (fuel : nat) (name : list Z) (waited r : Z) c : outcome (client W H * Z) :=
  match fuel with
  | O => NoFuel
  | S fuel =>
      if (waited <? 10000) && (r =? 0) then
        let c := cl_set_world c (Sleep (cl_world c) 25) in
        let '(c, r) := try_open c name in
        wait_open fuel name (waited + 25) r c
      else Ret (c, r)
  end.

(** ** The pipe *)

Definition disconnect c : client W H :=
  match cl_pipe c with
  | Some h => cl_set_pipe (cl_set_world c (CloseHandle (cl_world c) h)) None
  | None => c
  end.

Definition arpc_conn_ref c : outcome (client W H) :=
  if cl_conn_refs c =? i32_max then Undef else Ret (cl_set_conn_refs c (cl_conn_refs c + 1)).

Definition arpc_conn_unref c : outcome (client W H) :=
  if cl_conn_refs c =? - i32_max - 1 then Undef
  else
    let c := cl_set_conn_refs c (cl_conn_refs c - 1) in
    Ret (if 0 <? cl_conn_refs c then c else disconnect c).

(** [send_frame]: whether it was sent. Without a pipe, the write fails. *)
Definition send_frame (text : list Z) c : outcome (client W H * bool) :=
  let failed c := Ret (disconnect (set_err c (lit "write failed (" ++ fmt_num (win_error (cl_world c)) ++ lit ")")), false) in
  match cl_pipe c with
  | None => failed c
  | Some h =>
      match arpc_send_frame false h text with
      | (Ret _, h) => Ret (cl_set_pipe c (Some h), true)
      | (Fail, h) => failed (cl_set_pipe c (Some h))
      | (Undef, _) => Undef
      | (NoFuel, _) => NoFuel
      end
  end.

(** [recv_frame]: the frame, [None] for NULL. *)
Definition recv_frame c : outcome (client W H * option (list Z)) :=
  let failed c (l : Z) :=
    Ret (disconnect (set_err c (if negb (l =? 0) then lit "server sent a " ++ fmt_num l ++ lit " byte frame"
                                else lit "read failed (" ++ fmt_num (win_error (cl_world c)) ++ lit ")")), None) in
  match cl_pipe c with
  | None => failed c 0
  | Some h =>
      match arpc_recv_frame false h with
      | (Ret (buf, _), _, h) => Ret (cl_set_pipe c (Some h), Some buf)
      | (Fail, l, h) => failed (cl_set_pipe c (Some h)) l
      | (Undef, _, _) => Undef
      | (NoFuel, _, _) => NoFuel
      end
  end.

(** ** Callbacks *)

(** The loop of [arpc_dispatch_callback] over the kinds, from the [i]th. *)
Fixpoint call_kind (kinds : list (list Z * cb_call W H)) (i : Z) (x : transactor W H) (which : list Z) (handle : Z)
    (d : aj_doc) (args : Z) c : outcome (client W H * Z) :=
  match kinds with
  | [] => Ret (c, 0)
  | (name, call) :: kinds =>
      if streq name which then
        let fn := arpc_cb_fn (cl_regs c) handle i in
        if fn =? 0 then Ret (c, 0) else call x fn (arpc_cb_ctx (cl_regs c) handle i) d args c
      else call_kind kinds (i + 1) x which handle d args c
  end.

(** A caller's [alpm_cb_log], given the function, its context, the level, a
    format and the strings the format takes. *)
Definition log_call : Type := Z -> Z -> Z -> list Z -> list (list Z) -> client W H -> outcome (client W H).

(** [log_shim] and [arpc_cb_log_via]: the text goes as an argument of the
    format, so a percent sign in it is text. *)
Definition log_shim (call : log_call) (cb ctx lvl : Z) (fmt : list Z) (ap : list (list Z)) c : outcome (client W H) :=
  call cb ctx lvl fmt ap c.
Definition arpc_cb_log_via (call : log_call) (fn ctx level : Z) (msg : option (list Z)) c : outcome (client W H) :=
  log_shim call fn ctx level (lit "%s") [match msg with Some s => s | None => [] end] c.

(** The reply is written into a writer just initialised. *)
Definition arpc_dispatch_callback (x : transactor W H) (d : aj_doc) c : outcome (client W H * aj_w) :=
  n ← aj_member d 0 (lit "cb");
  let which := match aj_str d n with Some s => s | None => [] end in
  n ← aj_member d 0 (lit "seq");
  let seq := aj_i64 d n 0 in
  n ← aj_member d 0 (lit "handle");
  let handle := u64 (aj_i64 d n 0) in
  args ← aj_member d 0 (lit "args");
  '(c, ret) ← call_kind cb_kinds 0 x which handle d args c;
  w ← ajw_obj_begin ajw_init;
  w ← ajw_key w (lit "cbseq"); w ← ajw_i64 w seq;
  w ← ajw_key w ARPC_RET_KEY; w ← ajw_i64 w ret;
  w ← ajw_obj_end w;
  Ret (c, w).

(** ** The exchange *)

Definition transact_with (loop : client W H -> outcome (client W H * option (list Z))) : transactor W H :=
  fun req c =>
    '(c, sent) ← send_frame req c;
    if sent : bool then loop c else Ret (c, None).

(** The loop of [transact]. *)
Fixpoint transact_loop (fuel : nat) c : outcome (client W H * option (list Z)) :=
  match fuel with
  | O => NoFuel
  | S fuel =>
      '(c, f) ← recv_frame c;
      match f with
      | None => Ret (c, None)
      | Some f =>
          match aj_parse (cstr f) with
          | Fail => Ret (disconnect (set_err c (lit "malformed frame from server")), None)
          | Undef => Undef
          | NoFuel => NoFuel
          | Ret d =>
              n ← aj_member d 0 (lit "cb");
              if n <? 0 then Ret (c, Some f)
              else
                '(c, reply) ← arpc_dispatch_callback (transact_with (transact_loop fuel)) d c;
                if w_err reply then Ret (c, None)
                else
                  '(c, sent) ← send_frame (w_buf reply) c;
                  if sent : bool then transact_loop fuel c else Ret (c, None)
          end
      end
  end.

Definition transact (fuel : nat) : transactor W H := transact_with (transact_loop fuel).

(** ** The call cycle *)

(** [arpc_begin] once connected. *)
Definition begin_request (method : list Z) c : outcome (client W H * arpc_call) :=
  if cl_next_id c =? i64_max then Undef
  else
    let id := cl_next_id c in
    w ← ajw_obj_begin ajw_init;
    w ← ajw_key w (lit "id"); w ← ajw_i64 w id;
    w ← ajw_key w (lit "method"); w ← ajw_str w (Some method);
    w ← ajw_key w (lit "params"); w ← ajw_arr_begin w;
    Ret (cl_set_next_id c (id + 1), Call w doc0 id (-1) false).

Definition set_req (ca : arpc_call) (w : aj_w) : arpc_call :=
  Call w (ca_rsp ca) (ca_id ca) (ca_result ca) (ca_parsed ca).
Definition on_req (ca : arpc_call) (f : aj_w -> outcome aj_w) : outcome arpc_call :=
  w ← f (ca_req ca); Ret (set_req ca w).

Definition arpc_put_null (ca : arpc_call) := on_req ca ajw_null.
Definition arpc_obj_begin (ca : arpc_call) := on_req ca ajw_obj_begin.
Definition arpc_obj_end (ca : arpc_call) := on_req ca ajw_obj_end.
Definition arpc_key (ca : arpc_call) (key : list Z) := on_req ca (fun w => ajw_key w key).
Definition arpc_put_str (ca : arpc_call) (s : option (list Z)) := on_req ca (fun w => ajw_str w s).
Definition arpc_put_i64 (ca : arpc_call) (v : Z) := on_req ca (fun w => ajw_i64 w v).
Definition arpc_put_handle (ca : arpc_call) (id : Z) := on_req ca (fun w => ajw_i64 w (i64_of_u64 id)).

(** An encoding that could not be made is NULL, and written as null. *)
Definition arpc_put_bytes (ca : arpc_call) (b : option (list Z)) : outcome arpc_call :=
  match b with
  | None => on_req ca ajw_null
  | Some _ => enc ← encode_or_null b; on_req ca (fun w => ajw_str w enc)
  end.

Fixpoint write_all {X} (f : aj_w -> X -> outcome aj_w) (w : aj_w) (l : list X) : outcome aj_w :=
  match l with [] => Ret w | x :: l => w ← f w x; write_all f w l end.

(** The list of a caller, the data of its links. *)
Definition arpc_put_str_list (ca : arpc_call) (l : list (option (list Z))) : outcome arpc_call :=
  match l with
  | [] => on_req ca ajw_null
  | _ => on_req ca (fun w => w ← ajw_arr_begin w; w ← write_all ajw_str w l; ajw_arr_end w)
  end.
Definition arpc_put_handle_list (ca : arpc_call) (l : list Z) : outcome arpc_call :=
  match l with
  | [] => on_req ca ajw_null
  | _ => on_req ca (fun w => w ← ajw_arr_begin w;
                             w ← write_all (fun w p => ajw_i64 w (i64_of_u64 (ARPC_ID p))) w l; ajw_arr_end w)
  end.

(** What [arpc_invoke] makes of the reply. *)
Definition check_reply (ca : arpc_call) (rsp : list Z) c : outcome (client W H * arpc_call * bool) :=
  match aj_parse (cstr rsp) with
  | Fail => Ret (set_err c (lit "malformed response"), ca, false)
  | Undef => Undef
  | NoFuel => NoFuel
  | Ret d =>
      let ca := Call (ca_req ca) d (ca_id ca) (ca_result ca) true in
      n ← aj_member d 0 (lit "id");
      let id := aj_i64 d n (-1) in
      if negb (id =? ca_id ca) then
        Ret (disconnect (set_err c (lit "reply to request " ++ fmt_num id ++ lit " arrived out of step")), ca, false)
      else
        err ← aj_member d 0 (lit "error");
        if 0 <=? err then
          m ← aj_member d err (lit "message");
          k ← aj_member d err (lit "code");
          Ret (set_err c ((match aj_str d m with Some s => cstr s | None => lit "error" end)
                          ++ lit " (" ++ fmt_num (aj_i64 d k 0) ++ lit ")"), ca, false)
        else
          r ← aj_member d 0 (lit "result");
          Ret (c, Call (ca_req ca) d (ca_id ca) r true, 0 <=? r)
  end.

(** [arpc_invoke], the exchange of frames being [x]. *)
Definition arpc_invoke (x : transactor W H) (ca : arpc_call) c : outcome (client W H * arpc_call * bool) :=
  w ← ajw_arr_end (ca_req ca);
  w ← ajw_obj_end w;
  let ca := set_req ca w in
  if w_err w then Ret (set_err c (lit "out of memory building request"), ca, false)
  else
    '(c, rsp) ← x (w_buf w) c;
    match rsp with
    | None => Ret (c, ca, false)
    | Some rsp => check_reply ca rsp c
    end.

(** [set_path_style], begun by [begin]. *)
Definition set_path_style (begin : list Z -> client W H -> outcome (client W H * option arpc_call)) (x : transactor W H) c
  : outcome (client W H * bool) :=
  if win32_paths then
    '(c, ca) ← begin (lit "arpc.set_path_style") c;
    match ca with
    | None => Ret (c, false)
    | Some ca =>
        ca ← arpc_put_str ca (Some (lit "win32"));
        '(c, _, ok) ← arpc_invoke x ca c;
        Ret (if ok : bool then c else disconnect c, ok)
    end
  else Ret (c, true).

(** The part of [ensure_connected] up to the pipe: what [r] is, 0 when it
    returned 0 before there was one. *)
Definition open_endpoint c : outcome (client W H * Z) :=
  match (match cl_self c with Some me => Some me | None => arpc_process_identity (win_self (cl_world c)) end) with
  | None => Ret (set_err c (lit "cannot tell which user this process runs as"), 0)
  | Some me =>
      let c := cl_set_self c me in
      match msys_root (cl_world c) MAX_PATH with
      | None => Ret (set_err c (lit "cannot locate the MSYS2 root from this module's path"), 0)
      | Some root =>
          match arpc_pipe_name (Some root) (arpc_process_identity (win_self (cl_world c))) 256 with
          | (Some name, true) =>
              let '(c, r) := try_open c name in
              if negb (r =? 0) then Ret (c, r)
              else
                let '(c, ok) := launch_server c root in
                '(c, r) ← (if ok then wait_open 401 name 0 r c else Ret (c, r));
                Ret (if (r =? 0) && (len (cl_err c) =? 0)
                     then set_err c (lit "server did not start listening within 10s") else c, r)
          | _ => Ret (set_err c (lit "cannot derive endpoint name"), 0)
          end
      end
  end.

(** [ensure_connected] and, through [set_path_style], itself: [depth] more
    connections may nest. *)
Fixpoint ensure_connected (depth : nat) (x : transactor W H) c : outcome (client W H * bool) :=
  match cl_pipe c with
  | Some _ => Ret (c, true)
  | None =>
      match depth with
      | O => NoFuel
      | S depth =>
          '(c, r) ← open_endpoint c;
          if 0 <? r then
            set_path_style (fun m c => '(c, ok) ← ensure_connected depth x c;
                                       if ok : bool then '(c, ca) ← begin_request m c; Ret (c, Some ca)
                                       else Ret (c, None)) x c
          else Ret (c, false)
      end
  end.

(** [arpc_begin]: [None] when it returned 0. *)
Definition arpc_begin (x : transactor W H) (method : list Z) c : outcome (client W H * option arpc_call) :=
  '(c, ok) ← ensure_connected 2 x c;
  if ok : bool then '(c, ca) ← begin_request method c; Ret (c, Some ca) else Ret (c, None).

(** ** Reading the response *)

Definition arpc_ret_node (ca : arpc_call) : outcome Z := aj_member (ca_rsp ca) (ca_result ca) ARPC_RET_KEY.
Definition arpc_out_node (ca : arpc_call) (name : list Z) : outcome Z := aj_member (ca_rsp ca) (ca_result ca) name.
Definition arpc_ret_i64 (ca : arpc_call) : outcome Z := n ← arpc_ret_node ca; Ret (aj_i64 (ca_rsp ca) n 0).
Definition arpc_ret_handle (ca : arpc_call) : outcome Z := n ← arpc_ret_node ca; Ret (u64 (aj_i64 (ca_rsp ca) n 0)).
Definition arpc_out_i64 (ca : arpc_call) (name : list Z) : outcome Z :=
  n ← arpc_out_node ca name; Ret (aj_i64 (ca_rsp ca) n 0).
Definition ret_str (ca : arpc_call) : outcome (option (list Z)) := n ← arpc_ret_node ca; Ret (aj_str (ca_rsp ca) n).

(** The bytes and their count; NULL and 0 are [None]. *)
Definition decode_or_null (s : option (list Z)) : outcome (option (list Z * Z)) :=
  match s with
  | None => Ret None
  | Some s =>
      match arpc_b64_decode (Some s) with
      | Ret b => Ret (Some b)
      | Fail => Ret None
      | Undef => Undef
      | NoFuel => NoFuel
      end
  end.
Definition arpc_ret_bytes (ca : arpc_call) : outcome (option (list Z * Z)) :=
  s ← ret_str ca; decode_or_null s.
Definition arpc_out_bytes (ca : arpc_call) (name : list Z) : outcome (option (list Z * Z)) :=
  n ← arpc_out_node ca name; decode_or_null (aj_str (ca_rsp ca) n).

(** [arpc_take_str]: the copy. *)
Definition arpc_take_str (ca : arpc_call) : outcome (option (list Z)) :=
  s ← ret_str ca;
  Ret (match s with Some s => if grants (strlen s + 1) then Some (cstr s) else None | None => None end).

Definition arpc_intern_str (ca : arpc_call) (owner : Z) (key : list Z) c : outcome (client W H * Z) :=
  s ← ret_str ca;
  match s with
  | None => Ret (c, 0)
  | Some s => '(k, p) ← intern (cl_cache c) owner key (Some s); Ret (cl_set_cache c k, p)
  end.

Definition arpc_intern_static (ca : arpc_call) c : outcome (client W H * Z) :=
  s ← ret_str ca;
  '(k, p) ← intern_static (cl_cache c) s; Ret (cl_set_cache c k, p).

(** ** What a call did to the caches *)

(** [arpc_purge_root]: everything under a handle that was released. *)
Definition arpc_purge_root (handle : Z) c : outcome (client W H) :=
  let root := ARPC_ROOT handle in
  k ← purge_where (under_root root) (cl_cache c);
  g ← free_groups_of (cl_groups c) root;
  Ret (cl_set_regs (cl_set_groups (cl_set_cache c k) g) (arpc_callbacks_purge (cl_regs c) handle)).

Definition arpc_stats_cached c : Z := count_owned (cl_cache c) + count_groups (cl_groups c).

(** ** Registering a callback *)

(** [set_remote] *)
Definition set_remote (x : transactor W H) (handle : Z) (which : list Z) (enabled : Z) c : outcome (client W H * Z) :=
  '(c, ca) ← arpc_begin x (lit "arpc.set_callback") c;
  match ca with
  | None => Ret (c, -1)
  | Some ca =>
      ca ← arpc_put_handle ca handle;
      ca ← arpc_put_str ca (Some which);
      ca ← arpc_put_i64 ca enabled;
      '(c, ca, ok) ← arpc_invoke x ca c;
      if ok : bool then r ← arpc_ret_i64 ca; Ret (c, if u32 r <=? i32_max then u32 r else u32 r - 4294967296)
      else Ret (c, -1)
  end.

Definition arpc_cb_register (x : transactor W H) (handle kind : Z) (wire : list Z) (fn ctx : Z) c : outcome (client W H * Z) :=
  match reg_for (cl_regs c) handle true with
  | (l, None) => Ret (cl_set_regs c l, -1)
  | (l, Some _) =>
      if slot_ok kind then
        set_remote x handle wire (if fn =? 0 then 0 else 1) (cl_set_regs c (set_reg l handle kind fn ctx))
      else Ret (cl_set_regs c l, -1)
  end.
End Client.
