(* ===== verification/ClientCalls.v ===== *)
(** * A call, written and read: the theorems

    What a stub puts into a request is, on the wire, the canonical text of the
    tree it stands for, and what a stub reads out of the reply is the tree the
    reply's text stands for.  The exchange of frames in between is an
    argument; calls over a pipe are in ClientTheorems.v. *)

From S2P Require Import Prelude Json JsonWriter JsonReader JsonRef JsonArena JsonAccess Base64.
From S2P Require Import Wire CbRegistry HandleTable Paths Server DispatchTheorems Uthash Cache Groups.
From S2P Require Import ClientState Client.

(** ** What a stub puts *)

Inductive arg :=
| ANull | AStr (s : option (list Z)) | AI64 (v : Z) | AHandle (id : Z) | ABytes (b : option (list Z)).

(** An argument, or one the caller's list or struct is written as. *)
Inductive put :=
| PArg (a : arg) | PStrList (l : list (option (list Z))) | PHandleList (l : list Z)
| PObj (fields : list (list Z * arg)).

Definition arg_json (a : arg) : json :=
  match a with
  | ANull => JNull
  | AStr s => jstr s
  | AI64 v => JNum v
  | AHandle id => JNum (i64_of_u64 id)
  | ABytes b => jbytes b
  end.

Definition put_json (p : put) : json :=
  match p with
  | PArg a => arg_json a
  | PStrList l => match l with [] => JNull | _ => JArr (jstr <$> l) end
  | PHandleList l => match l with [] => JNull | _ => JArr ((fun id => JNum (i64_of_u64 id)) <$> l) end
  | PObj fields => JObj ((fun kv => (kv.1, arg_json kv.2)) <$> fields)
  end.

(** What fits the C types. *)
Definition arg_ok (a : arg) : Prop :=
  match a with
  | ANull => True
  | AStr s => str_ok s
  | AI64 v => i64_min <= v <= i64_max
  | AHandle id => 0 <= id < 18446744073709551616
  | ABytes b => bytes_ok b
  end.
Definition put_ok (p : put) : Prop :=
  match p with
  | PArg a => arg_ok a
  | PStrList l => Forall str_ok l
  | PHandleList l => Forall (fun id => 0 <= id < 18446744073709551616) l
  | PObj fields => Forall (fun kv => (no_nul kv.1 /\ len kv.1 <= 2 ^ 60) /\ arg_ok kv.2) fields
  end.

Definition request_json (id : Z) (method : list Z) (params : list json) : json :=
  JObj [(lit "id", JNum id); (lit "method", JStr (cstr method)); (lit "params", JArr params)].

Section Puts.
Context {A : Allocator}.

(** The stub's calls. *)
Definition arg_run (ca : arpc_call) (a : arg) : outcome arpc_call :=
  match a with
  | ANull => arpc_put_null ca
  | AStr s => arpc_put_str ca s
  | AI64 v => arpc_put_i64 ca v
  | AHandle id => arpc_put_handle ca id
  | ABytes b => arpc_put_bytes ca b
  end.

Fixpoint fields_run (ca : arpc_call) (fields : list (list Z * arg)) : outcome arpc_call :=
  match fields with
  | [] => Ret ca
  | (k, a) :: fields => ca ← arpc_key ca k; ca ← arg_run ca a; fields_run ca fields
  end.

Definition put_run (ca : arpc_call) (p : put) : outcome arpc_call :=
  match p with
  | PArg a => arg_run ca a
  | PStrList l => arpc_put_str_list ca l
  | PHandleList l => arpc_put_handle_list ca l
  | PObj fields => ca ← arpc_obj_begin ca; ca ← fields_run ca fields; arpc_obj_end ca
  end.

Fixpoint puts_run (ca : arpc_call) (ps : list put) : outcome arpc_call :=
  match ps with
  | [] => Ret ca
  | p :: ps => ca ← put_run ca p; puts_run ca ps
  end.

(** *** As writer calls *)

Definition arg_op (a : arg) : wop :=
  match a with
  | ANull => OpNull
  | AStr s => OpStr s
  | AI64 v => OpI64 v
  | AHandle id => OpI64 (i64_of_u64 id)
  | ABytes b => OpStr (b64_text <$> b)
  end.

Definition put_ops (p : put) : list wop :=
  match p with
  | PArg a => [arg_op a]
  | PStrList l => match l with [] => [OpNull] | _ => OpOpen false :: (OpStr <$> l) ++ [OpClose false] end
  | PHandleList l =>
      match l with [] => [OpNull] | _ => OpOpen false :: ((fun id => OpI64 (i64_of_u64 id)) <$> l) ++ [OpClose false] end
  | PObj fields => OpOpen true :: concat ((fun kv => [OpKey kv.1; arg_op kv.2]) <$> fields) ++ [OpClose true]
  end.

Definition begin_ops (id : Z) (method : list Z) : list wop :=
  [OpOpen true; OpKey (lit "id"); OpI64 id; OpKey (lit "method"); OpStr (Some method);
   OpKey (lit "params"); OpOpen false].

Definition request_ops (id : Z) (method : list Z) (ps : list put) : list wop :=
  begin_ops id method ++ concat (put_ops <$> ps) ++ [OpClose false; OpClose true].

Lemma wrun_app ops ops' w : wrun (ops ++ ops') w = (w ← wrun ops w; wrun ops' w).
Proof.
  revert w. induction ops as [|op ops IH]; intros w; cbn [app wrun]; [done|].
  destruct (wstep w op) as [w1| | |]; [apply IH|done..].
Qed.

Lemma bind_Ret {X} (m : outcome X) : (x ← m; Ret x) = m.
Proof. by destruct m. Qed.

Lemma on_req_op ca f op : (forall w, f w = wstep w op) -> on_req ca f = on_req ca (wrun [op]).
Proof. intros Hf. unfold on_req. cbn [wrun]. rewrite Hf. by destruct (wstep (ca_req ca) op). Qed.

Lemma on_req_app ca ops ops' :
  (ca ← on_req ca (wrun ops); on_req ca (wrun ops')) = on_req ca (wrun (ops ++ ops')).
Proof.
  unfold on_req. rewrite wrun_app. by destruct (wrun ops (ca_req ca)).
Qed.

Lemma write_all_ops {X} (f : aj_w -> X -> outcome aj_w) (op : X -> wop) w l :
  (forall w x, f w x = wstep w (op x)) -> write_all f w l = wrun (op <$> l) w.
Proof.
  intros Hf. revert w. induction l as [|x l IH]; intros w; [done|]. cbn [write_all fmap list_fmap wrun].
  rewrite Hf. by destruct (wstep w (op x)) as [w1| | |]; [apply IH|..].
Qed.

Lemma on_req_array ca (f : aj_w -> outcome aj_w) ops :
  (forall w, f w = wrun ops w) ->
  on_req ca (fun w => w ← ajw_arr_begin w; w ← f w; ajw_arr_end w) =
  on_req ca (wrun (OpOpen false :: ops ++ [OpClose false])).
Proof.
  intros Hf. unfold on_req. cbn [wrun wstep]. destruct (ajw_arr_begin (ca_req ca)) as [w1| | |]; [|done..].
  cbn [mbind outcome_bind]. rewrite wrun_app, Hf. destruct (wrun ops w1) as [w2| | |]; [|done..].
  cbn [mbind outcome_bind wrun wstep]. by destruct (ajw_arr_end w2).
Qed.
End Puts.

Section PutSpecs.
Context {A : Allocator} {HA : TotalAllocator A}.

Lemma encode_or_null_text b : bytes_ok b -> encode_or_null b = Ret (b64_text <$> b).
Proof.
  destruct b as [b|]; [|done]. intros [Hb Hl]. cbn [encode_or_null].
  rewrite arpc_b64_encode_eq by (done || lia). by rewrite HA.
Qed.

Lemma arg_run_ops ca a : arg_ok a -> arg_run ca a = on_req ca (wrun [arg_op a]).
Proof.
  destruct a as [|s|v|id|[b|]]; cbn [arg_ok arg_run arg_op]; intros Ha; try by apply on_req_op.
  unfold arpc_put_bytes. rewrite (encode_or_null_text (Some b) Ha). by apply on_req_op.
Qed.

Lemma fields_run_ops ca fields :
  Forall (fun kv => (no_nul kv.1 /\ len kv.1 <= 2 ^ 60) /\ arg_ok kv.2) fields ->
  fields_run ca fields = on_req ca (wrun (concat ((fun kv => [OpKey kv.1; arg_op kv.2]) <$> fields))).
Proof.
  intros Hf. revert ca. induction Hf as [|[k a] fields [_ Ha] _ IH]; intros ca.
  - unfold on_req. cbn. by destruct ca.
  - cbn [fields_run fmap list_fmap concat fst snd]. rewrite <- on_req_app.
    change [OpKey k; arg_op a] with ([OpKey k] ++ [arg_op a]). rewrite <- on_req_app.
    unfold arpc_key. rewrite (on_req_op ca _ (OpKey k)) by done. destruct (on_req ca (wrun [OpKey k])) as [ca1| | |]; [|done..].
    cbn [mbind outcome_bind]. rewrite (arg_run_ops ca1 a Ha).
    destruct (on_req ca1 (wrun [arg_op a])) as [ca2| | |]; [|done..]. apply IH.
Qed.

Lemma put_run_ops ca p : put_ok p -> put_run ca p = on_req ca (wrun (put_ops p)).
Proof.
  destruct p as [a|l|l|fields]; cbn [put_ok put_run put_ops]; intros Hp.
  - by apply arg_run_ops.
  - unfold arpc_put_str_list. destruct l as [|s l]; [by apply (on_req_op ca _ OpNull)|].
    apply on_req_array. intros w. by apply write_all_ops.
  - unfold arpc_put_handle_list. destruct l as [|s l]; [by apply (on_req_op ca _ OpNull)|].
    apply on_req_array. intros w. by apply (write_all_ops _ (fun id => OpI64 (i64_of_u64 id))).
  - change (OpOpen true :: ?l ++ ?m) with ([OpOpen true] ++ l ++ m). rewrite <- on_req_app.
    unfold arpc_obj_begin. rewrite (on_req_op ca _ (OpOpen true)) by done. destruct (on_req ca (wrun [OpOpen true])) as [ca1| | |]; [|done..].
    cbn [mbind outcome_bind]. rewrite (fields_run_ops ca1 fields Hp), <- on_req_app.
    destruct (on_req ca1 _) as [ca2| | |]; [|done..]. cbn [mbind outcome_bind].
    by apply (on_req_op ca2 _ (OpClose true)).
Qed.

Lemma puts_run_ops ca ps : Forall put_ok ps -> puts_run ca ps = on_req ca (wrun (concat (put_ops <$> ps))).
Proof.
  intros Hp. revert ca. induction Hp as [|p ps Hp _ IH]; intros ca.
  - unfold on_req. cbn. by destruct ca.
  - cbn [puts_run fmap list_fmap concat]. rewrite <- on_req_app, (put_run_ops ca p Hp).
    destruct (on_req ca (wrun (put_ops p))) as [ca1| | |]; [|done..]. apply IH.
Qed.

(** *** Their text *)

Fixpoint wops_comma (c : bool) (ops : list wop) : bool :=
  match ops with [] => c | op :: ops => wops_comma (wop_text c op).2 ops end.

Lemma wops_text_app c ops ops' : wops_text c (ops ++ ops') = wops_text c ops ++ wops_text (wops_comma c ops) ops'.
Proof.
  revert c. induction ops as [|op ops IH]; intros c; [done|]. cbn [app wops_text wops_comma].
  by rewrite IH, app_assoc.
Qed.
Lemma wops_comma_app c ops ops' : wops_comma c (ops ++ ops') = wops_comma (wops_comma c ops) ops'.
Proof. revert c. induction ops as [|op ops IH]; intros c; [done|]. apply IH. Qed.

(** Calls that write one value. *)
Definition writes (ops : list wop) (j : json) : Prop :=
  forall c, wops_text c ops = sep c ++ render j /\ wops_comma c ops = true.

Lemma writes_arg a : arg_ok a -> writes [arg_op a] (arg_json a).
Proof.
  destruct a as [|[s|]|v|id|[b|]]; intros Ha c; cbn [arg_op arg_json jstr jbytes wops_text wop_text fst snd wops_comma fmap option_fmap option_map];
    rewrite app_nil_r; try done.
  cbn [arg_ok bytes_ok] in Ha. rewrite <- b64_text_spec by apply Ha.
  by rewrite (cstr_no_nul _ (b64_text_no_nul b)).
Qed.

(** A container around calls that write its members. *)
Lemma writes_cont (o : bool) ops kids :
  wops_text false ops = render_kids o false kids -> writes (OpOpen o :: ops ++ [OpClose o]) (JCont o kids).
Proof.
  intros H c. cbn [wops_text wops_comma wop_text fst snd]. rewrite wops_text_app, wops_comma_app, H, render_cont.
  cbn [wops_text wop_text fst snd wops_comma]. split; [|done]. by rewrite <- !app_assoc, app_nil_r.
Qed.

(** The members, one after the other. *)
Lemma members_text {X} (o : bool) (ops : X -> list wop) (kid : X -> list Z * json) l c :
  (forall x c, x ∈ l -> wops_text c (ops x) = sep c ++ (if o then render_key (kid x).1 else []) ++ render (kid x).2 /\
     wops_comma c (ops x) = true) ->
  wops_text c (concat (ops <$> l)) = render_kids o c (kid <$> l).
Proof.
  revert c. induction l as [|x l IH]; intros c H; [done|]. cbn [fmap list_fmap concat render_kids].
  rewrite wops_text_app. destruct (H x c) as [-> ->]; [apply list_elem_of_here|].
  rewrite IH by (intros; apply H; by apply list_elem_of_further). destruct (kid x) as [k v].
  cbn [fst snd]. by rewrite <- !app_assoc.
Qed.

Lemma concat_singletons {X Y} (f : X -> Y) l : concat ((fun x => [f x]) <$> l) = f <$> l.
Proof. induction l as [|x l IH]; [done|]. cbn [fmap list_fmap concat app]. by f_equal. Qed.

Lemma writes_array {X} (op : X -> wop) (v : X -> json) l :
  (forall x, x ∈ l -> writes [op x] (v x)) -> writes (OpOpen false :: (op <$> l) ++ [OpClose false]) (JArr (v <$> l)).
Proof.
  intros H. unfold JArr. rewrite <- list_fmap_compose. apply (writes_cont false). rewrite <- concat_singletons.
  apply (members_text false). intros x c Hx. by apply (H x Hx).
Qed.

Lemma writes_put p : put_ok p -> writes (put_ops p) (put_json p).
Proof.
  destruct p as [a|l|l|fields]; cbn [put_ok put_ops put_json]; intros Hp.
  - by apply writes_arg.
  - destruct l as [|s l]; [by apply (writes_arg ANull)|]. apply writes_array. intros x Hx.
    rewrite Forall_forall in Hp. apply (writes_arg (AStr x)). by apply Hp.
  - destruct l as [|s l]; [by apply (writes_arg ANull)|].
    apply (writes_array (fun id => OpI64 (i64_of_u64 id)) (fun id => JNum (i64_of_u64 id))). intros x Hx.
    rewrite Forall_forall in Hp. apply (writes_arg (AHandle x)). by apply Hp.
  - apply (writes_cont true), (members_text true). intros [k a] c Hx. rewrite Forall_forall in Hp.
    destruct (Hp _ Hx) as [[Hk _] Ha]. cbn [fst snd] in *. cbn [wops_text wop_text fst snd wops_comma].
    rewrite (cstr_no_nul k) by done. destruct (writes_arg a Ha false) as [E1 E2].
    cbn [wops_text wops_comma] in E1, E2. rewrite E1, E2. by rewrite <- !app_assoc.
Qed.

Lemma request_text id method ps :
  Forall put_ok ps -> wops_text false (request_ops id method ps) = render (request_json id method (put_json <$> ps)).
Proof.
  intros Hp. unfold request_json, JObj, JArr. rewrite !render_cont. cbn [render_kids]. rewrite render_cont.
  unfold request_ops. rewrite !wops_text_app. rewrite <- list_fmap_compose.
  rewrite (members_text false _ (fun p => ([], put_json p))).
  - cbn [begin_ops wops_text wop_text fst snd wops_comma]. unfold sep, compose. by rewrite <- !app_assoc.
  - intros p c Hin. rewrite Forall_forall in Hp. by apply writes_put, Hp.
Qed.
End PutSpecs.

(** ** What the reply says *)

Inductive answer :=
| Result (r : json) | NoResult | Refused (e : json) | OutOfStep (got : Z) | Malformed.

Definition answer_of (id : Z) (reply : list Z) : answer :=
  match ref_parse (cstr reply) with
  | Ret j =>
      let got := t_i64 (t_member (Some j) (lit "id")) (-1) in
      if negb (got =? id) then OutOfStep got
      else match t_member (Some j) (lit "error") with
           | Some e => Refused e
           | None => match t_member (Some j) (lit "result") with Some r => Result r | None => NoResult end
           end
  | _ => Malformed
  end.

Definition error_message (e : json) : list Z :=
  (match t_str (t_member (Some e) (lit "message")) with Some m => m | None => lit "error" end)
  ++ lit " (" ++ fmt_num (t_i64 (t_member (Some e) (lit "code")) 0) ++ lit ")".

Definition is_result (a : answer) : bool := match a with Result _ => true | _ => false end.

Section Invoke.
Context {A : Allocator} {P : Placement} {U : Uthash} {W H : Type}
  {HO : HandleOps H} {WN : Win W H} {ST : Stubs W H}.
Implicit Types c : client W H.

(** The state an answer leaves: only a reply out of step ends the
    connection. *)
Definition after_answer c (a : answer) : client W H :=
  match a with
  | Result _ | NoResult => c
  | Refused e => ClientState.set_err c (error_message e)
  | OutOfStep got => disconnect (ClientState.set_err c (lit "reply to request " ++ fmt_num got ++ lit " arrived out of step"))
  | Malformed => ClientState.set_err c (lit "malformed response")
  end.

(** A stub up to the reading of the reply: [None] when there is no
    connection. *)
Definition stub_call (x : transactor W H) (method : list Z) (ps : list put) c
  : outcome (client W H * option (arpc_call * bool)) :=
  '(c, ca) ← arpc_begin x method c;
  match ca with
  | None => Ret (c, None)
  | Some ca =>
      ca ← puts_run ca ps;
      '(c, ca, ok) ← arpc_invoke x ca c;
      Ret (c, Some (ca, ok))
  end.

Lemma begin_connected x method c :
  cl_pipe c <> None -> arpc_begin x method c = ('(c, ca) ← begin_request method c; Ret (c, Some ca)).
Proof. intros Hp. unfold arpc_begin. cbn [ensure_connected]. by destruct (cl_pipe c). Qed.

Lemma begin_request_run method c :
  cl_next_id c <> i64_max ->
  begin_request method c =
    (w ← wrun (begin_ops (cl_next_id c) method) ajw_init;
     Ret (cl_set_next_id c (cl_next_id c + 1), Call w doc0 (cl_next_id c) (-1) false)).
Proof.
  intros Hn. unfold begin_request. rewrite (proj2 (Z.eqb_neq _ _) Hn). cbn zeta. cbn [wrun begin_ops wstep].
  repeat match goal with
  | |- (?m ≫= _) = _ => destruct m as [?| | |]; [cbn [mbind outcome_bind]|done..]
  end. done.
Qed.

Context {HA : TotalAllocator A}.

Lemma check_reply_spec ca reply c :
  len reply <= ARPC_MAX_FRAME ->
  exists ca', check_reply ca reply c =
      Ret (after_answer c (answer_of (ca_id ca) reply), ca', is_result (answer_of (ca_id ca) reply)) /\
    forall r, answer_of (ca_id ca) reply = Result r -> reads (ca_rsp ca') (ca_result ca') (Some r).
Proof.
  intros Hl. pose proof (cstr_length reply) as Hc. unfold check_reply, answer_of.
  pose proof (aj_parse_sim (cstr reply) ltac:(lia)) as Hs. pose proof (ref_parse_defined (cstr reply)) as [Hu Hf].
  destruct (ref_parse (cstr reply)) as [j| | |]; [|destruct (aj_parse (cstr reply)); try done; by exists ca|done..].
  destruct (aj_parse (cstr reply)) as [d| | |]; [|done..]. destruct Hs as [Hd _].
  destruct (aj_member_reads d 0 _ (lit "id") Hd) as (n & -> & Hn). cbn [mbind outcome_bind].
  rewrite (aj_i64_reads _ _ _ _ Hn). cbn zeta. cbn [ca_id].
  destruct (negb _); [by eexists|].
  destruct (aj_member_reads d 0 _ (lit "error") Hd) as (e & -> & He). cbn [mbind outcome_bind].
  destruct (t_member (Some j) (lit "error")) as [ej|].
  - pose proof He as [He0 _]. destruct (Z.leb_spec 0 e); [|lia].
    destruct (aj_member_reads d e _ (lit "message") He) as (m & -> & Hm). cbn [mbind outcome_bind].
    destruct (aj_member_reads d e _ (lit "code") He) as (k & -> & Hk). cbn [mbind outcome_bind].
    rewrite (aj_i64_reads _ _ _ _ Hk), (aj_str_reads _ _ _ Hm). eexists. split; [|done].
    cbn [after_answer is_result]. unfold error_message.
    destruct (t_member (Some ej) (lit "message")) as [[]|]; try done. cbn [t_str]. by rewrite cstr_idemp.
  - rewrite He. cbn [Z.leb Z.compare].
    destruct (aj_member_reads d 0 _ (lit "result") Hd) as (r & -> & Hr). cbn [mbind outcome_bind].
    destruct (t_member (Some j) (lit "result")) as [rj|].
    + pose proof Hr as [Hr0 _]. destruct (Z.leb_spec 0 r); [|lia]. eexists. split; [done|]. by intros ? [= <-].
    + rewrite Hr. by eexists.
Qed.
End Invoke.

(** ** Properties *)

Section Theorems.
Context {A : Allocator} {P : Placement} {U : Uthash} {W H : Type}
  {HO : HandleOps H} {WN : Win W H} {ST : Stubs W H}.
Implicit Types c : client W H.

(** What a caller gives a stub. *)
Definition call_ok (method : list Z) (ps : list put) c : Prop :=
  cl_pipe c <> None /\ 0 <= cl_next_id c < i64_max /\ is_bytes method /\ len method <= 2 ^ 40 /\
  Forall put_ok ps /\ len (render (request_json (cl_next_id c) method (put_json <$> ps))) <= 2 ^ 61.

Lemma put_ops_ok p : put_ok p -> Forall wop_ok (put_ops p).
Proof.
  assert (Harg : forall a, arg_ok a -> wop_ok (arg_op a)).
  { intros [|[s|]|v|id|[b|]]; cbn; try done.
    - apply i64_of_u64_range.
    - intros [Hb Hl]. split; [apply no_nul_is_bytes, b64_text_no_nul|]. rewrite b64_text_length.
      Z.to_euclidean_division_equations; lia. }
  intros Hp. destruct p as [a|l|l|fields]; cbn [put_ok put_ops] in *.
  - auto.
  - destruct l as [|s l]; [by repeat constructor|]. constructor; [done|]. apply Forall_app. split; [|by repeat constructor].
    apply Forall_fmap. eapply Forall_impl; [exact Hp|]. intros x Hx. by apply (Harg (AStr x)).
  - destruct l as [|s l]; [by repeat constructor|]. constructor; [done|]. apply Forall_app. split; [|by repeat constructor].
    apply Forall_fmap. eapply Forall_impl; [exact Hp|]. intros x Hx. by apply (Harg (AHandle x)).
  - constructor; [done|]. apply Forall_app. split; [|by repeat constructor].
    apply Forall_concat, Forall_fmap. eapply Forall_impl; [exact Hp|]. intros [k a] [[Hk Hkl] Ha]. cbn [fst snd] in *.
    repeat constructor; [by apply no_nul_is_bytes|done|by apply Harg].
Qed.

Lemma reserved_app a b : reserved (a ++ b) = reserved a + reserved b.
Proof. induction a as [|op a IH]; cbn [app reserved]; [lia|]. rewrite IH. destruct op; lia. Qed.

(** No stub reserves room. *)
Lemma reserved_plain ops : Forall (fun op => plain op = true) ops -> reserved ops = 0.
Proof. induction 1 as [|[] ops Hop _ IH]; cbn in *; lia || done. Qed.

Lemma put_ops_plain p : Forall (fun op => plain op = true) (put_ops p).
Proof.
  assert (Harg : forall a, plain (arg_op a) = true) by (by intros []).
  destruct p as [a|[|s l]|[|s l]|fields]; cbn [put_ops]; try by repeat constructor.
  1-2: constructor; [done|]; apply Forall_app; split; [apply Forall_fmap, Forall_true; done|by repeat constructor].
  constructor; [done|]. apply Forall_app. split; [|by repeat constructor].
  apply Forall_concat, Forall_fmap, Forall_true. intros [k a]. cbn. by repeat constructor.
Qed.

Lemma request_wrun `{!TotalAllocator A} id method ps :
  i64_min <= id <= i64_max -> is_bytes method -> len method <= 2 ^ 40 -> Forall put_ok ps ->
  len (render (request_json id method (put_json <$> ps))) <= 2 ^ 61 ->
  exists w, wrun (request_ops id method ps) ajw_init = Ret w /\ w_err w = false /\
    w_buf w = render (request_json id method (put_json <$> ps)).
Proof.
  intros Hid Hm Hml Hps Hlen. destruct (finish_run (request_ops id method ps)) as (w & E & _ & Ht).
  - unfold request_ops. apply Forall_app. split.
    + repeat constructor; try done; cbn; try lia; by apply (bool_decide_unpack (is_bytes _)).
    + apply Forall_app. split; [|by repeat constructor]. apply Forall_concat, Forall_fmap.
      eapply Forall_impl; [exact Hps|]. apply put_ops_ok.
  - by rewrite request_text.
  - exists w. rewrite request_text in Ht by done. destruct Ht as (_ & Hb & He); [done| |by split_and!].
    unfold request_ops. rewrite !reserved_app.
    rewrite (reserved_plain (concat _)) by (apply Forall_concat, Forall_fmap, Forall_true, put_ops_plain).
    cbn [reserved begin_ops]. lia.
Qed.

(** What a stub does once its request is written. *)
Lemma stub_call_wrun `{!TotalAllocator A} x method ps c w :
  call_ok method ps c -> wrun (request_ops (cl_next_id c) method ps) ajw_init = Ret w -> w_err w = false ->
  stub_call x method ps c =
    ('(c1, rsp) ← x (w_buf w) (cl_set_next_id c (cl_next_id c + 1));
     '(c1, ca, ok) ← (let ca := Call w doc0 (cl_next_id c) (-1) false in
                      match rsp with None => Ret (c1, ca, false) | Some rsp => check_reply ca rsp c1 end);
     Ret (c1, Some (ca, ok))).
Proof.
  intros (Hp & Hid & Hm & Hml & Hps & Hlen) E He. unfold i64_max in Hid. unfold stub_call. rewrite begin_connected by done.
  rewrite begin_request_run by (unfold i64_max; lia).
  unfold request_ops in E. rewrite wrun_app in E. destruct (wrun (begin_ops _ _) ajw_init) as [w1| | |]; [|done..].
  cbn [mbind outcome_bind] in *. rewrite puts_run_ops by done. unfold on_req. cbn [ca_req]. rewrite wrun_app in E.
  destruct (wrun _ w1) as [w2| | |]; [|done..]. cbn [mbind outcome_bind wrun wstep] in *.
  unfold arpc_invoke. cbn [ca_req set_req]. destruct (ajw_arr_end w2) as [w3| | |]; [|done..].
  cbn [mbind outcome_bind] in *. destruct (ajw_obj_end w3) as [w4| | |]; [|done..].
  cbn [mbind outcome_bind] in *. injection E as ->. rewrite He. unfold set_req. cbn [ca_rsp ca_id ca_result ca_parsed].
  destruct (x _ _) as [[c1 [rsp|]]| | |]; done.
Qed.

(** The stub sends this text, once. *)
Lemma stub_call_run `{!TotalAllocator A} x method ps c :
  call_ok method ps c ->
  exists w, w_buf w = render (request_json (cl_next_id c) method (put_json <$> ps)) /\
    stub_call x method ps c =
      ('(c1, rsp) ← x (w_buf w) (cl_set_next_id c (cl_next_id c + 1));
       '(c1, ca, ok) ← (let ca := Call w doc0 (cl_next_id c) (-1) false in
                        match rsp with None => Ret (c1, ca, false) | Some rsp => check_reply ca rsp c1 end);
       Ret (c1, Some (ca, ok))).
Proof.
  intros Hok. pose proof Hok as (Hp & Hid & Hm & Hml & Hps & Hlen). unfold i64_max in Hid.
  destruct (request_wrun (cl_next_id c) method ps) as (w & E & He & Hb); [unfold i64_min, i64_max; lia|done..|].
  exists w. split; [done|]. by apply stub_call_wrun.
Qed.

(** C26. A call: a connected stub sends one request, the canonical text of its
    id, which is the next, its method and its arguments, each as what it
    stands for; it succeeds exactly when the reply is JSON, answers this
    id, has no error and has a result, which is then what it reads; an
    error's message and code are the last error, and a reply to another
    request also ends the connection. This is so as long as no memory is
    refused. *)
Theorem invoke_correct x method ps c :
  TotalAllocator A -> call_ok method ps c ->
  let text := render (request_json (cl_next_id c) method (put_json <$> ps)) in
  let c0 := cl_set_next_id c (cl_next_id c + 1) in
  (forall c1, x text c0 = Ret (c1, None) -> exists ca, stub_call x method ps c = Ret (c1, Some (ca, false))) /\
  (forall c1 reply, x text c0 = Ret (c1, Some reply) -> len reply <= ARPC_MAX_FRAME ->
     let a := answer_of (cl_next_id c) reply in
     exists ca, stub_call x method ps c = Ret (after_answer c1 a, Some (ca, is_result a)) /\
       forall r, a = Result r -> reads (ca_rsp ca) (ca_result ca) (Some r)).
Proof.
  intros HA Hok text c0. destruct (stub_call_run x method ps c Hok) as (w & Hb & ->). rewrite Hb. fold text c0.
  split.
  - intros c1 ->. by eexists.
  - intros c1 reply -> Hl. cbn [mbind outcome_bind].
    destruct (check_reply_spec (Call w doc0 (cl_next_id c) (-1) false) reply c1 Hl) as (ca & -> & Hr).
    exists ca. by split.
Qed.

(** What a stub reads of the result is what the tree says: the return
    value and the out fields by name, numbers, ids, strings and lists, and a
    byte buffer is the very bytes the other side encoded. *)
Theorem results_correct ca r :
  reads (ca_rsp ca) (ca_result ca) (Some r) ->
  let ret := t_member (Some r) ARPC_RET_KEY in
  arpc_ret_i64 ca = Ret (t_i64 ret 0) /\ arpc_ret_handle ca = Ret (u64 (t_i64 ret 0)) /\
  (forall name, arpc_out_i64 ca name = Ret (t_i64 (t_member (Some r) name) 0)) /\
  (TotalAllocator A -> arpc_take_str ca = Ret (t_str ret)) /\
  (forall b, TotalAllocator A -> is_bytes b -> len b <= 2 ^ 59 ->
     (ret = Some (jbytes (Some b)) -> arpc_ret_bytes ca = Ret (Some (b, len b))) /\
     (forall name, t_member (Some r) name = Some (jbytes (Some b)) -> arpc_out_bytes ca name = Ret (Some (b, len b)))) /\
  (exists n, arpc_ret_node ca = Ret n /\ reads_from (ca_rsp ca) (aj_first (ca_rsp ca) n) (t_kids ret)).
Proof.
  intros Hr ret. subst ret.
  destruct (aj_member_reads _ _ _ ARPC_RET_KEY Hr) as (n & En & Hn).
  assert (Eret : arpc_ret_node ca = Ret n) by done.
  assert (Hb : forall b s, TotalAllocator A -> is_bytes b -> len b <= 2 ^ 59 -> s = Some (jbytes (Some b)) ->
    decode_or_null (t_str s) = Ret (Some (b, len b))).
  { intros b s HA Hb Hl ->. cbn [jbytes t_str decode_or_null]. rewrite <- b64_text_spec by done.
    rewrite (cstr_no_nul _ (b64_text_no_nul b)), arpc_b64_decode_text by done. by rewrite HA. }
  unfold arpc_ret_i64, arpc_ret_handle, arpc_out_i64, arpc_take_str, arpc_ret_bytes, ret_str, arpc_out_bytes.
  rewrite Eret. cbn [mbind outcome_bind]. rewrite !(aj_i64_reads _ _ _ _ Hn), (aj_str_reads _ _ _ Hn).
  split_and!; [done|done| | | |exists n; split; [done|by apply aj_first_reads]].
  - intros name. unfold arpc_out_node. destruct (aj_member_reads _ _ _ name Hr) as (m & -> & Hm).
    cbn [mbind outcome_bind]. by rewrite (aj_i64_reads _ _ _ _ Hm).
  - intros HA. destruct (t_member (Some r) ARPC_RET_KEY) as [[]|]; try done. cbn [t_str]. by rewrite HA, cstr_idemp.
  - intros b HA Hbb Hl. split; [by apply Hb|]. intros name. unfold arpc_out_node.
    destruct (aj_member_reads _ _ _ name Hr) as (m & -> & Hm).
    cbn [mbind outcome_bind]. rewrite (aj_str_reads _ _ _ Hm). by apply Hb.
Qed.
End Theorems.

(** ** The properties at work *)

(** A Windows with one listener, of this user at the same elevation or not,
    and nothing to start; a callback that returns its context. *)
Module ToyClient.
Record world := World { w_listener : option Trickle.pipe; w_friend : bool; w_closed : Z }.

Definition me : token := Token (Some (lit "S-1-5-21")) (Some 8192).

#[export] Instance win : Win world Trickle.pipe := {
  win_env _ name := if streq name (lit "ALPMRPC_ROOT") then Some (lit "C:\msys64\") else None;
  win_module _ := None;
  win_self _ := Some me;
  win_peer w _ := Some (Some (if w_friend w then me else Token (Some (lit "S-1-5-21")) (Some 12288)));
  win_exists _ _ := false;
  win_error _ := 2;
  CreateFileA w _ := (w_listener w, w);
  CreateProcessA w _ := (false, w);
  Sleep w _ := w;
  CloseHandle w _ := World (w_listener w) (w_friend w) (w_closed w + 1)
}.

#[export] Instance stubs : Stubs (H:=Chain.chain) world Trickle.pipe := {
  cb_kinds := [(lit "log", fun _ _ ctx _ _ c => Ret (c, if ctx =? 9 then 9 else 0))];
  win32_paths := false
}.
End ToyClient.

Section Toy.
#[local] Existing Instance Chain.chain.
#[local] Existing Instance Chain.above.
#[local] Existing Instance Trickle.ops.
#[local] Existing Instance ToyClient.win.
#[local] Existing Instance ToyClient.stubs.

Definition toy_client : client ToyClient.world Trickle.pipe :=
  cl_set_pipe (client0 (ToyClient.World None true 0)) (Some (Trickle.Pipe [] [] 0 [])).

Definition toy_reply : list Z := qlit "{`id`:1,`result`:{`@ret`:7,`n`:-3}}".
Definition toy_exchange : transactor ToyClient.world Trickle.pipe := fun _ c => Ret (c, Some toy_reply).
Definition toy_puts : list put :=
  [PArg (AHandle 1099511627777); PArg (AStr (Some (lit "vim"))); PStrList [Some (lit "a"); None];
   PObj [(lit "len", AI64 3)]; PArg (ABytes (Some [0; 1]))].

Lemma toy_call_ok : call_ok (lit "alpm_a") toy_puts toy_client.
Proof.
  split; [done|]. split; [done|]. split; [by apply (bool_decide_unpack (is_bytes _))|]. split; [done|].
  split; [|by vm_compute].
  constructor; [done|]. constructor; [by apply (bool_decide_unpack (str_ok _))|].
  constructor; [by apply (bool_decide_unpack (Forall str_ok _))|]. constructor.
  - constructor; [|constructor]. split; [split; [by apply (bool_decide_unpack (no_nul _))|done]|done].
  - constructor; [|constructor]. split; [by apply (bool_decide_unpack (is_bytes _))|done].
Qed.

Lemma invoke_correct_witness :
  exists ca, stub_call (A:=ample) toy_exchange (lit "alpm_a") toy_puts toy_client =
      Ret (cl_set_next_id toy_client 2, Some (ca, true)) /\ reads (ca_rsp ca) (ca_result ca)
        (Some (JObj [(ARPC_RET_KEY, JNum 7); (lit "n", JNum (-3))])).
Proof.
  destruct (proj2 (invoke_correct (A:=ample) toy_exchange (lit "alpm_a") toy_puts toy_client ample_total toy_call_ok)
    _ toy_reply eq_refl ltac:(by vm_compute)) as (ca & E & H).
  exists ca. split; [exact E|]. apply H. vm_compute. reflexivity.
Defined.

Definition toy_result_call : arpc_call :=
  match aj_parse (A:=ample) toy_reply with
  | Ret d => match aj_member d 0 (lit "result") with Ret n => Call ajw_init d 1 n true | _ => Call ajw_init d 1 0 true end
  | _ => Call ajw_init doc0 1 0 false
  end.

Lemma toy_result_reads :
  reads (ca_rsp toy_result_call) (ca_result toy_result_call) (Some (JObj [(ARPC_RET_KEY, JNum 7); (lit "n", JNum (-3))])).
Proof.
  assert (Hl : len toy_reply <= ARPC_MAX_FRAME) by (by vm_compute).
  destruct (parse_reads (A:=ample) toy_reply
    (JObj [(lit "id", JNum 1); (lit "result", JObj [(ARPC_RET_KEY, JNum 7); (lit "n", JNum (-3))])]) Hl
    ltac:(vm_compute; reflexivity)) as (d & E & Hd).
  destruct (aj_member_reads d 0 _ (lit "result") Hd) as (n & En & Hn). unfold toy_result_call. rewrite E, En. exact Hn.
Qed.

Lemma results_correct_witness :
  arpc_ret_i64 toy_result_call = Ret 7 /\ arpc_out_i64 toy_result_call (lit "n") = Ret (-3).
Proof.
  destruct (results_correct (A:=ample) toy_result_call _ toy_result_reads) as (H1 & _ & H2 & _).
  split; [exact H1|exact (H2 (lit "n"))].
Defined.
End Toy.
