(* ===== verification/ClientPurge.v ===== *)
(** * What goes with an object that was freed, and with a handle

    [arpc_purge_owner] and [arpc_purge_root] of src/client/arpc_client.c, over
    everything the client keeps under an object or a handle: the cached
    results, live and detached, the package groups with their slots, and the
    callbacks the caller registered.  What goes is told by the identifiers
    alone; an identifier is in the root that its bits from the fortieth on
    name. *)

From S2P Require Import Prelude Wire Uthash Cache CacheTheorems Groups GroupTheorems.
From S2P Require Import ClientState Client ClientCalls.

(** Identifiers of one handle. *)
Definition same_root (a b : Z) : Prop := a / 2 ^ 40 = b / 2 ^ 40.
#[export] Instance same_root_dec a b : Decision (same_root a b).
Proof. unfold same_root. apply _. Defined.

Lemma same_root_spec a b : ARPC_ROOT a = ARPC_ROOT b <-> same_root a b.
Proof. unfold ARPC_ROOT, ARPC_ROOT_SHIFT, same_root. by rewrite !Z.shiftr_div_pow2. Qed.

Section Purge.
Context {A : Allocator} {P : Placement} {U : Uthash} {PO : PlacementOk P} {UO : UthashOk U} {W H : Type}.
Context (getters : list Z -> bool).
Implicit Types c : client W H.

(** From the cache [k] with the live entries [L] and the detached entries [D],
    [k'] has let go of those for which [Q] holds: each is freed with its
    string and what it holds is released, once; every other entry is where it
    was, on the same side, with its string. *)
Record lets_go (Q : owned -> Prop) `{!forall o, Decision (Q o)} (k : cache) (L D : entries) (k' : cache) : Prop := {
  lets_crep : crep getters k' (filter (fun ao => ~ Q ao.2) L) (filter (fun ao => ~ Q ao.2) D);
  lets_released : c_released k' = c_released k ++ rvals (filter (fun ao => Q ao.2) L ++ filter (fun ao => Q ao.2) D);
  lets_static : c_static k' = c_static k;
  lets_gone a o : (a, o) ∈ L ++ D -> Q o ->
    c_ents k' !! a = None /\ (o_is_str o = true -> c_strs k' !! o_value o = None);
  lets_kept a o : (a, o) ∈ L ++ D -> ~ Q o ->
    c_ents k' !! a = Some o /\ (o_is_str o = true -> o_value o <> 0 -> c_strs k' !! o_value o = c_strs k !! o_value o)
}.

(** A purge by a test that decides [Q]. *)
Lemma purge_lets_go (Q : owned -> Prop) `{!forall o, Decision (Q o)} k L D op :
  crep getters k L D -> displaces op = (fun _ => false) -> puts op = [] ->
  (forall o, purges op o = true <-> Q o) ->
  exists k', purge_where (purges op) k = Ret k' /\ lets_go Q k L D k'.
Proof.
  intros Hc Hd Hp HQ. destruct (purge_exact getters k L D op Hc Hd Hp) as (k' & E & Hk & Hr & Hs & Hkept & Hgone).
  assert (Ek : forall E0, kept (purges op) E0 = filter (fun ao => ~ Q ao.2) E0).
  { intros E0. apply list_filter_iff. intros ao. rewrite <- HQ. by destruct (purges op ao.2). }
  assert (Eg : forall E0, gone (purges op) E0 = filter (fun ao => Q ao.2) E0).
  { intros E0. apply list_filter_iff. intros ao. apply HQ. }
  rewrite !Ek in Hk. rewrite !Eg in Hr. exists k'. split; [exact E|]. split; [done|done|done| |].
  - intros a o Hin Ho. apply Hgone; [done|by apply HQ].
  - intros a o Hin Ho. apply Hkept; [done|]. rewrite <- HQ in Ho. by destruct (purges op o).
Qed.

Lemma callbacks_purge_filter l handle : arpc_callbacks_purge l handle = filter (fun r => rg_handle r <> handle) l.
Proof.
  induction l as [|r l IH]; [done|]. cbn [arpc_callbacks_purge]. rewrite filter_cons, IH.
  destruct (Z.eqb_spec (rg_handle r) handle); by case_decide.
Qed.

(** A group belongs to the root of any of its packages. *)
Lemma keeps_group_spec t G S a g root :
  grep t G S -> (a, g) ∈ G -> keeps_group root (a, g) <-> forall id, id ∈ gr_ids g -> ARPC_ROOT id <> root.
Proof.
  intros Hg Hin. destruct (group_ok_root g (gh_ok _ _ _ (gr_heap _ _ _ Hg) a g Hin)) as (id & ids & Hids & Hr).
  unfold keeps_group. cbn. rewrite Hids in *. cbn. rewrite Forall_forall in Hr. split.
  - intros [_ Hne] id' Hid'. rewrite (Hr id' Hid'). congruence.
  - intros Hall. split; [done|]. intros [= E]. by apply (Hall id (list_elem_of_here _ _)).
Qed.

(** C29. Letting go is exact.  Purging an object takes the cached results
    that belong to it, of whatever kind, live or detached: each is freed with
    its string and what it holds is released, once, and the others are where
    they were.  Purging a handle does this to what belongs to anything under
    the handle, takes the groups with a package under it and the slots that
    lead to them, and the callbacks registered for the handle itself; and
    nothing else of the client changes. *)
Theorem purge_correct c L D G S w :
  crep getters (cl_cache c) L D -> grep (cl_groups c) G S ->
  (exists k, arpc_purge_owner (cl_cache c) w = Ret k /\ lets_go (fun o => o_owner o = w) (cl_cache c) L D k) /\
  (exists k g G' S',
     arpc_purge_root w c =
       Ret (cl_set_regs (cl_set_groups (cl_set_cache c k) g) (filter (fun r => rg_handle r <> w) (cl_regs c))) /\
     lets_go (fun o => same_root (o_owner o) w) (cl_cache c) L D k /\ grep g G' S' /\
     (forall a x, (a, x) ∈ G' <-> (a, x) ∈ G /\ forall id, id ∈ gr_ids x -> ~ same_root id w) /\
     (forall a s, (a, s) ∈ S' <-> (a, s) ∈ S /\ ~ same_root (sl_id s) w) /\
     (forall a x id, (a, x) ∈ G -> id ∈ gr_ids x -> same_root id w -> group_at g a = Undef)).
Proof.
  intros Hc Hg. split.
  - apply (purge_lets_go _ _ L D (OpPurgeOwner w) Hc eq_refl eq_refl). intros o. apply Z.eqb_eq.
  - destruct (purge_lets_go (fun o => same_root (o_owner o) w) _ L D (OpPurgeRoot w) Hc eq_refl eq_refl) as (k & Ek & Hk).
    { intros o. rewrite <- same_root_spec. apply Z.eqb_eq. }
    destruct (free_groups_of_spec (cl_groups c) G S (ARPC_ROOT w) Hg) as (g & Eg & Hg').
    exists k, g, (filter (keeps_group (ARPC_ROOT w)) G), (filter (keeps_slot (ARPC_ROOT w)) S).
    assert (HG : forall a x, (a, x) ∈ filter (keeps_group (ARPC_ROOT w)) G <->
      (a, x) ∈ G /\ forall id, id ∈ gr_ids x -> ~ same_root id w).
    { intros a x. rewrite list_elem_of_filter. setoid_rewrite <- same_root_spec. split.
      - intros [Hx Hin]. split; [done|]. by apply (keeps_group_spec (cl_groups c) G S a x (ARPC_ROOT w)).
      - intros [Hin Hx]. split; [|done]. by apply (keeps_group_spec (cl_groups c) G S a x (ARPC_ROOT w)). }
    split_and!; [|done|done|exact HG| |].
    + unfold arpc_purge_root. cbn zeta.
      change (purge_where (under_root (ARPC_ROOT w)) (cl_cache c) = Ret k) in Ek. rewrite Ek. cbn [mbind outcome_bind]. rewrite Eg. cbn [mbind outcome_bind].
      by rewrite callbacks_purge_filter.
    + intros a s. rewrite list_elem_of_filter, <- same_root_spec. unfold keeps_slot. cbn [snd]. tauto.
    + intros a x id Hin Hid Hr. unfold group_at. destruct (gs_group g !! a) as [x'|] eqn:Ex; [exfalso|done].
      apply (gr_heap _ _ _ Hg') in Ex. apply HG in Ex as [Hin' Hno].
      assert (x' = x) as -> by (eapply group_unique; [apply (gr_heap _ _ _ Hg)|exact Hin'|exact Hin]). by apply (Hno id).
Qed.
End Purge.

(** ** The property at work *)

Section Toy.
#[local] Existing Instance Chain.chain.
#[local] Existing Instance Chain.above.
#[local] Existing Instances Chain.chain_ok Chain.chain_total Chain.above_ok.
#[local] Existing Instance Trickle.ops.
#[local] Existing Instance ToyClient.win.
#[local] Existing Instance ToyClient.stubs.

Import CacheTheorems.

(** A package of another handle. *)
Definition toy_far : Z := 2 * 2 ^ 40 + 5.

(** Two names and a list are live; a name that was replaced and a list that
    went stale are detached. *)
Definition toy_live : entries :=
  [(4096, Owned (hash_key toy_pkg toy_name) toy_pkg 4096 (Some RFree) true);
   (4097, Owned (hash_key toy_db toy_list) toy_db 77 (Some (RGen 5)) false);
   (4098, Owned (hash_key toy_far toy_name) toy_far 4098 (Some RFree) true)].
Definition toy_stale : entries :=
  [(4099, Owned (hash_key toy_pkg toy_name) toy_pkg 4099 (Some RFree) true);
   (4100, Owned (hash_key toy_db toy_list) toy_db 78 (Some (RGen 5)) false)].
Definition toy_strs : gmap Z (list Z) := {[4096 := lit "glibc"; 4098 := lit "zlib"; 4099 := lit "old"]}.
Definition toy_kept : client ToyClient.world Trickle.pipe :=
  cl_set_regs (cl_set_groups (cl_set_cache (client0 (ToyClient.World None true 0))
    (Cache _ (item <$> toy_live) [4099; 4100] [] (list_to_map (toy_live ++ toy_stale)) toy_strs []))
    toy_groups) [new_reg 1099511627777; new_reg 7].

Lemma toy_kept_crep : crep (A:=ample) toy_getters (cl_cache toy_kept) toy_live toy_stale.
Proof.
  assert (Hlist : getter_ok toy_getters false toy_db toy_list).
  { split_and!; [by apply (bool_decide_unpack (no_nul _))|done|by vm_compute]. }
  assert (Hfar : getter_ok toy_getters true toy_far toy_name).
  { split_and!; [by apply (bool_decide_unpack (no_nul _))|done|by vm_compute]. }
  split; [done|done|by apply (bool_decide_unpack (NoDup _))|]. split.
  - intros a o. symmetry. apply elem_of_list_to_map. by apply (bool_decide_unpack (NoDup _)).
  - by apply (bool_decide_unpack (NoDup _)).
  - intros a o. unfold toy_live, toy_stale. cbn [app]. rewrite !elem_of_cons.
    intros [[= -> ->]|[[= -> ->]|[[= -> ->]|[[= -> ->]|[[= -> ->]|[]%not_elem_of_nil]]]]].
    + exists toy_name. by split; [exact toy_name_ok|].
    + exists toy_list. split; [exact Hlist|]. split; [done|]. split; [done|by exists 5].
    + exists toy_name. by split; [exact Hfar|].
    + exists toy_name. by split; [exact toy_name_ok|].
    + exists toy_list. split; [exact Hlist|]. split; [done|]. split; [done|by exists 5].
  - intros p. rewrite <- elem_of_dom. change (p ∈ dom toy_strs <-> p ∈ [4096; 4098; 4099]). unfold toy_strs. set_solver.
  - by apply (bool_decide_unpack (NoDup [4096; 4098; 4099])).
  - apply not_elem_of_nil.
Qed.

(** Letting the handle go takes the name, the list, and what was detached, but
    not the name of the other handle's package; the group and the callbacks go
    with it, not those of the other handle. *)
Lemma purge_correct_witness :
  exists k g, arpc_purge_root 1099511627777 toy_kept =
      Ret (cl_set_regs (cl_set_groups (cl_set_cache toy_kept k) g) [new_reg 7]) /\
    c_released k = [(5, 77); (5, 78)] /\ c_ents k !! 4096 = None /\ c_ents k !! 4100 = None /\ c_strs k !! 4099 = None /\
    c_strs k !! 4098 = Some (lit "zlib") /\ group_at g 4096 = Undef.
Proof.
  destruct (purge_correct (A:=ample) toy_getters toy_kept toy_live toy_stale toy_g toy_s 1099511627777 toy_kept_crep toy_grep)
    as (_ & k & g & G' & S' & E & [_ Hr _ Hgone Hkept] & _ & _ & _ & Hg).
  assert (Hin : forall i ao, (toy_live ++ toy_stale) !! i = Some ao -> ao ∈ toy_live ++ toy_stale) by (intros i ao; apply list_elem_of_lookup_2).
  exists k, g. split_and!.
  - exact E.
  - exact Hr.
  - exact (proj1 (Hgone 4096 _ (Hin 0%nat _ eq_refl) eq_refl)).
  - exact (proj1 (Hgone 4100 _ (Hin 4%nat _ eq_refl) eq_refl)).
  - exact (proj2 (Hgone 4099 _ (Hin 3%nat _ eq_refl) eq_refl) eq_refl).
  - exact (proj2 (Hkept 4098 _ (Hin 2%nat _ eq_refl) ltac:(discriminate)) eq_refl ltac:(discriminate)).
  - exact (Hg 4096 _ (GroupTheorems.toy_id 5) (list_elem_of_here _ _) (list_elem_of_here _ _) eq_refl).
Defined.
End Toy.
