(* ===== verification/ClientTheorems.v ===== *)
(** * Connecting, exchanging frames and serving callbacks: the client's theorems

    Which process the client talks to, in which order the frames that arrive
    before a reply are served, what a callback is answered with, and that the
    exchange ends.  The state and the functions are those of ClientState.v and
    Client.v. *)

From S2P Require Import Prelude Json JsonWriter JsonReader JsonRef JsonArena JsonAccess Base64.
From S2P Require Import Wire CbRegistry HandleTable HandleSpec Paths Gpgdir Lookup Server.
From S2P Require Import Mtree Dispatch DispatchTheorems Connection Ends Uthash Cache Groups.
From S2P Require Import ClientState Client ClientCalls.

(** ** The answer to a callback *)

(** A callback's parts, as the dispatcher reads them. *)
Definition cb_name (j : json) : list Z :=
  match t_str (t_member (Some j) (lit "cb")) with Some s => s | None => [] end.
Definition cb_seq (j : json) : Z := t_i64 (t_member (Some j) (lit "seq")) 0.
Definition cb_handle (j : json) : Z := u64 (t_i64 (t_member (Some j) (lit "handle")) 0).
Definition cb_args (j : json) : option json := t_member (Some j) (lit "args").

Definition answer_json (seq v : Z) : json := JObj [(lit "cbseq", JNum seq); (ARPC_RET_KEY, JNum v)].

Definition answer_ops (seq v : Z) : list wop :=
  [OpOpen true; OpKey (lit "cbseq"); OpI64 seq; OpKey ARPC_RET_KEY; OpI64 v; OpClose true].

Lemma answer_text seq v : wops_text false (answer_ops seq v) = render (answer_json seq v).
Proof.
  unfold answer_json, JObj. rewrite render_cont. cbn [render_kids].
  cbn [answer_ops wops_text wop_text fst snd]. unfold sep. by rewrite <- !app_assoc.
Qed.

Lemma answer_length seq v : len (render (answer_json seq v)) <= 100.
Proof.
  unfold answer_json. rewrite render_obj_length. cbn [render_kids sep]. rewrite !length_app.
  pose proof (render_jnum_length seq). pose proof (render_jnum_length v).
  change (length (render_key (lit "cbseq"))) with 8%nat. change (length (render_key ARPC_RET_KEY)) with 7%nat.
  cbn [length]. lia.
Qed.

Lemma member_i64_range j key dflt :
  in_range j -> i64_min <= dflt <= i64_max -> i64_min <= t_i64 (t_member (Some j) key) dflt <= i64_max.
Proof.
  intros Hj Hd. pose proof (t_member_in_range j key Hj) as Hm.
  destruct (t_member _ _) as [[|[]|z| |]|]; cbn [t_i64 in_range] in *; unfold i64_min, i64_max in *; lia.
Qed.

Section Dispatch.
Context {A : Allocator} {P : Placement} {U : Uthash} {W H : Type}
  {HO : HandleOps H} {WN : Win W H} {ST : Stubs W H}.
Implicit Types c : client W H.

(** The first kind of this name, and the function the caller registered for
    it on the handle. *)
Definition is_kind (kinds : list (list Z * cb_call W H)) (which : list Z) (i : nat) (call : cb_call W H) : Prop :=
  (exists name, kinds !! i = Some (name, call) /\ cstr name = cstr which) /\
  forall j x, (j < i)%nat -> kinds !! j = Some x -> cstr x.1 <> cstr which.

Lemma call_kind_spec kinds i x which handle d args c :
  (forall k call, is_kind kinds which k call ->
     call_kind kinds i x which handle d args c =
       let fn := arpc_cb_fn (cl_regs c) handle (i + Z.of_nat k) in
       if fn =? 0 then Ret (c, 0) else call x fn (arpc_cb_ctx (cl_regs c) handle (i + Z.of_nat k)) d args c) /\
  ((forall kc, kc ∈ kinds -> cstr kc.1 <> cstr which) -> call_kind kinds i x which handle d args c = Ret (c, 0)).
Proof.
  revert i. induction kinds as [|[name call0] kinds IH]; intros i.
  - split; [|done]. intros k call [(nm & Hk & _) _]. by rewrite lookup_nil in Hk.
  - cbn [call_kind]. unfold streq. split.
    + intros [|k] call [(nm & Hk & Hn) Hbefore]; cbn in Hk.
      * injection Hk as -> ->. rewrite bool_decide_true by done. by rewrite Z.add_0_r.
      * rewrite bool_decide_false; [|by apply (Hbefore 0%nat (name, call0)); [lia|]].
        replace (i + Z.of_nat (S k)) with (i + 1 + Z.of_nat k) by lia.
        apply (proj1 (IH (i + 1))). split; [by exists nm|]. intros j y Hj Hy. apply (Hbefore (S j) y); [lia|done].
    + intros Hno. rewrite bool_decide_false by (apply (Hno (name, call0)), list_elem_of_here).
      apply (proj2 (IH (i + 1))). intros kc Hkc. apply Hno. by apply list_elem_of_further.
Qed.

Context {HA : TotalAllocator A}.

Lemma answer_spec seq v :
  i64_min <= seq <= i64_max -> i64_min <= v <= i64_max ->
  exists w, w_err w = false /\ w_buf w = render (answer_json seq v) /\
    (w ← ajw_obj_begin ajw_init; w ← ajw_key w (lit "cbseq"); w ← ajw_i64 w seq;
     w ← ajw_key w ARPC_RET_KEY; w ← ajw_i64 w v; ajw_obj_end w) = Ret w.
Proof.
  intros Hs Hv. destruct (finish_run (answer_ops seq v)) as (w & E & _ & Ht).
  - repeat constructor; try done; cbn; try lia; by apply (bool_decide_unpack (is_bytes _)).
  - by rewrite answer_text.
  - rewrite answer_text in Ht. exists w. destruct Ht as (_ & Hb & He); [done| |].
    { pose proof (answer_length seq v). cbn [reserved answer_ops]. lia. }
    split_and!; [done|done|]. rewrite <- E. cbn [wrun answer_ops wstep].
    repeat match goal with
    | |- (?m ≫= _) = _ => destruct m as [?| | |]; [cbn [mbind outcome_bind]|done..]
    end. by destruct (ajw_obj_end _).
Qed.

(** The dispatch of a callback, on its tree. *)
Lemma dispatch_callback_reads x d j c :
  reads d 0 (Some j) -> in_range j ->
  exists args, reads d args (cb_args j) /\
    forall c' v, call_kind cb_kinds 0 x (cb_name j) (cb_handle j) d args c = Ret (c', v) -> i64_min <= v <= i64_max ->
      exists w, arpc_dispatch_callback x d c = Ret (c', w) /\ w_err w = false /\
        w_buf w = render (answer_json (cb_seq j) v).
Proof.
  intros Hd Hj. unfold arpc_dispatch_callback.
  destruct (aj_member_reads d 0 _ (lit "cb") Hd) as (n1 & -> & H1).
  destruct (aj_member_reads d 0 _ (lit "seq") Hd) as (n2 & -> & H2).
  destruct (aj_member_reads d 0 _ (lit "handle") Hd) as (n3 & -> & H3).
  destruct (aj_member_reads d 0 _ (lit "args") Hd) as (n4 & -> & H4).
  cbn [mbind outcome_bind]. rewrite (aj_str_reads _ _ _ H1), !(aj_i64_reads _ _ _ _ H2), !(aj_i64_reads _ _ _ _ H3).
  exists n4. split; [done|]. intros c' v E Hv. fold (cb_name j) (cb_seq j) (cb_handle j). rewrite E.
  cbn [mbind outcome_bind].
  assert (Hs : i64_min <= cb_seq j <= i64_max).
  { by apply member_i64_range. }
  destruct (answer_spec (cb_seq j) v Hs Hv) as (w & He & Hb & Ew). exists w. split_and!; [|done|done].
  revert Ew.
  repeat match goal with
  | |- (?m ≫= _) = _ -> _ => destruct m as [?| | |]; [cbn [mbind outcome_bind]|done..]
  end. by intros ->.
Qed.
End Dispatch.

(** ** Frames over the pipe *)

Section Exchange.
Context {A : Allocator} {P : Placement} {U : Uthash} {W H : Type}
  `{HH : Handle H} {WN : Win W H} {ST : Stubs W H}.
Implicit Types c : client W H.

(** These callbacks, served in this order and making no call of their own,
    are answered with these frames, the state after one being the state
    before the next. *)
Inductive answered : client W H -> list (list Z) -> list (list Z) -> client W H -> Prop :=
| answered_nil c : answered c [] [] c
| answered_cons c f j c1 v fs ws c2 :
    ref_parse (cstr f) = Ret j -> t_member (Some j) (lit "cb") <> None ->
    (forall x d args p, reads d args (cb_args j) ->
       call_kind cb_kinds 0 x (cb_name j) (cb_handle j) d args (cl_set_pipe c (Some p)) =
         Ret (cl_set_pipe c1 (Some p), v)) ->
    i64_min <= v <= i64_max ->
    answered c1 fs ws c2 -> answered c (f :: fs) (render (answer_json (cb_seq j) v) :: ws) c2.

(** A turn for each callback: its frame comes in, then its answer goes out. *)
Fixpoint turns (fs ws : list (list Z)) : list event :=
  match fs, ws with
  | f :: fs, w :: ws => ins (frame f) ++ outs (frame w) ++ turns fs ws
  | _, _ => []
  end.

(** A frame that is not a callback. *)
Definition is_reply (f : list Z) : Prop := exists j, ref_parse (cstr f) = Ret j /\ t_member (Some j) (lit "cb") = None.

Lemma frame_parses `{!TotalAllocator A} f j :
  len f <= ARPC_MAX_FRAME -> ref_parse (cstr f) = Ret j ->
  exists d n, aj_parse (cstr f) = Ret d /\ reads d 0 (Some j) /\ aj_member d 0 (lit "cb") = Ret n /\
    reads d n (t_member (Some j) (lit "cb")).
Proof.
  intros Hl E. pose proof (cstr_length f). destruct (parse_reads (cstr f) j ltac:(lia) E) as (d & Ed & Hd).
  destruct (aj_member_reads d 0 _ (lit "cb") Hd) as (n & En & Hn). by exists d, n.
Qed.

Lemma transact_loop_answered `{!Connected H} {HA : TotalAllocator A} c fs ws c2 :
  answered c fs ws c2 -> forall fuel p reply rest,
  Forall (fun f => 0 < len f <= ARPC_MAX_FRAME) (fs ++ [reply]) -> is_reply reply ->
  incoming p = concat (frame <$> fs) ++ frame reply ++ rest -> (length fs < fuel)%nat ->
  exists p', transact_loop fuel (cl_set_pipe c (Some p)) = Ret (cl_set_pipe c2 (Some p'), Some reply) /\
    incoming p' = rest /\ outgoing p' = outgoing p ++ concat (frame <$> ws) /\
    moves p (turns fs ws ++ ins (frame reply)) p'.
Proof.
  induction 1 as [c|c f j c1 v fs ws c2 Ej Hcb Hk Hv Ha IH]; intros fuel p reply rest Hlen Hr Hin Hf;
    (destruct fuel as [|fuel]; [lia|]); cbn [transact_loop].
  - apply Forall_cons in Hlen as [Hl _]. cbn [fmap list_fmap concat app] in Hin.
    destruct (recv_connected false p reply rest Hl Hin) as (p' & E & Hi & Ho).
    unfold recv_frame. cbn [cl_pipe cl_set_pipe]. rewrite E. cbn [mbind outcome_bind].
    destruct Hr as (j & Ej & Hj). destruct (frame_parses reply j) as (d & n & -> & Hd & -> & Hn); [lia|done|].
    cbn [mbind outcome_bind]. rewrite Hj in Hn. rewrite Hn. cbn [Z.ltb Z.compare].
    exists p'. rewrite app_nil_r. split_and!; [done|done|done|]. cbn [turns app].
    eapply recv_frame_moves; [|exact Hl|exact E]. by rewrite Hi.
  - cbn [app] in Hlen. apply Forall_cons in Hlen as [Hl Hlen]. cbn [fmap list_fmap concat length] in *.
    rewrite <- app_assoc in Hin. destruct (recv_connected false p f _ Hl Hin) as (p1 & E & Hi & Ho).
    unfold recv_frame. cbn [cl_pipe cl_set_pipe]. rewrite E. cbn [mbind outcome_bind].
    destruct (frame_parses f j) as (d & n & -> & Hd & -> & Hn); [lia|done|]. cbn [mbind outcome_bind].
    destruct (t_member (Some j) (lit "cb")) as [jc|]; [|done]. pose proof Hn as [Hn0 _].
    destruct (Z.ltb_spec n 0); [lia|]. change (cl_set_pipe (cl_set_pipe c (Some p)) (Some p1)) with (cl_set_pipe c (Some p1)).
    destruct (dispatch_callback_reads (transact_with (transact_loop fuel)) d j (cl_set_pipe c (Some p1)) Hd)
      as (args & Hargs & Hdisp); [by apply (ref_parse_fits _ _ Ej)|].
    destruct (Hdisp _ v (Hk _ d args p1 Hargs) Hv) as (w & -> & He & Hb). cbn [mbind outcome_bind]. rewrite He, Hb.
    unfold send_frame. cbn [cl_pipe cl_set_pipe]. pose proof (answer_length (cb_seq j) v).
    destruct (send_connected false p1 (render (answer_json (cb_seq j) v))) as (p2 & Es & Ho2 & Hi2); [lia|]. rewrite Es.
    cbn [mbind outcome_bind]. change (cl_set_pipe (cl_set_pipe c1 (Some p1)) (Some p2)) with (cl_set_pipe c1 (Some p2)).
    destruct (IH fuel p2 reply rest) as (p' & E' & Hi' & Ho' & Hm); [done|done|congruence|lia|].
    exists p'. split_and!; [done|done|by rewrite Ho', Ho2, Ho, <- app_assoc|]. cbn [turns]. rewrite <- !app_assoc.
    eapply moves_app; [eapply recv_frame_moves; [|exact Hl|exact E]; by rewrite Hi|].
    eapply moves_app; [by eapply send_frame_moves; [lia|]|done].
Qed.

Lemma set_same_pipe c h : cl_pipe c = Some h -> cl_set_pipe c (Some h) = c.
Proof. destruct c. cbn. by intros ->. Qed.

Lemma transact_answered `{!Connected H} {HA : TotalAllocator A} fuel text c h fs ws c2 reply rest :
  cl_pipe c = Some h -> len text < 4294967296 -> answered c fs ws c2 ->
  Forall (fun f => 0 < len f <= ARPC_MAX_FRAME) (fs ++ [reply]) -> is_reply reply ->
  incoming h = concat (frame <$> fs) ++ frame reply ++ rest -> (length fs < fuel)%nat ->
  exists h', transact fuel text c = Ret (cl_set_pipe c2 (Some h'), Some reply) /\
    incoming h' = rest /\ outgoing h' = outgoing h ++ frame text ++ concat (frame <$> ws) /\
    moves h (outs (frame text) ++ turns fs ws ++ ins (frame reply)) h'.
Proof.
  intros Hp Hl Ha Hlen Hr Hin Hf. unfold transact, transact_with, send_frame. rewrite Hp.
  destruct (send_connected false h text Hl) as (h1 & Es & Ho1 & Hi1). rewrite Es. cbn [mbind outcome_bind].
  destruct (transact_loop_answered c fs ws c2 Ha fuel h1 reply rest) as (h' & E & Hi & Ho & Hm); [done|done|congruence|done|].
  exists h'. split_and!; [done|done|by rewrite Ho, Ho1, <- app_assoc|].
  eapply moves_app; [by eapply send_frame_moves|done].
Qed.
End Exchange.

(** ** Connecting *)

Section Connect.
Context {A : Allocator} {P : Placement} {U : Uthash} {W H : Type}
  {HO : HandleOps H} {WN : Win W H} {ST : Stubs W H}.
Implicit Types c : client W H.

(** The pipe is one that was opened under this name to a process of this
    identity. *)
Definition opened_to (me : arpc_identity) (name : list Z) c : Prop :=
  exists w h w', CreateFileA w name = (Some h, w') /\ arpc_peer_is (win_peer w' h) me = true /\
    cl_pipe c = Some h /\ cl_self c = Some me.

(** The identity and the endpoint a client with no pipe uses. *)
Definition identity_of c : option arpc_identity :=
  match cl_self c with Some me => Some me | None => arpc_process_identity (win_self (cl_world c)) end.
Definition endpoint_of c (name : list Z) : Prop :=
  exists root, msys_root (cl_world c) MAX_PATH = Some root /\
    arpc_pipe_name (Some root) (arpc_process_identity (win_self (cl_world c))) 256 = (Some name, true).

(** Connected to the right process, or not at all; no request made. *)
Definition tried (me : arpc_identity) (name : list Z) (id : Z) c (r : Z) : Prop :=
  cl_next_id c = id /\
  ((r = 1 /\ opened_to me name c) \/ ((r = 0 \/ r = -1) /\ cl_pipe c = None /\ cl_self c = Some me)).

Lemma try_open_tried me name c :
  cl_self c = Some me -> cl_pipe c = None -> tried me name (cl_next_id c) (try_open c name).1 (try_open c name).2.
Proof.
  intros Hs Hp. unfold try_open. destruct (CreateFileA (cl_world c) name) as [[h|] w] eqn:E.
  - cbn [cl_self cl_set_world cl_world]. rewrite Hs. destruct (arpc_peer_is (win_peer w h) me) eqn:Ep; (split; [done|]).
    + left. split; [done|]. by exists (cl_world c), h, w.
    + right. cbn. auto.
  - split; [done|]. right. cbn. auto.
Qed.

(** The wait for a server just started ends after at most 400 tries. *)
Lemma wait_open_tried me name id fuel : forall waited r c,
  tried me name id c r -> (0 < fuel)%nat -> 10000 <= waited + 25 * (Z.of_nat fuel - 1) ->
  exists c' r', wait_open fuel name waited r c = Ret (c', r') /\ tried me name id c' r'.
Proof.
  induction fuel as [|fuel IH]; intros waited r c Ht Hw Hf.
  - lia.
  - cbn [wait_open]. destruct (Z.ltb_spec waited 10000); cbn [andb]; [|by exists c, r].
    destruct (Z.eqb_spec r 0) as [->|]; [|by exists c, r].
    destruct Ht as [Hid [[? _]|(_ & Hp & Hs)]]; [done|].
    pose proof (try_open_tried me name (cl_set_world c (Sleep (cl_world c) 25)) Hs Hp) as Ht.
    destruct (try_open _ name) as [c1 r1]. cbn [cl_next_id cl_set_world] in Ht. rewrite Hid in Ht.
    apply IH; [exact Ht|lia|lia].
Qed.

(** Over a pipe that is there, no second connection is made. *)
Lemma connected_stays depth x c : cl_pipe c <> None -> ensure_connected depth x c = Ret (c, true).
Proof. intros Hp. destruct depth; cbn [ensure_connected]; by destruct (cl_pipe c). Qed.

(** [set_path_style] within [ensure_connected]. *)
Definition style_request (x : transactor W H) c : outcome (client W H * bool) :=
  set_path_style (fun m c => '(c, ca) ← begin_request m c; Ret (c, Some ca)) x c.

Definition begin_nested (depth : nat) (x : transactor W H) (m : list Z) c : outcome (client W H * option arpc_call) :=
  '(c, ok) ← ensure_connected depth x c;
  if ok : bool then '(c, ca) ← begin_request m c; Ret (c, Some ca) else Ret (c, None).

Lemma style_connected depth x c :
  cl_pipe c <> None -> set_path_style (begin_nested depth x) x c = style_request x c.
Proof.
  intros Hp. unfold style_request, set_path_style, begin_nested. destruct win32_paths; [|done].
  by rewrite connected_stays.
Qed.

(** The first request is made over the pipe that was opened. *)
Lemma style_agrees me name x x' c :
  opened_to me name c -> (forall req c', opened_to me name c' -> x req c' = x' req c') ->
  style_request x c = style_request x' c.
Proof.
  intros Ho Hx. unfold style_request, set_path_style. destruct win32_paths; [|done].
  destruct (begin_request _ c) as [[c1 ca]| | |] eqn:E; [|done..]. cbn [mbind outcome_bind].
  assert (Ho1 : opened_to me name c1).
  { unfold begin_request in E. destruct (_ =? _); [done|]. cbn zeta in E. inv_bind. simplify_eq. exact Ho. }
  destruct (arpc_put_str ca _) as [ca1| | |]; [|done..]. cbn [mbind outcome_bind]. unfold arpc_invoke.
  destruct (ajw_arr_end _) as [w| | |]; [|done..]. cbn [mbind outcome_bind].
  destruct (ajw_obj_end _) as [w1| | |]; [|done..]. cbn [mbind outcome_bind].
  destruct (w_err w1); [done|]. by rewrite (Hx _ c1 Ho1).
Qed.

(** With no pipe: nothing can be tried, or the endpoint is. *)
Lemma open_endpoint_spec c :
  cl_pipe c = None ->
  exists c' r, open_endpoint c = Ret (c', r) /\ cl_next_id c' = cl_next_id c /\
    ((r = 0 /\ cl_pipe c' = None /\ forall me name, identity_of c = Some me -> endpoint_of c name -> False) \/
     (exists me name, identity_of c = Some me /\ endpoint_of c name /\ tried me name (cl_next_id c) c' r /\
        forall h w, CreateFileA (cl_world c) name = (Some h, w) -> arpc_peer_is (win_peer w h) me = false ->
          r = -1 /\ cl_world c' = CloseHandle w h)).
Proof.
  intros Hp. unfold open_endpoint. fold (identity_of c).
  destruct (identity_of c) as [me|] eqn:Ei; [|by eexists _, 0; split_and!; [| |left]]. cbn [cl_world cl_set_self].
  destruct (msys_root (cl_world c) MAX_PATH) as [root|] eqn:Er.
  2: { eexists _, 0. split_and!; [done..|]. left. split_and!; [done..|]. intros m n _ (r & E & _). congruence. }
  assert (Hbad : forall o b, arpc_pipe_name (Some root) (arpc_process_identity (win_self (cl_world c))) 256 = (o, b) ->
    (o = None \/ b = false) -> forall n, endpoint_of c n -> False).
  { intros o b E Hob n (r & E1 & E2). rewrite Er in E1. injection E1 as <-. rewrite E in E2. naive_solver. }
  destruct (arpc_pipe_name (Some root) _ 256) as [[name|] [|]] eqn:En.
  2-4: eexists _, 0; split_and!; [done..|]; left; split_and!; [done|done|]; intros m n _; eapply Hbad; naive_solver.
  assert (Hep : endpoint_of c name) by (by exists root).
  pose proof (try_open_tried me name (cl_set_self c me) eq_refl Hp) as Ht. cbn [cl_next_id cl_set_self] in Ht.
  destruct (try_open (cl_set_self c me) name) as [c1 r] eqn:Et. cbn [fst snd] in Ht.
  assert (Hpeer : forall h w, CreateFileA (cl_world c) name = (Some h, w) -> arpc_peer_is (win_peer w h) me = false ->
    r = -1 /\ cl_world c1 = CloseHandle w h).
  { intros h w Eh Hpe. unfold try_open in Et. cbn [cl_world cl_set_self] in Et. rewrite Eh in Et.
    cbn [cl_self cl_set_world cl_set_self cl_world] in Et. rewrite Hpe in Et. by injection Et as <- <-. }
  destruct (Z.eqb_spec r 0) as [->|Hr]; cbn [negb].
  - destruct Ht as [Hid1 [[? _]|(_ & Hp1 & Hs1)]]; [done|].
    assert (exists c2 ok, launch_server c1 root = (c2, ok) /\ tried me name (cl_next_id c) c2 0) as (c2 & ok & -> & Ht2).
    { assert (Hno : forall c2, cl_next_id c2 = cl_next_id c1 -> cl_pipe c2 = cl_pipe c1 -> cl_self c2 = cl_self c1 ->
        tried me name (cl_next_id c) c2 0).
      { intros c2 E1 E2 E3. split; [congruence|]. right. split_and!; [by left|congruence..]. }
      unfold launch_server. cbn zeta. destruct (negb _); [eexists _, _; split; [reflexivity|by apply Hno]|].
      destruct (CreateProcessA _ _) as [b w].
      destruct b; eexists _, _; (split; [reflexivity|by apply Hno]). }
    assert (exists c3 r3, (if ok then wait_open 401 name 0 0 c2 else Ret (c2, 0)) = Ret (c3, r3) /\ tried me name (cl_next_id c) c3 r3)
      as (c3 & r3 & -> & Ht3).
    { destruct ok; [|by exists c2, 0]. by apply wait_open_tried; [|lia|lia]. }
    cbn [mbind outcome_bind]. pose proof Ht3 as [Hid3 _].
    eexists _, r3. split; [done|]. split; [by destruct (_ && _)|]. right. exists me, name.
    split_and!; [done|done|by destruct (_ && _)|]. intros h w Eh Hpe. by destruct (Hpeer h w Eh Hpe).
  - pose proof Ht as [Hid1 _]. exists c1, r. split; [done|]. split; [done|]. right. by exists me, name.
Qed.

(** What is connected, is asked. *)
Lemma ensure_connected_opened depth x c c' r :
  cl_pipe c = None -> open_endpoint c = Ret (c', r) -> (0 < r -> cl_pipe c' <> None) ->
  ensure_connected (S depth) x c = if 0 <? r then style_request x c' else Ret (c', false).
Proof.
  intros Hp E Hr. cbn [ensure_connected]. rewrite Hp, E. cbn [mbind outcome_bind].
  destruct (Z.ltb_spec 0 r); [|done]. apply (style_connected depth x c'). auto.
Qed.

Lemma tried_pipe me name id c r : tried me name id c r -> 0 < r -> opened_to me name c /\ cl_pipe c <> None.
Proof.
  intros [_ [[_ Ho]|[[?|?] _]]] Hr; [|lia..]. split; [done|]. by destruct Ho as (? & ? & ? & _ & _ & -> & _).
Qed.

Lemma endpoint_unique c name name' : endpoint_of c name -> endpoint_of c name' -> name = name'.
Proof. intros (r & E & E1) (r' & E' & E1'). congruence. Qed.
End Connect.

(** ** Everything ends *)

Section ClientEnds.
Context {A : Allocator} {P : Placement} {U : Uthash} {W H : Type}
  `{HS : Steady H} {WN : Win W H} {ST : Stubs W H}.
Implicit Types c : client W H.

(** The bytes the pipe still has to give. *)
Definition left_of c : nat := match cl_pipe c with Some h => length (incoming h) | None => 0 end.

Definition client_sane c : Prop :=
  i64_min <= cl_next_id c <= i64_max /\ match cl_pipe c with Some h => is_bytes (incoming h) | None => True end.

(** A state after [c]: the pipe has been read or lost, not filled. *)
Definition client_next c c' : Prop := client_sane c' /\ (left_of c' <= left_of c)%nat.

Lemma cnext_refl c : client_sane c -> client_next c c.
Proof. by split. Qed.
Lemma cnext_trans c1 c2 c3 : client_next c1 c2 -> client_next c2 c3 -> client_next c1 c3.
Proof. intros [_ ?] [? ?]. split; [done|lia]. Qed.

Definition got (r : option (list Z)) : Prop := match r with Some f => len f <= ARPC_MAX_FRAME | None => True end.

(** What is asked of an exchange, with fewer than [n] bytes to come. *)
Definition transactor_ends (n : nat) (x : transactor W H) : Prop :=
  forall req c, client_sane c -> (left_of c < n)%nat -> ends (fun '(c', r) => client_next c c' /\ got r) (x req c).

(** What is asked of the stubs of the callbacks: if the calls made from the
    caller's function end, it ends, with a [long long], and does not connect
    again to a server that has more to say. *)
Definition stubs_end : Prop :=
  forall n name call, (name, call) ∈ @cb_kinds U W H ST ->
  forall x, transactor_ends n x -> forall fn ctx d args c, client_sane c -> (left_of c < n)%nat ->
    ends (fun '(c', v) => client_next c c' /\ i64_min <= v <= i64_max) (call x fn ctx d args c).

Lemma disconnect_next c c' : client_next c c' -> client_next c (disconnect c').
Proof.
  intros [Hs Hl]. unfold disconnect. destruct (cl_pipe c') eqn:E; [|done].
  split; [|unfold left_of; cbn; lia]. by split; [apply Hs|].
Qed.

Lemma failed_next c text : client_sane c -> client_next c (disconnect (ClientState.set_err c text)).
Proof. intros Hs. apply disconnect_next. by split. Qed.

Lemma set_pipe_next c h h' :
  client_sane c -> cl_pipe c = Some h -> incoming h' `suffix_of` incoming h -> client_next c (cl_set_pipe c (Some h')).
Proof.
  intros [Hn Hb] Hp Hs. rewrite Hp in Hb. split.
  - split; [done|]. by eapply suffix_bytes.
  - unfold left_of. rewrite Hp. cbn. by apply suffix_length.
Qed.

Lemma next_set_pipe_failed c h h' text :
  client_sane c -> cl_pipe c = Some h -> incoming h' `suffix_of` incoming h ->
  client_next c (disconnect (ClientState.set_err (cl_set_pipe c (Some h')) text)).
Proof.
  intros Hs Hp Hsuf. apply disconnect_next. exact (set_pipe_next c h h' Hs Hp Hsuf).
Qed.

Lemma send_frame_ends text c : client_sane c -> ends (fun '(c', _) => client_next c c') (send_frame text c).
Proof.
  intros Hs. unfold send_frame. destruct (cl_pipe c) as [h|] eqn:Hp; [|by apply failed_next].
  pose proof (send_frame_keeps false h text) as Hk.
  destruct (arpc_send_frame false h text) as [[[]| | |] h']; try done; cbn [ends].
  - apply (set_pipe_next c h); [done..|by rewrite Hk].
  - apply (next_set_pipe_failed c h); [done..|by rewrite Hk].
Qed.

Lemma recv_frame_ends c :
  client_sane c ->
  ends (fun '(c', f) => client_next c c' /\
          match f with Some f => (left_of c' + 4 <= left_of c)%nat /\ len f <= ARPC_MAX_FRAME | None => True end)
    (recv_frame c).
Proof.
  intros Hs. unfold recv_frame. destruct (cl_pipe c) as [h|] eqn:Hp; [|by split; [apply failed_next|]].
  destruct (arpc_recv_frame false h) as [[r n] h'] eqn:E. apply recv_frame_suffix in E as [Hsuf E].
  2: { destruct Hs as [_ Hb]. by rewrite Hp in Hb. }
  destruct r as [[b l]| | |]; try done.
  - split; [by apply (set_pipe_next c h)|]. unfold left_of. rewrite Hp. exact E.
  - split; [|done]. by apply (next_set_pipe_failed c h).
Qed.

Lemma call_kind_ends n kinds i x which handle d args c :
  (forall name call, (name, call) ∈ kinds -> (name, call) ∈ @cb_kinds U W H ST) ->
  stubs_end -> transactor_ends n x -> client_sane c -> (left_of c < n)%nat ->
  ends (fun '(c', v) => client_next c c' /\ i64_min <= v <= i64_max) (call_kind kinds i x which handle d args c).
Proof.
  intros Hin Hst Hx Hs Hn. assert (Hzero : client_next c c /\ i64_min <= 0 <= i64_max) by (by split).
  revert i. induction kinds as [|[name call] kinds IH]; intros i; cbn [call_kind]; [exact Hzero|].
  destruct (streq name which).
  - cbn zeta. destruct (_ =? 0); [exact Hzero|]. eapply Hst; [|done..]. apply Hin, list_elem_of_here.
  - apply IH. intros nm cl Hc. apply Hin. by apply list_elem_of_further.
Qed.

Lemma dispatch_ends n x d j c :
  stubs_end -> transactor_ends n x -> reads d 0 (Some j) -> in_range j -> client_sane c -> (left_of c < n)%nat ->
  ends (fun '(c', _) => client_next c c') (arpc_dispatch_callback x d c).
Proof.
  intros Hst Hx Hd Hj Hs Hn. unfold arpc_dispatch_callback.
  destruct (aj_member_reads d 0 _ (lit "cb") Hd) as (n1 & -> & H1').
  destruct (aj_member_reads d 0 _ (lit "seq") Hd) as (n2 & -> & H2').
  destruct (aj_member_reads d 0 _ (lit "handle") Hd) as (n3 & -> & H3').
  destruct (aj_member_reads d 0 _ (lit "args") Hd) as (n4 & -> & H4').
  cbn [mbind outcome_bind]. rewrite !(aj_i64_reads _ _ _ _ H2'). fold (cb_seq j).
  assert (Hq : i64_min <= cb_seq j <= i64_max) by (by apply member_i64_range).
  eapply ends_bind; [by apply (call_kind_ends n)|]. intros [c1 v] [Hc1 Hv].
  unfold ajw_obj_begin, ajw_obj_end. pose proof winv_init. wends. exact Hc1.
Qed.

Lemma transact_with_ends n loop :
  (forall c, client_sane c -> (left_of c < n)%nat -> ends (fun '(c', r) => client_next c c' /\ got r) (loop c)) ->
  transactor_ends n (transact_with loop).
Proof.
  intros Hl req c Hs Hn. unfold transact_with. eapply ends_bind; [by apply send_frame_ends|].
  intros [c1 sent] Hc1. destruct sent; [|by split]. eapply ends_weaken; [apply Hl; [apply Hc1|destruct Hc1; lia]|].
  intros [c2 r] [Hc2 Hr]. split; [by eapply cnext_trans|done].
Qed.

Lemma transact_loop_ends fuel : stubs_end -> forall c,
  client_sane c -> (left_of c < fuel)%nat -> ends (fun '(c', r) => client_next c c' /\ got r) (transact_loop fuel c).
Proof.
  intros Hst. induction fuel as [|fuel IH]; intros c Hs Hn; [lia|]. cbn [transact_loop].
  eapply ends_bind; [by apply recv_frame_ends|]. intros [c1 [f|]] [Hc1 Hf]; [|by split]. destruct Hf as [Hl Hf].
  pose proof (cstr_length f). pose proof (aj_parse_sim (cstr f) ltac:(lia)) as Hp.
  pose proof (ref_parse_defined (cstr f)) as [_ Hdf].
  destruct (aj_parse (cstr f)) as [d| | |]; [| |done|by destruct (ref_parse (cstr f))].
  2: { split; [|done]. apply disconnect_next. split; [apply Hc1|apply Hc1]. }
  destruct (ref_parse (cstr f)) as [j| | |] eqn:Er; [|done..]. destruct Hp as [Hd _].
  destruct (aj_member_reads d 0 _ (lit "cb") Hd) as (n & -> & _). cbn [mbind outcome_bind].
  destruct (n <? 0); [by split|].
  eapply ends_bind.
  { apply (dispatch_ends fuel _ d j); [done|by apply transact_with_ends|done|by apply (ref_parse_fits _ _ Er)|apply Hc1|lia]. }
  intros [c2 w] Hc2. destruct (w_err w); [by split; [eapply cnext_trans|]|].
  eapply ends_bind; [apply send_frame_ends, Hc2|]. intros [c3 sent] Hc3.
  pose proof (cnext_trans _ _ _ Hc1 (cnext_trans _ _ _ Hc2 Hc3)) as Hc13. destruct sent; [|by split].
  eapply ends_weaken; [apply IH; [apply Hc13|destruct Hc2, Hc3; lia]|].
  intros [c4 r] [Hc4 Hr]. split; [by eapply cnext_trans|done].
Qed.
Lemma transact_ends fuel : stubs_end -> transactor_ends fuel (transact fuel).
Proof. intros Hst. apply transact_with_ends. by apply transact_loop_ends. Qed.

(** *** A call *)

Definition call_sane (ca : arpc_call) : Prop := winv (ca_req ca).

Lemma on_req_ends ca f : call_sane ca -> (forall w, winv w -> ends winv (f w)) -> ends call_sane (on_req ca f).
Proof. intros Hc Hf. unfold on_req. eapply ends_bind; [by apply Hf|]. done. Qed.

Lemma write_all_ends {X} (f : aj_w -> X -> outcome aj_w) (Q : X -> Prop) l :
  (forall w x, winv w -> Q x -> ends winv (f w x)) -> Forall Q l -> forall w, winv w -> ends winv (write_all f w l).
Proof.
  intros Hf. induction 1 as [|x l Hx _ IH]; intros w Hw; [done|]. cbn [write_all].
  eapply ends_bind; [by apply Hf|]. apply IH.
Qed.

Lemma array_ends ca (f : aj_w -> outcome aj_w) :
  call_sane ca -> (forall w, winv w -> ends winv (f w)) ->
  ends call_sane (on_req ca (fun w => w ← ajw_arr_begin w; w ← f w; ajw_arr_end w)).
Proof.
  intros Hc Hf. apply on_req_ends; [done|]. intros w Hw. unfold ajw_arr_begin, ajw_arr_end.
  eapply ends_bind; [by apply wopen_ends|]. intros w1 Hw1. eapply ends_bind; [by apply Hf|]. intros. by apply wclose_ends.
Qed.

Lemma arg_run_ends ca a : call_sane ca -> arg_ok a -> ends call_sane (arg_run ca a).
Proof.
  intros Hc Ha. destruct a as [|s|v|id|[b|]]; cbn [arg_run arg_ok] in *; try (apply on_req_ends; [done|]).
  - apply null_ends.
  - intros. by apply str_ends.
  - intros. by apply i64_ends.
  - intros. apply i64_ends; [done|by apply i64_of_u64_range].
  - unfold arpc_put_bytes, encode_or_null. pose proof (b64_encode_ends b) as Hb.
    destruct (arpc_b64_encode b) as [s| | |]; try done; cbn [mbind outcome_bind];
      (apply on_req_ends; [done|]); intros; by apply str_ends.
  - apply null_ends.
Qed.

Lemma put_run_ends ca p : call_sane ca -> put_ok p -> ends call_sane (put_run ca p).
Proof.
  intros Hc Hp. destruct p as [a|l|l|fields]; cbn [put_run put_ok] in *.
  - by apply arg_run_ends.
  - unfold arpc_put_str_list. destruct l as [|s l]; [apply on_req_ends; [done|apply null_ends]|].
    apply array_ends; [done|]. apply (write_all_ends _ str_ok); [|done]. intros. by apply str_ends.
  - unfold arpc_put_handle_list. destruct l as [|s l]; [apply on_req_ends; [done|apply null_ends]|].
    apply array_ends; [done|]. eapply write_all_ends; [|exact Hp]. intros w x Hw Hx.
    apply i64_ends; [done|by apply i64_of_u64_range].
  - eapply ends_bind; [apply on_req_ends; [done|]; intros; by apply wopen_ends|]. intros ca1 Hc1.
    eapply ends_bind; [|intros ca2 Hc2; apply on_req_ends; [done|]; intros; by apply wclose_ends].
    revert ca1 Hc1. induction Hp as [|[k a] fields [_ Ha] _ IH]; intros ca1 Hc1; [done|]. cbn [fields_run].
    eapply ends_bind; [apply on_req_ends; [done|]; intros; by apply key_ends|]. intros ca2 Hc2.
    eapply ends_bind; [by apply arg_run_ends|]. intros ca3 Hc3. by apply IH.
Qed.

Lemma puts_run_ends ps : Forall put_ok ps -> forall ca, call_sane ca -> ends call_sane (puts_run ca ps).
Proof.
  induction 1 as [|p ps Hp _ IH]; intros ca Hc; [done|]. cbn [puts_run].
  eapply ends_bind; [by apply put_run_ends|]. apply IH.
Qed.

Lemma begin_request_ends m c :
  client_sane c -> ends (fun '(c', ca) => client_next c c' /\ call_sane ca) (begin_request m c).
Proof.
  intros Hs. pose proof Hs as [Hid Hb]. unfold begin_request. destruct (Z.eqb_spec (cl_next_id c) i64_max); [done|]. cbn zeta.
  unfold ajw_obj_begin, ajw_arr_begin. pose proof winv_init. wends.
  assert (client_next c (cl_set_next_id c (cl_next_id c + 1))).
  { split; [|done]. split; [cbn; unfold i64_min, i64_max in *; lia|done]. }
  by split.
Qed.

Lemma check_reply_ends ca rsp c :
  len rsp <= ARPC_MAX_FRAME -> client_sane c -> ends (fun '(c', _, _) => client_next c c') (check_reply ca rsp c).
Proof.
  intros Hl Hs. pose proof (cstr_length rsp). unfold check_reply.
  pose proof (aj_parse_sim (cstr rsp) ltac:(lia)) as Hp. pose proof (ref_parse_defined (cstr rsp)) as [_ Hdf].
  destruct (aj_parse (cstr rsp)) as [d| | |]; [|by split|done|by destruct (ref_parse (cstr rsp))].
  destruct (ref_parse (cstr rsp)) as [j| | |]; [|done..]. destruct Hp as [Hd _]. cbn zeta.
  destruct (aj_member_reads d 0 _ (lit "id") Hd) as (n & -> & _). cbn [mbind outcome_bind].
  destruct (negb _); [by apply failed_next|].
  destruct (aj_member_reads d 0 _ (lit "error") Hd) as (e & -> & He). cbn [mbind outcome_bind].
  destruct (0 <=? e).
  - destruct (aj_member_reads d e _ (lit "message") He) as (m & -> & _). cbn [mbind outcome_bind].
    destruct (aj_member_reads d e _ (lit "code") He) as (k & -> & _). cbn [mbind outcome_bind]. by split.
  - destruct (aj_member_reads d 0 _ (lit "result") Hd) as (r & -> & _). by apply cnext_refl.
Qed.

Lemma invoke_ends n x ca c :
  transactor_ends n x -> call_sane ca -> client_sane c -> (left_of c < n)%nat ->
  ends (fun '(c', _, _) => client_next c c') (arpc_invoke x ca c).
Proof.
  intros Hx Hc Hs Hn. unfold arpc_invoke, ajw_arr_end, ajw_obj_end.
  eapply ends_bind; [by apply wclose_ends|]. intros w Hw. eapply ends_bind; [by apply wclose_ends|]. intros w1 Hw1.
  cbn zeta. destruct (w_err w1); [by split|].
  eapply ends_bind; [by apply Hx|]. intros [c1 [rsp|]] [Hc1 Hr]; [|done].
  eapply ends_weaken; [apply check_reply_ends; [done|apply Hc1]|]. intros [[c2 ca2] ok] Hc2. by eapply cnext_trans.
Qed.

Lemma style_request_ends n x c :
  transactor_ends n x -> client_sane c -> (left_of c < n)%nat -> ends (fun '(c', _) => client_next c c') (style_request x c).
Proof.
  intros Hx Hs Hn. unfold style_request, set_path_style. destruct win32_paths; [|by apply cnext_refl].
  apply (ends_bind (fun '(c', ca) => client_next c c' /\ match ca with Some ca => call_sane ca | None => True end)).
  { eapply ends_bind; [by apply begin_request_ends|]. intros [c1 ca] Hca. exact Hca. }
  intros [c1 [ca|]] [Hc1 Hca]; [|done].
  eapply ends_bind; [apply on_req_ends; [done|]; intros; by apply str_ends|]. intros ca1 Hca1.
  eapply ends_bind; [apply (invoke_ends n x); [done|done|apply Hc1|destruct Hc1; lia]|].
  intros [[c2 ca2] ok] Hc2. pose proof (cnext_trans _ _ _ Hc1 Hc2). destruct ok; [done|by apply disconnect_next].
Qed.

(** What a server that is connected to has to say is bounded. *)
Definition fresh_pipes (n : nat) : Prop :=
  forall w name h w', CreateFileA w name = (Some h, w') -> is_bytes (incoming h) /\ (length (incoming h) < n)%nat.

Definition within (n : nat) c : Prop := client_sane c /\ (left_of c < n)%nat.

Lemma begin_ends n x m c :
  transactor_ends n x -> fresh_pipes n -> (0 < n)%nat -> within n c ->
  ends (fun '(c', ca) => within n c' /\ match ca with Some ca => call_sane ca | None => True end) (arpc_begin x m c).
Proof.
  intros Hx Hfr Hn0 [Hs Hn]. unfold arpc_begin. apply (ends_bind (fun '(c', _) => within n c')).
  - destruct (cl_pipe c) as [h|] eqn:Hp; [by rewrite connected_stays by congruence|].
    destruct (open_endpoint_spec c Hp) as (c' & r & E & Hid & Hc).
    assert (Hnone : cl_pipe c' = None -> within n c').
    { intros Hpc. split; [|unfold left_of; by rewrite Hpc]. split; [rewrite Hid; apply Hs|by rewrite Hpc]. }
    assert (within n c' /\ (0 < r -> cl_pipe c' <> None)) as [[Hs' Hn'] Hr].
    { destruct Hc as [(-> & Hpc & _)|(me & name & _ & _ & Ht & _)]; [split; [by apply Hnone|lia]|].
      split; [|intros Hr; by apply (tried_pipe me name _ _ r Ht)].
      destruct Ht as [_ [[_ (w & h & w' & Ec & _ & Hpc & _)]|(_ & Hpc & _)]]; [|by apply Hnone].
      destruct (Hfr _ _ _ _ Ec) as [Hb Hl]. split; [|unfold left_of; by rewrite Hpc].
      split; [rewrite Hid; apply Hs|by rewrite Hpc]. }
    rewrite (ensure_connected_opened 1 x c c' r Hp E Hr). destruct (0 <? r); [|by split].
    eapply ends_weaken; [by apply (style_request_ends n)|]. intros [c2 ok] [? ?]. split; [done|lia].
  - intros [c1 ok] [Hs1 Hn1]. destruct ok; [|by split]. eapply ends_bind; [by apply begin_request_ends|].
    intros [c2 ca] [[? ?] Hca]. split; [split; [done|lia]|done].
Qed.

Lemma stub_call_ends n x m ps c :
  transactor_ends n x -> fresh_pipes n -> Forall put_ok ps -> (0 < n)%nat -> within n c ->
  ends (fun '(c', _) => within n c') (stub_call x m ps c).
Proof.
  intros Hx Hfr Hps Hn0 Hw. unfold stub_call. eapply ends_bind; [by apply begin_ends|].
  intros [c1 [ca|]] [[Hs1 Hn1] Hca]; [|done]. eapply ends_bind; [by apply puts_run_ends|]. intros ca1 Hca1.
  eapply ends_bind; [by apply (invoke_ends n x)|]. intros [[c2 ca2] ok] [? ?]. split; [done|lia].
Qed.
End ClientEnds.

(** ** Properties *)

Section Theorems.
Context {A : Allocator} {P : Placement} {U : Uthash} {W H : Type}.

(** C18. The client speaks to a server of its own user at its own elevation or
    to nobody.  Connecting ends, and gives the same whatever an exchange
    would do over any pipe but one opened under the client's endpoint name to
    a process of the client's identity: nothing is sent anywhere else.  A
    pipe of that name that somebody else holds is closed and refused for
    good: no server is started, no second try is made. *)
Theorem connect_correct `{HO : HandleOps H, WN : !Win W H, ST : !Stubs W H} (x x' : transactor W H) (c : client W H) :
  cl_pipe c = None ->
  (forall me name req c', identity_of c = Some me -> endpoint_of c name -> opened_to me name c' -> x req c' = x' req c') ->
  ensure_connected 2 x c = ensure_connected 2 x' c /\
  (forall c', win32_paths = false -> ensure_connected 2 x c = Ret (c', true) ->
     exists me name, identity_of c = Some me /\ endpoint_of c name /\ opened_to me name c') /\
  (forall me name h w, identity_of c = Some me -> endpoint_of c name ->
     CreateFileA (cl_world c) name = (Some h, w) -> arpc_peer_is (win_peer w h) me = false ->
     exists c', ensure_connected 2 x c = Ret (c', false) /\ cl_pipe c' = None /\ cl_world c' = CloseHandle w h).
Proof.
  intros Hp Hx. destruct (open_endpoint_spec c Hp) as (c1 & r & E & _ & Hc).
  assert (Hr : 0 < r -> cl_pipe c1 <> None).
  { destruct Hc as [(-> & _)|(me & name & _ & _ & Ht & _)]; [lia|]. intros Hr. by apply (tried_pipe me name _ _ r Ht). }
  rewrite !(ensure_connected_opened 1 _ c c1 r Hp E Hr). split_and!.
  - destruct (Z.ltb_spec 0 r) as [Hr0|]; [|done]. destruct Hc as [(-> & _)|(me & name & Hi & He & Ht & _)]; [lia|].
    apply (style_agrees me name); [by apply (tried_pipe me name _ _ r Ht)|]. intros req c' Ho. by eapply Hx.
  - intros c' Hw. destruct (Z.ltb_spec 0 r) as [Hr0|]; [|done]. unfold style_request, set_path_style. rewrite Hw.
    intros [= <-]. destruct Hc as [(-> & _)|(me & name & Hi & He & Ht & _)]; [lia|].
    exists me, name. split_and!; [done|done|by apply (tried_pipe me name _ _ r Ht)].
  - intros me name h w Hi He Eh Hpe. destruct Hc as [(_ & _ & Hno)|(me' & name' & Hi' & He' & Ht & Hpeer)].
    { by destruct (Hno me name). }
    assert (me' = me) as -> by congruence. rewrite (endpoint_unique c name' name He' He) in *.
    destruct (Hpeer h w Eh Hpe) as [-> Hw]. exists c1. split_and!; [done| |done].
    destruct Ht as [_ [[? _]|(_ & ? & _)]]; done.
Qed.

(** C14. The callbacks that arrive before the reply are served in the order in
    which they come, each with the function registered for its name and
    handle, and each answered, before a byte of the next frame is read, with
    its own sequence number and the function's value; the first frame that is
    not a callback is the reply; what crosses the pipe, in this order, is the
    request, then every callback followed by its answer, then the reply, and
    nothing after the reply is read.  That is on a pipe that stays connected,
    for callbacks that make no call of their own, and as long as no memory is
    refused; on a handle that keeps its history, what is said here of the
    order is what the history says ([Logged.moves_logged]). *)
Theorem transact_correct `{HH : Handle H, !Connected H, WN : !Win W H, ST : !Stubs W H} fuel text (c : client W H) h fs ws c2 reply rest :
  TotalAllocator A -> cl_pipe c = Some h -> len text < 4294967296 -> answered c fs ws c2 ->
  Forall (fun f => 0 < len f <= ARPC_MAX_FRAME) (fs ++ [reply]) -> is_reply reply ->
  incoming h = concat (frame <$> fs) ++ frame reply ++ rest -> (length fs < fuel)%nat ->
  exists h', transact fuel text c = Ret (cl_set_pipe c2 (Some h'), Some reply) /\
    incoming h' = rest /\ outgoing h' = outgoing h ++ frame text ++ concat (frame <$> ws) /\
    moves h (outs (frame text) ++ turns fs ws ++ ins (frame reply)) h'.
Proof. intros HA. by apply transact_answered. Qed.

(** C21. A call ends, connecting included, however the heap and the pipe
    behave, whatever the server sends, and whatever callbacks it raises on
    the way, the calls made from inside those included, as long as the
    callers' functions end when their calls do: with less than [n] bytes to
    come on the pipe, or on the one that is opened, [n] rounds are enough. *)
Theorem call_ends `{HS : Steady H, WN : !Win W H, ST : !Stubs W H} n method ps (c : client W H) :
  stubs_end -> fresh_pipes n -> Forall put_ok ps -> (0 < n)%nat ->
  i64_min <= cl_next_id c <= i64_max ->
  (forall h, cl_pipe c = Some h -> is_bytes (incoming h) /\ (length (incoming h) < n)%nat) ->
  match stub_call (transact n) method ps c with
  | Ret (c', _) => i64_min <= cl_next_id c' <= i64_max /\
      (forall h, cl_pipe c' = Some h -> is_bytes (incoming h) /\ (length (incoming h) < n)%nat)
  | NoFuel => False
  | _ => True
  end.
Proof.
  intros Hst Hfr Hps Hn Hid Hc.
  assert (Hw : within n c).
  { unfold within, client_sane, left_of. destruct (cl_pipe c) as [h|]; [destruct (Hc h eq_refl)|]; done. }
  pose proof (stub_call_ends n (transact n) method ps c (transact_ends n Hst) Hfr Hps Hn Hw) as He.
  destruct (stub_call (transact n) method ps c) as [[c' r]| | |]; [|done..]. destruct He as [[Hid' Hb] Hl].
  split; [done|]. intros h Hh. unfold left_of in Hl. by rewrite Hh in Hb, Hl.
Qed.
End Theorems.

(** ** The properties at work *)

Section Toy.
#[local] Existing Instance Chain.chain.
#[local] Existing Instance Chain.above.
#[local] Existing Instance Trickle.ops.
#[local] Existing Instance Trickle.handle.
#[local] Existing Instance Trickle.connected.
#[local] Existing Instance Ends.trickle_steady.
#[local] Existing Instance ToyClient.win.
#[local] Existing Instance ToyClient.stubs.

(** Somebody else has the pipe. *)
Definition foreign : client ToyClient.world Trickle.pipe :=
  client0 (ToyClient.World (Some (Trickle.Pipe [] [] 0 [])) false 0).

Definition toy_identity : arpc_identity := Identity (lit "S-1-5-21") 8192.
Definition toy_endpoint : list Z := pipe_text (pipe_hash (lit "C:\msys64") toy_identity).

Lemma connect_correct_witness :
  exists c', ensure_connected (A:=ample) 2 toy_exchange foreign = Ret (c', false) /\ cl_pipe c' = None /\
    cl_world c' = ToyClient.World (Some (Trickle.Pipe [] [] 0 [])) false 1.
Proof.
  destruct (connect_correct (A:=ample) toy_exchange toy_exchange foreign eq_refl (fun _ _ _ _ _ _ _ => eq_refl)) as (_ & _ & H).
  destruct (H toy_identity toy_endpoint (Trickle.Pipe [] [] 0 []) (cl_world foreign)) as (c' & E & Hp & Hw).
  - reflexivity.
  - exists (lit "C:\msys64"). split; vm_compute; reflexivity.
  - reflexivity.
  - vm_compute. reflexivity.
  - exists c'. split; [exact E|]. split; [exact Hp|]. rewrite Hw. reflexivity.
Defined.

Definition toy_callback : list Z := qlit "{`cb`:`log`,`seq`:5,`handle`:1099511627777,`args`:{}}".
Definition toy_callback2 : list Z := qlit "{`seq`:6,`cb`:`log`,`handle`:7,`args`:{}}".
Definition toy_regs : regs := set_reg [new_reg 1099511627777] 1099511627777 0 4096 9.

Definition toy_waiting : client ToyClient.world Trickle.pipe :=
  cl_set_regs (cl_set_pipe toy_client (Some (Trickle.Pipe (frame toy_callback ++ frame toy_reply) [] 0 []))) toy_regs.

(** The same Windows, with handles that keep their history. *)
#[local] Existing Instance Logged.ops.
#[local] Existing Instance Logged.handle.
#[local] Existing Instance Logged.connected.

#[local] Instance logged_win : Win ToyClient.world (Logged.logged Trickle.pipe) := {
  win_env := @win_env _ _ ToyClient.win;
  win_module := @win_module _ _ ToyClient.win;
  win_self := @win_self _ _ ToyClient.win;
  win_peer _ _ := Some (Some ToyClient.me);
  win_exists := @win_exists _ _ ToyClient.win;
  win_error := @win_error _ _ ToyClient.win;
  CreateFileA w _ := (None, w);
  CreateProcessA := @CreateProcessA _ _ ToyClient.win;
  Sleep := @Sleep _ _ ToyClient.win;
  CloseHandle w _ := w
}.

#[local] Instance logged_stubs : Stubs (H:=Chain.chain) ToyClient.world (Logged.logged Trickle.pipe) := {
  cb_kinds := [(lit "log", fun _ _ ctx _ _ c => Ret (c, if ctx =? 9 then 9 else 0))];
  win32_paths := false
}.

Definition toy_logged : client ToyClient.world (Logged.logged Trickle.pipe) :=
  cl_set_regs (cl_set_pipe (client0 (ToyClient.World None true 0))
    (Some (Logged.Log (Trickle.Pipe (frame toy_callback ++ frame toy_callback2 ++ frame toy_reply ++ [1; 2]) [] 0 []) [] [])))
    toy_regs.

(** Two callbacks before the reply: the history of the pipe shows each
    answered before the next frame is touched. *)
Lemma transact_correct_witness :
  exists h', transact (A:=ample) 3 (lit "x") toy_logged = Ret (cl_set_pipe toy_logged (Some h'), Some toy_reply) /\
    incoming h' = [1; 2] /\
    Logged.lg_log h' = outs (frame (lit "x")) ++
      ins (frame toy_callback) ++ outs (frame (qlit "{`cbseq`:5,`@ret`:9}")) ++
      ins (frame toy_callback2) ++ outs (frame (qlit "{`cbseq`:6,`@ret`:0}")) ++
      ins (frame toy_reply).
Proof.
  destruct (transact_correct (A:=ample) 3 (lit "x") toy_logged _ [toy_callback; toy_callback2]
    [qlit "{`cbseq`:5,`@ret`:9}"; qlit "{`cbseq`:6,`@ret`:0}"]
    toy_logged toy_reply [1; 2] ample_total eq_refl) as (h' & E & Hi & _ & Hm).
  - by vm_compute.
  - eapply (answered_cons _ _ (JObj [(lit "cb", JStr (lit "log")); (lit "seq", JNum 5); (lit "handle", JNum 1099511627777);
      (lit "args", JObj [])]) toy_logged 9); [vm_compute; reflexivity|done| |done|].
    { intros x d args p _. vm_compute. reflexivity. }
    eapply (answered_cons _ _ (JObj [(lit "seq", JNum 6); (lit "cb", JStr (lit "log")); (lit "handle", JNum 7);
      (lit "args", JObj [])]) toy_logged 0); [vm_compute; reflexivity|done| |done|apply answered_nil].
    intros x d args p _. vm_compute. reflexivity.
  - repeat constructor; by vm_compute.
  - eexists. split; [vm_compute; reflexivity|reflexivity].
  - vm_compute. reflexivity.
  - cbn. lia.
  - exists h'. split; [exact E|]. split; [exact Hi|]. rewrite (Logged.moves_logged _ _ _ Hm). reflexivity.
Defined.

(** A Windows whose one listener calls back and answers. *)
Definition toy_listener : Trickle.pipe := Trickle.Pipe (frame toy_callback ++ frame toy_reply ++ [1; 2]) [] 0 [].

#[local] Instance listening : Win ToyClient.world Trickle.pipe := {
  win_env := @win_env _ _ ToyClient.win;
  win_module := win_module;
  win_self := win_self;
  win_peer _ _ := Some (Some ToyClient.me);
  win_exists := win_exists;
  win_error := win_error;
  CreateFileA w _ := (Some toy_listener, w);
  CreateProcessA := CreateProcessA;
  Sleep := Sleep;
  CloseHandle := CloseHandle
}.

Lemma toy_stubs_end : stubs_end (W:=ToyClient.world) (H:=Trickle.pipe).
Proof.
  intros n name call [[= -> ->]|[]%not_elem_of_nil]%elem_of_cons x _ fn ctx d args c Hs _. split; [by apply cnext_refl|].
  by destruct (ctx =? 9).
Qed.

Lemma toy_fresh : fresh_pipes (W:=ToyClient.world) (H:=Trickle.pipe) 120.
Proof.
  intros w name h w' [= <- <-]. split; [by apply (bool_decide_unpack (is_bytes (incoming toy_listener)))|].
  apply Nat.ltb_lt. by vm_compute.
Qed.

Definition toy_start : client ToyClient.world Trickle.pipe := client0 (ToyClient.World None true 0).

Lemma call_ends_witness :
  exists c' ca, stub_call (A:=ample) (transact (A:=ample) 120) (lit "alpm_a") toy_puts toy_start =
    Ret (c', Some (ca, true)) /\ i64_min <= cl_next_id c' <= i64_max.
Proof.
  assert (Hps : Forall put_ok toy_puts) by (by destruct toy_call_ok as (_ & _ & _ & _ & ? & _)).
  assert (H := call_ends (A:=ample) 120 (lit "alpm_a") toy_puts toy_start
    toy_stubs_end toy_fresh Hps (Nat.lt_0_succ _) ltac:(done) ltac:(intros h [=])).
  destruct (stub_call (transact (A:=ample) 120) _ _ _) as [[c' r]| | |] eqn:E.
  - vm_compute in E. injection E as <- <-. eexists _, _. split; [reflexivity|exact (proj1 H)].
  - vm_compute in E. discriminate E.
  - vm_compute in E. discriminate E.
  - destruct H.
Defined.
End Toy.
