(* ===== verification/Bridge.v ===== *)
(** * The two ends together

    A call as the client makes it, of src/client/arpc_client.c, and as the
    server serves it, of src/server/arpc_server.c; and a callback as the
    server raises it, of src/server/arpc_callbacks.c, and as the client
    answers it, of src/client/arpc_callbacks.c.  Nothing is modelled here:
    the functions are those of the other files. *)

From S2P Require Import Prelude Json JsonWriter JsonReader JsonRef JsonArena JsonAccess JsonBytes.
From S2P Require Import Base64 Wire CbRegistry HandleTable HandleSpec HandleTheorems Paths Gpgdir.
From S2P Require Import Lookup Server Mtree Dispatch DispatchTheorems Connection ConnectionTheorems Ends.
From S2P Require Import Uthash Cache Groups ClientState Client ClientCalls ClientTheorems.

(** ** What gets across *)

(** A tree whose text a frame holds and the parser takes. *)
Definition fits_wire (j : json) : Prop :=
  wf_json j /\ jdepth j <= AJ_MAX_DEPTH /\ len (render j) <= ARPC_MAX_FRAME.

Lemma no_nul_app s t : no_nul s -> no_nul t -> no_nul (s ++ t).
Proof. intros. by apply Forall_app. Qed.

Lemma no_nul_cstr s : is_bytes s -> no_nul (cstr s).
Proof.
  induction 1 as [|c s Hc _ IH]; [constructor|]. cbn. destruct (Z.eqb_spec c 0); [constructor|].
  constructor; [unfold is_byte in Hc; lia|done].
Qed.

Lemma digits_no_nul n : forall u, 0 <= u -> no_nul (digits n u).
Proof.
  induction n as [|n IH]; intros u Hu; [constructor|]. cbn [digits]. apply no_nul_app.
  - destruct (u <? 10); [constructor|]. apply IH. by apply Z.div_pos.
  - constructor; [|constructor]. pose proof (Z.mod_pos_bound u 10 ltac:(lia)). lia.
Qed.

Lemma render_str_no_nul s : no_nul s -> no_nul (render_str s).
Proof.
  intros Hs. unfold render_str. apply no_nul_app; [repeat constructor|]. apply no_nul_app; [|repeat constructor].
  induction Hs as [|c s Hc _ IH]; [constructor|]. unfold escs. cbn [mbind list_bind]. apply no_nul_app; [|exact IH].
  pose proof (all_below_elim 256 (fun b => bool_decide (no_nul (esc b))) c ltac:(by vm_compute) ltac:(lia)) as E. cbn beta in E.
  by apply bool_decide_eq_true in E.
Qed.

Lemma render_no_nul j : wf_json j -> no_nul (render j).
Proof.
  induction j as [|b|z|s|o kids IH] using json_rect_nested; intros Hwf.
  - by apply (bool_decide_unpack (no_nul _)).
  - destruct b; by apply (bool_decide_unpack (no_nul _)).
  - apply no_nul_app; [destruct (z <? 0); repeat constructor|]. apply digits_no_nul. lia.
  - by apply render_str_no_nul.
  - apply wf_json_cont in Hwf. rewrite render_cont. apply no_nul_app; [destruct o; repeat constructor|].
    apply no_nul_app; [|destruct o; repeat constructor]. generalize false as c.
    induction Hwf as [|[k v] kids [Hk Hv] _ IHk]; intros c; [constructor|]. cbn [render_kids fst snd] in *.
    apply Forall_cons in IH as [IHv IH]. apply no_nul_app; [destruct c; repeat constructor|]. apply no_nul_app.
    + destruct o; [|constructor]. apply no_nul_app; [by apply render_str_no_nul|repeat constructor].
    + apply no_nul_app; [by apply IHv|]. by apply IHk.
Qed.

(** The text of such a tree is read back as the tree. *)
Lemma carried j : fits_wire j -> cstr (render j) = render j /\ ref_parse (render j) = Ret j.
Proof. intros (Hw & Hd & _). split; [by apply cstr_no_nul, render_no_nul|by apply ref_parse_render]. Qed.

(** ** Callbacks *)

Lemma answer_fits seq v : i64_min <= seq <= i64_max -> i64_min <= v <= i64_max -> fits_wire (answer_json seq v).
Proof.
  intros Hs Hv. split; [|split].
  - apply wf_json_cont. constructor; [split; [by apply (bool_decide_unpack (no_nul _))|done]|].
    constructor; [split; [by apply (bool_decide_unpack (no_nul _))|done]|constructor].
  - by vm_compute.
  - pose proof (answer_length seq v). unfold ARPC_MAX_FRAME. lia.
Qed.

Lemma answer_value_answer seq v dflt :
  i64_min <= seq <= i64_max -> i64_min <= v <= i64_max -> answer_value (render (answer_json seq v)) seq dflt = v.
Proof.
  intros Hs Hv. unfold answer_value. destruct (carried _ (answer_fits seq v Hs Hv)) as [-> ->].
  cbn [answer_json JObj t_member first_member t_i64]. change (streq (lit "cbseq") (lit "cbseq")) with true.
  cbn iota. cbn [t_i64]. rewrite Z.eqb_refl. reflexivity.
Qed.

Section Dispatched.
Context {A : Allocator} {P : Placement} {U : Uthash} {W H : Type} {HO : HandleOps H} {WN : Win W H} {ST : Stubs W H}.

(** The client's dispatch of a frame: the state and the frame it answers
    with. *)
Definition dispatches (x : transactor W H) (frame : list Z) (c c' : client W H) (ans : list Z) : Prop :=
  exists d w, aj_parse (cstr frame) = Ret d /\ arpc_dispatch_callback x d c = Ret (c', w) /\
    w_err w = false /\ w_buf w = ans.
End Dispatched.

Section Callback.
Context {A : Allocator} {HA : TotalAllocator A} {T : Tags} {P : Placement} {U : Uthash}.
Context {W H : Type} {HP : Gpgme W} {R : Archive W} {GEN : Generated W H}.
Context {W' H' : Type} {HO : HandleOps H'} {WN : Win W' H'} {ST : Stubs W' H'}.

Lemma member_hd k v kids : t_member (Some (JObj ((k, v) :: kids))) k = Some v.
Proof. cbn. unfold streq. by rewrite bool_decide_true. Qed.

Lemma member_tl k k' v kids :
  streq k' k = false -> t_member (Some (JObj ((k', v) :: kids))) k = t_member (Some (JObj kids)) k.
Proof. cbn. by intros ->. Qed.

(** The parts of a callback, as the client reads them. *)
Lemma callback_parts name seq handle args :
  no_nul name -> 0 <= handle < 18446744073709551616 ->
  let j := callback_json name seq handle args in
  cb_name j = name /\ cb_seq j = seq /\ cb_handle j = handle /\ cb_args j = Some args /\
  t_member (Some j) (lit "cb") <> None.
Proof.
  intros Hn Hh j. subst j. unfold cb_name, cb_seq, cb_handle, cb_args, callback_json.
  rewrite member_hd, (cstr_no_nul name) by done. cbn [t_str].
  rewrite !(member_tl _ (lit "cb")), member_hd by (by vm_compute). cbn [t_i64].
  rewrite !(member_tl _ (lit "seq")), member_hd by (by vm_compute). cbn [t_i64].
  rewrite u64_i64_of_u64 by done. rewrite !(member_tl _ (lit "handle")), member_hd by (by vm_compute).
  by rewrite cstr_no_nul.
Qed.

(** The client serves the server's callback. *)
Lemma callback_served (x : transactor W' H') (c c' : client W' H') k call name seq handle args v :
  no_nul name -> 0 <= handle < 18446744073709551616 -> i64_min <= seq <= i64_max -> i64_min <= v <= i64_max ->
  fits_wire (callback_json name seq handle args) -> is_kind cb_kinds name k call ->
  let fn := arpc_cb_fn (cl_regs c) handle (Z.of_nat k) in
  (fn = 0 -> c' = c /\ v = 0) ->
  (fn <> 0 -> forall d n, reads d n (Some args) ->
     call x fn (arpc_cb_ctx (cl_regs c) handle (Z.of_nat k)) d n c = Ret (c', v)) ->
  dispatches x (render (callback_json name seq handle args)) c c' (render (answer_json seq v)).
Proof.
  intros Hn Hh Hs Hv Hf Hk fn H0 Hcall. destruct (carried _ Hf) as [Ec Er]. destruct Hf as (_ & _ & Hl).
  destruct (callback_parts name seq handle args Hn Hh) as (E1 & E2 & E3 & E4 & _).
  set (j := callback_json name seq handle args) in *.
  destruct (parse_reads (render j) j Hl Er) as (d & Ed & Hd).
  destruct (dispatch_callback_reads x d j c Hd) as (n & Hargs & Hdisp); [by apply (ref_parse_fits _ _ Er)|].
  rewrite E1, E2, E3 in Hdisp. rewrite E4 in Hargs. destruct (Hdisp c' v) as (w & Ew & He & Hb); [|done|].
  - rewrite (proj1 (call_kind_spec cb_kinds 0 x name handle d n c) k call Hk). rewrite Z.add_0_l. fold fn. cbn zeta.
    destruct (Z.eqb_spec fn 0) as [Hz|Hz]; [by destruct (H0 Hz) as [-> ->]|by apply Hcall].
  - exists d, w. by rewrite Ec.
Qed.

(** C7. A callback, from libalpm to the caller's function and back: the frame
    the server sends carries the arguments to the function the caller
    registered for this callback on this handle, the function is called
    once, with them and the context registered with it, and what it returns
    is what libalpm gets; a callback nobody registered a function for is
    answered, with 0. This is so as long as no memory is refused. *)
Theorem callback_composed (xchg : exchanger W H) (s s' : server W H) kind (x : transactor W' H') (c c' : client W' H')
    k call name handle a args dflt v :
  arpc_cb_kinds !! Z.to_nat kind = Some name -> 0 <= kind -> no_nul name -> len name <= 2 ^ 40 ->
  0 <= sv_seq s < i64_max -> sv_conn s <> None -> 0 <= handle < 18446744073709551616 ->
  w_cap a <> 0 -> w_buf a = render args -> fits_wire (callback_json name (sv_seq s) handle args) ->
  is_kind cb_kinds name k call -> i64_min <= v <= i64_max ->
  let fn := arpc_cb_fn (cl_regs c) handle (Z.of_nat k) in
  (fn = 0 -> c' = c /\ v = 0) ->
  (fn <> 0 -> forall d n, reads d n (Some args) ->
     call x fn (arpc_cb_ctx (cl_regs c) handle (Z.of_nat k)) d n c = Ret (c', v)) ->
  let frame := render (callback_json name (sv_seq s) handle args) in
  let ans := render (answer_json (sv_seq s) v) in
  dispatches x frame c c' ans /\
  (xchg frame (set_seq s (sv_seq s + 1)) = Ret (s', Some ans) ->
   arpc_cb_send xchg kind handle (Some a) dflt s = Ret (s', v)).
Proof.
  intros Hk Hk0 Hn Hnl Hs Hconn Hh Hcap Hb Hf Hik Hv fn H0 Hcall frame.
  assert (Hsr : i64_min <= sv_seq s <= i64_max) by (unfold i64_min, i64_max in *; lia).
  intros ans. split; [by apply (callback_served x c c' k call)|].
  assert (Hal : len (render args) <= 2 ^ 59).
  { destruct Hf as (_ & _ & Hl). unfold callback_json in Hl. rewrite render_obj_length in Hl. cbn [render_kids] in Hl.
    rewrite !length_app in Hl. unfold ARPC_MAX_FRAME in Hl. lia. }
  intros Hx. rewrite (cb_send_run xchg kind name handle a args dflt s) by (done || by apply no_nul_is_bytes).
  fold frame. rewrite Hx. cbn [mbind outcome_bind]. unfold ans. rewrite cb_value_spec; [by rewrite answer_value_answer|].
  by destruct (answer_fits (sv_seq s) v Hsr Hv) as (_ & _ & ?).
Qed.
End Callback.

(** ** Calls *)

Section Call.
Context {A : Allocator} {T : Tags} {P : Placement} {U : Uthash}.
Context {W H : Type} {HP : Gpgme W} {R : Archive W} {GEN : Generated W H}.
Context {W' H' : Type} {HO : HandleOps H'} {WN : Win W' H'} {ST : Stubs W' H'}.

(** What the client makes of the server's reply. *)
Lemma answer_reply id rs kids :
  fits_wire (reply_json id rs kids) ->
  answer_of id (render (reply_json id rs kids)) =
    if rs_failed rs
    then Refused (JObj [(lit "code", JNum (rs_code rs)); (lit "message", JStr (cstr (rs_msg rs)))])
    else Result (JObj (result_members rs kids)).
Proof.
  intros Hf. unfold answer_of. destruct (carried _ Hf) as [-> ->]. unfold reply_json.
  destruct (rs_failed rs); unfold error_json, result_json; cbn zeta; rewrite member_hd; cbn [t_i64];
    rewrite Z.eqb_refl; cbn [negb].
  - by rewrite member_tl, member_hd by (by vm_compute).
  - rewrite !(member_tl (lit "error")) by (by vm_compute). cbn [t_member JObj first_member].
    fold (JObj (result_members rs kids)). change (t_member (Some (JCont true ?l)) ?k) with (first_member l k).
    change (first_member [(lit "result", JObj (result_members rs kids))] (lit "result"))
      with (Some (JObj (result_members rs kids))). done.
Qed.

(** The parts of a request, as the server reads them. *)
Lemma request_parts id method params :
  req_id (request_json id method params) = id /\ req_method (request_json id method params) = Some (cstr method) /\
  req_params (request_json id method params) = Some (JArr params).
Proof.
  unfold req_id, req_method, req_params, request_json. rewrite member_hd.
  rewrite !(member_tl _ (lit "id")) by (by vm_compute). rewrite member_hd. cbn [t_str]. rewrite cstr_idemp.
  rewrite (member_tl _ (lit "method")), member_hd by (by vm_compute). done.
Qed.

(** What a refusal leaves as the client's last error. *)
Definition refusal (rs : arpc_res) : list Z :=
  cstr (rs_msg rs) ++ lit " (" ++ fmt_num (rs_code rs) ++ lit ")".

(** C3. A call, from the stub to the handler and back: the handler of the
    method the stub named runs on a request whose parameters are, one for
    one, the trees of the stub's arguments; and if the reply reaches the
    client, the stub succeeds exactly when the handler did not fail, reads
    the very members the handler left, and otherwise has the handler's
    message and code as its last error. This is so as long as no memory is
    refused. *)
Theorem remote_call (xchg : exchanger W H) (s : server W H) (x : transactor W' H') (c c1 : client W' H')
    method ps fn rs kids :
  TotalAllocator A -> call_ok method ps c -> reachable (sv_tab s, sv_regs s) ->
  fits_wire (request_json (cl_next_id c) method (put_json <$> ps)) -> cstr method <> lit "arpc.shutdown" ->
  find_method (cstr method) = Ret (Some fn) ->
  (forall rq s1, reads (rq_doc rq) (rq_params rq) (Some (JArr (put_json <$> ps))) -> rq_bad rq = false ->
     exists s2 rq', fn (arpc_cb_send xchg) rq res0 s1 = Ret (s2, rq', rs)) ->
  res_ok rs kids -> fits_wire (reply_json (cl_next_id c) rs kids) ->
  let text := render (request_json (cl_next_id c) method (put_json <$> ps)) in
  let reply := render (reply_json (cl_next_id c) rs kids) in
  (exists s', arpc_handle_frame xchg (cstr text) s = Ret (s', Some reply)) /\
  (x text (cl_set_next_id c (cl_next_id c + 1)) = Ret (c1, Some reply) ->
   exists ca, stub_call x method ps c =
       Ret (if rs_failed rs then ClientState.set_err c1 (refusal rs) else c1, Some (ca, negb (rs_failed rs))) /\
     (rs_failed rs = false -> reads (ca_rsp ca) (ca_result ca) (Some (JObj (result_members rs kids))))).
Proof.
  intros HA Hok Hre Hfq Hsh Hfind Hfn Hrs Hfr text reply.
  destruct (carried _ Hfq) as [Eq Eqr]. destruct (request_parts (cl_next_id c) method (put_json <$> ps)) as (E1 & E2 & E3).
  split.
  - subst text. rewrite Eq.
    destruct (handle_frame_calls xchg _ _ (cstr method) fn s HA (proj2 (proj2 Hfq)) Eqr E2 Hsh Hfind Hre)
      as (rq & h & Hp & Hbad & _ & Hrun).
    destruct (arpc_gpgdir_follow _ _ h) as [w g]. rewrite E3 in Hp.
    destruct (Hfn rq (set_gpg (set_world s w) g) Hp Hbad) as (s2 & rq' & Ef).
    exists s2. pose proof (Hrun _ _ _ kids Ef Hrs) as E. rewrite E1 in E. exact E.
  - intros Hx. destruct (stub_call_run x method ps c Hok) as (w & Hb & ->). rewrite Hb. fold text. rewrite Hx.
    cbn [mbind outcome_bind]. cbn zeta. 
    destruct (check_reply_spec (Call w doc0 (cl_next_id c) (-1) false) reply c1) as (ca & -> & Hr); [apply Hfr|].
    cbn [ca_id] in *. subst reply. rewrite (answer_reply _ rs kids Hfr) in *. exists ca.
    destruct (rs_failed rs); [|split; [done|intros _; by apply Hr]]. split; [|done].
    cbn [after_answer is_result mbind outcome_bind negb]. repeat f_equal. unfold error_message, refusal.
    rewrite member_hd, (member_tl _ (lit "code")), member_hd by (by vm_compute). cbn [t_str t_i64].
    by rewrite cstr_idemp.
Qed.
End Call.

(** ** The properties at work *)

Section Toy.
#[local] Existing Instance DispatchTheorems.toy_tags.
#[local] Existing Instance unit_gpgme.
#[local] Existing Instance unit_archive.
#[local] Existing Instance toy_generated.
#[local] Existing Instance Chain.chain.
#[local] Existing Instance Chain.above.
#[local] Existing Instance Trickle.ops.
#[local] Existing Instance ToyClient.win.
#[local] Existing Instance ToyClient.stubs.

Definition answered_peer : exchanger unit unit := fun _ s => Ret (s, Some (render (answer_json 1 9))).

Lemma toy_callback_fits : fits_wire (callback_json (lit "log") 1 1099511627777 (JArr [JNum 5])).
Proof.
  split; [|split; by vm_compute]. apply wf_json_cont.
  repeat (constructor; [split; [by apply (bool_decide_unpack (no_nul _))|]|]); [| | | |constructor].
  - by apply (bool_decide_unpack (no_nul _)).
  - done.
  - done.
  - apply wf_json_cont. repeat constructor; unfold i64_min, i64_max; lia.
Qed.

Definition toy_log : cb_call ToyClient.world Trickle.pipe := fun _ _ ctx _ _ c => Ret (c, if ctx =? 9 then 9 else 0).

Lemma toy_log_kind : is_kind cb_kinds (lit "log") 0 toy_log.
Proof. split; [by exists (lit "log")|]. intros j y Hj. lia. Qed.

Lemma callback_composed_witness :
  dispatches (A:=ample) toy_exchange (render (callback_json (lit "log") 1 1099511627777 (JArr [JNum 5])))
    toy_waiting toy_waiting (qlit "{`cbseq`:1,`@ret`:9}") /\
  arpc_cb_send (A:=ample) answered_peer 0 1099511627777 (Some toy_args) 0 toy_server = Ret (set_seq toy_server 2, 9).
Proof.
  destruct (callback_composed (A:=ample) answered_peer toy_server (set_seq toy_server 2) 0 toy_exchange toy_waiting toy_waiting
    0%nat toy_log (lit "log") 1099511627777 toy_args (JArr [JNum 5]) 0 9)
    as [Hd Hs].
  - reflexivity.
  - lia.
  - by apply (bool_decide_unpack (no_nul _)).
  - by vm_compute.
  - split; [by vm_compute|reflexivity].
  - discriminate.
  - lia.
  - discriminate.
  - reflexivity.
  - exact toy_callback_fits.
  - exact toy_log_kind.
  - split; by vm_compute.
  - intros [=].
  - intros _ d n _. reflexivity.
  - split; [exact Hd|]. apply Hs. reflexivity.
Defined.

Definition toy_server_reply : list Z := qlit "{`id`:1,`result`:{`@ret`:`ok`}}".
Definition toy_serves : transactor ToyClient.world Trickle.pipe := fun _ c => Ret (c, Some toy_server_reply).
Definition toy_response : arpc_res :=
  match arpc_ret_str (A:=ample) res0 (Some (lit "ok")) with Ret rs => rs | _ => res0 end.

Lemma remote_call_witness :
  exists ca, stub_call (A:=ample) toy_serves (lit "alpm_a") [PArg (AStr (Some (lit "vim")))] toy_client =
      Ret (cl_set_next_id toy_client 2, Some (ca, true)) /\
    reads (ca_rsp ca) (ca_result ca) (Some (JObj [(ARPC_RET_KEY, JStr (lit "ok"))])).
Proof.
  destruct (remote_call (A:=ample) no_peer toy_server toy_serves toy_client (cl_set_next_id toy_client 2) (lit "alpm_a")
    [PArg (AStr (Some (lit "vim")))] toy_answers toy_response [(ARPC_RET_KEY, JStr (lit "ok"))]) as [_ Hc].
  - exact _.
  - split; [done|]. split; [done|]. split; [by apply (bool_decide_unpack (is_bytes _))|]. split; [done|].
    split; [|by vm_compute]. constructor; [by apply (bool_decide_unpack (str_ok _))|constructor].
  - exists [], []. split_and!; [constructor|done|reflexivity].
  - split; [|split; by vm_compute]. apply wf_json_cont.
    repeat (constructor; [split; [by apply (bool_decide_unpack (no_nul _))|]|]); [done| | |constructor].
    + by apply (bool_decide_unpack (no_nul _)).
    + apply wf_json_cont. constructor; [|constructor]. split; [done|]. by apply (bool_decide_unpack (no_nul _)).
  - done.
  - reflexivity.
  - intros rq s1 _ _. exists s1, rq. reflexivity.
  - split; [|by vm_compute]. right. split_and!; [|done..]. right. split; [by vm_compute|]. exists 8%nat. split; [lia|done].
  - split; [|split; by vm_compute]. apply wf_json_cont.
    repeat (constructor; [split; [by apply (bool_decide_unpack (no_nul _))|]|]); [done| |constructor].
    apply wf_json_cont. constructor; [|constructor]. split; by apply (bool_decide_unpack (no_nul _)).
  - destruct Hc as (ca & E & Hr); [reflexivity|]. exists ca. split; [exact E|]. apply Hr. reflexivity.
Defined.
End Toy.
