(* ===== verification/ClientBlocks.v ===== *)
(** * The blocks of a call: src/client/arpc_client.c

    The call cycle with the heap of Blocks.v: the request that [arpc_begin]
    starts and [arpc_end] frees, the frames that [transact] receives, parses
    and frees, the answers it writes, and the reply it hands to
    [arpc_invoke].  What each function does to the client is what it does in
    Client.v; what is added is which block is whose. *)

From S2P Require Import Prelude Json JsonWriter JsonReader Base64 Wire Uthash Cache.
From S2P Require Import Groups ClientState Server Client ClientCalls Blocks.

(** ** The functions *)

(** [transact]: the reply is the caller's to free. *)
Definition transactor `{Uthash} (W H : Type) : Type :=
  list Z -> client W H -> gset Z -> outcome (client W H * option text * gset Z).

(** The function of an [arpc_cb_kind], which has the frame's document for as
    long as it runs. *)
Definition cb_call `{Uthash} (W H : Type) : Type :=
  transactor W H -> Z -> Z -> document -> Z -> client W H -> gset Z -> outcome (client W H * Z * gset Z).

(** The generated [cb_kinds]. *)
Class StubBlocks `{Uthash} (W H : Type) := { cb_kinds : list (list Z * cb_call W H) }.

(** An [arpc_call], with the blocks of its request and its response. *)
Record arpc_call := Call { call_of : Client.arpc_call; req_at : Z; rsp_at : document }.

Section Code.
Context {A : Allocator} {P : Placement} {L : Leftovers} {U : Uthash} {W H : Type}
  {HO : HandleOps H} {WN : Win W H} {ST : Stubs W H} {SB : StubBlocks W H}.
Implicit Types (c : client W H) (h : gset Z).

(** [recv_frame]: the buffer of [arpc_recv_frame], freed there if the read of
    it fails. *)
Definition recv_frame c h : outcome (client W H * option text * gset Z) :=
  '(c, f) ← Client.recv_frame c;
  match f with
  | None => Ret (c, None, h)
  | Some f => let '(a, h) := block_malloc h in Ret (c, Some (Text a f), h)
  end.

(** The loop of [arpc_dispatch_callback]. *)
Fixpoint call_kind (kinds : list (list Z * cb_call W H)) (i : Z) (x : transactor W H) (which : list Z) (handle : Z)
    (d : document) (args : Z) c h : outcome (client W H * Z * gset Z) :=
  match kinds with
  | [] => Ret (c, 0, h)
  | (name, call) :: kinds =>
      if streq name which then
        let fn := arpc_cb_fn (cl_regs c) handle i in
        if fn =? 0 then Ret (c, 0, h) else call x fn (arpc_cb_ctx (cl_regs c) handle i) d args c h
      else call_kind kinds (i + 1) x which handle d args c h
  end.

(** The name is read in the document, where [aj_str] left it. *)
Definition arpc_dispatch_callback (x : transactor W H) (d : document) c h : outcome (client W H * writer * gset Z) :=
  n ← read_doc d h (fun d => aj_member d 0 (lit "cb"));
  let which := match aj_str (doc d) n with Some s => s | None => [] end in
  n ← read_doc d h (fun d => aj_member d 0 (lit "seq"));
  let seq := aj_i64 (doc d) n 0 in
  n ← read_doc d h (fun d => aj_member d 0 (lit "handle"));
  let handle := u64 (aj_i64 (doc d) n 0) in
  args ← read_doc d h (fun d => aj_member d 0 (lit "args"));
  '(c, ret, h) ← call_kind cb_kinds 0 x which handle d args c h;
  '(w, h) ← write writer0 (fun w =>
    w ← ajw_obj_begin w;
    w ← ajw_key w (lit "cbseq"); w ← ajw_i64 w seq;
    w ← ajw_key w ARPC_RET_KEY; w ← ajw_i64 w ret;
    ajw_obj_end w) h;
  Ret (c, w, h).

Definition transact_with (loop : client W H -> gset Z -> outcome (client W H * option text * gset Z)) : transactor W H :=
  fun req c h =>
    '(c, sent) ← send_frame req c;
    if sent : bool then loop c h else Ret (c, None, h).

(** The loop of [transact]. *)
Fixpoint transact_loop (fuel : nat) c h : outcome (client W H * option text * gset Z) :=
  match fuel with
  | O => NoFuel
  | S fuel =>
      '(c, f, h) ← recv_frame c h;
      match f with
      | None => Ret (c, None, h)
      | Some f =>
          t ← read_text f h;
          '(ok, d, h) ← aj_parse (cstr t) h;
          if negb ok then
            h ← aj_free d h; h ← block_free (text_at f) h;
            Ret (disconnect (ClientState.set_err c (lit "malformed frame from server")), None, h)
          else
            n ← read_doc d h (fun d => aj_member d 0 (lit "cb"));
            if n <? 0 then h ← aj_free d h; Ret (c, Some f, h)
            else
              '(c, reply, h) ← arpc_dispatch_callback (transact_with (transact_loop fuel)) d c h;
              h ← aj_free d h; h ← block_free (text_at f) h;
              if w_err (writer_w reply) then h ← ajw_free reply h; Ret (c, None, h)
              else
                b ← read_writer reply h;
                '(c, sent) ← send_frame b c;
                h ← ajw_free reply h;
                if sent : bool then transact_loop fuel c h else Ret (c, None, h)
      end
  end.

Definition transact (fuel : nat) : transactor W H := transact_with (transact_loop fuel).

(** ** The call cycle *)

(** The document of [memset]: it has no blocks. *)
Definition no_document : document := Document doc0 0 0.

Definition begin_request (method : list Z) c h : outcome (client W H * arpc_call * gset Z) :=
  '(c, ca) ← Client.begin_request method c;
  '(a, h) ← grow 0 0 (w_cap (ca_req ca)) h;
  Ret (c, Call ca a no_document, h).

(** The [arpc_put_*] functions, and what else writes to the request. *)
Definition put (ca : arpc_call) (f : Client.arpc_call -> outcome Client.arpc_call) h : outcome (arpc_call * gset Z) :=
  ca' ← f (call_of ca);
  '(a, h) ← grow (req_at ca) (w_cap (ca_req (call_of ca))) (w_cap (ca_req ca')) h;
  Ret (Call ca' a (rsp_at ca), h).

(** [arpc_invoke]; the reply is freed once it is parsed. *)
Definition arpc_invoke (x : transactor W H) (ca : arpc_call) c h : outcome (client W H * arpc_call * bool * gset Z) :=
  '(ca, h) ← put ca (fun ca => on_req ca ajw_arr_end) h;
  '(ca, h) ← put ca (fun ca => on_req ca ajw_obj_end) h;
  if w_err (ca_req (call_of ca)) then
    Ret (ClientState.set_err c (lit "out of memory building request"), ca, false, h)
  else
    b ← read_writer (Writer (ca_req (call_of ca)) (req_at ca)) h;
    '(c, rsp, h) ← x b c h;
    match rsp with
    | None => Ret (c, ca, false, h)
    | Some rsp =>
        t ← read_text rsp h;
        '(_, d, h) ← aj_parse (cstr t) h;
        h ← block_free (text_at rsp) h;
        '(c, ca', r) ← check_reply (call_of ca) t c;
        Ret (c, Call ca' (req_at ca) d, r, h)
    end.

Definition arpc_end (ca : arpc_call) h : outcome (gset Z) :=
  h ← block_free (req_at ca) h;
  if ca_parsed (call_of ca) then aj_free (rsp_at ca) h else Ret h.

Definition set_path_style (begin : list Z -> client W H -> gset Z -> outcome (client W H * option arpc_call * gset Z))
    (x : transactor W H) c h : outcome (client W H * bool * gset Z) :=
  if win32_paths then
    '(c, ca, h) ← begin (lit "arpc.set_path_style") c h;
    match ca with
    | None => Ret (c, false, h)
    | Some ca =>
        '(ca, h) ← put ca (fun ca => arpc_put_str ca (Some (lit "win32"))) h;
        '(c, ca, ok, h) ← arpc_invoke x ca c h;
        h ← arpc_end ca h;
        Ret (if ok : bool then c else disconnect c, ok, h)
    end
  else Ret (c, true, h).

Fixpoint ensure_connected (depth : nat) (x : transactor W H) c h : outcome (client W H * bool * gset Z) :=
  match cl_pipe c with
  | Some _ => Ret (c, true, h)
  | None =>
      match depth with
      | O => NoFuel
      | S depth =>
          '(c, r) ← open_endpoint c;
          if 0 <? r then
            set_path_style (fun m c h => '(c, ok, h) ← ensure_connected depth x c h;
                                         if ok : bool then '(c, ca, h) ← begin_request m c h; Ret (c, Some ca, h)
                                         else Ret (c, None, h)) x c h
          else Ret (c, false, h)
      end
  end.

Definition arpc_begin (x : transactor W H) (method : list Z) c h : outcome (client W H * option arpc_call * gset Z) :=
  '(c, ok, h) ← ensure_connected 2 x c h;
  if ok : bool then '(c, ca, h) ← begin_request method c h; Ret (c, Some ca, h) else Ret (c, None, h).

(** A stub: it writes its arguments, reads what it is there for once the reply
    is in, if it succeeded or not, and ends the call. *)
Definition stub {X} (x : transactor W H) (method : list Z) (ps : list ClientCalls.put) (rd : Client.arpc_call -> bool -> outcome X) c h
  : outcome (client W H * option X * gset Z) :=
  '(c, ca, h) ← arpc_begin x method c h;
  match ca with
  | None => Ret (c, None, h)
  | Some ca =>
      '(ca, h) ← put ca (fun ca => puts_run ca ps) h;
      '(c, ca, ok, h) ← arpc_invoke x ca c h;
      v ← (if decide (doc_blocks (rsp_at ca) ⊆ h) then rd (call_of ca) ok else Undef);
      h ← arpc_end ca h;
      Ret (c, Some v, h)
  end.
End Code.

(** ** What the heap comes to *)

(** The exchange, with blocks and without. *)
Definition exchanges `{Uthash} {A : Allocator} {P : Placement} {W H} (xb : transactor W H) (x : Client.transactor W H) : Prop :=
  (forall req c h, xb req c h = hands (x req c) h) /\
  (forall req c c' t, x req c = Ret (c', Some t) -> exists d, JsonReader.aj_parse (cstr t) = Ret d).

(** A function of a kind's that ends the calls it makes, given the exchange
    and a document that is there. *)
Definition calls_end `{Uthash} {A : Allocator} {P : Placement} {W H} (kb : list Z * cb_call W H) (k : list Z * Client.cb_call W H) : Prop :=
  kb.1 = k.1 /\
  forall xb x, exchanges xb x -> forall fn ctx d args c h, doc_blocks d ⊆ h ->
    kb.2 xb fn ctx d args c h = keeps (k.2 x fn ctx (doc d) args c) h.

Class StubBlocksOk `{Uthash} {A : Allocator} {P : Placement} {W H} (ST : Stubs W H) (SB : StubBlocks W H) : Prop :=
  kinds_end : Forall2 calls_end cb_kinds Client.cb_kinds.

Section Proofs.
Context {A : Allocator} {P : Placement} {PO : PlacementOk P} {L : Leftovers} {U : Uthash} {W H : Type}
  {HO : HandleOps H} {WN : Win W H} {ST : Stubs W H} {SB : StubBlocks W H} {SO : StubBlocksOk ST SB}.
Implicit Types (c : client W H) (h : gset Z).

Lemma recv_frame_hands c h : recv_frame c h = hands (Client.recv_frame c) h.
Proof. done. Qed.

Lemma call_kind_keeps xb x ksb ks i which handle d args c h :
  exchanges xb x -> Forall2 calls_end ksb ks -> doc_blocks d ⊆ h ->
  call_kind ksb i xb which handle d args c h = keeps (Client.call_kind ks i x which handle (doc d) args c) h.
Proof.
  intros Hx Hk Hd. revert i. induction Hk as [|[nb kb] [n k] ksb ks [Hn Hc] _ IH]; intros i; [done|].
  cbn in Hn, Hc |- *. subst nb. destruct (streq n which); [|apply IH].
  destruct (_ =? 0); [done|]. by apply Hc.
Qed.

(** The answer is in a block of its own. *)
Lemma dispatch_run xb x d c h :
  exchanges xb x -> doc_blocks d ⊆ h ->
  same (fun '(c', w, h') '(c'', v) => c' = c'' /\ writer_w w = v /\ holds (writer_at w) h h')
    (arpc_dispatch_callback xb d c h) (Client.arpc_dispatch_callback x (doc d) c).
Proof.
  intros Hx Hd. unfold arpc_dispatch_callback, Client.arpc_dispatch_callback. rewrite !read_doc_run by done.
  do 4 (apply (same_bind eq); [apply same_refl|intros ? ? <-]).
  rewrite (call_kind_keeps xb x _ Client.cb_kinds) by (apply Hx || apply kinds_end || done). unfold keeps.
  destruct (Client.call_kind _ _ _ _ _ _ _ _) as [[c' v]| | |]; [|done..]. cbn [mbind outcome_bind].
  match goal with |- same _ (write writer0 ?f h ≫= _) _ => pose proof (write_run writer0 f h h (holds_null h)) as Hw end.
  destruct (write _ _ _) as [[w h']| | |]; cbn [writer0 writer_w] in Hw.
  all: repeat match type of Hw with
  | same _ _ (?m ≫= _) => destruct m as [?| | |]; cbn [mbind outcome_bind] in *; [|done..]
  end.
  all: by destruct (ajw_obj_end _); cbn in *.
Qed.

(** A frame that is handed on parses. *)
Lemma transact_loop_parses fuel c c' t :
  Client.transact_loop fuel c = Ret (c', Some t) -> exists d, JsonReader.aj_parse (cstr t) = Ret d.
Proof.
  revert c. induction fuel as [|fuel IH]; intros c; cbn [Client.transact_loop]; [done|]. intros Hr.
  apply bind_Ret_inv in Hr as ([c1 [f|]] & _ & Hr); [|done].
  destruct (JsonReader.aj_parse (cstr f)) as [d| | |] eqn:Ed; [|done..].
  apply bind_Ret_inv in Hr as (n & _ & Hr). destruct (n <? 0); [injection Hr as _ <-; by exists d|].
  apply bind_Ret_inv in Hr as ([c2 w] & _ & Hr). destruct (w_err w); [done|].
  apply bind_Ret_inv in Hr as ([c3 [|]] & _ & Hr); [by apply IH in Hr|done].
Qed.

Lemma transact_with_exchanges lb l :
  (forall c h, lb c h = hands (l c) h) -> (forall c c' t, l c = Ret (c', Some t) -> exists d, JsonReader.aj_parse (cstr t) = Ret d) ->
  exchanges (transact_with lb) (Client.transact_with l).
Proof.
  intros Hl Hp. unfold transact_with, Client.transact_with. split; intros req c.
  - intros h. destruct (send_frame req c) as [[c1 [|]]| | |]; [|done..]. apply Hl.
  - intros c' t Hr. apply bind_Ret_inv in Hr as ([c1 [|]] & _ & Hr); [by apply Hp in Hr|done].
Qed.

Lemma transact_loop_hands fuel c h : transact_loop fuel c h = hands (Client.transact_loop fuel c) h.
Proof.
  revert c h. induction fuel as [|fuel IH]; intros c h; [done|]. cbn [transact_loop Client.transact_loop].
  rewrite recv_frame_hands. destruct (Client.recv_frame c) as [[c1 [f|]]| | |]; [|done..]. unfold hands at 1.
  cbn [mbind outcome_bind]. destruct (block_malloc_run h) as (a & Ea & Ha & Ha0). rewrite Ea. cbn [mbind outcome_bind].
  rewrite read_text_run by (cbn; set_solver). cbn [text_bytes mbind outcome_bind].
  pose proof (aj_parse_run (cstr f) ({[a]} ∪ h)) as Hp.
  destruct (JsonReader.aj_parse (cstr f)) as [d| | |]; [| |by rewrite Hp..].
  - destruct Hp as (d' & -> & Hdoc & Hf). cbn [mbind outcome_bind negb]. rewrite read_doc_run, Hdoc by set_solver.
    destruct (aj_member d 0 (lit "cb")) as [n| | |]; [|done..]. cbn [mbind outcome_bind].
    assert (Hd : holds 0 (doc_blocks d' ∪ ({[a]} ∪ h)) (doc_blocks d' ∪ ({[a]} ∪ h))) by apply holds_null.
    destruct (n <? 0).
    { destruct (holds_free_doc _ _ _ _ Hf Hd) as (h' & -> & ->%holds_null_inv).
      unfold hands. cbn [mbind outcome_bind]. by rewrite Ea. }
    assert (Hx : exchanges (transact_with (transact_loop fuel)) (Client.transact_with (Client.transact_loop fuel)))
      by (apply transact_with_exchanges; [done|intros; by eapply transact_loop_parses]).
    pose proof (dispatch_run _ _ d' c1 (doc_blocks d' ∪ ({[a]} ∪ h)) Hx ltac:(set_solver)) as Hc. rewrite Hdoc in Hc.
    destruct (arpc_dispatch_callback _ _ _ _) as [[[c2 [w b]] h']| | |], (Client.arpc_dispatch_callback _ _ _) as [[c2' w']| | |];
      cbn in Hc; try done. destruct Hc as (<- & <- & Hb). cbn [mbind outcome_bind].
    destruct (holds_free_doc _ _ _ _ Hf Hb) as (h2 & -> & Hb2). cbn [mbind outcome_bind text_at].
    destruct (holds_free_under _ _ _ _ Ha Ha0 Hb2) as (h3 & -> & Hb3). cbn [mbind outcome_bind writer_w].
    unfold ajw_free. cbn [writer_at]. destruct (w_err w); [by rewrite (holds_free _ _ _ Hb3)|].
    rewrite (holds_read (Writer w b) _ _ Hb3). cbn [writer_w mbind outcome_bind].
    destruct (send_frame (w_buf w) c2) as [[c3 [|]]| | |]; [| |done..]; cbn [mbind outcome_bind];
      rewrite (holds_free _ _ _ Hb3); cbn [mbind outcome_bind]; [apply IH|done].
  - destruct Hp as (d' & -> & Hf & _). cbn [mbind outcome_bind negb].
    destruct (holds_free_doc _ _ _ _ Hf (holds_null _)) as (h' & -> & ->%holds_null_inv).
    cbn [mbind outcome_bind text_at]. by rewrite block_free_fresh.
Qed.

Lemma transact_exchanges fuel : exchanges (transact fuel) (Client.transact fuel).
Proof.
  apply transact_with_exchanges; [intros; apply transact_loop_hands|intros; by eapply transact_loop_parses].
Qed.

(** ** The call cycle *)

Lemma begin_request_holds method c h :
  same (fun '(c', cab, h') '(c'', ca) => c' = c'' /\ call_of cab = ca /\ rsp_at cab = no_document /\ holds (req_at cab) h h')
    (begin_request method c h) (Client.begin_request method c).
Proof.
  unfold begin_request. destruct (Client.begin_request method c) as [[c' ca]| | |]; [|done..]. cbn [mbind outcome_bind].
  by destruct (holds_grow _ 0 (w_cap (ca_req ca)) _ _ (holds_null h)) as (a & h' & -> & Hh).
Qed.

Lemma put_run cab f h0 h :
  holds (req_at cab) h0 h ->
  same (fun '(cab', h') ca => call_of cab' = ca /\ rsp_at cab' = rsp_at cab /\ holds (req_at cab') h0 h')
    (put cab f h) (f (call_of cab)).
Proof.
  intros Hh. unfold put. destruct (f (call_of cab)) as [ca| | |]; [|done..]. cbn [mbind outcome_bind].
  by destruct (holds_grow _ (w_cap (ca_req (call_of cab))) (w_cap (ca_req ca)) _ _ Hh) as (a & h' & -> & Hh').
Qed.

(** What an invoked call has, and what is left when it ends. *)
Definition invoked cab h0 h : Prop := doc_blocks (rsp_at cab) ⊆ h /\ arpc_end cab h = Ret h0.

Lemma invoked_no_reply cab h0 h : rsp_at cab = no_document -> holds (req_at cab) h0 h -> invoked cab h0 h.
Proof.
  intros E Hh. unfold invoked, arpc_end. rewrite E, (holds_free _ _ _ Hh). split; [unfold doc_blocks; cbn [nodes_at sbuf_at no_document Z.eqb]; set_solver|].
  cbn. by destruct (ca_parsed _).
Qed.

Lemma check_reply_parsed ca t c d :
  JsonReader.aj_parse (cstr t) = Ret d ->
  match check_reply ca t c with Ret (_, ca', _) => ca_parsed ca' = true | _ => True end.
Proof.
  intros E. unfold check_reply. rewrite E.
  repeat match goal with
  | |- match ?m ≫= _ with _ => _ end => destruct m as [?| | |]; cbn [mbind outcome_bind]; [|done..]
  | |- context [if ?b then _ else _] => destruct b
  end; done.
Qed.

Lemma invoke_run xb x cab c h0 h :
  exchanges xb x -> rsp_at cab = no_document -> holds (req_at cab) h0 h ->
  same (fun '(c', cab', ok, h') '(c'', ca, ok') => c' = c'' /\ call_of cab' = ca /\ ok = ok' /\ invoked cab' h0 h')
    (arpc_invoke xb cab c h) (Client.arpc_invoke x (call_of cab) c).
Proof.
  intros [Hx Hp] Hr Hh. unfold arpc_invoke, Client.arpc_invoke.
  eapply (same_bind (fun '(cab', h') w => call_of cab' = set_req (call_of cab) w /\ rsp_at cab' = no_document /\ holds (req_at cab') h0 h')).
  { pose proof (put_run cab (fun ca => on_req ca ajw_arr_end) _ _ Hh) as H1. unfold on_req in H1 at 2.
    destruct (put _ _ _) as [[cab1 h1]| | |], (ajw_arr_end _); cbn in *; try done. destruct H1 as (? & ? & ?). split_and!; [done|congruence|done]. }
  intros [cab1 h1] w1 (E1 & Hr1 & Hh1).
  eapply (same_bind (fun '(cab', h') w => call_of cab' = set_req (call_of cab) w /\ rsp_at cab' = no_document /\ holds (req_at cab') h0 h')).
  { pose proof (put_run cab1 (fun ca => on_req ca ajw_obj_end) _ _ Hh1) as H1. rewrite E1 in H1. unfold on_req in H1 at 2.
    cbn [set_req ca_req] in H1.
    destruct (put _ _ _) as [[cab2 h2]| | |], (ajw_obj_end _); cbn in *; try done. destruct H1 as (? & ? & ?). split_and!; [done|congruence|done]. }
  intros [cab2 h2] w2 (E2 & Hr2 & Hh2). rewrite E2. cbn [set_req ca_req].
  destruct (w_err w2); [cbn; split_and!; [done..|by apply invoked_no_reply]|].
  rewrite (holds_read (Writer w2 (req_at cab2)) _ _ Hh2). cbn [writer_w mbind outcome_bind].
  rewrite Hx. destruct (x (w_buf w2) c) as [[c1 [t|]]| | |] eqn:Ex; [| |done..]; unfold hands; cbn [mbind outcome_bind].
  2: { cbn. split_and!; [done..|by apply invoked_no_reply]. }
  destruct (block_malloc_run h2) as (a & -> & Ha & Ha0). cbn [mbind outcome_bind].
  rewrite read_text_run by (cbn; set_solver). cbn [text_bytes mbind outcome_bind].
  destruct (Hp _ _ _ _ Ex) as [d Ed]. pose proof (aj_parse_run (cstr t) ({[a]} ∪ h2)) as Hd. rewrite Ed in Hd.
  destruct Hd as (d' & -> & Hdoc & Hf). cbn [mbind outcome_bind text_at]. rewrite free_beneath by done. cbn [mbind outcome_bind].
  pose proof (check_reply_parsed (set_req (call_of cab) w2) t c1 d Ed) as Hc.
  destruct (check_reply _ _ _) as [[[c2 ca'] r]| | |]; [|done..]. cbn in *. split_and!; [done..|].
  unfold invoked, arpc_end. cbn [rsp_at req_at call_of]. rewrite Hc. split; [set_solver|].
  destruct Hf as [Hf Hf']. rewrite (holds_free_beneath _ _ _ _ Hh2) by set_solver. cbn [mbind outcome_bind].
  apply aj_free_last. split; [destruct Hh2 as [-> _]; set_solver|done].
Qed.

(** ** Connecting *)

(** [arpc_begin], and what begins a call in [ensure_connected]. *)
Definition begun h (x : client W H * option arpc_call * gset Z) (y : client W H * option Client.arpc_call) : Prop :=
  let '(c', cab, h') := x in let '(c'', ca) := y in
  c' = c'' /\
  match cab, ca with
  | Some cab, Some ca => call_of cab = ca /\ rsp_at cab = no_document /\ holds (req_at cab) h h'
  | None, None => h' = h
  | _, _ => False
  end.

Lemma set_path_style_keeps bb b xb x c h :
  exchanges xb x -> (forall m c h, same (begun h) (bb m c h) (b m c)) ->
  same (kept h) (set_path_style bb xb c h) (Client.set_path_style b x c).
Proof.
  intros Hx Hb. unfold set_path_style, Client.set_path_style. destruct win32_paths; [|done].
  eapply same_bind; [apply Hb|]. intros [[c1 [cab|]] h1] [? [ca|]]; cbn; intros (<- & Hc); [|done|done|by subst].
  destruct Hc as (<- & Hr & Hh).
  eapply same_bind; [exact (put_run cab (fun ca => arpc_put_str ca (Some (lit "win32"))) h h1 Hh)|]. intros [cab1 h2] ca1 (<- & Hr1 & Hh1).
  eapply same_bind; [apply invoke_run; [done|congruence|done]|].
  intros [[[c2 cab2] ok] h3] [[? ca2] ?] (<- & <- & <- & _ & He). rewrite He. by destruct ok.
Qed.

(** Connected, the request is begun. *)
Lemma begin_begun c c' (ok ok' : bool) method h h' :
  kept h (c, ok, h') (c', ok') ->
  same (begun h) (if ok then '(c, ca, h) ← begin_request method c h'; Ret (c, Some ca, h) else Ret (c, None, h'))
    (if ok' then '(c, ca) ← Client.begin_request method c'; Ret (c, Some ca) else Ret (c', None)).
Proof.
  intros [= -> -> ->]. destruct ok'; [|done].
  eapply same_bind; [apply begin_request_holds|]. by intros [[c1 cab] h1] [? ca] (<- & Hc).
Qed.

Lemma ensure_connected_keeps depth xb x c h :
  exchanges xb x -> same (kept h) (ensure_connected depth xb c h) (Client.ensure_connected depth x c).
Proof.
  intros Hx. revert c h. induction depth as [|depth IH]; intros c h; cbn [ensure_connected Client.ensure_connected];
    (destruct (cl_pipe c); [done|]); [done|].
  eapply (same_bind eq); [apply same_refl|]. intros [c1 r] ? <-. destruct (0 <? r); [|done].
  apply set_path_style_keeps; [done|]. intros m c2 h2. eapply same_bind; [apply IH|].
  intros [[c3 ok] h3] [c3' ok'] Hk. by apply begin_begun.
Qed.

Lemma arpc_begin_begun xb x method c h :
  exchanges xb x -> same (begun h) (arpc_begin xb method c h) (Client.arpc_begin x method c).
Proof.
  intros Hx. unfold arpc_begin, Client.arpc_begin. eapply same_bind; [by apply ensure_connected_keeps|].
  intros [[c1 ok] h1] [c1' ok'] Hk. by apply begin_begun.
Qed.

(** ** A stub *)

(** A stub ends the call it made: whatever happens, it does what it does without
    blocks, and all of them are gone. *)
Lemma stub_keeps {X} xb x method ps (rd : Client.arpc_call -> bool -> outcome X) c h :
  exchanges xb x ->
  stub xb method ps rd c h =
    keeps ('(c, r) ← stub_call x method ps c;
           match r with Some (ca, ok) => v ← rd ca ok; Ret (c, Some v) | None => Ret (c, None) end) h.
Proof.
  intros Hx. apply kept_keeps. unfold stub, stub_call. rewrite bind_assoc.
  eapply same_bind; [by apply arpc_begin_begun|].
  intros [[c1 [cab|]] h1] [? [ca|]]; cbn [begun]; intros (<- & Hc); [|done|done|by subst].
  destruct Hc as (<- & Hr & Hh). rewrite bind_assoc.
  eapply same_bind; [exact (put_run cab (fun ca => puts_run ca ps) h h1 Hh)|]. intros [cab1 h2] ca1 (<- & Hr1 & Hh1). rewrite bind_assoc.
  eapply same_bind; [apply invoke_run; [done|congruence|done]|].
  intros [[[c2 cab2] ok] h3] [[? ca2] ?] (<- & <- & <- & Hd & He). rewrite decide_True by done.
  cbn [mbind outcome_bind]. eapply (same_bind eq); [apply same_refl|]. intros v ? <-. by rewrite He.
Qed.

(** C12. A call frees what it allocated.  Whatever the server sends, the heap
    refuses and the callbacks do, as long as they end the calls they make, a
    stub comes to what it comes to without its blocks, never reads or frees one
    that is gone, and leaves the heap as it found it: each frame, each
    document, each answer and the request itself are freed once.  That is while
    a text that was parsed once can be parsed again.  If [arpc_invoke], asking
    the heap a second time, is refused, the call fails, and what its parser
    had been given is still there when [arpc_end] returns. *)
Theorem call_frees {X} fuel method ps (rd : Client.arpc_call -> bool -> outcome X) c h :
  stub (transact fuel) method ps rd c h =
    keeps ('(c, r) ← stub_call (Client.transact fuel) method ps c;
           match r with Some (ca, ok) => v ← rd ca ok; Ret (c, Some v) | None => Ret (c, None) end) h /\
  forall xb cab w1 w c1 t h0 h,
    rsp_at cab = no_document -> ca_parsed (call_of cab) = false -> holds (req_at cab) h0 h ->
    ajw_arr_end (ca_req (call_of cab)) = Ret w1 -> ajw_obj_end w1 = Ret w -> w_err w = false ->
    (forall h, xb (w_buf w) c h = hands (Ret (c1, Some t)) h) -> JsonReader.aj_parse (cstr t) = Fail ->
    exists c' cab' h', arpc_invoke xb cab c h = Ret (c', cab', false, h') /\
      arpc_end cab' h' = Ret (doc_blocks (rsp_at cab') ∪ h0) /\ doc_blocks (rsp_at cab') ## h0 /\
      (left_nodes (cstr t) = true -> doc_blocks (rsp_at cab') <> ∅).
Proof.
  split; [apply stub_keeps, transact_exchanges|].
  intros xb [ca a d0] w1 w c1 t h0 h' Hr Hpa Hh E1 E2 He Hx Hf. cbn in Hr, Hpa, Hh, E1. subst d0.
  unfold arpc_invoke, put, on_req. cbn [call_of req_at rsp_at]. rewrite E1. cbn [mbind outcome_bind set_req ca_req].
  destruct (holds_grow _ (w_cap (ca_req ca)) (w_cap w1) _ _ Hh) as (a1 & h1 & -> & H1). cbn [mbind outcome_bind call_of req_at rsp_at set_req ca_req].
  rewrite E2. cbn [mbind outcome_bind set_req ca_req].
  destruct (holds_grow _ (w_cap w1) (w_cap w) _ _ H1) as (a2 & h2 & -> & H2). cbn [mbind outcome_bind call_of req_at rsp_at set_req ca_req].
  rewrite He, (holds_read (Writer w a2) _ _ H2). cbn [writer_w mbind outcome_bind].
  rewrite Hx. unfold hands. cbn [mbind outcome_bind]. destruct (block_malloc_run h2) as (b & -> & Hb & Hb0).
  cbn [mbind outcome_bind]. rewrite read_text_run by (cbn; set_solver). cbn [text_bytes mbind outcome_bind].
  pose proof (aj_parse_run (cstr t) ({[b]} ∪ h2)) as Hd. rewrite Hf in Hd. destruct Hd as (d & -> & Hfd & Hn).
  cbn [mbind outcome_bind text_at]. rewrite free_beneath by done. cbn [mbind outcome_bind].
  unfold check_reply. rewrite Hf. cbn [mbind outcome_bind]. eexists _, _, _. split; [done|].
  destruct Hfd as [Hfd _], H2 as [-> H2]. unfold arpc_end. cbn [req_at rsp_at call_of set_req ca_parsed]. rewrite Hpa.
  rewrite (holds_free_beneath a2 d h0 _) by (done || set_solver). cbn [mbind outcome_bind].
  split; [done|]. split; [set_solver|]. intros Hl. specialize (Hn Hl). unfold doc_blocks.
  destruct (Z.eqb_spec (nodes_at d) 0); [done|]. set_solver.
Qed.
End Proofs.

(** ** The property at work *)

(** A kind whose function makes a call of its own, with blocks and without. *)
Definition ask_read (ca : Client.arpc_call) (ok : bool) : outcome Z := if ok then arpc_ret_i64 ca else Ret (-1).

Definition ask_back `{Uthash} {A : Allocator} {W H} `{HandleOps H, Win W H, Stubs W H} : Client.cb_call W H := fun x _ _ _ _ c =>
  '(c, r) ← ('(c, r) ← stub_call x (lit "one") [] c;
             match r with Some (ca, ok) => v ← ask_read ca ok; Ret (c, Some v) | None => Ret (c, None) end);
  Ret (c, match r with Some v => v | None => 0 end).

Definition ask_back_blocks `{Uthash} {A : Allocator} {P : Placement} {L : Leftovers} {W H} `{HandleOps H, Win W H, Stubs W H}
  : cb_call W H := fun x _ _ _ _ c h =>
  '(c, r, h) ← stub x (lit "one") [] ask_read c h;
  Ret (c, match r with Some v => v | None => 0 end, h).

Module ToyBlocks.
#[export] Existing Instance Chain.chain.
#[export] Existing Instance Chain.above.
#[export] Existing Instance Chain.above_ok.
#[export] Existing Instance Trickle.ops.
#[export] Existing Instance Trickle.handle.
#[export] Existing Instance ToyClient.win.
#[export] Existing Instance ample.

(** A refused text leaves nodes. *)
#[export] Instance leaves : Leftovers := {| left_nodes := fun _ => true; left_sbuf := fun _ => false |}.

(** The stub inside needs to know whether paths are announced, and no more. *)
Definition quiet : Stubs ToyClient.world Trickle.pipe := {| Client.cb_kinds := []; win32_paths := false |}.
Definition quiet_blocks : StubBlocks ToyClient.world Trickle.pipe := {| cb_kinds := [] |}.

Lemma quiet_ok : StubBlocksOk quiet quiet_blocks.
Proof. constructor. Qed.

#[export] Instance stubs : Stubs ToyClient.world Trickle.pipe :=
  {| Client.cb_kinds := [(lit "log", ask_back (H3:=quiet))]; win32_paths := false |}.
#[export] Instance stub_blocks : StubBlocks ToyClient.world Trickle.pipe :=
  {| cb_kinds := [(lit "log", ask_back_blocks (H3:=quiet))] |}.

#[export] Instance stubs_ok : StubBlocksOk stubs stub_blocks.
Proof.
  constructor; [|constructor]. split; [done|]. intros xb x Hx fn ctx d args c h Hd. cbn [snd].
  unfold ask_back, ask_back_blocks. rewrite (stub_keeps (SO:=quiet_ok) xb x) by done. unfold keeps.
  destruct (stub_call _ _ _ _) as [[c1 [[ca ok]|]]| | |]; [|done..]. cbn [mbind outcome_bind].
  by destruct (ask_read ca ok).
Qed.

(** A call is interrupted by a callback, whose function makes a call. *)
Definition pipe : Trickle.pipe := Trickle.Pipe
  (frame (qlit "{`cb`:`log`,`seq`:5,`handle`:7,`args`:[]}") ++
   frame (qlit "{`id`:2,`result`:{`@ret`:1}}") ++
   frame (qlit "{`id`:1,`result`:{`@ret`:41}}")) [] 0 [].

(** The caller's function is registered. *)
Definition caller : client ToyClient.world Trickle.pipe :=
  cl_set_regs (cl_set_pipe (client0 (ToyClient.World None true 0)) (Some pipe)) (set_reg [new_reg 7] 7 0 4660 9).

(** A call that is begun, and a reply that cannot be parsed again. *)
Definition begun_call : arpc_call * gset Z :=
  match begin_request (lit "two") caller {[4096]} with
  | Ret (_, ca, h) => (ca, h)
  | _ => (Call (Client.Call ajw_init doc0 0 0 false) 0 no_document, {[4096]})
  end.
Definition spoilt : transactor ToyClient.world Trickle.pipe := fun _ c h => hands (Ret (c, Some (lit "["))) h.

Lemma begun_holds : holds (req_at begun_call.1) {[4096]} begun_call.2.
Proof. split; [vm_compute; reflexivity|]. apply (bool_decide_unpack _). vm_compute. exact I. Qed.

Definition request_of (ca : Client.arpc_call) : aj_w * aj_w :=
  match ajw_arr_end (ca_req ca) with
  | Ret w1 => (w1, match ajw_obj_end w1 with Ret w => w | _ => ajw_init end)
  | _ => (ajw_init, ajw_init)
  end.
End ToyBlocks.

Section Toy.
Import ToyBlocks.

Lemma call_frees_witness :
  exists c, stub (transact 5) (lit "two") [PArg (AI64 3)] ask_read caller {[4096]} = Ret (c, Some 41, {[4096]}) /\
    (exists p, cl_pipe c = Some p /\ incoming p = []) /\
    exists c' cab' h' h2, arpc_invoke spoilt begun_call.1 caller begun_call.2 = Ret (c', cab', false, h') /\
      arpc_end cab' h' = Ret h2 /\ h2 <> {[4096]}.
Proof.
  destruct (call_frees 5 (lit "two") [PArg (AI64 3)] ask_read caller {[4096]}) as [Hs Hl].
  eexists. split; [rewrite Hs; vm_compute; reflexivity|]. split; [eexists; split; reflexivity|].
  destruct (Hl spoilt begun_call.1 (request_of (call_of begun_call.1)).1 (request_of (call_of begun_call.1)).2 caller (lit "[")
    {[4096]} begun_call.2) as (c' & cab' & h' & E & He & Hd & Hn);
    [vm_compute; reflexivity|vm_compute; reflexivity|exact begun_holds|vm_compute; reflexivity|vm_compute; reflexivity
    |vm_compute; reflexivity|reflexivity|vm_compute; reflexivity|].
  exists c', cab', h', (doc_blocks (rsp_at cab') ∪ {[4096]}). split; [exact E|]. split; [exact He|].
  exact (new_blocks _ _ Hd (Hn eq_refl)).
Defined.
End Toy.
