(* ===== verification/ClientFields.v ===== *)
(** * Fields of a package, a list at a time: src/client/arpc_client.c

    The first read of a field fetches it for every member of the package's
    group, in one call; later reads of it, of any member, are answered from
    the column.  The groups and their invariant are in Groups.v and
    GroupTheorems.v, the call in Client.v and ClientCalls.v. *)

From S2P Require Import Prelude Json JsonWriter JsonReader JsonRef JsonArena JsonAccess Base64.
From S2P Require Import Wire Paths Server DispatchTheorems Uthash Cache CacheTheorems Groups.
From S2P Require Import GroupTheorems ClientState Client ClientCalls.

(** ** The functions *)

(** The walk over the response: at most [n] cells, from the element [e] on;
    [z] is what [calloc] left in the others. *)
Fixpoint fill_cells {X} (f : Z -> X) (z : X) (n : nat) (d : aj_doc) (e : Z) : list X :=
  match n with
  | O => []
  | S n => if e <? 0 then replicate (S n) z else f e :: fill_cells f z n d (aj_next d e)
  end.

(** The column of the field whose text is [field], the first in the list. *)
Fixpoint find_column (cols : list column) (field : list Z) : option column :=
  match cols with
  | [] => None
  | c :: cols => if streq (co_field c) field then Some c else find_column cols field
  end.

Section Fields.
Context {A : Allocator} {P : Placement} {U : Uthash} {W H : Type}
  {HO : HandleOps H} {WN : Win W H} {ST : Stubs W H}.
Implicit Types c : client W H.

(** [arpc_dup], of a string that only the column points to. *)
Definition dup_cell (s : option (list Z)) : option (list Z) :=
  match s with Some s => if grants (strlen s + 1) then Some (cstr s) else None | None => None end.

(** The column [fetch_column] makes of the response.  Whether the array could
    be allocated is not looked at: a cell written through NULL is undefined. *)
Definition response_column (ca : arpc_call) (n : Z) (field : list Z) (want_str : bool) : outcome column :=
  arr ← arpc_ret_node ca;
  let d := ca_rsp ca in
  let e := aj_first d arr in
  if grants (n * 8) then
    Ret (if want_str
         then Column field (Some (fill_cells (fun e => dup_cell (aj_str d e)) None (Z.to_nat n) d e)) None
         else Column field None (Some (fill_cells (fun e => aj_i64 d e 0) 0 (Z.to_nat n) d e)))
  else if (0 <=? e) && (0 <? n) then Undef
  else Ret (Column field None None).

(** [fetch_column] for the group at [a]: the column, [None] for NULL. *)
Definition fetch_column (x : transactor W H) (a : Z) (field : list Z) (want_str : bool) c
  : outcome (client W H * option column) :=
  '(c, ca) ← arpc_begin x (lit "arpc.pkg_fields") c;
  match ca with
  | None => Ret (c, None)
  | Some ca =>
      g ← group_at (cl_groups c) a;
      ca ← on_req ca (fun w => w ← ajw_arr_begin w;
                               w ← write_all (fun w id => ajw_i64 w (i64_of_u64 id)) w (gr_ids g); ajw_arr_end w);
      ca ← arpc_put_str ca (Some field);
      '(c, ca, ok) ← arpc_invoke x ca c;
      if negb ok then Ret (c, None)
      else if negb (grants sizeof_column) then Ret (c, None)
      else
        g ← group_at (cl_groups c) a;
        col ← response_column ca (len (gr_ids g)) field want_str;
        t ← push_column (cl_groups c) a col;
        Ret (cl_set_groups c t, Some col)
  end.

Definition column_for (x : transactor W H) (a : Z) (field : list Z) (want_str : bool) c
  : outcome (client W H * option column) :=
  g ← group_at (cl_groups c) a;
  match find_column (gr_cols g) field with
  | Some col => Ret (c, Some col)
  | None => fetch_column x a field want_str c
  end.

(** A cell of an array. *)
Definition cell {X} (l : list X) (slot : Z) : outcome X :=
  if slot <? 0 then Undef else match l !! Z.to_nat slot with Some v => Ret v | None => Undef end.

(** The package's column, and its place in it: [None] without one. *)
Definition column_of (x : transactor W H) (id : Z) (field : list Z) (want_str : bool) c
  : outcome (client W H * option (column * Z)) :=
  '(t, r) ← group_for_pkg (cl_groups c) id;
  let c := cl_set_groups c t in
  match r with
  | None => Ret (c, None)
  | Some (a, slot) =>
      '(c, col) ← column_for x a field want_str c;
      Ret (c, match col with Some col => Some (col, slot) | None => None end)
  end.

(** The string the pointer returned points to. *)
Definition arpc_pkg_field_str (x : transactor W H) (id : Z) (field : list Z) c : outcome (client W H * option (list Z)) :=
  if id =? 0 then Ret (c, None)
  else
    '(c, r) ← column_of x id field true c;
    match r with
    | Some (col, slot) =>
        match co_str col with
        | Some l => v ← cell l slot; Ret (c, v)
        | None => Ret (c, None)
        end
    | None => Ret (c, None)
    end.

Definition arpc_pkg_field_i64 (x : transactor W H) (id : Z) (field : list Z) c : outcome (client W H * Z) :=
  if id =? 0 then Ret (c, 0)
  else
    '(c, r) ← column_of x id field false c;
    match r with
    | Some (col, slot) =>
        match co_num col with
        | Some l => v ← cell l slot; Ret (c, v)
        | None => Ret (c, 0)
        end
    | None => Ret (c, 0)
    end.
End Fields.

(** ** What a column holds *)

(** A cell per member: the element of the response at its place, or nothing. *)
Definition cells_of {X} (f : option json -> X) (n : nat) (kids : list json) : list X :=
  (fun i => f (kids !! i)) <$> seq 0 n.

Lemma cells_lookup {X} (f : option json -> X) n kids i : (i < n)%nat -> cells_of f n kids !! i = Some (f (kids !! i)).
Proof. intros Hi. unfold cells_of. rewrite list_lookup_fmap, lookup_seq_lt by done. done. Qed.

Lemma cells_nil {X} (f : option json -> X) n : cells_of f n [] = replicate n (f None).
Proof.
  unfold cells_of. generalize 0%nat. induction n as [|n IH]; intros k; [done|]. cbn [seq fmap list_fmap replicate].
  by rewrite IH, lookup_nil.
Qed.

Lemma cells_cons {X} (f : option json -> X) n j kids : cells_of f (S n) (j :: kids) = f (Some j) :: cells_of f n kids.
Proof.
  unfold cells_of. cbn [seq fmap list_fmap]. f_equal. rewrite <- fmap_S_seq, <- list_fmap_compose. done.
Qed.

Lemma fill_cells_spec {X} (f : Z -> X) (h : option json -> X) d n : forall e kids,
  (forall e j, reads d e j -> f e = h j) -> reads_from d e kids -> fill_cells f (h None) n d e = cells_of h n kids.
Proof.
  induction n as [|n IH]; intros e kids Hf Hr; [done|]. cbn [fill_cells]. destruct kids as [|j kids].
  - rewrite (reads_from_nil _ _ Hr). by rewrite cells_nil.
  - destruct (reads_from_cons _ _ _ _ Hr) as (He & Hj & Hn). destruct (Z.ltb_spec e 0); [lia|].
    rewrite cells_cons, (Hf e (Some j) Hj). f_equal. by apply IH.
Qed.

(** ** One call for a list *)

Section Fetch.
Context {A : Allocator} {HA : TotalAllocator A} {P : Placement} {U : Uthash} {W H : Type}
  {HO : HandleOps H} {WN : Win W H} {ST : Stubs W H}.
Implicit Types c : client W H.

Definition fields_puts (ids : list Z) (field : list Z) : list put := [PHandleList ids; PArg (AStr (Some field))].

(** The response as a column. *)
Definition kids_column (field : list Z) (want_str : bool) (n : nat) (kids : list json) : column :=
  if want_str then Column field (Some (cells_of t_str n kids)) None
  else Column field None (Some (cells_of (fun j => t_i64 j 0) n kids)).

Lemma dup_cell_read s : dup_cell s = cstr <$> s.
Proof. destruct s as [s|]; [|done]. cbn. by rewrite HA. Qed.

Lemma response_column_reads ca r n field want_str :
  reads (ca_rsp ca) (ca_result ca) (Some r) ->
  response_column ca (Z.of_nat n) field want_str = Ret (kids_column field want_str n (t_kids (t_member (Some r) ARPC_RET_KEY))).
Proof.
  intros Hr. unfold response_column. destruct (aj_member_reads _ _ _ ARPC_RET_KEY Hr) as (m & E & Hm).
  change (arpc_ret_node ca) with (aj_member (ca_rsp ca) (ca_result ca) ARPC_RET_KEY). rewrite E.
  cbn [mbind outcome_bind]. cbn zeta. rewrite HA. pose proof (aj_first_reads _ _ _ Hm) as Hf.
  unfold kids_column. rewrite Nat2Z.id. destruct want_str; do 3 f_equal.
  - apply (fill_cells_spec _ t_str); [|done]. intros e j Hj. rewrite dup_cell_read, (aj_str_reads _ _ _ Hj).
    destruct j as [[]|]; try done. cbn. by rewrite cstr_idemp.
  - apply (fill_cells_spec _ (fun j => t_i64 j 0)); [|done]. intros e j Hj. by rewrite (aj_i64_reads _ _ _ _ Hj).
Qed.

(** The call is a stub's, on the ids of the group. *)
Lemma fetch_is_call x a field want_str c g :
  cl_pipe c <> None -> group_at (cl_groups c) a = Ret g -> gr_ids g <> [] -> cl_next_id c <> i64_max ->
  fetch_column x a field want_str c =
    ('(c, r) ← stub_call x (lit "arpc.pkg_fields") (fields_puts (gr_ids g) field) c;
     match r with
     | Some (ca, true) =>
         g ← group_at (cl_groups c) a;
         col ← response_column ca (len (gr_ids g)) field want_str;
         t ← push_column (cl_groups c) a col;
         Ret (cl_set_groups c t, Some col)
     | _ => Ret (c, None)
     end).
Proof.
  intros Hp Hg Hids Hid. unfold fetch_column, stub_call. rewrite begin_connected, begin_request_run by done.
  destruct (wrun (begin_ops _ _) ajw_init) as [w| | |]; [|done..]. cbn [mbind outcome_bind cl_groups cl_set_next_id].
  rewrite Hg. cbn [mbind outcome_bind puts_run put_run fields_puts arg_run].
  destruct (gr_ids g) as [|i ids]; [done|]. cbn [arpc_put_handle_list].
  destruct (on_req _ _) as [ca| | |]; [|done..]. cbn [mbind outcome_bind].
  destruct (arpc_put_str ca _) as [ca1| | |]; [|done..]. cbn [mbind outcome_bind].
  destruct (arpc_invoke x ca1 _) as [[[c1 ca2] ok]| | |]; [|done..]. cbn [mbind outcome_bind].
  destruct ok; cbn [negb]; [|done]. by rewrite HA.
Qed.
End Fetch.

(** ** The package's group *)

(** The table gives this group and this position for the package. *)
Definition in_group `{Uthash} (t : groups) (id a i : Z) : Prop :=
  exists b, HASH_FIND (g_slots t) (le64 id) = Some b /\ gs_slot t !! b = Some (PkgSlot id a i).

Section Resolve.
Context {A : Allocator} {P : Placement} {U : Uthash}.
Implicit Types t : groups.

Lemma in_group_resolves t id a i : in_group t id a i -> group_for_pkg t id = Ret (t, Some (a, i)).
Proof. intros (b & E & Hs). unfold group_for_pkg. rewrite E. unfold slot_at. by rewrite Hs. Qed.

(** Storing a column moves no package. *)
Lemma in_group_put t id a i b g : in_group t id a i -> in_group (put_group t b g) id a i.
Proof. done. Qed.

Context {PO : PlacementOk P} {UO : UthashOk U} {HA : TotalAllocator A} {UT : UthashTotal U}.

Lemma in_group_member t G S id a i :
  grep t G S -> is_u64 id -> in_group t id a i ->
  0 <= i /\ exists g, (a, g) ∈ G /\ gr_ids g !! Z.to_nat i = Some id.
Proof.
  intros H Hid (b & _ & Hs). apply (gh_slots _ _ _ (gr_heap _ _ _ H)) in Hs.
  destruct (gh_leads _ _ _ (gr_heap _ _ _ H) b _ Hs) as (_ & Hi & g & Hg & Hl). by split; [|exists g].
Qed.

Lemma find_in_group t G S id :
  grep t G S -> is_u64 id -> (exists b s, (b, s) ∈ S /\ sl_id s = id) -> exists a i, in_group t id a i.
Proof.
  intros H Hid (b & s & Hs & He). pose proof (slot_find t G S id (gr_heap _ _ _ H) Hid) as Hf.
  destruct (HASH_FIND _ _) as [b'|] eqn:E; [|by destruct (Hf b s Hs)].
  destruct Hf as (s' & Hs' & He'). exists (sl_g s'), (sl_slot s'), b'. split; [done|].
  rewrite (proj2 (gh_slots _ _ _ (gr_heap _ _ _ H) b' s') Hs'), <- He'. by destruct s'.
Qed.

(** Every package has a group and a position in it, a group of its own when
    it is in no list. *)
Lemma resolve_spec t G S id :
  grep t G S -> is_u64 id ->
  exists t' G' S' a i g, group_for_pkg t id = Ret (t', Some (a, i)) /\ grep t' G' S' /\ in_group t' id a i /\
    (a, g) ∈ G' /\ 0 <= i /\ gr_ids g !! Z.to_nat i = Some id.
Proof.
  intros H Hid. pose proof (slot_find t G S id (gr_heap _ _ _ H) Hid) as Hf.
  destruct (HASH_FIND (g_slots t) (le64 id)) as [b|] eqn:E.
  - destruct Hf as (s & Hs & He). destruct (find_in_group t G S id H Hid) as (a & i & Hin); [by exists b, s|].
    destruct (in_group_member t G S id a i H Hid Hin) as (Hi & g & Hg & Hl).
    exists t, G, S, a, i, g. split_and!; [by apply in_group_resolves|done..].
  - destruct (group_new_spec t G S [id] H) as (t' & r & G' & N & En & Hg & Hr & Ht);
      [done|exists (ARPC_ROOT id); constructor; [done|constructor]|].
    destruct (Ht HA UT id (list_elem_of_here _ _)) as (b & s & Hs & He).
    assert (HsN : (b, s) ∈ N) by (apply elem_of_app in Hs as [Hs|Hs]; [by destruct (Hf b s Hs)|done]).
    destruct r as [a|]; [|destruct Hr as [_ ->]; by apply not_elem_of_nil in HsN]. destruct Hr as (-> & _ & Hn).
    destruct (find_in_group t' _ _ id Hg Hid) as (a' & i & Hin); [by exists b, s|].
    destruct (in_group_member t' _ _ id a' i Hg Hid Hin) as (Hi & g & Hga & Hl).
    assert (a' = a) as ->.
    { destruct Hin as (b' & _ & Hs'). apply (gh_slots _ _ _ (gr_heap _ _ _ Hg)) in Hs'.
      pose proof (slot_unique t' _ _ _ _ _ _ (gr_heap _ _ _ Hg) Hs' Hs) as Eu. cbn in Eu. rewrite He in Eu.
      specialize (Eu eq_refl). rewrite <- (Hn b s HsN), <- Eu. done. }
    assert (g = Group [id] []) as -> by (apply (group_unique t' _ _ a _ _ (gr_heap _ _ _ Hg) Hga), list_elem_of_here).
    assert (i = 0) as ->.
    { apply lookup_lt_Some in Hl. cbn in Hl. lia. }
    exists t', ((a, Group [id] []) :: G), (S ++ N), a, 0, (Group [id] []).
    split; [|by split_and!]. unfold group_for_pkg. rewrite E, En. done.
Qed.
End Resolve.

(** ** Properties *)

Section Theorems.
Context {A : Allocator} {P : Placement} {U : Uthash} {W H : Type}
  {HO : HandleOps H} {WN : Win W H} {ST : Stubs W H}.
Implicit Types c : client W H.

Lemma set_own_groups c : cl_set_groups c (cl_groups c) = c.
Proof. by destruct c. Qed.

(** A column that is there is the one read, whatever an exchange would do. *)
Lemma column_of_stored x c a g col id field want_str j :
  in_group (cl_groups c) id a j -> group_at (cl_groups c) a = Ret g -> find_column (gr_cols g) field = Some col ->
  column_of x id field want_str c = Ret (c, Some (col, j)).
Proof.
  intros Hin Hg Hf. unfold column_of. rewrite (in_group_resolves _ _ _ _ Hin). cbn [mbind outcome_bind].
  rewrite set_own_groups. unfold column_for. rewrite Hg. cbn [mbind outcome_bind]. by rewrite Hf.
Qed.

Lemma cell_in {X} (l : list X) j v : 0 <= j -> l !! Z.to_nat j = Some v -> cell l j = Ret v.
Proof. intros Hj E. unfold cell. destruct (Z.ltb_spec j 0); [lia|]. by rewrite E. Qed.

(** What reading a column gives, of either kind. *)
Lemma read_str x id field c c' n kids j :
  id <> 0 -> column_of x id field true c = Ret (c', Some (kids_column field true n kids, j)) -> 0 <= j < Z.of_nat n ->
  arpc_pkg_field_str x id field c = Ret (c', t_str (kids !! Z.to_nat j)).
Proof.
  intros H0 E Hj. unfold arpc_pkg_field_str. rewrite (proj2 (Z.eqb_neq _ _) H0), E. cbn [mbind outcome_bind kids_column co_str].
  by rewrite (cell_in _ j (t_str (kids !! Z.to_nat j))) by (lia || (apply cells_lookup; lia)).
Qed.

Lemma read_i64 x id field c c' n kids j :
  id <> 0 -> column_of x id field false c = Ret (c', Some (kids_column field false n kids, j)) -> 0 <= j < Z.of_nat n ->
  arpc_pkg_field_i64 x id field c = Ret (c', t_i64 (kids !! Z.to_nat j) 0).
Proof.
  intros H0 E Hj. unfold arpc_pkg_field_i64. rewrite (proj2 (Z.eqb_neq _ _) H0), E. cbn [mbind outcome_bind kids_column co_num].
  by rewrite (cell_in _ j (t_i64 (kids !! Z.to_nat j) 0)) by (lia || (apply (cells_lookup (fun j => t_i64 j 0)); lia)).
Qed.

Context {HA : TotalAllocator A} {PO : PlacementOk P} {UO : UthashOk U} {UT : UthashTotal U}.

(** Fetching: the column is made and stored. *)
Lemma column_of_fetch x c c1 t' a i g G S id field want_str reply r :
  group_for_pkg (cl_groups c) id = Ret (t', Some (a, i)) -> grep t' G S -> (a, g) ∈ G -> in_group t' id a i ->
  find_column (gr_cols g) field = None -> call_ok (lit "arpc.pkg_fields") (fields_puts (gr_ids g) field) c ->
  x (render (request_json (cl_next_id c) (lit "arpc.pkg_fields") (put_json <$> fields_puts (gr_ids g) field)))
    (cl_set_next_id (cl_set_groups c t') (cl_next_id c + 1)) = Ret (c1, Some reply) ->
  cl_groups c1 = t' -> len reply <= ARPC_MAX_FRAME -> answer_of (cl_next_id c) reply = Result r ->
  let col := kids_column field want_str (length (gr_ids g)) (t_kids (t_member (Some r) ARPC_RET_KEY)) in
  exists c2, column_of x id field want_str c = Ret (c2, Some (col, i)) /\
    gs_group (cl_groups c2) !! a = Some (Group (gr_ids g) (col :: gr_cols g)) /\
    (forall id' a' j, in_group t' id' a' j -> in_group (cl_groups c2) id' a' j).
Proof.
  intros Hf Hg Hag Hin Hno Hok Hx Hc1 Hl Ha col. unfold column_of. rewrite Hf. cbn [mbind outcome_bind].
  pose proof (group_at_in _ _ _ _ _ (gr_heap _ _ _ Hg) Hag) as Eg. unfold column_for. cbn [cl_groups cl_set_groups].
  rewrite Eg. cbn [mbind outcome_bind]. rewrite Hno.
  assert (Hids : gr_ids g <> []) by (by destruct (gh_ok _ _ _ (gr_heap _ _ _ Hg) a g Hag)).
  rewrite (fetch_is_call x a field want_str (cl_set_groups c t') g); [|apply Hok|done|done|].
  2: { destruct Hok as (_ & Hn & _). cbn. lia. }
  destruct (stub_call_run x (lit "arpc.pkg_fields") (fields_puts (gr_ids g) field) (cl_set_groups c t') Hok) as (w & Hb & ->).
  cbn [cl_next_id cl_set_groups] in *. rewrite Hb, Hx. cbn [mbind outcome_bind]. cbn zeta.
  destruct (check_reply_spec (Call w doc0 (cl_next_id c) (-1) false) reply c1 Hl) as (ca & -> & Hr).
  cbn [ca_id] in *. rewrite Ha in *. cbn [after_answer is_result mbind outcome_bind]. rewrite Hc1, Eg. cbn [mbind outcome_bind].
  rewrite (response_column_reads ca r (length (gr_ids g)) field want_str (Hr r eq_refl)). cbn [mbind outcome_bind].
  unfold push_column. rewrite Eg. cbn [mbind outcome_bind]. eexists. split; [reflexivity|].
  cbn [cl_groups cl_set_groups]. split; [apply lookup_insert_eq|]. intros id' a' j Hj. exact Hj.
Qed.

(** C31. One round trip reads a field of a whole list. The first read of a
    field of a package asks for it once, for the ids of the package's group
    in order, and answers with the package's element of the response; after
    it, the same field of any member of the group is read with no exchange
    at all, and is the element at the member's own position, a string or a
    number as it came, nothing where the response was short. This is so as
    long as no memory is refused. *)
Theorem fields_correct c G S id field :
  grep (cl_groups c) G S -> is_u64 id -> id <> 0 ->
  exists t' a i g, group_for_pkg (cl_groups c) id = Ret (t', Some (a, i)) /\ group_at t' a = Ret g /\
    gr_ids g !! Z.to_nat i = Some id /\
    forall x c1 reply r,
      find_column (gr_cols g) field = None -> call_ok (lit "arpc.pkg_fields") (fields_puts (gr_ids g) field) c ->
      x (render (request_json (cl_next_id c) (lit "arpc.pkg_fields") (put_json <$> fields_puts (gr_ids g) field)))
        (cl_set_next_id (cl_set_groups c t') (cl_next_id c + 1)) = Ret (c1, Some reply) ->
      cl_groups c1 = t' -> len reply <= ARPC_MAX_FRAME -> answer_of (cl_next_id c) reply = Result r ->
      let kids := t_kids (t_member (Some r) ARPC_RET_KEY) in
      (exists c2, arpc_pkg_field_str x id field c = Ret (c2, t_str (kids !! Z.to_nat i)) /\
         forall x' id' j, is_u64 id' -> id' <> 0 -> in_group t' id' a j ->
           arpc_pkg_field_str x' id' field c2 = Ret (c2, t_str (kids !! Z.to_nat j))) /\
      (exists c2, arpc_pkg_field_i64 x id field c = Ret (c2, t_i64 (kids !! Z.to_nat i) 0) /\
         forall x' id' j, is_u64 id' -> id' <> 0 -> in_group t' id' a j ->
           arpc_pkg_field_i64 x' id' field c2 = Ret (c2, t_i64 (kids !! Z.to_nat j) 0)).
Proof.
  intros Hrep Hid H0. destruct (resolve_spec (cl_groups c) G S id Hrep Hid) as (t' & G' & S' & a & i & g & E & Hg & Hin & Hag & Hi & Hl).
  exists t', a, i, g. pose proof (group_at_in _ _ _ _ _ (gr_heap _ _ _ Hg) Hag) as Eg. split_and!; [done..|].
  intros x c1 reply r Hno Hok Hx Hc1 Hlen Ha kids.
  assert (Hpos : forall id' j, is_u64 id' -> in_group t' id' a j -> 0 <= j < Z.of_nat (length (gr_ids g))).
  { intros id' j Hu Hj. destruct (in_group_member t' G' S' id' a j Hg Hu Hj) as (Hj0 & g' & Hg' & Hl').
    rewrite (group_unique t' G' S' a g' g (gr_heap _ _ _ Hg) Hg' Hag) in Hl'. apply lookup_lt_Some in Hl'. lia. }
  split.
  - destruct (column_of_fetch x c c1 t' a i g G' S' id field true reply r) as (c2 & Ec & Hg2 & Hin2); [done..|].
    exists c2. split; [eapply read_str; [done|exact Ec|by apply (Hpos id)]|]. intros x' id' j Hu Hz Hj.
    eapply read_str; [done| |by apply (Hpos id')]. eapply column_of_stored; [by apply Hin2|unfold group_at; by rewrite Hg2|].
    cbn. unfold streq. by rewrite bool_decide_true.
  - destruct (column_of_fetch x c c1 t' a i g G' S' id field false reply r) as (c2 & Ec & Hg2 & Hin2); [done..|].
    exists c2. split; [eapply read_i64; [done|exact Ec|by apply (Hpos id)]|]. intros x' id' j Hu Hz Hj.
    eapply read_i64; [done| |by apply (Hpos id')]. eapply column_of_stored; [by apply Hin2|unfold group_at; by rewrite Hg2|].
    cbn. unfold streq. by rewrite bool_decide_true.
Qed.
End Theorems.

(** The array of cells is written to without a look at whether it could be
    allocated. *)
Lemma response_column_unchecked {A : Allocator} ca r n field want_str j kids :
  reads (ca_rsp ca) (ca_result ca) (Some r) -> t_kids (t_member (Some r) ARPC_RET_KEY) = j :: kids -> 0 < n ->
  grants (n * 8) = false -> response_column ca n field want_str = Undef.
Proof.
  intros Hr Hk Hn Hg. unfold response_column. destruct (aj_member_reads _ _ _ ARPC_RET_KEY Hr) as (m & E & Hm).
  change (arpc_ret_node ca) with (aj_member (ca_rsp ca) (ca_result ca) ARPC_RET_KEY). rewrite E.
  cbn [mbind outcome_bind]. cbn zeta. rewrite Hg. pose proof (aj_first_reads _ _ _ Hm) as Hf. rewrite Hk in Hf.
  destruct (reads_from_cons _ _ _ _ Hf) as (He & _). destruct (Z.leb_spec 0 (aj_first (ca_rsp ca) m)); [|lia].
  by destruct (Z.ltb_spec 0 n); [|lia].
Qed.

(** ** A list read *)

Section Toy.
#[local] Existing Instance Chain.chain.
#[local] Existing Instance Chain.above.
#[local] Existing Instances Chain.chain_ok Chain.chain_total Chain.above_ok.
#[local] Existing Instance Trickle.ops.
#[local] Existing Instance ToyClient.win.
#[local] Existing Instance ToyClient.stubs.

Definition listed_client : client ToyClient.world Trickle.pipe := cl_set_groups toy_client toy_groups.
Definition names_reply : list Z := qlit "{`id`:1,`result`:{`@ret`:[`vim`,`nano`]}}".
Definition says_names : transactor ToyClient.world Trickle.pipe := fun _ c => Ret (c, Some names_reply).

Lemma listed_call_ok : call_ok (lit "arpc.pkg_fields") (fields_puts toy_pair (lit "name")) listed_client.
Proof.
  split; [done|]. split; [done|]. split; [by apply (bool_decide_unpack (is_bytes _))|]. split; [done|].
  split; [|by vm_compute]. constructor; [repeat constructor; done|].
  constructor; [by apply (bool_decide_unpack (str_ok _))|constructor].
Qed.

Lemma toy_five : is_u64 (toy_id 5).
Proof. done. Qed.
Lemma toy_five_set : 0 <> toy_id 5.
Proof. done. Qed.
Lemma toy_five_listed : in_group toy_groups (toy_id 5) 4096 0.
Proof. exists 4096. split; reflexivity. Qed.

Lemma fields_correct_witness :
  exists c2, arpc_pkg_field_str (A:=ample) says_names (toy_id 6) (lit "name") listed_client = Ret (c2, Some (lit "nano")) /\
    arpc_pkg_field_str (A:=ample) (fun _ c => Ret (c, None)) (toy_id 5) (lit "name") c2 = Ret (c2, Some (lit "vim")).
Proof.
  destruct (fields_correct (A:=ample) listed_client toy_g toy_s (toy_id 6) (lit "name") toy_grep) as (t' & a & i & g & E & Eg & _ & Hf);
    [done|done|].
  change (group_for_pkg (cl_groups listed_client) (toy_id 6)) with (Ret (toy_groups, Some (4096, 1))) in E.
  injection E as <- <- <-. change (group_at toy_groups 4096) with (Ret (Group toy_pair [])) in Eg. injection Eg as <-.
  destruct (Hf says_names (cl_set_next_id listed_client 2) names_reply
    (JObj [(ARPC_RET_KEY, JArr [JStr (lit "vim"); JStr (lit "nano")])])) as [(c2 & E2 & Hnext) _].
  - reflexivity.
  - exact listed_call_ok.
  - reflexivity.
  - reflexivity.
  - by vm_compute.
  - vm_compute. reflexivity.
  - exists c2. split; [exact E2|]. exact (Hnext _ (toy_id 5) 0 toy_five (Z.neq_sym _ _ toy_five_set) toy_five_listed).
Defined.
End Toy.
