(* ===== verification/ClientMtree.v ===== *)
(** * An mtree, read here: src/client/arpc_mtree.c

    The whole mtree comes over in one call and is read by this process's
    libarchive out of a buffer that libarchive does not copy, so the buffer
    has to outlive the archive.  The buffers are blocks of a heap here:
    letting libarchive read one that was freed is [Undef]. *)

From S2P Require Import Prelude Json JsonWriter JsonReader Base64 Wire Uthash Cache.
From S2P Require Import JsonRef JsonArena JsonAccess Server DispatchTheorems ClientState Client ClientCalls.

(** ** libarchive *)

(** The calls on its state [L]: an archive is an address, 0 for NULL.  Where
    an open archive reads from is [archive_source]; a header is read out of
    the bytes that are there. *)
Class ReadArchive (L : Type) := {
  ARCHIVE_OK : Z;
  ARCHIVE_EOF : Z;
  archive_source : L -> Z -> option Z;
  archive_read_new : L -> Z * L;
  archive_read_support : L -> Z -> L;
  archive_read_open_memory : L -> Z -> Z -> Z -> Z * L;
  archive_read_next_header : L -> Z -> list Z -> Z * Z * L;
  archive_read_free : L -> Z -> Z * L
}.

(** What it promises: an archive is new, reads from where it was opened over
    until it is freed, and no call touches another. *)
Class ReadArchiveOk (L : Type) `{ReadArchive L} : Prop := {
  read_new_fresh l a l' : archive_read_new l = (a, l') -> a <> 0 -> archive_source l a = None;
  read_new_others l a l' b : archive_read_new l = (a, l') -> archive_source l' b = archive_source l b;
  read_support_others l a b : archive_source (archive_read_support l a) b = archive_source l b;
  read_open_source l a p n rc l' b : archive_read_open_memory l a p n = (rc, l') ->
    archive_source l' b = if decide (b = a /\ rc = ARCHIVE_OK) then Some p else archive_source l b;
  read_next_others l a bs rc e l' b : archive_read_next_header l a bs = (rc, e, l') -> archive_source l' b = archive_source l b;
  read_free_source l a rc l' b : archive_read_free l a = (rc, l') ->
    archive_source l' b = if decide (b = a) then None else archive_source l b
}.

(** ** The state *)

(** [g_streams], an archive and its buffer each, in the order of the links;
    the buffers; libarchive. *)
Record streams (L : Type) := Streams { g_streams : list (Z * Z); st_bufs : gmap Z (list Z); st_lib : L }.
Arguments Streams {L}.
Arguments g_streams {L}.
Arguments st_bufs {L}.
Arguments st_lib {L}.

Definition sizeof_stream : Z := 24.

Section Mtree.
Context {A : Allocator} {P : Placement} {U : Uthash} {W H L : Type}
  {HO : HandleOps H} {WN : Win W H} {ST : Stubs W H} {RA : ReadArchive L}.
Implicit Types (c : client W H) (s : streams L).

Definition streams0 (l : L) : streams L := Streams [] ∅ l.

Definition st_set_streams s l : streams L := Streams l (st_bufs s) (st_lib s).
Definition st_set_bufs s m : streams L := Streams (g_streams s) m (st_lib s).
Definition st_set_lib s l : streams L := Streams (g_streams s) (st_bufs s) l.

(** [free(buf)] *)
Definition free_buf s (p : Z) : outcome (streams L) :=
  match st_bufs s !! p with
  | Some _ => Ret (st_set_bufs s (delete p (st_bufs s)))
  | None => Undef
  end.

Definition remember s (a buf : Z) : outcome (streams L) :=
  if grants sizeof_stream then Ret (st_set_streams s ((a, buf) :: g_streams s)) else free_buf s buf.

(** The loop of [forget]: the links left. *)
Fixpoint forget_loop (l : list (Z * Z)) (a : Z) s : outcome (streams L * list (Z * Z)) :=
  match l with
  | [] => Ret (s, [])
  | (b, buf) :: l =>
      if b =? a then s ← free_buf s buf; Ret (s, l)
      else '(s, l) ← forget_loop l a s; Ret (s, (b, buf) :: l)
  end.
Definition forget s (a : Z) : outcome (streams L) :=
  '(s, l) ← forget_loop (g_streams s) a s; Ret (st_set_streams s l).

(** What [alpm_pkg_mtree_open] does with the bytes: the archive, 0 for NULL. *)
Definition open_stream s (b : option (list Z * Z)) : outcome (streams L * Z) :=
  match b with
  | None => Ret (s, 0)
  | Some (bytes, n) =>
      let buf := place (dom (st_bufs s)) in
      let s := st_set_bufs s (<[buf := bytes]> (st_bufs s)) in
      let '(a, l) := archive_read_new (st_lib s) in
      let s := st_set_lib s l in
      if a =? 0 then s ← free_buf s buf; Ret (s, 0)
      else
        let '(rc, l) := archive_read_open_memory (archive_read_support (st_lib s) a) a buf n in
        if rc =? ARCHIVE_OK then s ← remember (st_set_lib s l) a buf; Ret (s, a)
        else
          let '(_, l) := archive_read_free l a in
          s ← free_buf (st_set_lib s l) buf; Ret (s, 0)
  end.

Definition alpm_pkg_mtree_open (x : transactor W H) (pkg : Z) c s : outcome (client W H * streams L * Z) :=
  '(c, ca) ← arpc_begin x (lit "arpc.mtree") c;
  match ca with
  | None => Ret (c, s, 0)
  | Some ca =>
      ca ← arpc_put_handle ca (ARPC_ID pkg);
      '(c, ca, ok) ← arpc_invoke x ca c;
      if negb ok then Ret (c, s, 0)
      else
        b ← arpc_ret_bytes ca;
        '(s, a) ← open_stream s b;
        Ret (c, s, a)
  end.

(** The result and the entry; both pointers may be NULL. *)
Definition alpm_pkg_mtree_next (archive : Z) (entry : bool) s : outcome (streams L * Z * Z) :=
  if (archive =? 0) || negb entry then Ret (s, -1, 0)
  else
    match archive_source (st_lib s) archive with
    | None => Undef
    | Some buf =>
        match st_bufs s !! buf with
        | None => Undef
        | Some bytes =>
            let '(rc, e, l) := archive_read_next_header (st_lib s) archive bytes in
            Ret (st_set_lib s l, if rc =? ARCHIVE_OK then 0 else if rc =? ARCHIVE_EOF then 1 else -1, e)
        end
    end.

Definition alpm_pkg_mtree_close (archive : Z) s : outcome (streams L * Z) :=
  if archive =? 0 then Ret (s, -1)
  else
    let '(rc, l) := archive_read_free (st_lib s) archive in
    s ← forget (st_set_lib s l) archive;
    Ret (s, if rc =? ARCHIVE_OK then 0 else -1).
End Mtree.

(** ** An archive has its buffer *)

Section Streams.
Context {A : Allocator} {P : Placement} {PO : PlacementOk P} {L : Type} `{RO : ReadArchiveOk L}.
Implicit Types s : streams L.

(** The archives that are open are those remembered, each reading from a
    buffer of its own; there is no other buffer. *)
Record stinv s : Prop := {
  si_sources a p : (a, p) ∈ g_streams s <-> archive_source (st_lib s) a = Some p;
  si_null a p : (a, p) ∈ g_streams s -> a <> 0;
  si_archives : NoDup (g_streams s).*1;
  si_buffers : NoDup (g_streams s).*2;
  si_heap p : is_Some (st_bufs s !! p) <-> p ∈ (g_streams s).*2
}.

Lemma stinv_init l : (forall a, archive_source l a = None) -> stinv (streams0 l).
Proof.
  intros Hl. split; cbn; try constructor.
  - by intros ?%not_elem_of_nil.
  - by rewrite Hl.
  - by intros a p ?%not_elem_of_nil.
  - by rewrite lookup_empty; intros [? [=]].
  - by intros ?%not_elem_of_nil.
Qed.

Lemma free_buf_ok s p : is_Some (st_bufs s !! p) -> free_buf s p = Ret (st_set_bufs s (delete p (st_bufs s))).
Proof. intros [b E]. unfold free_buf. by rewrite E. Qed.

(** Opening over bytes: an archive over exactly them, or none and nothing
    changed. *)
Lemma open_stream_spec s bytes n :
  grants sizeof_stream = true -> stinv s ->
  exists s' a, open_stream s (Some (bytes, n)) = Ret (s', a) /\ stinv s' /\
    ((a = 0 /\ g_streams s' = g_streams s /\ st_bufs s' = st_bufs s) \/
     (a <> 0 /\ exists p, g_streams s' = (a, p) :: g_streams s /\ st_bufs s' = <[p := bytes]> (st_bufs s) /\
        st_bufs s !! p = None)).
Proof.
  intros Hg [H1 H0 H2 H3 H4]. unfold open_stream. set (p := place (dom (st_bufs s))). cbn zeta.
  assert (Hp : st_bufs s !! p = None) by (apply not_elem_of_dom, place_fresh).
  assert (Hnp : p ∉ (g_streams s).*2) by (intros Hin; apply H4 in Hin; rewrite Hp in Hin; by destruct Hin).
  cbn [st_lib st_set_bufs]. destruct (archive_read_new (st_lib s)) as [a l] eqn:En. cbn zeta.
  assert (Hdel : delete p (<[p := bytes]> (st_bufs s)) = st_bufs s) by (by apply delete_insert_id).
  assert (Hsame : forall l', (forall b, archive_source l' b = archive_source (st_lib s) b) ->
    stinv (Streams (g_streams s) (st_bufs s) l')).
  { intros l' Hl. split; try done. intros b q. cbn. by rewrite Hl. }
  destruct (Z.eqb_spec a 0) as [->|Ha].
  - rewrite free_buf_ok by (cbn; rewrite lookup_insert_eq; by eexists). cbn [mbind outcome_bind].
    eexists _, 0. split; [reflexivity|]. cbn [g_streams st_bufs st_set_bufs st_set_lib st_lib]. unfold st_set_bufs, st_set_lib. cbn.
    rewrite Hdel. split; [|by left]. apply Hsame. intros b. cbn. by rewrite (read_new_others _ _ _ b En).
  - pose proof (read_new_fresh _ _ _ En Ha) as Hfresh. cbn [st_lib st_set_lib].
    assert (Hsup : forall b, archive_source (archive_read_support l a) b = archive_source (st_lib s) b).
    { intros b. by rewrite read_support_others, (read_new_others _ _ _ b En). }
    destruct (archive_read_open_memory _ a p n) as [rc l2] eqn:Eo.
    pose proof (fun b => read_open_source _ _ _ _ _ _ b Eo) as Hsrc.
    destruct (Z.eqb_spec rc ARCHIVE_OK) as [->|Hrc].
    + unfold remember. rewrite Hg. cbn [mbind outcome_bind]. eexists _, a. split; [reflexivity|].
      assert (Hna : a ∉ (g_streams s).*1).
      { intros ([b q] & Hb & Hin)%list_elem_of_fmap. cbn in Hb. subst b. apply H1 in Hin. congruence. }
      split; [|right; split; [done|]; by exists p]. split; cbn.
      * intros b q. rewrite elem_of_cons, Hsrc. destruct (decide (b = a /\ ARCHIVE_OK = ARCHIVE_OK)) as [[-> _]|Hne].
        -- split; [intros [[= ->]|Hin]; [done|]|by intros [= ->]; left].
           destruct Hna. by apply (list_elem_of_fmap_2' fst _ (a, q)).
        -- rewrite Hsup, <- H1. split; [|by right]. intros [[= -> ->]|?]; [by destruct Hne|done].
      * by intros b q [[= -> ->]|Hin]%elem_of_cons; [|eapply H0].
      * by constructor.
      * by constructor.
      * intros q. rewrite elem_of_cons. destruct (decide (q = p)) as [->|Hne].
        -- rewrite lookup_insert_eq. split; [by left|by eexists].
        -- rewrite lookup_insert_ne by done. rewrite H4. split; [by right|]. by intros [?|?].
    + destruct (archive_read_free l2 a) as [rc' l3] eqn:Ef.
      rewrite free_buf_ok by (cbn; rewrite lookup_insert_eq; by eexists). cbn [mbind outcome_bind].
      eexists _, 0. split; [reflexivity|]. cbn. rewrite Hdel. split; [|by left]. apply Hsame. intros b. cbn.
      rewrite (read_free_source _ _ _ _ b Ef). destruct (decide (b = a)) as [->|Hne]; [done|].
      rewrite Hsrc. rewrite decide_False by tauto. apply Hsup.
Qed.

(** Closing frees the buffer of this archive and no other. *)
Lemma forget_spec l a p : forall s,
  (a, p) ∈ l -> NoDup l.*1 -> is_Some (st_bufs s !! p) ->
  exists l', forget_loop l a s = Ret (st_set_bufs s (delete p (st_bufs s)), l') /\
    forall x, x ∈ l' <-> x ∈ l /\ x.1 <> a.
Proof.
  induction l as [|[b q] l IH]; intros s Hin Hn Hp; [by apply not_elem_of_nil in Hin|].
  cbn [forget_loop fmap list_fmap fst] in *. apply NoDup_cons in Hn as [Hnb Hn]. destruct (Z.eqb_spec b a) as [->|Hne].
  - assert (q = p) as ->.
    { apply elem_of_cons in Hin as [[= ->]|Hin]; [done|]. destruct Hnb. by apply (list_elem_of_fmap_2' fst _ (a, p)). }
    rewrite free_buf_ok by done. cbn [mbind outcome_bind]. exists l. split; [done|]. intros [c r]. cbn [fst].
    rewrite elem_of_cons. split; [|by intros [[[= -> ->]|?] ?]]. intros Hc. split; [by right|]. intros ->.
    destruct Hnb. by apply (list_elem_of_fmap_2' fst _ (a, r)).
  - destruct (IH s) as (l' & -> & Hl); [|done|done|].
    { by apply elem_of_cons in Hin as [[= -> _]|Hin]. }
    cbn [mbind outcome_bind]. eexists. split; [reflexivity|]. intros [c r]. rewrite !elem_of_cons, Hl. cbn [fst].
    naive_solver.
Qed.

Lemma forget_sublist l a : forall s s' l',
  forget_loop l a s = Ret (s', l') -> sublist l' l.
Proof.
  induction l as [|[b q] l IH]; intros s s' l' E; cbn [forget_loop] in E; [by injection E as <- <-|].
  destruct (b =? a).
  - inv_bind. simplify_eq. by apply sublist_cons.
  - inv_bind. destruct a0 as [s1 l1]. simplify_eq. apply sublist_skip. by eapply IH.
Qed.

Lemma close_spec s a p :
  stinv s -> (a, p) ∈ g_streams s ->
  exists s' rc, alpm_pkg_mtree_close a s = Ret (s', rc) /\ stinv s' /\ st_bufs s' = delete p (st_bufs s) /\
    forall x, x ∈ g_streams s' <-> x ∈ g_streams s /\ x.1 <> a.
Proof.
  intros [Hs H0' Ha Hb Hh] Hin. unfold alpm_pkg_mtree_close. destruct (Z.eqb_spec a 0) as [Hz|_]; [by destruct (H0' a p)|].
  destruct (archive_read_free (st_lib s) a) as [rc l] eqn:Ef. unfold forget. cbn [g_streams st_set_lib].
  destruct (forget_spec (g_streams s) a p (st_set_lib s l) Hin Ha) as (l' & E & Hl).
  { cbn. apply Hh. by apply (list_elem_of_fmap_2' snd _ (a, p)). }
  pose proof (forget_sublist _ _ _ _ _ E) as Hsub. rewrite E. cbn [mbind outcome_bind]. eexists _, _. split; [reflexivity|].
  assert (Hnp : p ∉ l'.*2).
  { intros ([b q] & Hq & Hbl)%list_elem_of_fmap. cbn in Hq. subst q. apply Hl in Hbl as [Hbl Hne]. cbn in Hne. destruct Hne.
    apply list_elem_of_lookup in Hbl as [i Hi], Hin as [j Hj].
    assert (i = j) as ->; [|congruence]. apply (NoDup_lookup _ i j p Hb); rewrite list_lookup_fmap; [by rewrite Hi|by rewrite Hj]. }
  split; [|by split_and!]. split; cbn.
  - intros b q. rewrite Hl, Hs, (read_free_source _ _ _ _ b Ef). cbn [fst]. destruct (decide (b = a)); naive_solver.
  - intros b q [Hbl _]%Hl. by apply (H0' b q).
  - eapply sublist_NoDup; [exact Ha|by apply fmap_sublist].
  - eapply sublist_NoDup; [exact Hb|by apply fmap_sublist].
  - intros q. destruct (decide (q = p)) as [->|Hne].
    + rewrite lookup_delete_eq. split; [by intros [? ?]|done].
    + rewrite lookup_delete_ne, Hh by done. rewrite !list_elem_of_fmap. split.
      * intros ([b r] & -> & Hbl). exists (b, r). split; [done|]. apply Hl. split; [done|]. cbn. intros ->. apply Hne.
        apply list_elem_of_lookup in Hbl as [i Hi], Hin as [j Hj].
        assert (i = j) as ->; [|by rewrite Hi in Hj; injection Hj]. apply (NoDup_lookup _ i j a Ha); rewrite list_lookup_fmap; [by rewrite Hi|by rewrite Hj].
      * intros (x & -> & [Hx _]%Hl). by exists x.
Qed.

Lemma next_spec s a p :
  stinv s -> (a, p) ∈ g_streams s ->
  exists bytes, st_bufs s !! p = Some bytes /\
    let '(rc, e, l) := archive_read_next_header (st_lib s) a bytes in
    alpm_pkg_mtree_next a true s =
      Ret (st_set_lib s l, if rc =? ARCHIVE_OK then 0 else if rc =? ARCHIVE_EOF then 1 else -1, e) /\ stinv (st_set_lib s l).
Proof.
  intros [Hs H0' Ha Hb Hh] Hin. destruct (proj2 (Hh p)) as [bytes E]; [by apply (list_elem_of_fmap_2' snd _ (a, p))|].
  exists bytes. split; [done|]. destruct (archive_read_next_header (st_lib s) a bytes) as [[rc e] l] eqn:En.
  unfold alpm_pkg_mtree_next. destruct (Z.eqb_spec a 0) as [Hz|_]; [by destruct (H0' a p)|]. cbn [orb negb].
  rewrite (proj1 (Hs a p) Hin), E, En. split; [done|]. split; try done. intros b q. cbn.
  by rewrite (read_next_others _ _ _ _ _ _ b En).
Qed.
End Streams.

(** ** Properties *)

Section Theorems.
Context {A : Allocator} {P : Placement} {U : Uthash} {W H L : Type}
  {HO : HandleOps H} {WN : Win W H} {ST : Stubs W H} `{RO : ReadArchiveOk L}.
Implicit Types (c : client W H) (s : streams L).

(** What callers can do: open, over whatever call; and read and close what is
    open. *)
Inductive mtree_reached : streams L -> Prop :=
| reached_none l : (forall a, archive_source l a = None) -> mtree_reached (streams0 l)
| reached_open x pkg c s c' s' a :
    mtree_reached s -> alpm_pkg_mtree_open x pkg c s = Ret (c', s', a) -> mtree_reached s'
| reached_next s a p s' rc e :
    mtree_reached s -> (a, p) ∈ g_streams s -> alpm_pkg_mtree_next a true s = Ret (s', rc, e) -> mtree_reached s'
| reached_close s a p s' rc :
    mtree_reached s -> (a, p) ∈ g_streams s -> alpm_pkg_mtree_close a s = Ret (s', rc) -> mtree_reached s'.

(** What opening does to the streams. *)
Lemma mtree_open_streams x pkg c s c' s' a :
  alpm_pkg_mtree_open x pkg c s = Ret (c', s', a) -> (s' = s /\ a = 0) \/ exists b, open_stream s b = Ret (s', a).
Proof.
  unfold alpm_pkg_mtree_open. intros E. inv_bind. destruct a0 as [c1 [ca|]]; [|simplify_eq; by left].
  inv_bind. destruct a1 as [[c2 ca2] ok]. destruct ok; cbn [negb] in E; [|simplify_eq; by left].
  inv_bind. destruct a2 as [s2 a2]. simplify_eq. right. by eexists.
Qed.

Context {PO : PlacementOk P}.

Lemma reached_inv s : grants sizeof_stream = true -> mtree_reached s -> stinv s.
Proof.
  intros Hg. induction 1 as [l Hl|x pkg c s c' s' a _ IH E|s a p s' rc e _ IH Hin E|s a p s' rc _ IH Hin E].
  - by apply stinv_init.
  - apply mtree_open_streams in E as [[-> _]|([[bytes n]|] & E)]; [done| |by injection E as <- _].
    destruct (open_stream_spec s bytes n Hg IH) as (s2 & a2 & E2 & Hs & _). rewrite E2 in E. by simplify_eq.
  - destruct (next_spec s a p IH Hin) as (bytes & _ & Hn). destruct (archive_read_next_header _ _ _) as [[r e'] l].
    destruct Hn as [En Hs]. rewrite En in E. by simplify_eq.
  - destruct (close_spec s a p IH Hin) as (s2 & r & E2 & Hs & _). rewrite E2 in E. by simplify_eq.
Qed.

(** Without memory for the note of which buffer it is, the buffer is freed and
    the archive, reading from it, is handed out all the same. *)
Lemma mtree_buffer_freed s s' bytes n a :
  grants sizeof_stream = false -> open_stream s (Some (bytes, n)) = Ret (s', a) -> a <> 0 ->
  alpm_pkg_mtree_next a true s' = Undef.
Proof.
  intros Hg. unfold open_stream. cbn zeta. set (p := place _). cbn [st_lib st_set_bufs].
  destruct (archive_read_new (st_lib s)) as [b l]. cbn zeta. destruct (b =? 0) eqn:Eb.
  { intros E Ha. inv_bind. simplify_eq. }
  cbn [st_lib st_set_lib]. destruct (archive_read_open_memory _ b p n) as [rc l2] eqn:Eo.
  destruct (Z.eqb_spec rc ARCHIVE_OK) as [->|].
  - unfold remember. rewrite Hg. rewrite free_buf_ok by (cbn; rewrite lookup_insert_eq; by eexists).
    cbn [mbind outcome_bind]. intros [= <- <-] Ha. unfold alpm_pkg_mtree_next. rewrite Eb. cbn [orb negb st_lib st_set_lib st_set_bufs].
    rewrite (read_open_source _ _ _ _ _ _ b Eo), decide_True by done. cbn. by rewrite lookup_delete_eq.
  - destruct (archive_read_free l2 b) as [r3 l3]. intros E Ha. inv_bind. simplify_eq.
Qed.

(** C32. As long as there is memory for the note of which buffer is whose, an
    archive has its buffer for as long as it is open, and no longer.  Whatever
    archives callers open, read and close, in whatever order, and whatever
    other memory is refused: reading an open one reads the bytes it was
    opened over; closing one ends without a double free, frees its buffer and
    no other's; and when none is open no buffer is left.  When the memory for
    the note is refused it is not so: the archive that is handed out reads
    from a buffer that was freed. *)
Theorem mtree_streams_safe :
  (grants sizeof_stream = true -> forall s, mtree_reached s ->
     (forall a p, archive_source (st_lib s) a = Some p -> exists bytes, st_bufs s !! p = Some bytes /\
        let '(rc, e, l) := archive_read_next_header (st_lib s) a bytes in
        alpm_pkg_mtree_next a true s =
          Ret (st_set_lib s l, if rc =? ARCHIVE_OK then 0 else if rc =? ARCHIVE_EOF then 1 else -1, e)) /\
     (forall a p, archive_source (st_lib s) a = Some p -> exists s' rc, alpm_pkg_mtree_close a s = Ret (s', rc) /\
        st_bufs s' = delete p (st_bufs s) /\
        forall b q, b <> a -> archive_source (st_lib s) b = Some q -> q <> p /\ archive_source (st_lib s') b = Some q) /\
     ((forall a, archive_source (st_lib s) a = None) -> st_bufs s = ∅)) /\
  (grants sizeof_stream = false -> forall x pkg c s c' s' a,
     alpm_pkg_mtree_open x pkg c s = Ret (c', s', a) -> a <> 0 -> alpm_pkg_mtree_next a true s' = Undef).
Proof.
  split.
  2: { intros Hg x pkg c s c' s' a E Ha. apply mtree_open_streams in E as [[_ ->]|([[bytes n]|] & E)]; [done| |by injection E as _ <-].
       by eapply mtree_buffer_freed. }
  intros Hg s Hr. pose proof (reached_inv s Hg Hr) as Hi. split_and!.
  - intros a p Ha. apply (si_sources s Hi) in Ha. destruct (next_spec s a p Hi Ha) as (bytes & E & Hn).
    exists bytes. split; [done|]. destruct (archive_read_next_header _ _ _) as [[rc e] l]. by destruct Hn.
  - intros a p Ha. apply (si_sources s Hi) in Ha. destruct (close_spec s a p Hi Ha) as (s' & rc & E & Hs & Hb & Hl).
    exists s', rc. split_and!; [done|done|]. intros b q Hne Hq. apply (si_sources s Hi) in Hq. split.
    + intros ->. apply Hne. apply list_elem_of_lookup in Hq as [i Hi'], Ha as [j Hj].
      assert (i = j) as ->; [|by rewrite Hi' in Hj; injection Hj].
      apply (NoDup_lookup _ i j p (si_buffers s Hi)); rewrite list_lookup_fmap; [by rewrite Hi'|by rewrite Hj].
    + apply (si_sources s' Hs), Hl. by split.
  - intros Hnone. assert (El : g_streams s = []).
    { destruct (g_streams s) as [|[a p] l] eqn:E; [done|]. assert (Hin : (a, p) ∈ g_streams s) by (rewrite E; apply list_elem_of_here).
      apply (si_sources s Hi) in Hin. by rewrite Hnone in Hin. }
    apply map_empty. intros p. apply eq_None_not_Some. rewrite (si_heap s Hi), El. apply not_elem_of_nil.
Qed.

Context {HA : TotalAllocator A}.

(** The bytes an archive is opened over are those the server sent. *)
Lemma mtree_open_bytes x pkg c c1 s reply r b :
  call_ok (lit "arpc.mtree") [PArg (AHandle (ARPC_ID pkg))] c -> is_bytes b -> len b <= 2 ^ 59 ->
  x (render (request_json (cl_next_id c) (lit "arpc.mtree") [JNum (i64_of_u64 pkg)]))
    (cl_set_next_id c (cl_next_id c + 1)) = Ret (c1, Some reply) ->
  len reply <= ARPC_MAX_FRAME -> answer_of (cl_next_id c) reply = Result r ->
  t_member (Some r) ARPC_RET_KEY = Some (jbytes (Some b)) ->
  alpm_pkg_mtree_open x pkg c s = ('(s', a) ← open_stream s (Some (b, len b)); Ret (c1, s', a)).
Proof.
  intros Hok Hb Hbl Hx Hl Ha Hr. destruct (stub_call_run x _ _ c Hok) as (w & Ew & E).
  rewrite Ew in E. cbn [put_json arg_json fmap list_fmap] in E. unfold ARPC_ID in E. rewrite Hx in E.
  cbn [mbind outcome_bind] in E. cbn zeta in E.
  destruct (check_reply_spec (Call w doc0 (cl_next_id c) (-1) false) reply c1 Hl) as (ca & Ec & Hrd).
  cbn [ca_id] in *. rewrite Ec, Ha in E. rewrite Ha in Hrd. specialize (Hrd r eq_refl). cbn [mbind outcome_bind after_answer is_result] in E.
  unfold alpm_pkg_mtree_open. unfold stub_call in E.
  destruct (arpc_begin x _ c) as [[c2 [ca2|]]| | |]; cbn [mbind outcome_bind] in E; try discriminate. cbn [mbind outcome_bind puts_run put_run arg_run] in *.
  unfold ARPC_ID in *. destruct (arpc_put_handle ca2 pkg) as [ca3| | |]; [|done..]. cbn [mbind outcome_bind] in *.
  destruct (arpc_invoke x ca3 c2) as [[[c3 ca4] ok]| | |]; [|done..]. cbn [mbind outcome_bind] in *. simplify_eq. cbn [negb].
  assert (Eb : arpc_ret_bytes ca = Ret (Some (b, len b))).
  { destruct (aj_member_reads _ _ _ ARPC_RET_KEY Hrd) as (n & En & Hn). rewrite Hr in Hn.
    unfold arpc_ret_bytes, ret_str. change (arpc_ret_node ca) with (aj_member (ca_rsp ca) (ca_result ca) ARPC_RET_KEY).
    rewrite En. cbn [mbind outcome_bind]. rewrite (aj_str_reads _ _ _ Hn). cbn [jbytes t_str decode_or_null].
    rewrite <- b64_text_spec, (cstr_no_nul _ (b64_text_no_nul b)), arpc_b64_decode_text by done. by rewrite HA. }
  by rewrite Eb.
Qed.
End Theorems.

(** ** An mtree read *)

Section Toy.
#[local] Existing Instance Chain.chain.
#[local] Existing Instance Chain.above.
#[local] Existing Instances Chain.chain_ok Chain.chain_total Chain.above_ok.
#[local] Existing Instance Trickle.ops.
#[local] Existing Instance ToyClient.win.
#[local] Existing Instance ToyClient.stubs.

(** A libarchive that knows where its archives read from, and says how many
    bytes are there. *)
#[local] Instance toy_archive : ReadArchive (gmap Z Z) := {
  ARCHIVE_OK := 0;
  ARCHIVE_EOF := 1;
  archive_source l a := l !! a;
  archive_read_new l := (place (dom l), l);
  archive_read_support l _ := l;
  archive_read_open_memory l a p _ := (0, <[a := p]> l);
  archive_read_next_header l _ bs := (0, len bs, l);
  archive_read_free l a := (0, delete a l)
}.

#[local] Instance toy_archive_ok : ReadArchiveOk (gmap Z Z).
Proof.
  split; cbn.
  - intros l a l' [= <- <-] _. apply not_elem_of_dom. exact (place_fresh (dom l)).
  - by intros l a l' b [= _ <-].
  - done.
  - intros l a p n rc l' b [= <- <-]. case_decide as Hd; [destruct Hd as [-> _]; apply lookup_insert_eq|].
    apply lookup_insert_ne. intros ->. by apply Hd.
  - by intros l a bs rc e l' b [= _ _ <-].
  - intros l a rc l' b [= _ <-]. case_decide as Hd; [subst; apply lookup_delete_eq|]. by apply lookup_delete_ne.
Qed.

Definition mtree_reply : list Z := qlit "{`id`:1,`result`:{`@ret`:`AAE=`}}".
Definition says_mtree : transactor ToyClient.world Trickle.pipe := fun _ c => Ret (c, Some mtree_reply).

(** An mtree opened and read; and opened where only the note is refused. *)
Definition no_notes : Allocator := {| grants n := negb (n =? sizeof_stream) |}.

Lemma mtree_streams_safe_witness :
  (exists c s a, alpm_pkg_mtree_open (A:=ample) says_mtree 1099511627777 toy_client (streams0 ∅) = Ret (c, s, a) /\
    exists l, alpm_pkg_mtree_next a true s = Ret (st_set_lib s l, 0, 2)) /\
  (exists c s a, alpm_pkg_mtree_open (A:=no_notes) says_mtree 1099511627777 toy_client (streams0 ∅) = Ret (c, s, a) /\
    a <> 0 /\ alpm_pkg_mtree_next a true s = Undef).
Proof.
  split.
  - destruct (alpm_pkg_mtree_open (A:=ample) says_mtree 1099511627777 toy_client (streams0 ∅)) as [[[c s] a]| | |] eqn:E.
    2-4: vm_compute in E; discriminate E.
    assert (Hr : mtree_reached (A:=ample) (W:=ToyClient.world) (H:=Trickle.pipe) s).
    { eapply reached_open; [|exact E]. apply reached_none. intros b. apply lookup_empty. }
    destruct (proj1 (mtree_streams_safe (A:=ample)) eq_refl s Hr) as [Hn _]. exists c, s, a. split; [reflexivity|].
    vm_compute in E. injection E as <- <- <-. specialize (Hn 4096 4096 ltac:(vm_compute; reflexivity)). destruct Hn as (bytes & Eb & Hn).
    vm_compute in Eb. injection Eb as <-. cbn in Hn. eexists. exact Hn.
  - destruct (alpm_pkg_mtree_open (A:=no_notes) says_mtree 1099511627777 toy_client (streams0 ∅)) as [[[c s] a]| | |] eqn:E.
    2-4: vm_compute in E; discriminate E.
    assert (Ha : a <> 0) by (vm_compute in E; injection E as _ _ <-; discriminate).
    exists c, s, a. split; [reflexivity|]. split; [exact Ha|].
    exact (proj2 (mtree_streams_safe (A:=no_notes)) eq_refl _ _ _ _ _ _ _ E Ha).
Defined.
End Toy.
