(* ===== verification/Lock.v ===== *)
(** * Threads that share a lock

    A client is called from any thread of its process, and what its threads
    share is under one CRITICAL_SECTION.  A thread's code is a tree here: it
    enters the lock, leaves it, or does something to the state that is shared;
    a schedule says which thread makes the next step.  Proved for any such
    code: threads that hold the lock from before the first thing they do to
    after the last take turns, whatever the schedule -- the state and the
    results are those of their calls made one after the other -- and they
    never all wait.  The client's code is in ClientThreads.v. *)

From S2P Require Import Prelude.

(** ** CRITICAL_SECTION

    Windows': entering gives [None] when the thread has to wait.  What is
    relied on is its documentation: made unowned; entered by one thread at a
    time, as often as that thread likes; and given up when it was left as
    often as it was entered. *)

Class CriticalSection (L : Type) := {
  InitializeCriticalSection : L;
  EnterCriticalSection : nat -> L -> option L;
  LeaveCriticalSection : nat -> L -> L;
  cs_owner : L -> option (nat * nat)
}.

Class CriticalSectionOk (L : Type) `{CriticalSection L} : Prop := {
  cs_init : cs_owner InitializeCriticalSection = None;
  cs_enter_free t l : cs_owner l = None -> exists l', EnterCriticalSection t l = Some l' /\ cs_owner l' = Some (t, 1%nat);
  cs_enter_own t n l : cs_owner l = Some (t, n) -> exists l', EnterCriticalSection t l = Some l' /\ cs_owner l' = Some (t, S n);
  cs_enter_held t u n l : cs_owner l = Some (u, n) -> u <> t -> EnterCriticalSection t l = None;
  cs_leave_last t l : cs_owner l = Some (t, 1%nat) -> cs_owner (LeaveCriticalSection t l) = None;
  cs_leave_own t n l : cs_owner l = Some (t, S (S n)) -> cs_owner (LeaveCriticalSection t l) = Some (t, S n)
}.

(** ** The code of a thread *)

Section Threads.
Context {L St X : Type} `{CL : CriticalSection L}.

(** The state shared is an [St], the result of a call an [X].  A step's effect
    says what the thread does next. *)
#[warnings="-register-all"]
Inductive prog : Type :=
| Done (x : X)
| Enter (p : prog)
| Leave (p : prog)
| Do (f : St -> outcome (St * prog)).

(** A step that gives something to the ones after it. *)
Definition act {Y} (f : St -> outcome (St * Y)) (k : Y -> prog) : prog := Do (fun s => '(s, y) ← f s; Ret (s, k y)).

Record machine := Machine { mc_lock : L; mc_state : St; mc_threads : list prog }.

(** A step of thread [t]; one that waits or is done stays where it is. *)
Definition step (t : nat) (m : machine) : outcome machine :=
  match mc_threads m !! t with
  | None | Some (Done _) => Ret m
  | Some (Enter p) =>
      match EnterCriticalSection t (mc_lock m) with
      | Some l => Ret (Machine l (mc_state m) (<[t := p]> (mc_threads m)))
      | None => Ret m
      end
  | Some (Leave p) => Ret (Machine (LeaveCriticalSection t (mc_lock m)) (mc_state m) (<[t := p]> (mc_threads m)))
  | Some (Do f) => '(s, p) ← f (mc_state m); Ret (Machine (mc_lock m) s (<[t := p]> (mc_threads m)))
  end.

Fixpoint run (sched : list nat) (m : machine) : outcome machine :=
  match sched with
  | [] => Ret m
  | t :: sched => m ← step t m; run sched m
  end.

(** The threads, each about to make its call, and nobody in the lock. *)
Definition start (s : St) (ps : list prog) : machine := Machine InitializeCriticalSection s ps.

(** The code with nobody else there. *)
Fixpoint alone (p : prog) (s : St) : outcome (St * X) :=
  match p with
  | Done x => Ret (s, x)
  | Enter p | Leave p => alone p s
  | Do f => match f s with
            | Ret (s, p) => alone p s
            | Fail => Fail
            | Undef => Undef
            | NoFuel => NoFuel
            end
  end.

(** The calls one after the other, in the order given, with the result of
    each. *)
Fixpoint serial (fs : list (St -> outcome (St * X))) (order : list nat) (s : St) : outcome (St * list (nat * X)) :=
  match order with
  | [] => Ret (s, [])
  | t :: order =>
      match fs !! t with
      | None => serial fs order s
      | Some f => '(s, x) ← f s; '(s, xs) ← serial fs order s; Ret (s, (t, x) :: xs)
      end
  end.

(** ** Code that holds the lock

    Entered [n] times, the thread leaves as often, and is done when it is
    out. *)
Inductive inside : nat -> prog -> Prop :=
| inside_enter n p : inside (S n) p -> inside n (Enter p)
| inside_leave n p : inside (S n) p -> inside (S (S n)) (Leave p)
| inside_out x : inside 1 (Leave (Done x))
| inside_do n f : (forall s s' p, f s = Ret (s', p) -> inside n p) -> inside n (Do f).

Inductive locked : prog -> Prop :=
| locked_done x : locked (Done x)
| locked_enter p : inside 1 p -> locked (Enter p).

Lemma inside_act {Y} n (f : St -> outcome (St * Y)) k : (forall y, inside n (k y)) -> inside n (act f k).
Proof. intros Hk. constructor. intros s s' p E. unfold act in E. destruct (f s) as [[s1 y]| | |]; simplify_eq/=. apply Hk. Qed.

Lemma alone_act {Y} (f : St -> outcome (St * Y)) k s : alone (act f k) s = ('(s, y) ← f s; alone (k y) s).
Proof. unfold act. cbn [alone]. by destruct (f s) as [[s1 y]| | |]. Qed.

Lemma serial_app fs o1 o2 s :
  serial fs (o1 ++ o2) s = ('(s, xs) ← serial fs o1 s; '(s, ys) ← serial fs o2 s; Ret (s, xs ++ ys)).
Proof.
  revert s. induction o1 as [|t o1 IH]; intros s; cbn [serial app].
  - cbn [mbind outcome_bind]. by destruct (serial fs o2 s) as [[]| | |].
  - destruct (fs !! t) as [f|]; [|by apply IH]. destruct (f s) as [[s1 x]| | |]; [|done..]. cbn [mbind outcome_bind].
    rewrite IH. destruct (serial fs o1 s1) as [[s2 xs]| | |]; [|done..]. cbn [mbind outcome_bind].
    by destruct (serial fs o2 s2) as [[]| | |].
Qed.

Lemma serial_ext fs gs order s :
  Forall2 (fun f g => forall s, f s = g s) fs gs -> serial fs order s = serial gs order s.
Proof.
  intros Hf. revert s. induction order as [|t order IH]; intros s; [done|]. cbn [serial].
  destruct (fs !! t) as [f|] eqn:E.
  - destruct (Forall2_lookup_l _ _ _ _ _ Hf E) as (g & -> & Hg). rewrite Hg.
    destruct (g s) as [[s1 x]| | |]; [|done..]. cbn [mbind outcome_bind]. by rewrite IH.
  - apply (Forall2_length) in Hf as Hl. apply lookup_ge_None in E.
    destruct (gs !! t) as [g|] eqn:Eg; [|done]. apply lookup_lt_Some in Eg. lia.
Qed.

(** ** Turns *)

Context {CO : CriticalSectionOk L}.

(** Where a run can be: the calls of [order] made, with the results [xs] and
    the state [s1] after them; the thread in the lock, if there is one, part
    of the way through its own from there; the others not begun. *)
Record turns (ps : list prog) (s : St) (m : machine) (order : list nat) (xs : list (nat * X)) (s1 : St) : Prop := {
  tn_length : length (mc_threads m) = length ps;
  tn_order : NoDup order;
  tn_serial : serial (alone <$> ps) order s = Ret (s1, xs);
  tn_names : xs.*1 = order;
  tn_done t x : (t, x) ∈ xs -> mc_threads m !! t = Some (Done x);
  tn_owner : match cs_owner (mc_lock m) with
             | None => mc_state m = s1 /\ (forall t, t ∉ order -> mc_threads m !! t = ps !! t)
             | Some (o, n) => (o ∉ order) /\ (exists p q, ps !! o = Some p /\ mc_threads m !! o = Some q /\ inside n q /\
                                 alone p s1 = alone q (mc_state m)) /\
                              forall t, t ∉ order -> t <> o -> mc_threads m !! t = ps !! t
             end
}.

Lemma turns_start ps s : turns ps s (start s ps) [] [] s.
Proof. split; cbn; try done; [constructor|by intros ? ? ?%not_elem_of_nil|]. by rewrite cs_init. Qed.

(** Where a run that has got somewhere can be. *)
Definition in_turn ps s m : Prop := exists order xs s1, turns ps s m order xs s1.

(** A run that has broken off has done so as the same calls do, one after the
    other. *)
Definition breaks_off (ps : list prog) (s : St) (o : outcome machine) : Prop :=
  exists order t, NoDup (order ++ [t]) /\ (t < length ps)%nat /\
    match o, serial (alone <$> ps) (order ++ [t]) s with
    | Fail, Fail | Undef, Undef | NoFuel, NoFuel => True
    | _, _ => False
    end.

(** The thread in the lock goes on, still in it. *)
Lemma turns_inner ps s m order xs s1 o n n' q q' l st :
  turns ps s m order xs s1 -> cs_owner (mc_lock m) = Some (o, n) -> mc_threads m !! o = Some q ->
  cs_owner l = Some (o, n') -> inside n' q' -> alone q (mc_state m) = alone q' st ->
  turns ps s (Machine l st (<[o := q']> (mc_threads m))) order xs s1.
Proof.
  intros [Hl Ho Hs Hn Hd Hw] Eo Eq El Hi Ha. rewrite Eo in Hw. destruct Hw as (Hno & (p & q0 & Ep & Eq0 & _ & Hp) & Hot).
  rewrite Eq in Eq0. injection Eq0 as <-. split; cbn; try done.
  - by rewrite length_insert.
  - intros t x Hx. rewrite list_lookup_insert_ne; [by apply Hd|]. intros ->. apply Hno. rewrite <- Hn.
    by apply (list_elem_of_fmap_2' fst _ (t, x)).
  - rewrite El. split_and!; [done| |].
    + exists p, q'. split_and!; [done| |done|congruence]. apply list_lookup_insert_eq. by apply lookup_lt_Some in Eq.
    + intros t Ht Hto. by rewrite list_lookup_insert_ne; [apply Hot|].
Qed.

(** It comes out, and its call has been made. *)
Lemma turns_out ps s m order xs s1 o x l :
  turns ps s m order xs s1 -> cs_owner (mc_lock m) = Some (o, 1%nat) -> mc_threads m !! o = Some (Leave (Done x)) ->
  cs_owner l = None ->
  turns ps s (Machine l (mc_state m) (<[o := Done x]> (mc_threads m))) (order ++ [o]) (xs ++ [(o, x)]) (mc_state m).
Proof.
  intros [Hl Ho Hs Hn Hd Hw] Eo Eq El. rewrite Eo in Hw. destruct Hw as (Hno & (p & q0 & Ep & Eq0 & _ & Hp) & Hot).
  rewrite Eq in Eq0. injection Eq0 as <-. cbn [alone] in Hp. pose proof (lookup_lt_Some _ _ _ Eq) as Hlt. split; cbn.
  - by rewrite length_insert.
  - apply NoDup_app. split_and!; [done| |apply NoDup_singleton]. by intros t Ht ->%list_elem_of_singleton.
  - rewrite serial_app, Hs. cbn [mbind outcome_bind serial]. rewrite list_lookup_fmap, Ep. cbn [fmap option_fmap option_map].
    by rewrite Hp.
  - by rewrite fmap_app, Hn.
  - intros t y [Hx|[= -> ->]%list_elem_of_singleton]%elem_of_app; [|by apply list_lookup_insert_eq].
    rewrite list_lookup_insert_ne; [by apply Hd|]. intros ->. apply Hno. rewrite <- Hn.
    by apply (list_elem_of_fmap_2' fst _ (t, y)).
  - rewrite El. split; [done|]. intros t Ht. apply not_elem_of_app in Ht as [Ht Hto]. rewrite list_elem_of_singleton in Hto.
    rewrite list_lookup_insert_ne by done. by apply Hot.
Qed.

(** A thread that has not begun goes in. *)
Lemma turns_in ps s m order xs s1 t p l :
  turns ps s m order xs s1 -> cs_owner (mc_lock m) = None -> t ∉ order -> mc_threads m !! t = Some (Enter p) ->
  inside 1 p -> cs_owner l = Some (t, 1%nat) ->
  turns ps s (Machine l (mc_state m) (<[t := p]> (mc_threads m))) order xs s1.
Proof.
  intros [Hl Ho Hs Hn Hd Hw] Eo Ht Eq Hi El. rewrite Eo in Hw. destruct Hw as (<- & Hot). split; cbn; try done.
  - by rewrite length_insert.
  - intros u x Hx. rewrite list_lookup_insert_ne; [by apply Hd|]. intros ->. apply Ht. rewrite <- Hn.
    by apply (list_elem_of_fmap_2' fst _ (u, x)).
  - rewrite El. split_and!; [done| |].
    + exists (Enter p), p. split_and!; [by rewrite <- Hot| |done|done]. apply list_lookup_insert_eq. by apply lookup_lt_Some in Eq.
    + intros u Hu Hut. by rewrite list_lookup_insert_ne; [apply Hot|].
Qed.

Lemma not_begun ps s m order xs s1 t p :
  turns ps s m order xs s1 -> mc_threads m !! t = Some p -> (forall x, p <> Done x) -> t ∉ order.
Proof.
  intros Hm E Hp Hin. rewrite <- (tn_names _ _ _ _ _ _ Hm) in Hin. apply list_elem_of_fmap in Hin as ([u x] & -> & Hx).
  apply (tn_done _ _ _ _ _ _ Hm) in Hx. cbn in E. rewrite Hx in E. injection E as <-. by destruct (Hp x).
Qed.
(** A thread in the lock makes a step. *)
Lemma step_owner ps s m order xs s1 t n q :
  turns ps s m order xs s1 -> cs_owner (mc_lock m) = Some (t, n) -> mc_threads m !! t = Some q -> inside n q ->
  match step t m with Ret m' => in_turn ps s m' | Fail => breaks_off ps s Fail | Undef => breaks_off ps s Undef | NoFuel => breaks_off ps s NoFuel end.
Proof.
  intros Hm Eo Eq Hi. unfold step. rewrite Eq. destruct Hi as [n p Hp|n p Hp|x|n f Hf].
  - destruct (cs_enter_own t n _ Eo) as (l & -> & El). exists order, xs, s1. by eapply turns_inner.
  - exists order, xs, s1. eapply turns_inner; [done|exact Eo|exact Eq| |exact Hp|done]. by apply cs_leave_own.
  - exists (order ++ [t]), (xs ++ [(t, x)]), (mc_state m). apply (turns_out _ _ _ _ _ s1); [done|done|done|]. by apply cs_leave_last.
  - destruct (f (mc_state m)) as [[s' p]| | |] eqn:Ef; cbn [mbind outcome_bind].
    { exists order, xs, s1. eapply turns_inner; [done|exact Eo|exact Eq|exact Eo|by eapply Hf|]. cbn [alone]. by rewrite Ef. }
    all: exists order, t; destruct Hm as [Hl Ho Hs Hn _ Hw]; rewrite Eo in Hw;
      destruct Hw as (Hno & (p & q0 & Ep & Eq0 & _ & Ha) & _); rewrite Eq in Eq0; injection Eq0 as <-;
      cbn [alone] in Ha; rewrite Ef in Ha; (split; [apply NoDup_app; split_and!; [done| |apply NoDup_singleton];
        by intros u Hu ->%list_elem_of_singleton|]); (split; [by apply lookup_lt_Some in Ep|]);
      rewrite serial_app, Hs; cbn [mbind outcome_bind serial]; rewrite list_lookup_fmap, Ep;
      cbn [fmap option_fmap option_map]; by rewrite Ha.
Qed.

(** So does any other, or it waits. *)
Lemma step_turns ps s m t :
  Forall locked ps -> in_turn ps s m ->
  match step t m with Ret m' => in_turn ps s m' | Fail => breaks_off ps s Fail | Undef => breaks_off ps s Undef | NoFuel => breaks_off ps s NoFuel end.
Proof.
  intros Hps (order & xs & s1 & Hm). destruct (mc_threads m !! t) as [q|] eqn:Eq.
  2: { unfold step. rewrite Eq. by exists order, xs, s1. }
  destruct (decide (t ∈ order)) as [Hin|Hno].
  { rewrite <- (tn_names _ _ _ _ _ _ Hm) in Hin. apply list_elem_of_fmap in Hin as ([u x] & -> & Hx).
    apply (tn_done _ _ _ _ _ _ Hm) in Hx. unfold step. cbn in *. rewrite Hx. by exists order, xs, s1. }
  pose proof (tn_owner _ _ _ _ _ _ Hm) as Hw. destruct (cs_owner (mc_lock m)) as [[o n]|] eqn:Eo.
  - destruct Hw as (_ & (p0 & q0 & _ & Eq0 & Hi & _) & Hot). destruct (decide (t = o)) as [->|Hne]; [by eapply step_owner|].
    pose proof (Hot t Hno Hne) as Ep. rewrite Eq in Ep. symmetry in Ep. unfold step. rewrite Eq.
    destruct (Forall_lookup_1 _ _ _ _ Hps Ep) as [x|p _]; [by exists order, xs, s1|].
    rewrite (cs_enter_held t o n) by done. by exists order, xs, s1.
  - destruct Hw as [_ Hot]. pose proof (Hot t Hno) as Ep. rewrite Eq in Ep. symmetry in Ep. unfold step. rewrite Eq.
    destruct (Forall_lookup_1 _ _ _ _ Hps Ep) as [x|p Hi]; [by exists order, xs, s1|].
    destruct (cs_enter_free t _ Eo) as (l & -> & El). exists order, xs, s1. by eapply turns_in.
Qed.

Lemma run_turns ps s sched : Forall locked ps -> forall m, in_turn ps s m ->
  match run sched m with Ret m' => in_turn ps s m' | Fail => breaks_off ps s Fail | Undef => breaks_off ps s Undef | NoFuel => breaks_off ps s NoFuel end.
Proof.
  intros Hps. induction sched as [|t sched IH]; intros m Hm; [done|]. cbn [run].
  pose proof (step_turns ps s m t Hps Hm) as Hs. destruct (step t m) as [m'| | |]; [|done..]. by apply IH.
Qed.

(** ** What comes of it *)

Definition all_done (m : machine) (xs : list X) : Prop := mc_threads m = Done <$> xs.

(** Calls of code that does nothing. *)
Lemma serial_done ps s rest :
  Forall (fun t => exists x, ps !! t = Some (Done x)) rest ->
  exists ys, serial (alone <$> ps) rest s = Ret (s, ys) /\ ys.*1 = rest /\ Forall (fun y => ps !! y.1 = Some (Done y.2)) ys.
Proof.
  induction 1 as [|t rest (x & Ex) _ (ys & E & En & Hy)]; [by exists []|].
  cbn [serial]. rewrite list_lookup_fmap, Ex. cbn [fmap option_fmap option_map alone mbind outcome_bind]. rewrite E.
  cbn [mbind outcome_bind]. exists ((t, x) :: ys). split_and!; [done|by cbn; rewrite En|]. by constructor.
Qed.

(** A run that has ended is the calls in some order. *)
Lemma done_serial ps s m xs :
  in_turn ps s m -> all_done m xs ->
  exists order out, order ≡ₚ seq 0 (length ps) /\ serial (alone <$> ps) order s = Ret (mc_state m, out) /\
    forall t x, xs !! t = Some x -> (t, x) ∈ out.
Proof.
  intros (order & xs0 & s1 & [Hl Ho Hs Hn Hd Hw]) Hall. unfold all_done in Hall.
  assert (Hdone : forall t q, mc_threads m !! t = Some q -> exists x, q = Done x /\ xs !! t = Some x).
  { intros t q. rewrite Hall, list_lookup_fmap. destruct (xs !! t) as [x|]; [|done]. intros [= <-]. by exists x. }
  destruct (cs_owner (mc_lock m)) as [[o n]|].
  { destruct Hw as (_ & (p & q & _ & Eq & Hi & _) & _). destruct (Hdone o q Eq) as (x & -> & _). inversion Hi. }
  destruct Hw as [<- Hot]. set (rest := filter (fun t => t ∉ order) (seq 0 (length ps))).
  assert (Hin : forall t, t ∈ rest <-> (t ∉ order) /\ (t < length ps)%nat).
  { intros t. unfold rest. rewrite list_elem_of_filter, elem_of_seq. intuition lia. }
  destruct (serial_done ps (mc_state m) rest) as (ys & Ey & Eyn & Hy).
  { apply Forall_forall. intros t [Ht Hlt]%Hin. rewrite <- Hot by done.
    destruct (lookup_lt_is_Some_2 (mc_threads m) t) as [q Eq]; [lia|]. destruct (Hdone t q Eq) as (x & -> & _). by exists x. }
  assert (Hlt : forall t, t ∈ order -> (t < length ps)%nat).
  { intros t Ht. rewrite <- Hn in Ht. apply list_elem_of_fmap in Ht as ([u x] & -> & Hx). apply Hd, lookup_lt_Some in Hx. cbn in *. lia. }
  exists (order ++ rest), (xs0 ++ ys). split_and!.
  - apply NoDup_Permutation; [|apply NoDup_seq|].
    + apply NoDup_app. split_and!; [done|by intros t Ht [? _]%Hin|apply NoDup_filter, NoDup_seq].
    + intros t. rewrite elem_of_app, Hin, elem_of_seq. destruct (decide (t ∈ order)) as [Ht|Ht]; [|intuition lia].
      pose proof (Hlt t Ht). intuition lia.
  - rewrite serial_app, Hs. cbn [mbind outcome_bind]. by rewrite Ey.
  - intros t x Hx. assert (Hm : mc_threads m !! t = Some (Done x)) by (by rewrite Hall, list_lookup_fmap, Hx).
    assert (Ht : t ∈ (xs0 ++ ys).*1).
    { rewrite fmap_app, Hn, Eyn, elem_of_app, Hin. destruct (decide (t ∈ order)); [by left|right].
      split; [done|]. apply lookup_lt_Some in Hm. lia. }
    apply list_elem_of_fmap in Ht as ([u y] & -> & Hu). cbn in *. pose proof Hu as Hu'.
    apply elem_of_app in Hu as [Hu|Hu].
    + rewrite (Hd u y Hu) in Hm. by injection Hm as <-.
    + rewrite Forall_forall in Hy. pose proof (Hy _ Hu) as E. cbn in E.
      rewrite Hot, E in Hm; [by injection Hm as <-|]. apply Hin. rewrite <- Eyn. by apply (list_elem_of_fmap_2' fst _ (u, y)).
Qed.

(** ** Nobody waits for ever *)

(** The thread in the lock, if it is the one that runs, makes the rest of its
    call and comes out; or breaks off as that does. *)
Definition outcome_of (t : nat) (q : prog) (m : machine) (o : outcome machine) : Prop :=
  match o, alone q (mc_state m) with
  | Ret m', Ret (s, x) => cs_owner (mc_lock m') = None /\ mc_state m' = s /\ mc_threads m' = <[t := Done x]> (mc_threads m)
  | Fail, Fail | Undef, Undef | NoFuel, NoFuel => True
  | _, _ => False
  end.
Definition comes_out (n : nat) (q : prog) : Prop := forall t m,
  cs_owner (mc_lock m) = Some (t, n) -> mc_threads m !! t = Some q ->
  exists k, outcome_of t q m (run (replicate k t) m).

Lemma comes_out_step n' q q' t l st m :
  comes_out n' q' -> (t < length (mc_threads m))%nat -> cs_owner l = Some (t, n') -> alone q (mc_state m) = alone q' st ->
  step t m = Ret (Machine l st (<[t := q']> (mc_threads m))) ->
  exists k, outcome_of t q m (run (replicate k t) m).
Proof.
  intros Hk Ht El Ea Es. destruct (Hk t (Machine l st (<[t := q']> (mc_threads m)))) as [k E]; [done|by apply list_lookup_insert_eq|].
  exists (S k). cbn [replicate run]. rewrite Es. cbn [mbind outcome_bind]. unfold outcome_of in *. cbn [mc_state mc_threads] in E.
  rewrite Ea. destruct (run _ _) as [m'| | |], (alone q' st) as [[s' x]| | |]; try done.
  destruct E as (? & ? & ->). split_and!; [done|done|]. apply list_insert_insert_eq.
Qed.

Lemma inside_comes_out n q : inside n q -> comes_out n q.
Proof.
  induction 1 as [n p _ IH|n p _ IH|x|n f _ IH]; intros t m Eo Eq; pose proof (lookup_lt_Some _ _ _ Eq) as Ht.
  - destruct (cs_enter_own t n _ Eo) as (l & E & El). eapply comes_out_step; [exact IH|done|exact El|done|]. unfold step. by rewrite Eq, E.
  - eapply comes_out_step; [exact IH|done|by apply cs_leave_own|done|]. unfold step. by rewrite Eq.
  - exists 1%nat. cbn [replicate run]. unfold step. rewrite Eq. cbn [mbind outcome_bind]. unfold outcome_of. cbn.
    split_and!; [by apply cs_leave_last|done|done].
  - destruct (f (mc_state m)) as [[s' p]| | |] eqn:Ef.
    { eapply (comes_out_step n _ p); [by eapply IH|done|exact Eo| |]; [cbn [alone]; by rewrite Ef|]. unfold step. by rewrite Eq, Ef. }
    all: exists 1%nat; cbn [replicate run]; unfold step; rewrite Eq, Ef; unfold outcome_of; cbn [alone]; by rewrite Ef.
Qed.

(** A call made with nobody in the lock and nobody else running. *)
Lemma thread_calls t q m :
  locked q -> cs_owner (mc_lock m) = None -> mc_threads m !! t = Some q -> exists k, outcome_of t q m (run (replicate k t) m).
Proof.
  intros [x|p Hp] Eo Eq.
  - exists 0%nat. cbn. split_and!; [done|done|]. symmetry. by apply list_insert_id.
  - destruct (cs_enter_free t _ Eo) as (l & E & El).
    apply (comes_out_step 1 (Enter p) p t l (mc_state m)); [by apply inside_comes_out|by apply lookup_lt_Some in Eq|done|done|].
    unfold step. by rewrite Eq, E.
Qed.

Lemma run_app a b m : run (a ++ b) m = (m ← run a m; run b m).
Proof.
  revert m. induction a as [|t a IH]; intros m; [done|]. cbn [app run]. destruct (step t m); [apply IH|done..].
Qed.

Definition is_done (q : prog) : Prop := exists x, q = Done x.

(** One thread's call, whole, when nobody is in the lock. *)
Lemma thread_finishes ps s m t :
  Forall locked ps -> in_turn ps s m -> cs_owner (mc_lock m) = None -> (t < length ps)%nat ->
  exists sched, match run sched m with
                | Ret m' => cs_owner (mc_lock m') = None /\ exists x, mc_threads m' = <[t := Done x]> (mc_threads m)
                | _ => True
                end.
Proof.
  intros Hps (order & xs & s1 & Hm) Eo Ht. pose proof (tn_length _ _ _ _ _ _ Hm) as Hl.
  destruct (lookup_lt_is_Some_2 (mc_threads m) t) as [q Eq]; [lia|].
  assert (Hq : locked q).
  { destruct (decide (t ∈ order)) as [Hin|Hno].
    - rewrite <- (tn_names _ _ _ _ _ _ Hm) in Hin. apply list_elem_of_fmap in Hin as ([u x] & -> & Hx).
      apply (tn_done _ _ _ _ _ _ Hm) in Hx. cbn in *. rewrite Eq in Hx. injection Hx as ->. constructor.
    - pose proof (tn_owner _ _ _ _ _ _ Hm) as Hw. rewrite Eo in Hw. destruct Hw as [_ Hot]. rewrite (Hot t Hno) in Eq.
      by apply (Forall_lookup_1 _ _ _ _ Hps Eq). }
  destruct (thread_calls t q m Hq Eo Eq) as [k Hk]. exists (replicate k t). unfold outcome_of in Hk.
  destruct (run _ m) as [m'| | |], (alone q (mc_state m)) as [[s' x]| | |]; try done.
  destruct Hk as (? & _ & ->). split; [done|]. by exists x.
Qed.

(** However far a run has got, the threads can all finish. *)
Lemma all_finish ps s m :
  Forall locked ps -> in_turn ps s m ->
  exists sched, match run sched m with Ret m' => Forall is_done (mc_threads m') | _ => True end.
Proof.
  intros Hps Hm.
  assert (Hfree : exists sched, match run sched m with Ret m' => cs_owner (mc_lock m') = None | _ => True end).
  { destruct (cs_owner (mc_lock m)) as [[o n]|] eqn:Eo; [|by exists []]. destruct Hm as (order & xs & s1 & Hm).
    pose proof (tn_owner _ _ _ _ _ _ Hm) as Hw. rewrite Eo in Hw. destruct Hw as (_ & (p & q & _ & Eq & Hi & _) & _).
    destruct (inside_comes_out n q Hi o m Eo Eq) as [k Hk]. exists (replicate k o). unfold outcome_of in Hk.
    destruct (run _ m) as [m'| | |], (alone q _) as [[s' x]| | |]; try done. by destruct Hk. }
  assert (Hall : forall k, (k <= length ps)%nat -> exists sched, match run sched m with
    | Ret m' => cs_owner (mc_lock m') = None /\ forall t, (t < k)%nat -> exists x, mc_threads m' !! t = Some (Done x) | _ => True end).
  { induction k as [|k IH]; intros Hk; [destruct Hfree as [sched E]; exists sched; destruct (run sched m); [split; [done|lia]|done..]|].
    destruct IH as [sched E]; [lia|]. pose proof (run_turns ps s sched Hps m Hm) as Ht.
    destruct (run sched m) as [m1| | |] eqn:Er; [|exists sched; by rewrite Er..]. destruct E as [Eo Hd].
    destruct (thread_finishes ps s m1 k Hps Ht Eo) as [sched' E']; [lia|]. exists (sched ++ sched'). rewrite run_app, Er.
    cbn [mbind outcome_bind]. destruct (run sched' m1) as [m2| | |]; [|done..]. destruct E' as (Eo' & x & ->). split; [done|].
    destruct Ht as (order & xs & s1 & Ht). pose proof (tn_length _ _ _ _ _ _ Ht) as Hl.
    intros t Hlt. destruct (decide (t = k)) as [->|Hne]; [exists x; apply list_lookup_insert_eq; lia|].
    rewrite list_lookup_insert_ne by done. apply Hd. lia. }
  destruct (Hall (length ps)) as [sched E]; [done|]. exists sched. pose proof (run_turns ps s sched Hps m Hm) as Ht.
  destruct (run sched m) as [m1| | |]; [|done..]. destruct E as [_ Hd], Ht as (order & xs & s1 & Ht). apply Forall_lookup. intros t q Eq.
  destruct (Hd t) as [x Ex]; [|exists x; congruence]. rewrite <- (tn_length _ _ _ _ _ _ Ht). by apply lookup_lt_Some in Eq.
Qed.

End Threads.
Arguments prog : clear implicits.
Arguments machine : clear implicits.
