(* ===== verification/ClientThreads.v ===== *)
(** * The client from several threads: src/client/arpc_client.c,
    src/client/arpc_callbacks.c and src/client/arpc_mtree.c

    The functions that take the lock themselves, step by step between
    [arpc_enter] and [arpc_leave]: reading a field, registering a callback and
    reading a registration, the count of what is cached, opening an mtree; the
    generated stubs are a parameter of which only the rule of
    src/client/arpc_client.h is known, that a stub holds the lock for the
    whole of a call.  [DllMain], which makes the lock, is here too.  Whatever the schedule they take turns.  What is left
    outside the lock, closing an mtree, does not: its theorem is the last. *)

From S2P Require Import Prelude Json JsonWriter JsonReader Base64 Wire JsonRef JsonArena JsonAccess.
From S2P Require Import Server DispatchTheorems Uthash Cache Groups ClientState Client ClientCalls.
From S2P Require Import ClientFields ClientMtree Lock.

(** ** What a stub returns *)

(** A pointer, a function or a number, or the text a pointer returned points
    to. *)
Inductive returned := Num (v : Z) | Text (s : option (list Z)).

Section Threads.
Context {A : Allocator} {P : Placement} {U : Uthash} {W H L CS : Type}
  {HO : HandleOps H} {WN : Win W H} {ST : Stubs W H} {RA : ReadArchive L} {CL : CriticalSection CS}.

(** What the threads share: the file-scope variables of the client's files. *)
Definition shared : Type := client W H * streams L.

Definition code : Type := prog shared returned.

Definition arpc_enter (p : code) : code := Enter p.
Definition arpc_leave (p : code) : code := Leave p.

(** A step that leaves the streams, or the client, alone. *)
Definition on_client {Y} (f : client W H -> outcome (client W H * Y)) (cs : shared) : outcome (shared * Y) :=
  '(c, y) ← f cs.1; Ret ((c, cs.2), y).
Definition on_streams {Y} (f : streams L -> outcome (streams L * Y)) (cs : shared) : outcome (shared * Y) :=
  '(s, y) ← f cs.2; Ret ((cs.1, s), y).

(** ** Stubs written by hand *)

(** The slot found, the column fetched, the cell read. *)
Definition field_code {X} (x : transactor W H) (id : Z) (field : list Z) (want_str : bool) (cells : column -> option (list X))
    (ret : X -> returned) (none : X) : code :=
  if id =? 0 then Done (ret none)
  else
    arpc_enter (act (on_client (fun c => '(t, r) ← group_for_pkg (cl_groups c) id; Ret (cl_set_groups c t, r))) (fun r =>
      match r with
      | None => arpc_leave (Done (ret none))
      | Some (a, slot) =>
          act (on_client (column_for x a field want_str)) (fun col =>
            match col with
            | None => arpc_leave (Done (ret none))
            | Some col =>
                match cells col with
                | None => arpc_leave (Done (ret none))
                | Some l => act (on_client (fun c => v ← cell l slot; Ret (c, v))) (fun v => arpc_leave (Done (ret v)))
                end
            end)
      end)).
Definition pkg_field_str_code (x : transactor W H) (id : Z) (field : list Z) : code :=
  field_code x id field true co_str Text None.
Definition pkg_field_i64_code (x : transactor W H) (id : Z) (field : list Z) : code :=
  field_code x id field false co_num Num 0.

Definition cb_register_code (x : transactor W H) (handle kind : Z) (wire : list Z) (fn ctx : Z) : code :=
  arpc_enter (act (on_client (fun c => let '(l, r) := reg_for (cl_regs c) handle true in Ret (cl_set_regs c l, r))) (fun r =>
    match r with
    | None => arpc_leave (Done (Num (-1)))
    | Some _ =>
        if slot_ok kind then
          act (on_client (fun c => Ret (cl_set_regs c (set_reg (cl_regs c) handle kind fn ctx), tt))) (fun _ =>
            act (on_client (set_remote x handle wire (if fn =? 0 then 0 else 1))) (fun rc => arpc_leave (Done (Num rc))))
        else arpc_leave (Done (Num (-1)))
    end)).

(** What only reads the client. *)
Definition peek (f : client W H -> Z) (k : Z -> code) : code := act (on_client (fun c => Ret (c, f c))) k.

Definition cb_fn_code (handle kind : Z) : code :=
  arpc_enter (peek (fun c => arpc_cb_fn (cl_regs c) handle kind) (fun fn => arpc_leave (Done (Num fn)))).
Definition cb_ctx_code (handle kind : Z) : code :=
  arpc_enter (peek (fun c => arpc_cb_ctx (cl_regs c) handle kind) (fun ctx => arpc_leave (Done (Num ctx)))).

(** The live entries and the groups, then the detached ones. *)
Definition stats_code : code :=
  arpc_enter (peek (fun c => HASH_COUNT (c_owned (cl_cache c)) + count_groups (cl_groups c)) (fun n =>
    peek (fun c => n + len (c_detached (cl_cache c))) (fun n => arpc_leave (Done (Num n))))).

Definition mtree_open_code (x : transactor W H) (pkg : Z) : code :=
  arpc_enter (act (on_client (arpc_begin x (lit "arpc.mtree"))) (fun ca =>
    match ca with
    | None => arpc_leave (Done (Num 0))
    | Some ca =>
        act (on_client (fun c => ca ← arpc_put_handle ca (ARPC_ID pkg);
                                 '(c, ca, ok) ← arpc_invoke x ca c; Ret (c, (ca, ok)))) (fun '(ca, ok) =>
          if negb ok then arpc_leave (Done (Num 0))
          else act (on_streams (fun s => b ← arpc_ret_bytes ca; open_stream s b)) (fun a => arpc_leave (Done (Num a))))
    end)).

(** ** What is not under the lock *)

Definition mtree_next_code (archive : Z) (entry : bool) : code :=
  act (on_streams (fun s => '(s, rc, _) ← alpm_pkg_mtree_next archive entry s; Ret (s, rc))) (fun rc => Done (Num rc)).

(** Only forgetting the buffer is. *)
Definition mtree_close_code (archive : Z) : code :=
  if archive =? 0 then Done (Num (-1))
  else
    act (on_streams (fun s => let '(rc, l) := archive_read_free (st_lib s) archive in Ret (st_set_lib s l, rc))) (fun rc =>
      arpc_enter (act (on_streams (fun s => s ← forget s archive; Ret (s, tt))) (fun _ =>
        arpc_leave (Done (Num (if rc =? ARCHIVE_OK then 0 else -1)))))).

(** ** Loading and unloading *)

Inductive reason := DLL_PROCESS_ATTACH | DLL_PROCESS_DETACH | DLL_THREAD_ATTACH | DLL_THREAD_DETACH.

(** The library as it is loaded: the lock once it is made, the trace switch,
    the client. *)
Record dll := Dll { dl_lock : option CS; dl_trace : bool; dl_client : client W H }.

(** What [g_trace] is set to.  A value that does not fit the eight bytes
    leaves them unset, and the first is read all the same. *)
Definition trace_switch (w : W) : outcome bool :=
  match win_env w (lit "ALPMRPC_TRACE") with
  | None => Ret false
  | Some v =>
      if strlen v <? 8
      then Ret ((0 <? strlen v) && negb (nth 0 (cstr v) 0 =? 0) && negb (nth 0 (cstr v) 0 =? 48))
      else Undef
  end.

(** It always returns TRUE. *)
Definition DllMain (r : reason) (d : dll) : outcome dll :=
  match r with
  | DLL_PROCESS_ATTACH =>
      trace ← trace_switch (cl_world (dl_client d));
      Ret (Dll (Some InitializeCriticalSection) trace (dl_client d))
  | DLL_PROCESS_DETACH => Ret (Dll None (dl_trace d) (disconnect (dl_client d)))
  | DLL_THREAD_ATTACH | DLL_THREAD_DETACH => Ret d
  end.

(** ** The calls *)

(** The generated stubs, and the rule they are generated by. *)
Class GeneratedStubs := { gen_stub : Type; gen_code : transactor W H -> gen_stub -> code }.
Class GeneratedLocked `{GeneratedStubs} : Prop := gen_locked x g : locked (gen_code x g).

Context {GS : GeneratedStubs}.

(** A call that takes the lock, with its arguments. *)
Inductive call :=
| FieldStr (id : Z) (field : list Z)
| FieldI64 (id : Z) (field : list Z)
| CbRegister (handle kind : Z) (wire : list Z) (fn ctx : Z)
| CbFn (handle kind : Z)
| CbCtx (handle kind : Z)
| StatsCached
| MtreeOpen (pkg : Z)
| Generated_stub (g : gen_stub).

Definition call_code (x : transactor W H) (k : call) : code :=
  match k with
  | FieldStr id field => pkg_field_str_code x id field
  | FieldI64 id field => pkg_field_i64_code x id field
  | CbRegister handle kind wire fn ctx => cb_register_code x handle kind wire fn ctx
  | CbFn handle kind => cb_fn_code handle kind
  | CbCtx handle kind => cb_ctx_code handle kind
  | StatsCached => stats_code
  | MtreeOpen pkg => mtree_open_code x pkg
  | Generated_stub g => gen_code x g
  end.

(** The same call as one function: those of the other files. *)
Definition call_run (x : transactor W H) (k : call) (cs : shared) : outcome (shared * returned) :=
  let '(c, s) := cs in
  match k with
  | FieldStr id field => '(c, v) ← arpc_pkg_field_str x id field c; Ret ((c, s), Text v)
  | FieldI64 id field => '(c, v) ← arpc_pkg_field_i64 x id field c; Ret ((c, s), Num v)
  | CbRegister handle kind wire fn ctx => '(c, rc) ← arpc_cb_register x handle kind wire fn ctx c; Ret ((c, s), Num rc)
  | CbFn handle kind => Ret (cs, Num (arpc_cb_fn (cl_regs c) handle kind))
  | CbCtx handle kind => Ret (cs, Num (arpc_cb_ctx (cl_regs c) handle kind))
  | StatsCached => Ret (cs, Num (arpc_stats_cached c))
  | MtreeOpen pkg => '(c, s, a) ← alpm_pkg_mtree_open x pkg c s; Ret ((c, s), Num a)
  | Generated_stub g => alone (gen_code x g) cs
  end.

(** ** They hold the lock *)

Lemma field_locked {X} x id field ws (cells : column -> option (list X)) ret none :
  locked (field_code x id field ws cells ret none).
Proof.
  unfold field_code. destruct (id =? 0); constructor. apply inside_act. intros [[a slot]|]; [|constructor].
  apply inside_act. intros [col|]; [|constructor]. destruct (cells col); [|constructor]. apply inside_act. constructor.
Qed.

Lemma mtree_open_locked x pkg : locked (mtree_open_code x pkg).
Proof.
  constructor. apply inside_act. intros [ca|]; [|constructor]. apply inside_act. intros [ca' ok].
  destruct ok; [|constructor]. apply inside_act. constructor.
Qed.

Lemma call_locked `{!GeneratedLocked} x k : locked (call_code x k).
Proof.
  destruct k; cbn [call_code]; try apply field_locked; try (constructor; repeat (apply inside_act; intros ?); by constructor).
  - constructor. apply inside_act. intros [r|]; [|constructor]. destruct (slot_ok kind); [|constructor].
    repeat (apply inside_act; intros ?). constructor.
  - apply mtree_open_locked.
  - apply gen_locked.
Qed.
(** ** Alone they are the functions *)

Lemma alone_client {Y} (f : client W H -> outcome (client W H * Y)) (k : Y -> code) c s :
  alone (act (on_client f) k) (c, s) = ('(c, y) ← f c; alone (k y) (c, s)).
Proof. rewrite alone_act. unfold on_client. cbn [fst snd]. by destruct (f c) as [[]| | |]. Qed.

Lemma alone_streams {Y} (f : streams L -> outcome (streams L * Y)) (k : Y -> code) c s :
  alone (act (on_streams f) k) (c, s) = ('(s, y) ← f s; alone (k y) (c, s)).
Proof. rewrite alone_act. unfold on_streams. cbn [fst snd]. by destruct (f s) as [[]| | |]. Qed.

Lemma alone_field {X} x id field ws (cells : column -> option (list X)) ret none c s :
  alone (field_code x id field ws cells ret none) (c, s) =
    if id =? 0 then Ret ((c, s), ret none)
    else
      '(c, r) ← column_of x id field ws c;
      match r with
      | Some (col, slot) =>
          match cells col with
          | Some l => v ← cell l slot; Ret ((c, s), ret v)
          | None => Ret ((c, s), ret none)
          end
      | None => Ret ((c, s), ret none)
      end.
Proof.
  unfold field_code, column_of. destruct (id =? 0); [done|]. cbn [alone arpc_enter]. rewrite alone_client.
  destruct (group_for_pkg (cl_groups c) id) as [[t [[a slot]|]]| | |]; [|done..]. cbn [mbind outcome_bind]. rewrite alone_client.
  destruct (column_for _ _ _ _ _) as [[c1 [col|]]| | |]; [|done..].
  cbn [mbind outcome_bind]. destruct (cells col) as [l|]; [|done]. rewrite alone_client. by destruct (cell l slot).
Qed.

Lemma alone_call x k cs : alone (call_code x k) cs = call_run x k cs.
Proof.
  destruct cs as [c s], k; cbn [call_code call_run]; try done.
  - unfold pkg_field_str_code. rewrite alone_field. unfold arpc_pkg_field_str. destruct (id =? 0); [done|].
    destruct (column_of _ _ _ _ _) as [[c1 [[col slot]|]]| | |]; [|done..]. cbn [mbind outcome_bind].
    destruct (co_str col) as [l|]; [|done]. by destruct (cell l slot).
  - unfold pkg_field_i64_code. rewrite alone_field. unfold arpc_pkg_field_i64. destruct (id =? 0); [done|].
    destruct (column_of _ _ _ _ _) as [[c1 [[col slot]|]]| | |]; [|done..]. cbn [mbind outcome_bind].
    destruct (co_num col) as [l|]; [|done]. by destruct (cell l slot).
  - unfold cb_register_code, arpc_cb_register. cbn [alone arpc_enter]. rewrite alone_client.
    destruct (reg_for (cl_regs c) handle true) as [l [r|]]; [|done]. cbn [mbind outcome_bind]. destruct (slot_ok kind); [|done].
    rewrite !alone_client. cbn [mbind outcome_bind]. rewrite alone_client.
    by destruct (set_remote _ _ _ _ _) as [[c1 rc]| | |].
  - unfold stats_code, arpc_stats_cached, count_owned. cbn. do 3 f_equal. lia.
  - unfold mtree_open_code, alpm_pkg_mtree_open. cbn [alone arpc_enter]. rewrite alone_client.
    destruct (arpc_begin _ _ _) as [[c1 [ca|]]| | |]; [|done..]. cbn [mbind outcome_bind]. rewrite alone_client.
    destruct (arpc_put_handle _ _) as [ca1| | |]; [|done..]. cbn [mbind outcome_bind].
    destruct (arpc_invoke _ _ _) as [[[c2 ca2] ok]| | |]; [|done..]. cbn [mbind outcome_bind]. destruct ok; [|done]. cbn [negb].
    rewrite alone_streams. destruct (arpc_ret_bytes ca2) as [b| | |]; [|done..]. cbn [mbind outcome_bind].
    by destruct (open_stream s b) as [[s1 a]| | |].
Qed.

(** ** Turns *)

(** C10. Threads that call through the library take turns, one whole call
    at a time, whatever the schedule.  Wherever a run has got, the threads can
    go on until all have finished or one breaks off; when all have, the
    client's state and what each call returned are those of the calls made one
    after the other, in some order; and a run comes to undefined behaviour
    only where the calls, one after the other, do. *)
Theorem threads_take_turns {CO : CriticalSectionOk CS} {GL : GeneratedLocked} x (calls : list call) (cs : shared) sched :
  match run sched (start cs (call_code x <$> calls)) with
  | Ret m =>
      (exists sched', match run sched' m with Ret m' => Forall is_done (mc_threads m') | _ => True end) /\
      forall xs, all_done m xs ->
        exists order out, order ≡ₚ seq 0 (length calls) /\ serial (call_run x <$> calls) order cs = Ret (mc_state m, out) /\
          forall t y, xs !! t = Some y -> (t, y) ∈ out
  | o =>
      exists order t, NoDup (order ++ [t]) /\ (t < length calls)%nat /\
        match o, serial (call_run x <$> calls) (order ++ [t]) cs with
        | Fail, Fail | Undef, Undef | NoFuel, NoFuel => True
        | _, _ => False
        end
  end.
Proof.
  set (ps := call_code x <$> calls).
  assert (Hps : Forall locked ps) by (apply Forall_fmap, Forall_true; intros k; apply call_locked).
  assert (Hser : forall order, serial (call_run x <$> calls) order cs = serial (alone <$> ps) order cs).
  { intros order. apply serial_ext. unfold ps. rewrite <- list_fmap_compose. apply Forall2_fmap, Forall_Forall2_diag, Forall_true.
    intros k cs'. symmetry. apply alone_call. }
  assert (Hlen : length ps = length calls) by apply length_fmap.
  pose proof (run_turns ps cs sched Hps (start cs ps)) as Hrun.
  destruct (run sched (start cs ps)) as [m| | |].
  - assert (Hm : in_turn ps cs m) by (apply Hrun; exists [], [], cs; apply turns_start). split; [by eapply all_finish|].
    intros xs Hall. destruct (done_serial ps cs m xs Hm Hall) as (order & out & Hp & Hs & Ho). exists order, out.
    rewrite Hser, <- Hlen. done.
  - destruct Hrun as (order & t & H1 & H2 & H3); [exists [], [], cs; apply turns_start|]. exists order, t. by rewrite Hser, <- Hlen.
  - destruct Hrun as (order & t & H1 & H2 & H3); [exists [], [], cs; apply turns_start|]. exists order, t. by rewrite Hser, <- Hlen.
  - destruct Hrun as (order & t & H1 & H2 & H3); [exists [], [], cs; apply turns_start|]. exists order, t. by rewrite Hser, <- Hlen.
Qed.
(** ** Closing an mtree *)

(** An archive handed out reads from a buffer that is the first of the
    streams. *)
Lemma opened_first {HA : TotalAllocator A} {RO : ReadArchiveOk L} (s s' : streams L) b a :
  open_stream s b = Ret (s', a) -> a <> 0 ->
  exists p bytes, g_streams s' = (a, p) :: g_streams s /\ st_bufs s' = <[p := bytes]> (st_bufs s) /\
    archive_source (st_lib s') a = Some p.
Proof.
  unfold open_stream. intros E Ha. destruct b as [[bytes n]|]; [|by injection E as _ <-]. cbn zeta in E.
  set (p := place (dom (st_bufs s))) in *. cbn [st_lib st_set_bufs] in E. destruct (archive_read_new (st_lib s)) as [a1 l] eqn:En.
  cbn zeta in E. destruct (a1 =? 0); [inv_bind; by simplify_eq|]. cbn [st_lib st_set_lib] in E.
  destruct (archive_read_open_memory _ a1 p n) as [rc l2] eqn:Eo. destruct (Z.eqb_spec rc ARCHIVE_OK) as [->|_].
  - unfold remember in E. rewrite grants_all in E. cbn [mbind outcome_bind] in E. injection E as <- <-.
    exists p, bytes. cbn. split_and!; [done|done|]. by rewrite (read_open_source _ _ _ _ _ _ a1 Eo), decide_True.
  - destruct (archive_read_free l2 a1) as [rc' l3]. inv_bind. by simplify_eq.
Qed.

(** C38. [alpm_pkg_mtree_close] frees the archive before it takes the lock, and
    looks for the buffer to free by the archive's address after.  When one
    thread closes an archive while another opens one, and libarchive hands
    out again the address just freed, there is a schedule in which each call
    ends as it would alone, and the buffer the first thread frees is the new
    archive's: the archive the second thread got reads freed memory. *)
Theorem mtree_close_races {CO : CriticalSectionOk CS} {HA : TotalAllocator A} {RO : ReadArchiveOk L}
    x pkg (c c' : client W H) (s s2 : streams L) a :
  a <> 0 -> let freed := st_set_lib s (archive_read_free (st_lib s) a).2 in
  alpm_pkg_mtree_open x pkg c freed = Ret (c', s2, a) ->
  exists sched m rc, run sched (start (St:=shared) (c, s) [mtree_close_code a; mtree_open_code x pkg]) = Ret m /\
    all_done m [Num rc; Num a] /\ (exists p, archive_source (st_lib (mc_state m).2) a = Some p) /\
    alpm_pkg_mtree_next a true (mc_state m).2 = Undef.
Proof.
  intros Ha freed Hopen. destruct (archive_read_free (st_lib s) a) as [rc l] eqn:Ef. cbn [snd] in freed.
  destruct (mtree_open_streams x pkg c freed c' s2 a Hopen) as [[_ ?]|[b Hb]]; [done|].
  destruct (opened_first freed s2 b a Hb Ha) as (p & bytes & Es & Eb & Hsrc).
  set (rest := arpc_enter (act (on_streams (fun s => s ← forget s a; Ret (s, tt))) (fun _ =>
        arpc_leave (Done (Num (if rc =? ARCHIVE_OK then 0 else -1)))))).
  set (m1 := Machine InitializeCriticalSection (c, freed) [rest; mtree_open_code x pkg] : machine CS shared returned).
  assert (E1 : run [0%nat] (start (St:=shared) (c, s) [mtree_close_code a; mtree_open_code x pkg]) = Ret m1).
  { unfold m1, rest. generalize (mtree_open_code x pkg) as q. intros q. unfold mtree_close_code.
    rewrite (proj2 (Z.eqb_neq a 0) Ha). cbn. by rewrite Ef. }
  destruct (thread_calls 1 (mtree_open_code x pkg) m1 (mtree_open_locked x pkg)) as [k Hk]; [by apply cs_init|done|].
  unfold outcome_of in Hk. change (mc_state m1) with (c, freed) in Hk. rewrite (alone_call x (MtreeOpen pkg)) in Hk.
  cbn [call_run] in Hk. rewrite Hopen in Hk. cbn [mbind outcome_bind] in Hk.
  destruct (run (replicate k 1%nat) m1) as [m2| | |] eqn:E2; [|done..]. destruct Hk as (Eo & Est & Eth).
  destruct (thread_calls 0 rest m2) as [k' Hk]; [unfold rest; constructor; apply inside_act; constructor|done|by rewrite Eth|].
  unfold outcome_of, rest in Hk. rewrite Est in Hk. cbn [alone arpc_enter] in Hk. rewrite alone_streams in Hk.
  unfold forget in Hk. rewrite Es in Hk. cbn [forget_loop] in Hk. rewrite Z.eqb_refl in Hk.
  rewrite free_buf_ok in Hk by (rewrite Eb, lookup_insert_eq; by eexists). cbn [mbind outcome_bind alone arpc_leave] in Hk.
  destruct (run (replicate k' 0%nat) m2) as [m3| | |] eqn:E3; [|done..]. destruct Hk as (_ & Est3 & Eth3).
  exists ([0%nat] ++ replicate k 1%nat ++ replicate k' 0%nat), m3, (if rc =? ARCHIVE_OK then 0 else -1). split_and!.
  - rewrite run_app, E1. cbn [mbind outcome_bind]. rewrite run_app, E2. exact E3.
  - unfold all_done. by rewrite Eth3, Eth.
  - rewrite Est3. cbn. by exists p.
  - rewrite Est3. unfold alpm_pkg_mtree_next. destruct (Z.eqb_spec a 0); [done|]. cbn. rewrite Hsrc. by rewrite lookup_delete_eq.
Qed.
End Threads.

(** ** The properties at work *)

Section Toy.
#[local] Existing Instance Chain.chain.
#[local] Existing Instance Chain.above.
#[local] Existing Instances Chain.chain_ok Chain.chain_total Chain.above_ok.
#[local] Existing Instance Trickle.ops.
#[local] Existing Instance ToyClient.win.
#[local] Existing Instance ToyClient.stubs.
#[local] Existing Instances ClientMtree.toy_archive ClientMtree.toy_archive_ok.

(** The lock as its owner and how often it was entered. *)
#[local] Instance counted : CriticalSection (option (nat * nat)) := {
  InitializeCriticalSection := None;
  EnterCriticalSection t l :=
    match l with
    | None => Some (Some (t, 1%nat))
    | Some (u, n) => if decide (u = t) then Some (Some (t, S n)) else None
    end;
  LeaveCriticalSection t l := match l with Some (u, S (S n)) => Some (u, S n) | _ => None end;
  cs_owner l := l
}.

#[local] Instance counted_ok : CriticalSectionOk (option (nat * nat)).
Proof.
  split; cbn; try done.
  - intros t l ->. by eexists.
  - intros t n l ->. rewrite decide_True by done. by eexists.
  - intros t u n l -> Hne. by rewrite decide_False.
  - by intros t l ->.
  - by intros t n l ->.
Qed.

(** A generated stub that enters the lock twice over, as one that runs inside
    a callback does. *)
#[local] Instance nesting : GeneratedStubs (W:=ToyClient.world) (H:=Trickle.pipe) (L:=gmap Z Z) :=
  {| gen_stub := unit; gen_code := fun _ _ => Enter (Enter (peek (fun c => cl_next_id c) (fun n => Leave (Leave (Done (Num n)))))) |}.

#[local] Instance nesting_locked : GeneratedLocked.
Proof. intros x g. constructor. constructor. apply inside_act. intros n. constructor. constructor. Qed.

Definition toy_calls : list (call (W:=ToyClient.world) (H:=Trickle.pipe) (L:=gmap Z Z)) :=
  [Generated_stub tt; MtreeOpen 1099511627777].
Definition toy_shared : shared (W:=ToyClient.world) (H:=Trickle.pipe) (L:=gmap Z Z) := (toy_client, streams0 ∅).

(** The first thread's steps and the second's, in turns. *)
Definition toy_schedule : list nat := concat (replicate 12 [0; 1]%nat).

(** The second thread waits; the first sees the number the next request has
    before the second thread's request. *)
Lemma threads_take_turns_witness :
  exists m, run (CL:=counted) toy_schedule (start toy_shared (call_code (A:=ample) says_mtree <$> toy_calls)) = Ret m /\
    exists order out, order ≡ₚ [0; 1]%nat /\ serial (call_run (A:=ample) says_mtree <$> toy_calls) order toy_shared = Ret (mc_state m, out) /\
      (0%nat, Num 1) ∈ out /\ (1%nat, Num 4096) ∈ out.
Proof.
  pose proof (threads_take_turns (A:=ample) says_mtree toy_calls toy_shared toy_schedule) as Ht.
  destruct (run (CL:=counted) toy_schedule (start toy_shared (call_code (A:=ample) says_mtree <$> toy_calls))) as [m| | |] eqn:E.
  2-4: vm_compute in E; discriminate E.
  exists m. split; [reflexivity|]. destruct Ht as [_ Ht]. destruct (Ht [Num 1; Num 4096]) as (order & out & Hp & Hs & Ho).
  - vm_compute in E. injection E as <-. reflexivity.
  - exists order, out. split; [exact Hp|]. split; [exact Hs|]. split; apply Ho; reflexivity.
Defined.

(** An archive opened, and closed while another is opened. *)
Definition toy_open : shared (W:=ToyClient.world) (H:=Trickle.pipe) (L:=gmap Z Z) :=
  (toy_client, Streams [(4096, 4096)] {[ 4096 := [1; 2; 3] ]} {[ 4096 := 4096 ]}).

Lemma mtree_close_races_witness :
  exists sched m rc,
    run (CL:=counted) sched (start toy_open [mtree_close_code 4096; mtree_open_code (A:=ample) says_mtree 1099511627777]) = Ret m /\
    all_done m [Num rc; Num 4096] /\ (exists p, archive_source (st_lib (mc_state m).2) 4096 = Some p) /\
    alpm_pkg_mtree_next 4096 true (mc_state m).2 = Undef.
Proof.
  destruct (alpm_pkg_mtree_open (A:=ample) says_mtree 1099511627777 toy_client
    (st_set_lib toy_open.2 (archive_read_free (st_lib toy_open.2) 4096).2)) as [[[c' s2] a]| | |] eqn:E.
  2-4: vm_compute in E; discriminate E.
  apply (mtree_close_races (A:=ample) says_mtree 1099511627777 toy_client c' toy_open.2 s2 4096); [lia|].
  rewrite E. vm_compute in E. injection E as <- <- <-. reflexivity.
Defined.
End Toy.
