(* ===== verification/ClientLocal.v ===== *)
(** * The search of a file list: src/client/arpc_local.c

    [alpm_filelist_contains] runs in the client, on the list the client made
    of libalpm's, because what it returns points into that list.  Files are
    anything with a name. *)

From S2P Require Import Prelude Lookup.

Section Local.
Context {F : Type} (name : F -> list Z).

Definition file_cmp (key : list Z) (f : F) : comparison := strcmp key (name f).

(** The index of the file pointed to, [None] for NULL. *)
Definition alpm_filelist_contains (filelist : option (list F)) (path : list Z) : outcome (option nat) :=
  match filelist with
  | None => Ret None
  | Some files => if len files =? 0 then Ret None else bsearch (file_cmp path) files
  end.

(** In a list sorted by name the file of that name is found, and only that. *)
Theorem filelist_contains_correct files path :
  (forall i j x y, (i < j)%nat -> files !! i = Some x -> files !! j = Some y -> strlt (name x) (name y)) ->
  exists r, alpm_filelist_contains (Some files) path = Ret r /\
    match r with
    | Some i => exists f, files !! i = Some f /\ cstr (name f) = cstr path
    | None => forall f, f ∈ files -> cstr (name f) <> cstr path
    end.
Proof.
  intros Hs. unfold alpm_filelist_contains. destruct (Z.eqb_spec (len files) 0) as [E|_].
  - exists None. split; [done|]. destruct files; [|done]. intros f Hf. by apply not_elem_of_nil in Hf.
  - destruct (bsearch_spec name files path Hs) as (r & E & Hr). exists r. split; [exact E|].
    destruct r as [i|]; [done|]. intros f [i Hf]%list_elem_of_lookup. by apply (Hr i).
Qed.
End Local.

Lemma filelist_contains_correct_witness :
  exists r, alpm_filelist_contains id (Some [lit "etc/"; lit "usr/"; lit "usr/bin/"]) (lit "usr/") = Ret r.
Proof.
  destruct (filelist_contains_correct id [lit "etc/"; lit "usr/"; lit "usr/bin/"] (lit "usr/")) as (r & E & _).
  - intros [|[|[|i]]] [|[|[|j]]] x y Hij Hx Hy; try lia; cbn in Hx, Hy; try done; simplify_eq; by vm_compute.
  - by exists r.
Defined.
