(* ===== verification/Invalidate.v ===== *)
(** * What libalpm frees on its own: src/server/arpc_invalidate.c

    Four calls of libalpm free objects that the handle table points at.  The
    generated handler brackets each with two hooks: the one before the call
    notes the pointers that are about to die, the one after it drops their
    ids.  libalpm is a parameter ([Libalpm]); its readers may change its
    state, the errno first of all, but not what a reader answers
    ([LibalpmOk]).  The hooks work on the [server] of Dispatch.v: between the
    two, the call may raise callbacks, and requests nested in those may change
    the table. *)

From S2P Require Import Prelude Json JsonWriter JsonReader JsonRef JsonArena JsonAccess Base64.
From S2P Require Import Wire CbRegistry HandleTable Probe HandleCore HandleSpec HandleTheorems.
From S2P Require Import Paths Gpgdir Server Mtree Dispatch DispatchTheorems.

(** The calls made to libalpm, over its state.  Pointers are addresses, 0 for
    NULL; an [alpm_list_t] is the list of its [data]; a name is [None] for
    NULL. *)
Class Libalpm (W : Type) := {
  ARPC_H_DB : Z;
  ALPM_PKG_FROM_FILE : Z;
  ALPM_ERR_WRONG_ARGS : Z;
  ALPM_ERR_TRANS_NULL : Z;
  ALPM_ERR_TRANS_NOT_PREPARED : Z;
  ALPM_ERR_TRANS_NOT_LOCKED : Z;
  ALPM_ERR_TRANS_TYPE : Z;
  ALPM_ERR_RETRIEVE : Z;
  ALPM_ERR_PKG_INVALID : Z;
  ALPM_ERR_PKG_INVALID_CHECKSUM : Z;
  ALPM_ERR_PKG_INVALID_SIG : Z;
  ALPM_ERR_PKG_OPEN : Z;
  ALPM_ERR_FILE_CONFLICTS : Z;
  ALPM_ERR_DISK_SPACE : Z;
  alpm_trans_get_add : W -> Z -> list Z * W;
  alpm_trans_get_remove : W -> Z -> list Z * W;
  alpm_pkg_get_origin : W -> Z -> Z * W;
  alpm_pkg_get_name : W -> Z -> option (list Z) * W;
  alpm_get_localdb : W -> Z -> Z * W;
  alpm_db_get_pkgcache : W -> Z -> list Z * W;
  alpm_pkg_find : W -> list Z -> option (list Z) -> Z * W;
  alpm_get_syncdbs : W -> Z -> list Z * W;
  alpm_errno : W -> Z -> Z
}.

(** ** Pointers collected before a call, dropped after it *)

(** [n] is the length of the list. *)
Record dying := Dying { dy_ptr : list Z; dy_cap : Z }.

Definition sizeof_dying : Z := 24.
Definition sizeof_ptr : Z := 8.

Section Dying.
Context {A : Allocator}.

(** [None] for NULL. *)
Definition dying_new : option dying := if calloc_ok 1 sizeof_dying then Some (Dying [] 0) else None.

Definition note (d : option dying) (p : Z) : outcome (option dying) :=
  match d with
  | None => Ret None
  | Some d =>
      if p =? 0 then Ret (Some d)
      else if len (dy_ptr d) =? dy_cap d then
        let cap := if negb (dy_cap d =? 0) then u64 (dy_cap d * 2) else 16 in
        let size := u64 (cap * sizeof_ptr) in
        if negb (grants size) then Ret (Some d)
        else if (len (dy_ptr d) + 1) * sizeof_ptr <=? size then Ret (Some (Dying (dy_ptr d ++ [p]) cap))
        else Undef
      else Ret (Some (Dying (dy_ptr d ++ [p]) (dy_cap d)))
  end.

Fixpoint note_all (d : option dying) (l : list Z) : outcome (option dying) :=
  match l with
  | [] => Ret d
  | p :: l => d ← note d p; note_all d l
  end.

Fixpoint drop_ptrs (l : list Z) (tag : Z) (t : htab) (regs : cbregs) : outcome (htab * cbregs) :=
  match l with
  | [] => Ret (t, regs)
  | p :: l => '(t, regs) ← arpc_handle_drop_ptr t regs p tag; drop_ptrs l tag t regs
  end.
End Dying.

Section Hooks.
Context {A : Allocator} {T : Tags} {W H : Type} {R : Archive W} {L : Libalpm W}.
Implicit Types s : server W H.

Definition set_tables s (t : htab) (regs : cbregs) : server W H :=
  Server t regs (sv_seq s) (sv_conn s) (sv_win32 s) (sv_shutdown s) (sv_gpg s) (sv_world s) (sv_pipe s).

Definition drop_all (d : option dying) (tag : Z) s : outcome (server W H) :=
  match d with
  | None => Ret s
  | Some d => '(t, regs) ← drop_ptrs (dy_ptr d) tag (sv_tab s) (sv_regs s); Ret (set_tables s t regs)
  end.

Definition handle_arg s (rq : arpc_req) : outcome (arpc_req * Z) :=
  arpc_arg_handle (sv_tab s) rq 0 ARPC_H_HANDLE.

(** ** alpm_trans_release *)

(** The loop over what is to be added. *)
Fixpoint note_from_file (d : option dying) (l : list Z) (w : W) : outcome (option dying * W) :=
  match l with
  | [] => Ret (d, w)
  | p :: l =>
      let '(o, w) := alpm_pkg_get_origin w p in
      d ← (if o =? ALPM_PKG_FROM_FILE then note d p else Ret d);
      note_from_file d l w
  end.

Definition arpc_hook_alpm_trans_release_pre (rq : arpc_req) s : outcome (server W H * arpc_req * option dying) :=
  '(rq, h) ← handle_arg s rq;
  let d := dying_new in
  if h =? 0 then Ret (s, rq, d)
  else
    let '(add, w) := alpm_trans_get_add (sv_world s) h in
    '(d, w) ← note_from_file d add w;
    let '(remove, w) := alpm_trans_get_remove w h in
    d ← note_all d remove;
    Ret (set_world s w, rq, d).

Definition arpc_hook_alpm_trans_release_post (rq : arpc_req) (state : option dying) (rc : Z) s
  : outcome (server W H * arpc_req) :=
  if rc =? 0 then s ← drop_all state ARPC_H_PKG s; Ret (s, rq) else Ret (s, rq).

(** ** alpm_trans_commit *)

(** The loop over packages of the transaction, by name in the local db. *)
Fixpoint note_installed (d : option dying) (cache l : list Z) (w : W) : outcome (option dying * W) :=
  match l with
  | [] => Ret (d, w)
  | p :: l =>
      let '(name, w) := alpm_pkg_get_name w p in
      let '(q, w) := alpm_pkg_find w cache name in
      d ← note d q;
      note_installed d cache l w
  end.

Definition arpc_hook_alpm_trans_commit_pre (rq : arpc_req) s : outcome (server W H * arpc_req * option dying) :=
  '(rq, h) ← handle_arg s rq;
  let d := dying_new in
  let '(local, w) := if negb (h =? 0) then alpm_get_localdb (sv_world s) h else (0, sv_world s) in
  if local =? 0 then Ret (set_world s w, rq, d)
  else
    let '(cache, w) := alpm_db_get_pkgcache w local in
    let '(add, w) := alpm_trans_get_add w h in
    '(d, w) ← note_installed d cache add w;
    let '(remove, w) := alpm_trans_get_remove w h in
    '(d, w) ← note_installed d cache remove w;
    Ret (set_world s w, rq, d).

Definition touched_nothing (e : Z) : bool :=
  existsb (Z.eqb e)
    [ALPM_ERR_WRONG_ARGS; ALPM_ERR_TRANS_NULL; ALPM_ERR_TRANS_NOT_PREPARED; ALPM_ERR_TRANS_NOT_LOCKED;
     ALPM_ERR_TRANS_TYPE; ALPM_ERR_RETRIEVE; ALPM_ERR_PKG_INVALID; ALPM_ERR_PKG_INVALID_CHECKSUM;
     ALPM_ERR_PKG_INVALID_SIG; ALPM_ERR_PKG_OPEN; ALPM_ERR_FILE_CONFLICTS; ALPM_ERR_DISK_SPACE].

Definition arpc_hook_alpm_trans_commit_post (rq : arpc_req) (state : option dying) (rc : Z) s
  : outcome (server W H * arpc_req) :=
  '(rq, h) ← handle_arg s rq;
  if (rc =? 0) || (h =? 0) || negb (touched_nothing (alpm_errno (sv_world s) h))
  then s ← drop_all state ARPC_H_PKG s; Ret (s, rq)
  else Ret (s, rq).

(** ** alpm_db_update *)

Definition arpc_hook_alpm_db_update_pre (rq : arpc_req) s : outcome (server W H * arpc_req * option dying) :=
  Ret (s, rq, None).

Fixpoint drop_under_loop (fuel : nat) (rq : arpc_req) (e : Z) (t : htab) : outcome htab :=
  match fuel with
  | O => NoFuel
  | S fuel =>
      if 0 <=? e then
        t ← arpc_handle_drop_under t (u64 (arpc_node_i64 rq e));
        drop_under_loop fuel rq (arpc_node_next rq e) t
      else Ret t
  end.

Definition arpc_hook_alpm_db_update_post (rq : arpc_req) (state : option dying) (rc : Z) s
  : outcome (server W H * arpc_req) :=
  if rc =? 1 then Ret (s, rq)
  else
    '(rq, dbs) ← arpc_arg_node rq 1;
    t ← drop_under_loop (S (length (d_nodes (rq_doc rq)))) rq (arpc_node_first rq dbs) (sv_tab s);
    Ret (set_tables s t (sv_regs s), rq).

(** ** alpm_unregister_all_syncdbs *)

Definition arpc_hook_alpm_unregister_all_syncdbs_pre (rq : arpc_req) s
  : outcome (server W H * arpc_req * option dying) :=
  '(rq, h) ← handle_arg s rq;
  let d := dying_new in
  let '(dbs, w) := if negb (h =? 0) then alpm_get_syncdbs (sv_world s) h else ([], sv_world s) in
  d ← note_all d dbs;
  Ret (set_world s w, rq, d).

Definition arpc_hook_alpm_unregister_all_syncdbs_post (rq : arpc_req) (state : option dying) (rc : Z) s
  : outcome (server W H * arpc_req) :=
  if rc =? 0 then s ← drop_all state ARPC_H_DB s; Ret (s, rq) else Ret (s, rq).
End Hooks.

(** ** What is relied on of libalpm *)

(** A reader: what it answers depends on what readers see, and it leaves that
    as it was. *)
Definition reads_only {W X} (same : relation W) (f : W -> X * W) : Prop :=
  (forall w w', same w w' -> (f w).1 = (f w').1) /\ forall w, same (f w).2 w.

Class LibalpmOk (W : Type) `{Libalpm W} := {
  la_same : relation W;
  la_same_equiv :: Equivalence la_same;
  get_add_reads h : reads_only la_same (fun w => alpm_trans_get_add w h);
  get_remove_reads h : reads_only la_same (fun w => alpm_trans_get_remove w h);
  get_origin_reads p : reads_only la_same (fun w => alpm_pkg_get_origin w p);
  get_name_reads p : reads_only la_same (fun w => alpm_pkg_get_name w p);
  get_localdb_reads h : reads_only la_same (fun w => alpm_get_localdb w h);
  get_pkgcache_reads db : reads_only la_same (fun w => alpm_db_get_pkgcache w db);
  pkg_find_reads l name : reads_only la_same (fun w => alpm_pkg_find w l name);
  get_syncdbs_reads h : reads_only la_same (fun w => alpm_get_syncdbs w h)
}.

Lemma reads_at {W X} (same : relation W) `{!Equivalence same} (f : W -> X * W) w w0 :
  reads_only same f -> same w w0 -> exists w', f w = ((f w0).1, w') /\ same w' w0.
Proof.
  intros [Hv Hs] Hw. exists (f w).2. rewrite <- (Hv w w0 Hw). split; [apply surjective_pairing|].
  by rewrite (Hs w).
Qed.

(** ** What the hooks note *)

Section Noted.
Context {A : Allocator} {HA : TotalAllocator A}.

Definition dying_ok (d : dying) : Prop :=
  dy_cap d = 0 /\ dy_ptr d = [] \/
  exists k, (k < 60)%nat /\ dy_cap d = 16 * 2 ^ Z.of_nat k /\ len (dy_ptr d) <= dy_cap d.

Definition nonnull (l : list Z) : list Z := filter (fun p => p <> 0) l.

Lemma dying_new_total : dying_new = Some (Dying [] 0).
Proof. unfold dying_new. by rewrite calloc_total by (done || reflexivity). Qed.

Lemma note_spec d p :
  dying_ok d -> len (dy_ptr d) < 2 ^ 60 ->
  exists d', note (Some d) p = Ret (Some d') /\ dying_ok d' /\ dy_ptr d' = dy_ptr d ++ nonnull [p].
Proof.
  intros Hd Hl. unfold note. unfold nonnull. rewrite filter_cons, filter_nil.
  destruct (Z.eqb_spec p 0) as [->|Hp].
  { rewrite decide_False by tauto. exists d. by rewrite app_nil_r. }
  rewrite decide_True by done.
  destruct (Z.eqb_spec (len (dy_ptr d)) (dy_cap d)) as [E|E].
  - destruct Hd as [[Hc Hn]|(k & Hk & Hc & Hle)].
    + rewrite Hc, Hn. cbn [negb Z.eqb]. rewrite HA. change (u64 (16 * sizeof_ptr)) with 128. cbn [negb length].
      change ((Z.of_nat 0 + 1) * sizeof_ptr <=? 128) with true. cbn iota. eexists. split; [reflexivity|].
      split; [|done]. right. exists 0%nat. cbn. lia.
    + assert (Hk' : (k < 56)%nat).
      { destruct (decide (k < 56)%nat) as [|Hk']; [done|exfalso].
        assert (2 ^ 56 <= 2 ^ Z.of_nat k) by (apply Z.pow_le_mono_r; lia). lia. }
      assert (Hpos : 0 < 2 ^ Z.of_nat k <= 2 ^ 55).
      { split; [lia|]. apply Z.pow_le_mono_r; lia. }
      destruct (Z.eqb_spec (dy_cap d) 0); [lia|]. cbn [negb].
      rewrite (u64_small (dy_cap d * 2)) by lia. unfold sizeof_ptr. rewrite u64_small by lia.
      rewrite HA. cbn [negb]. destruct (Z.leb_spec ((len (dy_ptr d) + 1) * 8) (dy_cap d * 2 * 8)); [|lia].
      eexists. split; [reflexivity|]. split; [|done]. right. exists (S k). cbn [dy_ptr dy_cap].
      rewrite Nat2Z.inj_succ, Z.pow_succ_r, length_app by lia. cbn [length]. split_and!; lia.
  - eexists. split; [reflexivity|]. split; [|done]. right.
    destruct Hd as [[Hc Hn]|(k & Hk & Hc & Hle)]; [rewrite Hn in E; cbn in E; lia|].
    exists k. cbn [dy_ptr dy_cap]. rewrite length_app. cbn [length]. lia.
Qed.

Lemma nonnull_len l : (length (nonnull l) <= length l)%nat.
Proof. apply length_filter. Qed.

Lemma note_all_spec l : forall d,
  dying_ok d -> len (dy_ptr d) + len l <= 2 ^ 60 ->
  exists d', note_all (Some d) l = Ret (Some d') /\ dying_ok d' /\ dy_ptr d' = dy_ptr d ++ nonnull l.
Proof.
  induction l as [|p l IH]; intros d Hd Hl; cbn [note_all length] in *.
  { exists d. by rewrite app_nil_r. }
  destruct (note_spec d p Hd ltac:(lia)) as (d1 & -> & Hd1 & E1). cbn [mbind outcome_bind].
  pose proof (nonnull_len [p]). cbn [length] in *.
  destruct (IH d1 Hd1) as (d2 & -> & Hd2 & E2); [rewrite E1, length_app; lia|].
  exists d2. split_and!; [done|done|]. rewrite E2, E1, <- app_assoc. f_equal. unfold nonnull.
  by rewrite <- filter_app.
Qed.

Context {T : Tags} {W H : Type} {R : Archive W} {L : Libalpm W} {LO : LibalpmOk W}.
Implicit Types s : server W H.

Definition from_file (w : W) (p : Z) : bool := (alpm_pkg_get_origin w p).1 =? ALPM_PKG_FROM_FILE.
Definition installed (w : W) (cache : list Z) (p : Z) : Z := (alpm_pkg_find w cache (alpm_pkg_get_name w p).1).1.

Lemma note_from_file_spec l : forall d w w0,
  dying_ok d -> la_same w w0 -> len (dy_ptr d) + len l <= 2 ^ 60 ->
  exists d' w', note_from_file (Some d) l w = Ret (Some d', w') /\ dying_ok d' /\ la_same w' w0 /\
    dy_ptr d' = dy_ptr d ++ nonnull (filter (from_file w0) l).
Proof.
  induction l as [|p l IH]; intros d w w0 Hd Hw Hl; cbn [note_from_file length] in *.
  { exists d, w. by rewrite app_nil_r. }
  destruct (reads_at la_same _ w w0 (get_origin_reads p) Hw) as (w1 & -> & Hw1). cbn beta iota.
  fold (from_file w0 p). rewrite filter_cons. destruct (decide (from_file w0 p)) as [Ef|Ef].
  - rewrite (Is_true_true_1 _ Ef). destruct (note_spec d p Hd ltac:(lia)) as (d1 & -> & Hd1 & E1).
    cbn [mbind outcome_bind]. pose proof (nonnull_len [p]). cbn [length] in *.
    destruct (IH d1 w1 w0 Hd1 Hw1) as (d2 & w2 & -> & Hd2 & Hw2 & E2); [rewrite E1, length_app; lia|].
    exists d2, w2. split_and!; [done..|]. rewrite E2, E1, <- app_assoc. f_equal. unfold nonnull. by rewrite <- filter_app.
  - rewrite (Is_true_false_1 _ Ef). cbn [mbind outcome_bind]. apply IH; [done|done|lia].
Qed.

Lemma note_installed_spec cache l : forall d w w0,
  dying_ok d -> la_same w w0 -> len (dy_ptr d) + len l <= 2 ^ 60 ->
  exists d' w', note_installed (Some d) cache l w = Ret (Some d', w') /\ dying_ok d' /\ la_same w' w0 /\
    dy_ptr d' = dy_ptr d ++ nonnull (installed w0 cache <$> l).
Proof.
  induction l as [|p l IH]; intros d w w0 Hd Hw Hl; cbn [note_installed length] in *.
  { exists d, w. by rewrite app_nil_r. }
  destruct (reads_at la_same _ w w0 (get_name_reads p) Hw) as (w1 & -> & Hw1). cbn beta iota.
  destruct (reads_at la_same _ w1 w0 (pkg_find_reads cache (alpm_pkg_get_name w0 p).1) Hw1) as (w2 & -> & Hw2).
  cbn beta iota. fold (installed w0 cache p).
  destruct (note_spec d (installed w0 cache p) Hd ltac:(lia)) as (d1 & -> & Hd1 & E1). cbn [mbind outcome_bind].
  pose proof (nonnull_len [installed w0 cache p]). cbn [length] in *.
  destruct (IH d1 w2 w0 Hd1 Hw2) as (d2 & w3 & -> & Hd2 & Hw3 & E2); [rewrite E1, length_app; lia|].
  exists d2, w3. split_and!; [done..|]. rewrite E2, E1, <- app_assoc. f_equal. unfold nonnull. by rewrite <- filter_app.
Qed.
End Noted.

(** ** What a sequence of drops leaves *)

(** No object is more than seven below another: the walk of [under] meets
    every owner. *)
Definition flat (t : htab) : Prop := forall n id o, HandleTheorems.chain t n id o -> (n < 8)%nat.

Lemma chain_trans t n x y : HandleTheorems.chain t n x y -> forall k o,
  HandleTheorems.chain t k y o -> HandleTheorems.chain t (n + k) x o.
Proof.
  induction 1 as [|n x i s y Hx Hf Hc IH]; intros k o Hk; [done|]. cbn [Nat.add].
  eapply chain_up; [done|done|by apply IH].
Qed.

Lemma chain_cycle t n x : flat t -> HandleTheorems.chain t n x x -> n = 0%nat.
Proof.
  intros Hf Hc. assert (H8 : HandleTheorems.chain t (n + (n + (n + (n + (n + (n + (n + n))))))) x x)
    by (repeat (eapply chain_trans; [exact Hc|]); exact Hc).
  apply Hf in H8. lia.
Qed.

(** What the drop of what is under [o] picks; [strict]: not [o] itself. *)
Definition sel (m : gmap Z entry) (r : Z * bool) (x : Z) : bool :=
  negb (r.2 && (x =? r.1)) && a_under m x r.1.

Lemma under_loop_zero d m o : a_under_loop d m 0 o = false.
Proof. by destruct d. Qed.

Lemma under_loop_sub d m m0 o : m ⊆ m0 -> forall x, a_under_loop d m x o = true -> a_under_loop d m0 x o = true.
Proof.
  intros Hm. induction d as [|d IH]; intros x; cbn [a_under_loop]; [done|].
  destruct (x =? 0); [done|]. destruct (x =? o); [done|].
  destruct (m !! x) as [e|] eqn:E; [|by rewrite under_loop_zero]. rewrite (lookup_weaken _ _ _ _ E Hm). apply IH.
Qed.

Section Cuts.
Context (t0 : htab) (a0 : atab) (Hr0 : repr t0 a0).
Abbreviation m0 := (a_map a0).

Definition taken (roots : list (Z * bool)) (x : Z) : bool := existsb (fun r => sel m0 r x) roots.

(** A map with what is under the roots cut out. *)
Record cut (roots : list (Z * bool)) (m : gmap Z entry) : Prop := {
  cut_sub : m ⊆ m0;
  cut_keeps x e : m0 !! x = Some e -> taken roots x = false -> m !! x = Some e;
  cut_gone x : flat t0 -> taken roots x = true -> m !! x = None
}.

Lemma under_chain x o : flat t0 -> a_under m0 x o = true <-> exists n, HandleTheorems.chain t0 n x o.
Proof.
  intros Hf. pose proof (under_loop_chain t0 a0 8 x o Hr0) as Hu. rewrite (under_refines _ _ Hr0) in Hu. unfold a_under.
  split.
  - intros E. rewrite E in Hu. destruct (proj1 Hu eq_refl) as (n & _ & Hc). by exists n.
  - intros (n & Hc). destruct Hu as [_ Hu]. specialize (Hu (ex_intro _ n (conj (Hf n x o Hc) Hc))). congruence.
Qed.

(** What is below something that is cut is cut. *)
Lemma taken_below roots k x y :
  flat t0 -> taken roots y = true -> HandleTheorems.chain t0 k x y -> taken roots x = true.
Proof.
  intros Hf Hy Hc. unfold taken in *. apply existsb_exists in Hy as ([o strict] & Hin & Hs).
  apply existsb_exists. exists (o, strict). split; [done|]. unfold sel in *. cbn [fst snd] in *.
  apply andb_true_iff in Hs as [Hn [n Ho]%under_chain]; [|done].
  apply andb_true_iff. split; [|apply under_chain; [done|]; exists (k + n)%nat; by eapply chain_trans].
  destruct strict; [|done]. cbn [andb] in *. destruct (Z.eqb_spec x o) as [->|]; [exfalso|done].
  pose proof (chain_cycle t0 (k + n) o Hf ltac:(by eapply chain_trans)) as E.
  assert (n = 0%nat) as -> by lia. inversion Ho; subst. by rewrite Z.eqb_refl in Hn.
Qed.

(** A way up that is left whole is walked as before. *)
Lemma under_loop_path m o d : forall x, a_under_loop d m0 x o = true ->
  (forall n y e, HandleTheorems.chain t0 n x y -> m0 !! y = Some e -> m !! y = Some e) -> a_under_loop d m x o = true.
Proof.
  induction d as [|d IH]; intros x Hu Hp; [done|]. cbn [a_under_loop] in *.
  destruct (Z.eqb_spec x 0) as [|Hx]; [done|]. destruct (x =? o); [done|].
  destruct (m0 !! x) as [e|] eqn:E; [|by rewrite under_loop_zero in Hu].
  rewrite (Hp 0%nat x e (chain_here _ _ Hx) E). apply IH; [done|]. intros n y e' Hc. apply (Hp (S n)).
  pose proof (find_refines t0 a0 Hr0 x) as Hf. rewrite E in Hf. destruct Hf as (i & Hf & _).
  by eapply chain_up.
Qed.

Lemma cut_start : cut [] m0.
Proof. split; [done|done|]. intros x _ Hx. done. Qed.

Lemma cut_step roots m m' r :
  cut roots m -> (forall x, m' !! x = if sel m r x then None else m !! x) -> cut (r :: roots) m'.
Proof.
  intros [Hs Hk Hg] Hm'. destruct r as [o strict]. split.
  - apply map_subseteq_spec. intros x e. rewrite Hm'. destruct (sel m _ x); [done|]. intros E. by eapply lookup_weaken.
  - intros x e Hx [Hn Ht]%orb_false_iff. rewrite Hm', (Hk x e Hx Ht).
    unfold sel in *. cbn [fst snd] in *. destruct (negb (strict && (x =? o))); [|done]. cbn [andb] in *.
    destruct (a_under m x o) eqn:E; [|done]. unfold a_under in *. by rewrite (under_loop_sub 8 m m0 o Hs x E) in Hn.
  - intros x Hf Ht. rewrite Hm'. destruct (m !! x) as [e|] eqn:E; [|by destruct (sel m _ x)].
    destruct (taken roots x) eqn:Hx; [by rewrite (Hg x Hf Hx) in E|]. cbn [taken existsb] in Ht.
    fold (taken roots x) in Ht. rewrite Hx, orb_false_r in Ht.
    unfold sel in *. cbn [fst snd] in *. apply andb_true_iff in Ht as [-> Hu]. cbn [andb].
    unfold a_under in *. rewrite (under_loop_path m o 8 x Hu); [done|]. intros n y e' Hc Hy. apply Hk; [done|].
    destruct (taken roots y) eqn:Hty; [|done]. by rewrite (taken_below roots n x y Hf Hty Hc) in Hx.
Qed.

(** Nothing to drop: the root has gone with another. *)
Lemma cut_skip roots m o e : cut roots m -> m0 !! o = Some e -> m !! o = None -> cut ((o, false) :: roots) m.
Proof.
  intros [Hs Hk Hg] Ho Hn. split; [done| |].
  - intros x e' Hx [_ Ht]%orb_false_iff. by apply Hk.
  - intros x Hf [Hx|Hx]%orb_true_iff; [|by apply Hg]. apply Hg; [done|].
    apply (under_chain x o Hf) in Hx as [n Hc]. eapply taken_below; [done| |exact Hc].
    destruct (taken roots o) eqn:E; [done|]. by rewrite (Hk o e Ho E) in Hn.
Qed.
End Cuts.

(** ** Dropping what was noted *)

Section Drops.
Context {A : Allocator} {HA : TotalAllocator A} (t0 : htab) (a0 : atab) (Hr0 : repr t0 a0).
Abbreviation m0 := (a_map a0).

(** The id of a pointer, as a root to cut. *)
Definition root_of (tag p : Z) : list (Z * bool) :=
  match (if p =? 0 then None else a_obj m0 p tag) with Some o => [(o, false)] | None => [] end.

Definition unnamed (m : gmap Z entry) (p tag : Z) : Prop :=
  forall id e, m !! id = Some e -> ~ (e_ptr e = p /\ e_tag e = tag).

Lemma unnamed_sub m m' p tag : m' ⊆ m -> unnamed m p tag -> unnamed m' p tag.
Proof. intros Hs Hu id e E. eapply Hu. by eapply lookup_weaken. Qed.

Lemma a_obj_of m p tag o e : objects_once m -> m !! o = Some e -> e_ptr e = p -> e_tag e = tag -> a_obj m p tag = Some o.
Proof.
  intros Ho E Ep Et. destruct (a_obj m p tag) as [o'|] eqn:Eo.
  - destruct (a_obj_Some _ _ _ _ Eo) as (e' & E' & Ep' & Et'). f_equal. apply (Ho o' o e' e); congruence.
  - by destruct (a_obj_None _ _ _ _ _ Eo E).
Qed.

Lemma drop_map_sub a q : a_map (a_drop a q) ⊆ a_map a.
Proof. apply map_filter_subseteq. Qed.

Lemma drop_ptr_spec roots t a regs tag p :
  repr t a -> cut t0 a0 roots (a_map a) ->
  exists t' regs' a', arpc_handle_drop_ptr t regs p tag = Ret (t', regs') /\ repr t' a' /\
    cut t0 a0 (root_of tag p ++ roots) (a_map a') /\ a_map a' ⊆ a_map a /\ (p <> 0 -> unnamed (a_map a') p tag).
Proof.
  intros Hr Hc. unfold arpc_handle_drop_ptr, root_of. destruct (Z.eqb_spec p 0) as [->|Hp].
  { by exists t, regs, a. }
  pose proof (find_ptr_refines t a Hr p tag Hp) as Hf. destruct (a_obj (a_map a) p tag) as [o|] eqn:Eo.
  - destruct Hf as (i & e & -> & _ & _ & He). cbn [mbind outcome_bind s_id slot_of].
    assert (Ho : o <> 0) by (intros ->; by rewrite (repr_no_zero _ _ Hr) in He).
    destruct (drop_owner_refines t a regs o Hr Ho) as (t' & E & [[Hr' _]|[_ []]]); [|done].
    destruct (a_obj_Some _ _ _ _ Eo) as (e' & He' & Ep & Et). assert (e' = e) as -> by congruence.
    rewrite (a_obj_of m0 p tag o e (repr_objects_once _ _ Hr0) (lookup_weaken _ _ _ _ He (cut_sub _ _ _ _ Hc)) Ep Et).
    eexists _, _, _. split; [exact E|]. split; [exact Hr'|]. split_and!.
    + cbn [app]. eapply cut_step; [done|exact Hc|]. intros x. apply a_drop_lookup.
    + apply drop_map_sub.
    + intros _ id x. rewrite a_drop_lookup. intros Hx [Ep' Et'].
      destruct (a_under (a_map a) id o) eqn:Eu; [done|].
      assert (id = o) as -> by (apply (repr_objects_once _ _ Hr id o x e); congruence).
      unfold a_under in Eu. cbn [a_under_loop] in Eu. destruct (Z.eqb_spec o 0); [done|]. by rewrite Z.eqb_refl in Eu.
  - rewrite Hf. exists t, regs, a. split_and!; [done|done| |done|].
    + destruct (a_obj m0 p tag) as [o|] eqn:Eo0; [|done]. destruct (a_obj_Some _ _ _ _ Eo0) as (e & He & Ep & Et).
      eapply cut_skip; [done|exact Hc|exact He|]. destruct (a_map a !! o) as [e'|] eqn:Eo'; [|done]. exfalso.
      pose proof (lookup_weaken _ _ _ _ Eo' (cut_sub _ _ _ _ Hc)) as E. eapply a_obj_None; [exact Eo|exact Eo'|].
      assert (e' = e) as -> by congruence. done.
    + intros _ id e He. by eapply a_obj_None.
Qed.

Lemma drop_ptrs_spec tag l : forall roots t a regs,
  repr t a -> cut t0 a0 roots (a_map a) ->
  exists t' regs' a', drop_ptrs l tag t regs = Ret (t', regs') /\ repr t' a' /\
    cut t0 a0 (reverse (l ≫= root_of tag) ++ roots) (a_map a') /\ a_map a' ⊆ a_map a /\
    forall p, p ∈ l -> p <> 0 -> unnamed (a_map a') p tag.
Proof.
  induction l as [|p l IH]; intros roots t a regs Hr Hc; cbn [drop_ptrs].
  { exists t, regs, a. split_and!; [done|done|done|done|]. intros p Hp. by apply not_elem_of_nil in Hp. }
  destruct (drop_ptr_spec roots t a regs tag p Hr Hc) as (t1 & regs1 & a1 & -> & Hr1 & Hc1 & Hs1 & Hp1).
  cbn [mbind outcome_bind]. destruct (IH _ t1 a1 regs1 Hr1 Hc1) as (t2 & regs2 & a2 & -> & Hr2 & Hc2 & Hs2 & Hp2).
  exists t2, regs2, a2. split_and!; [done|done| |by trans (a_map a1)|].
  - rewrite app_assoc in Hc2. cbn [mbind list_bind]. rewrite reverse_app.
    assert (Er : reverse (root_of tag p) = root_of tag p) by (unfold root_of; by destruct (if p =? 0 then None else _)).
    by rewrite Er.
  - intros q [->|Hq]%elem_of_cons Hq0; [|by apply Hp2]. eapply unnamed_sub; [exact Hs2|]. by apply Hp1.
Qed.

(** The loop over the databases of an update. *)
Definition under_roots (kids : list json) : list (Z * bool) :=
  kids ≫= fun j => let o := u64 (t_i64 (Some j) 0) in if o =? 0 then [] else [(o, true)].

Lemma drop_under_loop_spec rq kids : forall fuel e roots t a,
  reads_from (rq_doc rq) e kids -> (length kids < fuel)%nat -> repr t a -> cut t0 a0 roots (a_map a) ->
  exists t' a', drop_under_loop fuel rq e t = Ret t' /\ repr t' a' /\
    cut t0 a0 (reverse (under_roots kids) ++ roots) (a_map a').
Proof.
  induction kids as [|j kids IH]; intros [|fuel] e roots t a Hk Hf Hr Hc; cbn [length] in Hf; try lia; cbn [drop_under_loop].
  { rewrite (reads_from_nil _ _ Hk). by exists t, a. }
  destruct (reads_from_cons _ _ _ _ Hk) as (He & Hj & Hn). destruct (Z.leb_spec 0 e); [|lia].
  unfold arpc_node_i64. rewrite (aj_i64_reads _ _ _ _ Hj). set (o := u64 (t_i64 (Some j) 0)).
  unfold under_roots. cbn [mbind list_bind]. fold o. fold (under_roots kids). rewrite reverse_app, <- app_assoc.
  destruct (Z.eqb_spec o 0) as [E0|Ho].
  - rewrite E0. unfold arpc_handle_drop_under. cbn [Z.eqb mbind outcome_bind]. by eapply IH; [|lia|..].
  - destruct (drop_under_refines t a o Hr Ho) as (t1 & -> & [Hr1|[_ []]]); [|done]. cbn [mbind outcome_bind].
    eapply IH; [done|lia|exact Hr1|]. eapply cut_step; [done|exact Hc|]. intros x. by rewrite a_drop_lookup.
Qed.
End Drops.

Lemma reads_from_length d i l : reads_from d i l -> (length l <= length (d_nodes d))%nat.
Proof.
  intros (o & lo & hi & kids & Hch & Hlo & E).
  pose proof (proj2 (denotes_chain_bound _ _ _ _) _ _ _ _ _ _ Hch) as [H1 H2]. rewrite <- E, length_fmap. lia.
Qed.

(** ** Properties *)

(** The calls that are bracketed. *)
Inductive hooked := TransRelease | TransCommit | DbUpdate | UnregisterAllSyncdbs.

#[export] Instance hooked_eq_dec : EqDecision hooked.
Proof. solve_decision. Defined.

Section Hooked.
Context {A : Allocator} {T : Tags} {W H : Type} {R : Archive W} {L : Libalpm W}.
Implicit Types s : server W H.

Definition hook_pre (k : hooked) (rq : arpc_req) s : outcome (server W H * arpc_req * option dying) :=
  match k with
  | TransRelease => arpc_hook_alpm_trans_release_pre rq s
  | TransCommit => arpc_hook_alpm_trans_commit_pre rq s
  | DbUpdate => arpc_hook_alpm_db_update_pre rq s
  | UnregisterAllSyncdbs => arpc_hook_alpm_unregister_all_syncdbs_pre rq s
  end.

Definition hook_post (k : hooked) (rq : arpc_req) (d : option dying) (rc : Z) s : outcome (server W H * arpc_req) :=
  match k with
  | TransRelease => arpc_hook_alpm_trans_release_post rq d rc s
  | TransCommit => arpc_hook_alpm_trans_commit_post rq d rc s
  | DbUpdate => arpc_hook_alpm_db_update_post rq d rc s
  | UnregisterAllSyncdbs => arpc_hook_alpm_unregister_all_syncdbs_post rq d rc s
  end.

(** The pointers the call may free, by what libalpm says before it: the
    packages of the transaction that came from files and the copies it made
    of those to remove; the installed packages of the names in it; every sync
    db. *)
Definition victims (k : hooked) (w : W) (h : Z) : list Z :=
  if h =? 0 then []
  else
    let add := (alpm_trans_get_add w h).1 in
    let remove := (alpm_trans_get_remove w h).1 in
    match k with
    | TransRelease => filter (from_file w) add ++ remove
    | TransCommit =>
        let local := (alpm_get_localdb w h).1 in
        if local =? 0 then [] else installed w (alpm_db_get_pkgcache w local).1 <$> add ++ remove
    | DbUpdate => []
    | UnregisterAllSyncdbs => (alpm_get_syncdbs w h).1
    end.

(** The lists fit in memory. *)
Definition lists_fit (w : W) (h : Z) : Prop :=
  len (alpm_trans_get_add w h).1 + len (alpm_trans_get_remove w h).1 <= 2 ^ 60 /\ len (alpm_get_syncdbs w h).1 <= 2 ^ 60.

Definition hook_tag (k : hooked) : Z := match k with UnregisterAllSyncdbs => ARPC_H_DB | _ => ARPC_H_PKG end.

(** Whether the call may have freed them, by its result and the errno. *)
Definition may_have_freed (k : hooked) (rc : Z) (w : W) (h : Z) : bool :=
  match k with
  | TransRelease | UnregisterAllSyncdbs => rc =? 0
  | TransCommit => (rc =? 0) || (h =? 0) || negb (touched_nothing (alpm_errno w h))
  | DbUpdate => negb (rc =? 1)
  end.

(** The ids to let go of: of an object noted, or below it; for an update,
    below a database of the request. *)
Definition lets_go (k : hooked) (noted : list Z) (pj : option json) (t : htab) (x : Z) : Prop :=
  exists o, o <> 0 /\ is_under t x o = true /\
    match k with
    | DbUpdate => x <> o /\ o ∈ (fun j => u64 (t_i64 (Some j) 0)) <$> t_kids (t_elem pj 1)
    | _ => exists p, p ∈ noted /\ p <> 0 /\ arpc_handle_get t o (hook_tag k) = Ret p
    end.

Context {HA : TotalAllocator A}.

Lemma arg_handle_doc (t : htab) rq i tag rq' p :
  arpc_arg_handle t rq i tag = Ret (rq', p) -> rq_doc rq' = rq_doc rq /\ rq_params rq' = rq_params rq.
Proof.
  unfold arpc_arg_handle, arpc_arg_id, arg_node. intros E.
  destruct (aj_elem _ _ _) as [n| | |]; try discriminate E. cbn [mbind outcome_bind] in E.
  destruct (n <? 0) eqn:En; cbn [mbind outcome_bind] in E.
  { rewrite ?En in E. cbn [mbind outcome_bind Z.eqb] in E. by injection E as [= <- _]. }
  rewrite ?En in E. destruct (aj_is_null _ _); cbn [mbind outcome_bind Z.eqb] in E; [by injection E as [= <- _]|].
  destruct (_ =? 0); [by injection E as [= <- _]|].
  destruct (arpc_handle_get _ _ _) as [q| | |]; try discriminate E. cbn [mbind outcome_bind] in E.
  destruct (q =? 0); by injection E as [= <- _].
Qed.

Context {LO : LibalpmOk W}.

(** What a hook before the call does: only the world has changed, and not for
    readers; what is noted is [l]. *)
Definition notes (s : server W H) (rq : arpc_req) (l : list Z) (r : outcome (server W H * arpc_req * option dying)) : Prop :=
  exists w rq' dy, r = Ret (set_world s w, rq', Some dy) /\ la_same w (sv_world s) /\
    rq_doc rq' = rq_doc rq /\ rq_params rq' = rq_params rq /\ dy_ptr dy = nonnull l.

Lemma dying_nil : dying_ok (Dying [] 0).
Proof. by left. Qed.

Lemma notes_nothing s rq rq1 w :
  rq_doc rq1 = rq_doc rq -> rq_params rq1 = rq_params rq -> la_same w (sv_world s) ->
  notes s rq [] (Ret (set_world s w, rq1, Some (Dying [] 0))).
Proof. intros Hd Hp Hw. by exists w, rq1, (Dying [] 0). Qed.

Lemma set_world_id s : set_world s (sv_world s) = s.
Proof. by destruct s. Qed.

Lemma notes_kept s rq rq1 :
  rq_doc rq1 = rq_doc rq -> rq_params rq1 = rq_params rq -> notes s rq [] (Ret (s, rq1, Some (Dying [] 0))).
Proof. intros Hd Hp. exists (sv_world s), rq1, (Dying [] 0). by rewrite set_world_id. Qed.

Lemma release_notes rq s rq1 h :
  handle_arg s rq = Ret (rq1, h) -> lists_fit (sv_world s) h ->
  notes s rq (victims TransRelease (sv_world s) h) (arpc_hook_alpm_trans_release_pre rq s).
Proof.
  intros Eh [Hl _]. destruct (arg_handle_doc _ _ _ _ _ _ Eh) as [Hd Hp].
  unfold arpc_hook_alpm_trans_release_pre. rewrite Eh, dying_new_total. cbn [mbind outcome_bind].
  destruct (h =? 0) eqn:E0; [unfold victims; rewrite E0; by apply notes_kept|].
  destruct (reads_at la_same _ (sv_world s) (sv_world s) (get_add_reads h) (reflexivity _)) as (w1 & -> & Hw1). cbn beta iota.
  destruct (note_from_file_spec (alpm_trans_get_add (sv_world s) h).1 (Dying [] 0) w1 (sv_world s) dying_nil Hw1)
    as (d & w2 & -> & Hok & Hw2 & E2); [cbn [dy_ptr length]; lia|]. cbn [mbind outcome_bind].
  destruct (reads_at la_same _ w2 (sv_world s) (get_remove_reads h) Hw2) as (w3 & -> & Hw3). cbn beta iota.
  pose proof (nonnull_len (filter (from_file (sv_world s)) (alpm_trans_get_add (sv_world s) h).1)) as N1.
  pose proof (length_filter (fun p => Is_true (from_file (sv_world s) p)) (alpm_trans_get_add (sv_world s) h).1) as N2.
  destruct (note_all_spec (alpm_trans_get_remove (sv_world s) h).1 d Hok) as (d' & -> & Hok' & E'); [rewrite E2; cbn [dy_ptr app]; lia|].
  cbn [mbind outcome_bind]. exists w3, rq1, d'. split_and!; [done..|].
  unfold victims. rewrite E0, E', E2. cbn [dy_ptr app]. unfold nonnull. by rewrite <- filter_app.
Qed.

Lemma commit_notes rq s rq1 h :
  handle_arg s rq = Ret (rq1, h) -> lists_fit (sv_world s) h ->
  notes s rq (victims TransCommit (sv_world s) h) (arpc_hook_alpm_trans_commit_pre rq s).
Proof.
  intros Eh [Hl _]. destruct (arg_handle_doc _ _ _ _ _ _ Eh) as [Hd Hp].
  unfold arpc_hook_alpm_trans_commit_pre. rewrite Eh, dying_new_total. cbn [mbind outcome_bind].
  destruct (h =? 0) eqn:E0; cbn [negb Z.eqb]; [unfold victims; rewrite E0; by apply notes_nothing|].
  destruct (reads_at la_same _ (sv_world s) (sv_world s) (get_localdb_reads h) (reflexivity _)) as (w1 & -> & Hw1). cbn beta iota.
  destruct ((alpm_get_localdb (sv_world s) h).1 =? 0) eqn:E1; [unfold victims; rewrite E0; cbv zeta; rewrite E1; by apply notes_nothing|].
  destruct (reads_at la_same _ w1 (sv_world s) (get_pkgcache_reads (alpm_get_localdb (sv_world s) h).1) Hw1) as (w2 & -> & Hw2).
  set (cache := (alpm_db_get_pkgcache (sv_world s) _).1). cbn beta iota.
  destruct (reads_at la_same _ w2 (sv_world s) (get_add_reads h) Hw2) as (w3 & -> & Hw3). cbn beta iota.
  destruct (note_installed_spec cache (alpm_trans_get_add (sv_world s) h).1 (Dying [] 0) w3 (sv_world s) dying_nil Hw3)
    as (d & w4 & -> & Hok & Hw4 & E4); [cbn [dy_ptr length]; lia|]. cbn [mbind outcome_bind].
  destruct (reads_at la_same _ w4 (sv_world s) (get_remove_reads h) Hw4) as (w5 & -> & Hw5). cbn beta iota.
  pose proof (nonnull_len (installed (sv_world s) cache <$> (alpm_trans_get_add (sv_world s) h).1)) as N1. rewrite length_fmap in N1.
  destruct (note_installed_spec cache (alpm_trans_get_remove (sv_world s) h).1 d w5 (sv_world s) Hok Hw5)
    as (d' & w6 & -> & Hok' & Hw6 & E6); [rewrite E4; cbn [dy_ptr app]; lia|]. cbn [mbind outcome_bind].
  exists w6, rq1, d'. split_and!; [done..|]. unfold victims. rewrite E0. cbv zeta. rewrite E1, E6, E4. cbn [dy_ptr app]. unfold nonnull.
  by rewrite <- filter_app, <- fmap_app.
Qed.

Lemma unregister_notes rq s rq1 h :
  handle_arg s rq = Ret (rq1, h) -> lists_fit (sv_world s) h ->
  notes s rq (victims UnregisterAllSyncdbs (sv_world s) h) (arpc_hook_alpm_unregister_all_syncdbs_pre rq s).
Proof.
  intros Eh [_ Hl]. destruct (arg_handle_doc _ _ _ _ _ _ Eh) as [Hd Hp].
  unfold arpc_hook_alpm_unregister_all_syncdbs_pre. rewrite Eh, dying_new_total. cbn [mbind outcome_bind].
  destruct (h =? 0) eqn:E0; cbn [negb note_all mbind outcome_bind]; [unfold victims; rewrite E0; by apply notes_nothing|].
  destruct (reads_at la_same _ (sv_world s) (sv_world s) (get_syncdbs_reads h) (reflexivity _)) as (w1 & -> & Hw1). cbn beta iota.
  destruct (note_all_spec (alpm_get_syncdbs (sv_world s) h).1 (Dying [] 0) dying_nil) as (d' & -> & Hok' & E'); [cbn [dy_ptr length]; lia|].
  cbn [mbind outcome_bind]. exists w1, rq1, d'. unfold victims. by rewrite E0.
Qed.

(** ** What the hooks let go of *)

Lemma get_cut t0 a0 roots t a x tag :
  repr t0 a0 -> repr t a -> cut t0 a0 roots (a_map a) ->
  (taken a0 roots x = false -> arpc_handle_get t x tag = arpc_handle_get t0 x tag) /\
  (flat t0 -> taken a0 roots x = true -> arpc_handle_get t x tag = Ret 0).
Proof.
  intros Hr0 Hr [Hs Hk Hg]. rewrite (get_refines _ _ Hr), (get_refines _ _ Hr0). unfold a_get. split.
  - intros Hx. destruct (a_map a0 !! x) as [e|] eqn:E; [by rewrite (Hk x e E Hx)|].
    by rewrite (lookup_weaken_None _ _ _ E Hs).
  - intros Hf Hx. by rewrite (Hg x Hf Hx).
Qed.

Lemma taken_spec t a roots x :
  repr t a -> taken a (reverse roots ++ []) x = true <->
  exists r, r ∈ roots /\ is_under t x r.1 = true /\ (r.2 = true -> x <> r.1).
Proof.
  intros Hr. unfold taken. rewrite existsb_exists, app_nil_r. split.
  - intros (r & Hin & Hs). exists r. rewrite <- list_elem_of_In, elem_of_reverse in Hin. split; [done|].
    unfold sel in Hs. rewrite (is_under_repr t a x r.1 Hr). apply andb_true_iff in Hs as [Hn ->]. split; [done|].
    intros E. rewrite E in Hn. by destruct (Z.eqb_spec x r.1).
  - intros (r & Hin & Hu & Hn). exists r. rewrite <- list_elem_of_In, elem_of_reverse. split; [done|].
    unfold sel. rewrite <- (is_under_repr t a x r.1 Hr), Hu. destruct r as [o [|]]; [|done]. cbn [fst snd andb].
    destruct (Z.eqb_spec x o); [by destruct (Hn eq_refl)|done].
Qed.

Lemma root_of_spec t a tag l r :
  repr t a -> r ∈ l ≫= root_of a tag <->
  r.2 = false /\ r.1 <> 0 /\ exists p, p ∈ l /\ p <> 0 /\ arpc_handle_get t r.1 tag = Ret p.
Proof.
  intros Hr. rewrite list_elem_of_bind. unfold root_of. split.
  - intros (p & Hin & Hp). destruct (Z.eqb_spec p 0) as [|Hp0]; [by apply not_elem_of_nil in Hin|].
    destruct (a_obj (a_map a) p tag) as [o|] eqn:Eo; [|by apply not_elem_of_nil in Hin].
    apply list_elem_of_singleton in Hin as ->. destruct (a_obj_Some _ _ _ _ Eo) as (e & He & Ep & Et).
    split_and!; [done|cbn; intros ->; by rewrite (repr_no_zero _ _ Hr) in He|]. exists p. split_and!; [done|done|].
    rewrite (get_refines _ _ Hr). unfold a_get. cbn [fst]. by rewrite He, Et, Z.eqb_refl, Ep.
  - destruct r as [o b]. cbn [fst snd]. intros (-> & Ho & p & Hp & Hp0 & Eg). exists p. split; [|done].
    destruct (Z.eqb_spec p 0); [done|]. rewrite (get_refines _ _ Hr) in Eg. injection Eg as Eg. unfold a_get in Eg.
    destruct (a_map a !! o) as [e|] eqn:He; [|congruence]. destruct (Z.eqb_spec (e_tag e) tag) as [Et|]; [|congruence].
    rewrite (a_obj_of (a_map a) p tag o e (repr_objects_once _ _ Hr) He Eg Et). by left.
Qed.

Lemma under_roots_spec kids r :
  r ∈ under_roots kids <-> r.2 = true /\ r.1 <> 0 /\ r.1 ∈ (fun j => u64 (t_i64 (Some j) 0)) <$> kids.
Proof.
  unfold under_roots. rewrite list_elem_of_bind, list_elem_of_fmap. split.
  - intros (j & Hin & Hj). cbv zeta in Hin. destruct (Z.eqb_spec (u64 (t_i64 (Some j) 0)) 0); [by apply not_elem_of_nil in Hin|].
    apply list_elem_of_singleton in Hin as ->. split_and!; [done|done|]. by exists j.
  - destruct r as [o b]. cbn [fst snd]. intros (-> & Ho & j & -> & Hj). exists j. split; [|done]. cbv zeta.
    destruct (Z.eqb_spec (u64 (t_i64 (Some j) 0)) 0); [done|]. by left.
Qed.

(** What is promised of the ids that answer in [t'] where [t] was. *)
Definition let_go (k : hooked) (noted : list Z) (pj : option json) (t t' : htab) : Prop :=
  (k <> DbUpdate -> forall p, p ∈ noted -> p <> 0 -> forall id, arpc_handle_get t' id (hook_tag k) <> Ret p) /\
  (forall x, ~ lets_go k noted pj t x -> forall tag, arpc_handle_get t' x tag = arpc_handle_get t x tag) /\
  (flat t -> forall x, lets_go k noted pj t x -> forall tag, arpc_handle_get t' x tag = Ret 0).

Lemma cut_lets_go k noted pj t0 a0 roots t a :
  repr t0 a0 -> repr t a -> cut t0 a0 (reverse roots ++ []) (a_map a) ->
  (forall x, lets_go k noted pj t0 x <-> exists r, r ∈ roots /\ is_under t0 x r.1 = true /\ (r.2 = true -> x <> r.1)) ->
  (k <> DbUpdate -> forall p, p ∈ noted -> p <> 0 -> unnamed (a_map a) p (hook_tag k)) ->
  let_go k noted pj t0 t.
Proof.
  intros Hr0 Hr Hc Hroots Hun. split_and!.
  - intros Hk p Hp Hp0 id. rewrite (get_refines _ _ Hr). unfold a_get. intros [= E].
    destruct (a_map a !! id) as [e|] eqn:He; [|congruence].
    destruct (Z.eqb_spec (e_tag e) (hook_tag k)); [|congruence]. by apply (Hun Hk p Hp Hp0 id e He).
  - intros x Hx tag. apply (get_cut t0 a0 _ t a x tag Hr0 Hr Hc). destruct (taken _ _ x) eqn:E; [|done].
    by apply (taken_spec t0 a0 roots x Hr0), Hroots in E.
  - intros Hf x Hx tag. apply (get_cut t0 a0 _ t a x tag Hr0 Hr Hc); [done|]. by apply (taken_spec t0 a0 roots x Hr0), Hroots.
Qed.

Lemma elem_of_nonnull p l : p ∈ nonnull l <-> p <> 0 /\ p ∈ l.
Proof. unfold nonnull. by rewrite list_elem_of_filter. Qed.

(** [drop_all] of what was noted. *)
Lemma drop_all_lets_go k noted pj dy s :
  k <> DbUpdate -> reachable (sv_tab s, sv_regs s) -> dy_ptr dy = nonnull noted ->
  exists t regs, drop_all (Some dy) (hook_tag k) s = Ret (set_tables s t regs) /\ let_go k noted pj (sv_tab s) t.
Proof.
  intros Hk Hre Ed. destruct (reachable_repr _ _ Hre) as (a & Hr & _). unfold drop_all. rewrite Ed.
  destruct (drop_ptrs_spec (sv_tab s) a Hr (hook_tag k) (nonnull noted) [] (sv_tab s) a (sv_regs s) Hr (cut_start _ _))
    as (t & regs & a' & -> & Hr' & Hc & _ & Hun). cbn [mbind outcome_bind]. exists t, regs. split; [done|].
  eapply cut_lets_go; [exact Hr|exact Hr'|exact Hc| |].
  - intros x. unfold lets_go. setoid_rewrite (root_of_spec _ _ (hook_tag k) (nonnull noted) _ Hr).
    setoid_rewrite elem_of_nonnull. split.
    + intros (o & Ho & Hu & Hm). exists (o, false). cbn [fst snd]. split; [|done]. split_and!; [done|done|].
      destruct k; [|destruct Hm as (p & ? & ? & ?); exists p; by split_and!|done|]; destruct Hm as (p & ? & ? & ?); exists p; by split_and!.
    + intros ([o b] & (_ & Ho & p & Hp & Hp0 & Eg) & Hu & _). cbn [fst snd] in *. exists o. split_and!; [done|done|].
      destruct k; try done; exists p; naive_solver.
  - intros _ p Hp Hp0. apply Hun; [|done]. by apply elem_of_nonnull.
Qed.

Lemma update_lets_go rq pj s rc d :
  reachable (sv_tab s, sv_regs s) -> reads (rq_doc rq) (rq_params rq) pj -> rc <> 1 ->
  exists t rq', arpc_hook_alpm_db_update_post rq d rc s = Ret (set_tables s t (sv_regs s), rq') /\
    let_go DbUpdate [] pj (sv_tab s) t.
Proof.
  intros Hre Hp Hrc. destruct (reachable_repr _ _ Hre) as (a & Hr & _). unfold arpc_hook_alpm_db_update_post.
  destruct (Z.eqb_spec rc 1); [done|]. unfold arpc_arg_node.
  destruct (arg_node_spec rq pj Hp 1) as (n0 & -> & Hn & _). cbn [mbind outcome_bind].
  assert (Hdoc : rq_doc (mark rq (n0 <? 0)) = rq_doc rq) by (by destruct (n0 <? 0)). unfold arpc_node_first. rewrite Hdoc.
  pose proof (aj_first_reads _ _ _ Hn) as Hf.
  destruct (drop_under_loop_spec (sv_tab s) a Hr (mark rq (n0 <? 0)) (t_kids (t_elem pj 1))
    (S (length (d_nodes (rq_doc rq)))) (aj_first (rq_doc rq) n0) [] (sv_tab s) a) as (t & a' & -> & Hr' & Hc);
    [by rewrite Hdoc| |done|apply cut_start|].
  { pose proof (reads_from_length _ _ _ Hf). lia. }
  cbn [mbind outcome_bind]. eexists t, _. split; [reflexivity|].
  eapply cut_lets_go; [exact Hr|exact Hr'|exact Hc| |done].
  intros x. unfold lets_go. setoid_rewrite under_roots_spec. split.
  - intros (o & Ho & Hu & Hx & Hm). exists (o, true). by split_and!.
  - intros ([o b] & (-> & Ho & Hm) & Hu & Hx). exists o. cbn [fst snd] in *. split_and!; [done|done|by apply Hx|done].
Qed.
End Hooked.

Section Theorems.
Context {A : Allocator} {T : Tags} {W H : Type} {R : Archive W} {L : Libalpm W} {LO : LibalpmOk W}.
Implicit Types s : server W H.

(** *** A list that cannot be kept *)

(** The heap refuses the list itself, or its first growth. *)
Definition notes_refused : Prop := dying_new = None \/ grants (u64 (16 * sizeof_ptr)) = false.

Definition stuck (d : option dying) : Prop := forall p, note d p = Ret d.

Lemma dying_new_stuck : notes_refused -> stuck dying_new.
Proof.
  unfold notes_refused, dying_new. intros Hr p. destruct (calloc_ok 1 sizeof_dying); [|done].
  destruct Hr as [|Hg]; [done|]. cbn [note dy_ptr dy_cap length]. destruct (p =? 0); [done|].
  change (Z.of_nat 0 =? 0) with true. cbn [negb Z.eqb]. cbn zeta. by rewrite Hg.
Qed.

Lemma note_all_stuck d l : stuck d -> note_all d l = Ret d.
Proof. intros Hd. induction l as [|p l IH]; [done|]. cbn [note_all]. by rewrite Hd. Qed.

Lemma note_from_file_stuck d l : stuck d -> forall w, exists w', note_from_file d l w = Ret (d, w').
Proof.
  intros Hd. induction l as [|p l IH]; intros w; [by exists w|]. cbn [note_from_file].
  destruct (alpm_pkg_get_origin w p) as [o w1]. rewrite Hd. destruct (o =? _); cbn [mbind outcome_bind]; apply IH.
Qed.

Lemma note_installed_stuck d cache l : stuck d -> forall w, exists w', note_installed d cache l w = Ret (d, w').
Proof.
  intros Hd. induction l as [|p l IH]; intros w; [by exists w|]. cbn [note_installed].
  destruct (alpm_pkg_get_name w p) as [name w1]. destruct (alpm_pkg_find w1 cache name) as [q w2].
  rewrite Hd. cbn [mbind outcome_bind]. apply IH.
Qed.

(** Nothing is noted before the call, *)
Lemma hook_pre_stuck k rq s s0 rq' d :
  k <> DbUpdate -> notes_refused -> hook_pre k rq s = Ret (s0, rq', d) -> d = dying_new.
Proof.
  intros Hk Hr%dying_new_stuck. destruct k; [| |done|]; cbn [hook_pre].
  - unfold arpc_hook_alpm_trans_release_pre. destruct (handle_arg s rq) as [[rq1 h]| | |]; [|done..]. cbn [mbind outcome_bind]. cbn zeta.
    destruct (h =? 0); [by intros [= _ _ <-]|]. destruct (alpm_trans_get_add _ _) as [add w].
    destruct (note_from_file_stuck _ add Hr w) as (w1 & ->). cbn [mbind outcome_bind]. destruct (alpm_trans_get_remove _ _) as [remove w2].
    rewrite note_all_stuck by done. cbn [mbind outcome_bind]. by intros [= _ _ <-].
  - unfold arpc_hook_alpm_trans_commit_pre. destruct (handle_arg s rq) as [[rq1 h]| | |]; [|done..]. cbn [mbind outcome_bind]. cbn zeta.
    destruct (if negb (h =? 0) then _ else _) as [local w]. destruct (local =? 0); [by intros [= _ _ <-]|].
    destruct (alpm_db_get_pkgcache _ _) as [cache w1]. destruct (alpm_trans_get_add _ _) as [add w2].
    destruct (note_installed_stuck _ cache add Hr w2) as (w3 & ->). cbn [mbind outcome_bind]. destruct (alpm_trans_get_remove _ _) as [remove w4].
    destruct (note_installed_stuck _ cache remove Hr w4) as (w5 & ->). cbn [mbind outcome_bind]. by intros [= _ _ <-].
  - unfold arpc_hook_alpm_unregister_all_syncdbs_pre. destruct (handle_arg s rq) as [[rq1 h]| | |]; [|done..]. cbn [mbind outcome_bind]. cbn zeta.
    destruct (if negb (h =? 0) then _ else _) as [dbs w]. rewrite note_all_stuck by done. cbn [mbind outcome_bind]. by intros [= _ _ <-].
Qed.

Lemma drop_all_nothing tag s : drop_all dying_new tag s = Ret s.
Proof. unfold drop_all, dying_new. destruct (calloc_ok _ _); [|done]. cbn. by destruct s. Qed.

(** and nothing is dropped after it. *)
Lemma hook_post_stuck k rq rc s s' rq' :
  k <> DbUpdate -> hook_post k rq dying_new rc s = Ret (s', rq') -> s' = s.
Proof.
  intros Hk. destruct k; [| |done|]; cbn [hook_post].
  - unfold arpc_hook_alpm_trans_release_post. rewrite drop_all_nothing. by destruct (rc =? 0); intros [= <- _].
  - unfold arpc_hook_alpm_trans_commit_post. destruct (handle_arg s rq) as [[rq1 h]| | |]; [|done..]. cbn [mbind outcome_bind].
    rewrite drop_all_nothing. by destruct (_ || _ || _); intros [= <- _].
  - unfold arpc_hook_alpm_unregister_all_syncdbs_post. rewrite drop_all_nothing. by destruct (rc =? 0); intros [= <- _].
Qed.

(** C11. As long as no memory is refused, a stale id misses.  The hook before
    one of the four calls only reads libalpm; the one after it, on whatever
    table the call has left, changes nothing if the call cannot have freed
    anything; otherwise no id answers with a pointer that libalpm may have
    freed, as it stood before the call, and every id that is not of such an
    object or below one answers as before.  The ids below one are let go of
    with it in a table where nothing is more than seven owners deep; and a
    database whose file may have been fetched keeps its id and loses what is
    below it.  When the list of what is about to die cannot be kept, none of
    this holds of the three calls that keep one: the hook after the call
    changes nothing, and every id answers as before, those of freed pointers
    with them. *)
Theorem hooks_correct k rq :
  (forall pj s rq1 h s1 rc h1 rq2,
   TotalAllocator A -> reads (rq_doc rq) (rq_params rq) pj ->
   handle_arg s rq = Ret (rq1, h) -> lists_fit (sv_world s) h ->
   exists w rq' d, hook_pre k rq s = Ret (set_world s w, rq', d) /\ la_same w (sv_world s) /\
     (reachable (sv_tab s1, sv_regs s1) -> handle_arg s1 rq' = Ret (rq2, h1) ->
      exists t regs rq3, hook_post k rq' d rc s1 = Ret (set_tables s1 t regs, rq3) /\
        if may_have_freed k rc (sv_world s1) h1
        then let_go k (victims k (sv_world s) h) pj (sv_tab s1) t
        else t = sv_tab s1 /\ regs = sv_regs s1)) /\
  (k <> DbUpdate -> notes_refused -> forall s s0 rq' d rc s1 s2 rq3,
     hook_pre k rq s = Ret (s0, rq', d) -> hook_post k rq' d rc s1 = Ret (s2, rq3) -> s2 = s1).
Proof.
  split; [|by intros Hk Hr s s0 rq' d rc s1 s2 rq3 ->%(hook_pre_stuck _ _ _ _ _ _ Hk Hr); apply hook_post_stuck].
  intros pj s rq1 h s1 rc h1 rq2 HA Hp Eh Hl. destruct (decide (k = DbUpdate)) as [->|Hk].
  - exists (sv_world s), rq, None. cbn [hook_pre]. unfold arpc_hook_alpm_db_update_pre. rewrite set_world_id.
    split_and!; [done|done|]. intros Hre _. cbn [hook_post may_have_freed]. destruct (Z.eqb_spec rc 1) as [->|Hrc]; cbn [negb].
    { exists (sv_tab s1), (sv_regs s1), rq. split; [by destruct s1|done]. }
    destruct (update_lets_go rq pj s1 rc None Hre Hp Hrc) as (t & rq3 & E & Hlet). eexists _, _, _. split; [exact E|].
    unfold victims. by destruct (h =? 0).
  - assert (Hn : notes s rq (victims k (sv_world s) h) (hook_pre k rq s)).
    { destruct k; [by eapply release_notes|by eapply commit_notes|done|by eapply unregister_notes]. }
    destruct Hn as (w & rq' & dy & -> & Hw & _ & _ & Ed). exists w, rq', (Some dy). split_and!; [done|done|]. intros Hre Eh1.
    destruct (drop_all_lets_go k _ pj dy s1 Hk Hre Ed) as (t & regs & E & Hlet).
    assert (Hid : set_tables s1 (sv_tab s1) (sv_regs s1) = s1) by (by destruct s1).
    assert (Hpost : exists rq3, hook_post k rq' (Some dy) rc s1 =
      if may_have_freed k rc (sv_world s1) h1 then Ret (set_tables s1 t regs, rq3) else Ret (s1, rq3)).
    { destruct k; [| |done|]; cbn [hook_post may_have_freed hook_tag] in *.
      - unfold arpc_hook_alpm_trans_release_post. rewrite E. exists rq'. by destruct (rc =? 0).
      - unfold arpc_hook_alpm_trans_commit_post. rewrite Eh1. cbn [mbind outcome_bind]. rewrite E. exists rq2.
        by destruct (_ || _ || _).
      - unfold arpc_hook_alpm_unregister_all_syncdbs_post. rewrite E. exists rq'. by destruct (rc =? 0). }
    destruct Hpost as (rq3 & ->). destruct (may_have_freed _ _ _ _).
    + by exists t, regs, rq3.
    + exists (sv_tab s1), (sv_regs s1), rq3. by rewrite Hid.
Qed.
End Theorems.

(** ** The property at work *)

(** What makes a table flat, as a check. *)
Fixpoint height_ok (d : nat) (t : htab) (id : Z) : bool :=
  match find t id with
  | Ret None => true
  | Ret (Some (_, s)) => match d with O => false | S d => height_ok d t (s_owner s) end
  | _ => false
  end.

Lemma height_chain t d : forall id n o, height_ok d t id = true -> HandleTheorems.chain t n id o -> (n <= d)%nat.
Proof.
  induction d as [|d IH]; intros id n o Hh Hc; inversion Hc as [|n' ? i s ? ? Hf Hc']; subst; try lia; cbn [height_ok] in Hh;
    rewrite Hf in Hh; [done|]. specialize (IH _ _ _ Hh Hc'). lia.
Qed.

Lemma flat_check t : Forall (fun s => height_ok 7 t (s_id s) = true) (g_tab t) -> flat t.
Proof.
  intros Hall n id o Hc. destruct Hc as [id|n id i s o Hid Hf Hc]; [lia|].
  assert (Hs : s ∈ g_tab t /\ s_id s = id).
  { unfold find in Hf. destruct (_ || _); [done|]. destruct (slot_for _ _ _) as [k| | |]; try done. cbn [mbind outcome_bind] in Hf.
    destruct (g_tab t !! Z.to_nat k) as [s'|] eqn:E; [|done]. destruct (Z.eqb_spec (s_id s') id); [|done].
    injection Hf as [= _ <-]. split; [by eapply list_elem_of_lookup_2|done]. }
  destruct Hs as [Hin <-]. rewrite Forall_forall in Hall. specialize (Hall s Hin).
  pose proof (height_chain t 7 _ _ _ Hall (chain_up t n _ i s o Hid Hf Hc)). lia.
Qed.

Section Toy.
#[local] Existing Instance HandleTheorems.sample_tags.
#[local] Existing Instance DispatchTheorems.unit_archive.

(** A transaction that adds two packages, the second from a file. *)
#[local] Instance toy_alpm : Libalpm unit := {
  ARPC_H_DB := 2;
  ALPM_PKG_FROM_FILE := 1;
  ALPM_ERR_WRONG_ARGS := 4;
  ALPM_ERR_TRANS_NULL := 25;
  ALPM_ERR_TRANS_NOT_PREPARED := 27;
  ALPM_ERR_TRANS_NOT_LOCKED := 31;
  ALPM_ERR_TRANS_TYPE := 29;
  ALPM_ERR_RETRIEVE := 50;
  ALPM_ERR_PKG_INVALID := 35;
  ALPM_ERR_PKG_INVALID_CHECKSUM := 36;
  ALPM_ERR_PKG_INVALID_SIG := 37;
  ALPM_ERR_PKG_OPEN := 39;
  ALPM_ERR_FILE_CONFLICTS := 49;
  ALPM_ERR_DISK_SPACE := 5;
  alpm_trans_get_add w _ := ([12288; 16384], w);
  alpm_trans_get_remove w _ := ([], w);
  alpm_pkg_get_origin w p := (if p =? 16384 then 1 else 2, w);
  alpm_pkg_get_name w _ := (Some (lit "vim"), w);
  alpm_get_localdb w _ := (8192, w);
  alpm_db_get_pkgcache w _ := ([12288], w);
  alpm_pkg_find w _ _ := (12288, w);
  alpm_get_syncdbs w _ := ([], w);
  alpm_errno _ _ := 31
}.

#[local] Instance toy_alpm_ok : LibalpmOk unit.
Proof. refine {| la_same := eq |}; intros; (split; [by intros ?? ->|done]). Defined.

Definition handle_text : list Z := qlit "[1099511627777]".
Definition handle_doc : aj_doc := match aj_parse (A:=ample) handle_text with Ret d => d | _ => doc0 end.
Definition handle_req : arpc_req := ArpcReq handle_doc 0 false.

Lemma handle_req_reads : reads handle_doc 0 (Some (JArr [JNum 1099511627777])).
Proof.
  assert (Hl : len handle_text <= ARPC_MAX_FRAME) by (by vm_compute).
  pose proof (aj_parse_sim (A:=ample) handle_text Hl) as H.
  assert (E : ref_parse handle_text = Ret (JArr [JNum 1099511627777])) by (by vm_compute).
  rewrite E in H. unfold handle_doc. destruct (aj_parse handle_text); by destruct H.
Defined.

Definition with_packages : server unit unit :=
  Server sample_state.1 sample_state.2 1 (Some true) false false gpg0 tt tt.

Lemma sample_flat : flat sample_state.1.
Proof.
  apply flat_check, (bool_decide_unpack (Forall (fun s => height_ok 7 sample_state.1 (s_id s) = true) _)).
  vm_compute. exact I.
Defined.

(** The transaction is released: the id of the package from a file misses;
    and where the list is refused it answers with the pointer that was freed. *)
Lemma hooks_correct_witness :
  (exists s0 d s', hook_pre (A:=ample) TransRelease handle_req with_packages = Ret (s0, handle_req, d) /\
     hook_post (A:=ample) TransRelease handle_req d 0 with_packages = Ret s' /\
     (forall id, arpc_handle_get (sv_tab s'.1) id 4 <> Ret 16384) /\
     arpc_handle_get (sv_tab s'.1) 1099511627780 4 = Ret 0) /\
  (exists s0 rq d s', hook_pre (A:=starved) TransRelease handle_req with_packages = Ret (s0, rq, d) /\
     hook_post (A:=starved) TransRelease rq d 0 with_packages = Ret s' /\
     arpc_handle_get (sv_tab s'.1) 1099511627780 4 = Ret 16384).
Proof.
  split.
  - destruct (proj1 (hooks_correct (A:=ample) TransRelease handle_req) _ with_packages handle_req 4096 with_packages 0 4096 handle_req
      ample_total handle_req_reads) as (w & rq' & d & Epre & _ & Hpost); [by vm_compute|by vm_compute|].
    assert (rq' = handle_req) as ->.
    { assert (E2 : match hook_pre (A:=ample) TransRelease handle_req with_packages with Ret (_, rq, _) => rq = handle_req | _ => False end)
        by (vm_compute; reflexivity). by rewrite Epre in E2. }
    destruct Hpost as (t & regs & rq3 & Epost & Hdrop & _ & Hflat); [apply sample_reachable|by vm_compute|].
    exists (set_world with_packages w), d, (set_tables with_packages t regs, rq3).
    split_and!; [exact Epre|exact Epost| |].
    + apply (Hdrop ltac:(done) 16384); [|done]. vm_compute. left.
    + apply (Hflat sample_flat). exists 1099511627780. split_and!; [done|by vm_compute|].
      exists 16384. split_and!; [vm_compute; left|done|by vm_compute].
  - destruct (hook_pre (A:=starved) TransRelease handle_req with_packages) as [[[s0 rq'] d]| | |] eqn:Epre.
    2-4: vm_compute in Epre; discriminate Epre.
    destruct (hook_post (A:=starved) TransRelease rq' d 0 with_packages) as [[s2 rq3]| | |] eqn:Epost.
    2-4: vm_compute in Epre; injection Epre as <- <- <-; vm_compute in Epost; discriminate Epost.
    exists s0, rq', d, (s2, rq3). split_and!; [reflexivity|exact Epost|]. cbn [fst].
    rewrite (proj2 (hooks_correct (A:=starved) TransRelease handle_req) ltac:(discriminate) (or_introl eq_refl) _ _ _ _ _ _ _ _ Epre Epost).
    by vm_compute.
Defined.
End Toy.
