(* ===== verification/Process.v ===== *)
(** * The server's process: [main] of src/server/main.c

    The options, the endpoint, the pipe's security descriptor, the loop that
    accepts connections, [--stop] and [--stdio].  Windows is a parameter
    ([WinServer]), over the same world as libalpm.  What goes to stderr, and
    the counters that are only logged, are left out; the code [main] returns
    and what it prints are not. *)

From S2P Require Import Prelude Json JsonWriter JsonReader JsonRef JsonArena JsonAccess Base64.
From S2P Require Import Wire CbRegistry HandleTable HandleCore HandleSpec HandleTheorems Paths Gpgdir.
From S2P Require Import Lookup Server Mtree Dispatch DispatchTheorems Connection ConnectionTheorems Ends.

(** The path of this module and the token of this process, if they can be
    told; the token of the process at the other end of a pipe, from the
    server's end and from the client's; the calls that change things, with the
    error of the last one.  A process handle is a number, [None] for NULL; a
    security descriptor is the text it was made of. *)
Class WinServer (W H : Type) := {
  srv_module : W -> option (list Z);
  srv_self : W -> option token;
  srv_peer : W -> H -> option (option token);       (* arpc_peer_is(h, 1, ...) *)
  srv_peer_client : W -> H -> option (option token);  (* arpc_peer_is(h, 0, ...) *)
  GetLastError : W -> Z;
  ERROR_FILE_NOT_FOUND : Z;
  ERROR_PIPE_BUSY : Z;
  ERROR_IO_PENDING : Z;
  ERROR_PIPE_CONNECTED : Z;
  WAIT_OBJECT_0 : Z;
  WAIT_TIMEOUT : Z;
  ConvertStringSecurityDescriptor : W -> list Z -> bool * W;
  CreateEventA : W -> bool * W;
  CreateNamedPipeA : W -> list Z -> list Z -> option H * W;
  ConnectNamedPipe : W -> H -> bool * W;
  WaitForEvent : W -> Z -> Z * W;
  GetOverlappedResult : W -> H -> bool * W;
  CancelIo : W -> H -> W;
  FlushFileBuffers : W -> H -> W;
  DisconnectNamedPipe : W -> H -> W;
  srv_CreateFileA : W -> list Z -> option H * W;
  srv_CloseHandle : W -> H -> W;
  srv_Sleep : W -> Z -> W;
  GetNamedPipeServerProcessId : W -> H -> option Z * W;
  OpenProcess : W -> Z -> option Z * W;
  WaitForProcess : W -> Z -> Z -> Z * W;
  CloseProcess : W -> Z -> W
}.

Definition MAX_PATH : Z := 260.

(** ** Options *)

(** [atoi], on what [isspace] and the digits are in the C locale; a value that
    is no [int] is undefined. *)
Fixpoint skip_space (s : list Z) : list Z :=
  match s with
  | c :: s' => if (c =? 32) || ((9 <=? c) && (c <=? 13)) then skip_space s' else s
  | [] => []
  end.

Fixpoint digits_value (s : list Z) (v : Z) : Z :=
  match s with
  | c :: s => if (48 <=? c) && (c <=? 57) then digits_value s (10 * v + (c - 48)) else v
  | [] => v
  end.

Definition to_int (v : Z) : outcome Z := if (- i32_max - 1 <=? v) && (v <=? i32_max) then Ret v else Undef.

Definition atoi (s : list Z) : outcome Z :=
  match skip_space (cstr s) with
  | c :: s' => to_int (if c =? 45 then - digits_value s' 0 else if c =? 43 then digits_value s' 0
                       else digits_value (c :: s') 0)
  | [] => Ret 0
  end.

Record options := Options {
  op_root : option (list Z);
  op_idle : Z;
  op_stdio : bool;
  op_stop : bool;
  op_verbose : bool
}.

Definition options0 : options := Options None 30000 false false false.

(** What the loop over [argv] leaves, or leaves it for. *)
Inductive parsed := Run (o : options) | PrintEndpoint | Usage.

Fixpoint parse_args (argv : list (list Z)) (o : options) : outcome parsed :=
  match argv with
  | [] => Ret (Run o)
  | a :: argv =>
      if streq a (lit "--stdio") then parse_args argv (Options (op_root o) (op_idle o) true (op_stop o) (op_verbose o))
      else if streq a (lit "-v") || streq a (lit "--verbose")
      then parse_args argv (Options (op_root o) (op_idle o) (op_stdio o) (op_stop o) true)
      else
        match argv with
        | v :: argv' =>
            if streq a (lit "--root")
            then parse_args argv' (Options (Some v) (op_idle o) (op_stdio o) (op_stop o) (op_verbose o))
            else if streq a (lit "--idle")
            then
              n ← atoi v;
              idle ← to_int (n * 1000);
              parse_args argv' (Options (op_root o) idle (op_stdio o) (op_stop o) (op_verbose o))
            else if streq a (lit "--stop")
            then parse_args argv (Options (op_root o) (op_idle o) (op_stdio o) true (op_verbose o))
            else if streq a (lit "--print-endpoint") then Ret PrintEndpoint
            else Ret Usage
        | [] =>
            if streq a (lit "--stop")
            then parse_args argv (Options (op_root o) (op_idle o) (op_stdio o) true (op_verbose o))
            else if streq a (lit "--print-endpoint") then Ret PrintEndpoint
            else Ret Usage
        end
  end.

Section Process.
Context {A : Allocator} {T : Tags} {W H : Type}
  {HP : Gpgme W} {R : Archive W} {GEN : Generated W H} {HO : HandleOps H} {WS : WinServer W H}.
Implicit Types s : server W H.

(** ** The endpoint *)

(** [derive_root]: the root, [None] when it returned 0. *)
Definition derive_root (w : W) (outsz : Z) : option (list Z) :=
  match srv_module w with
  | None => None
  | Some exe =>
      if (strlen exe =? 0) || (MAX_PATH <=? strlen exe) then None
      else
        let '(exe, ok) := arpc_strip_dirs (cstr exe) 3 in
        if negb ok then None
        else if outsz <? strlen exe + 1 then None
        else Some (cstr exe)
  end.

Definition sddl (me : arpc_identity) : list Z :=
  snprintf_s 512 (lit "D:(A;;GA;;;" ++ cstr (id_sid me) ++ lit ")S:(ML;;NW;;;S-1-16-" ++
                  render_num (id_integrity me) ++ lit ")").

(** The descriptor, [None] when it returned 0. *)
Definition owner_only_sa (me : arpc_identity) (w : W) : option (list Z) * W :=
  let '(ok, w) := ConvertStringSecurityDescriptor w (sddl me) in
  (if ok : bool then Some (sddl me) else None, w).

(** ** [--stop] *)

Definition stop_request : list Z := qlit "{`id`:1,`method`:`arpc.shutdown`,`params`:[]}".

(** A round with a server that was reached: whether to go on. *)
Definition stop_one (timeout_ms waited : Z) (p : H) s : outcome (server W H * bool) :=
  let '(pid, w) := GetNamedPipeServerProcessId (sv_world s) p in
  let '(proc, w) := match pid with Some pid => OpenProcess w pid | None => (None, w) end in
  '(s, sent) ← send_framed stop_request (set_pipe (set_world s w) p);
  '(s, _) ← (if sent : bool then recv_framed s else Ret (s, None));
  let w := srv_CloseHandle (sv_world s) (sv_pipe s) in
  if negb sent then
    Ret (set_world s (match proc with Some h => CloseProcess w h | None => w end), false)
  else
    match proc with
    | Some h =>
        let '(r, w) := WaitForProcess w h (u32 (timeout_ms - waited)) in
        Ret (set_world s (CloseProcess w h), r =? WAIT_OBJECT_0)
    | None => Ret (set_world s (srv_Sleep w 100), true)
    end.

Fixpoint stop_loop (fuel : nat) (name : list Z) (timeout_ms waited : Z) (me : arpc_identity) s
  : outcome (server W H * bool) :=
  match fuel with
  | O => NoFuel
  | S fuel =>
      if negb (waited <? timeout_ms) then Ret (s, false)
      else
        let '(p, w) := srv_CreateFileA (sv_world s) name in
        let s := set_world s w in
        match p with
        | None =>
            let e := GetLastError w in
            if e =? ERROR_FILE_NOT_FOUND then Ret (s, true)
            else if negb (e =? ERROR_PIPE_BUSY) then Ret (s, false)
            else stop_loop fuel name timeout_ms (waited + 25) me (set_world s (srv_Sleep w 25))
        | Some p =>
            if negb (arpc_peer_is (srv_peer_client w p) me)
            then Ret (set_world s (srv_CloseHandle w p), false)
            else
              '(s, go) ← stop_one timeout_ms waited p s;
              if go : bool then stop_loop fuel name timeout_ms (waited + 25) me s else Ret (s, false)
        end
  end.

Definition stop_running_servers (name : list Z) (timeout_ms : Z) (me : arpc_identity) s : outcome (server W H * bool) :=
  stop_loop (S (Z.to_nat (timeout_ms / 25 + 1))) name timeout_ms 0 me s.

(** ** [--stdio] *)

(** [fgets]: the line, with its end if there was room, and what is left. *)
Fixpoint fgets_loop (n : nat) (inp : list Z) : list Z * list Z :=
  match n, inp with
  | S n, c :: inp => if c =? 10 then ([c], inp) else let '(l, rest) := fgets_loop n inp in (c :: l, rest)
  | _, _ => ([], inp)
  end.
Definition fgets (size : Z) (inp : list Z) : option (list Z * list Z) :=
  match inp with [] => None | _ => Some (fgets_loop (Z.to_nat (size - 1)) inp) end.

(** The loop that cuts the end of the line off; the text is reversed. *)
Fixpoint strip_eol (r : list Z) : list Z :=
  match r with
  | c :: r' => if (c =? 10) || (c =? 13) then strip_eol r' else r
  | [] => []
  end.

Fixpoint selftest_stdio (fuel : nat) (xchg : exchanger W H) (stdin out : list Z) s : outcome (server W H * list Z) :=
  match fuel with
  | O => NoFuel
  | S fuel =>
      match fgets 65536 stdin with
      | None => Ret (s, out)
      | Some (line, stdin) =>
          let line := reverse (strip_eol (reverse (cstr line))) in
          if len line =? 0 then selftest_stdio fuel xchg stdin out s
          else
            '(s, rsp) ← arpc_handle_frame xchg line s;
            selftest_stdio fuel xchg stdin
              (out ++ (match rsp with Some r => cstr r | None => qlit "{`error`:`internal`}" end) ++ [10]) s
      end
  end.

(** ** Accepting connections *)

Definition set_table s (t : htab) : server W H :=
  Server t (sv_regs s) (sv_seq s) (sv_conn s) (sv_win32 s) (sv_shutdown s) (sv_gpg s) (sv_world s) (sv_pipe s).

(** How a round of the loop ends: the next one, [break], or [return]. *)
Inductive round := Again | Break | Return (code : Z).

Definition accept_round (serve : H -> server W H -> outcome (server W H)) (name sd : list Z) (idle_ms : Z)
    (me : arpc_identity) s : outcome (server W H * round) :=
  let '(pipe, w) := CreateNamedPipeA (sv_world s) name sd in
  match pipe with
  | None => Ret (set_world s w, Return 1)
  | Some pipe =>
      let '(connected, w) := ConnectNamedPipe w pipe in
      let err := GetLastError w in
      let '(w, left) :=
        if negb connected && (err =? ERROR_IO_PENDING) then
          let '(r, w) := WaitForEvent w (u32 idle_ms) in
          if r =? WAIT_TIMEOUT then (srv_CloseHandle (CancelIo w pipe) pipe, Some Break)
          else
            let '(ok, w) := GetOverlappedResult w pipe in
            if negb ok then (srv_CloseHandle w pipe, Some Again) else (w, None)
        else if negb connected && negb (err =? ERROR_PIPE_CONNECTED) then (srv_CloseHandle w pipe, Some Again)
        else (w, None) in
      match left with
      | Some r => Ret (set_world s w, r)
      | None =>
          if negb (arpc_peer_is (srv_peer w pipe) me)
          then Ret (set_world s (srv_CloseHandle (DisconnectNamedPipe w pipe) pipe), Again)
          else
            s ← serve pipe (set_world s w);
            let pipe := sv_pipe s in
            let s := set_world s (srv_CloseHandle (DisconnectNamedPipe (FlushFileBuffers (sv_world s) pipe) pipe) pipe) in
            Ret (s, if arpc_shutdown_requested s then Break else Again)
      end
  end.

(** The loop, and what [main] does after it: the code it returns. *)
Fixpoint accept_loop (fuel : nat) (serve : H -> server W H -> outcome (server W H)) (name sd : list Z) (idle_ms : Z)
    (me : arpc_identity) s : outcome (server W H * Z) :=
  match fuel with
  | O => NoFuel
  | S fuel =>
      '(s, r) ← accept_round serve name sd idle_ms me s;
      match r with
      | Again => accept_loop fuel serve name sd idle_ms me s
      | Return code => Ret (s, code)
      | Break => Ret (set_table s (arpc_handle_reset (sv_tab s)), 0)
      end
  end.

(** ** [main] *)

Definition b2code (ok : bool) : Z := if ok then 0 else 1.

(** [main] with the options it was given, past [--stdio]. *)
Definition run_server (fuel : nat) (serve : H -> server W H -> outcome (server W H)) (o : options) s
  : outcome (server W H * Z) :=
  match (match op_root o with Some v => Some (snprintf_s MAX_PATH v) | None => derive_root (sv_world s) MAX_PATH end) with
  | None => Ret (s, 1)
  | Some root =>
      match arpc_process_identity (srv_self (sv_world s)) with
      | None => Ret (s, 1)
      | Some me =>
          match arpc_pipe_name (Some root) (arpc_process_identity (srv_self (sv_world s))) 256 with
          | (Some name, true) =>
              let '(io_ev, w) := CreateEventA (sv_world s) in
              let s := set_world s w in
              if negb io_ev then Ret (s, 1)
              else if op_stop o then '(s, ok) ← stop_running_servers name 5000 me s; Ret (s, b2code ok)
              else
                let '(sd, w) := owner_only_sa me w in
                match sd with
                | None => Ret (set_world s w, 1)
                | Some sd =>
                    let '(ev, w) := CreateEventA w in
                    let s := set_world s w in
                    if negb ev then Ret (s, 1) else accept_loop fuel serve name sd (op_idle o) me s
                end
          | _ => Ret (s, 1)
          end
      end
  end.

(** [main]: the state, what is on stdout, and the code. *)
Definition main (fuel conn_fuel : nat) (argv : list (list Z)) (stdin : list Z) s : outcome (server W H * list Z * Z) :=
  p ← parse_args argv options0;
  match p with
  | Usage => Ret (s, [], 2)
  | PrintEndpoint =>
      match derive_root (sv_world s) MAX_PATH with
      | None => Ret (s, [], 1)
      | Some root =>
          match arpc_pipe_name (Some root) (arpc_process_identity (srv_self (sv_world s))) 256 with
          | (Some name, true) => Ret (s, name ++ [10], 0)
          | _ => Ret (s, [], 1)
          end
      end
  | Run o =>
      if op_stdio o
      then '(s, out) ← selftest_stdio (S (length stdin)) (arpc_conn_exchange conn_fuel) stdin [] s; Ret (s, out, 0)
      else '(s, code) ← run_server fuel (serve_connection conn_fuel) o s; Ret (s, [], code)
  end.
End Process.

(** ** Properties *)

Section Frames.
Context {A : Allocator} {T : Tags} {W H : Type}
  {HP : Gpgme W} {R : Archive W} {GEN : Generated W H} `{HH : Handle H}.
Implicit Types s : server W H.

(** What sending and receiving leave, on any pipe. *)
Lemma send_framed_run text s : exists p ok, send_framed text s = Ret (set_pipe s p, ok) /\ incoming p = incoming (sv_pipe s).
Proof.
  unfold send_framed, arpc_send_frame. destruct (write_exact _ true (sv_pipe s) _) as [r h] eqn:E1.
  apply write_exact_spec in E1 as (Hi1 & k1 & _ & Hr1); [|lia].
  destruct Hr1 as [[-> _]| ->]; [|by exists h, false]. cbn zeta.
  destruct (write_exact _ true h _) as [r2 h2] eqn:E2. apply write_exact_spec in E2 as (Hi2 & k2 & _ & Hr2); [|lia].
  destruct Hr2 as [[-> _]| ->]; [exists h2, true|exists h2, false]; (split; [done|congruence]).
Qed.

Lemma recv_framed_run s : is_bytes (incoming (sv_pipe s)) -> exists p f, recv_framed s = Ret (set_pipe s p, f) /\ outgoing p = outgoing (sv_pipe s).
Proof.
  intros Hb. unfold recv_framed. destruct (arpc_recv_frame true (sv_pipe s)) as [[r n] p] eqn:E.
  pose proof (recv_frame_returns true (sv_pipe s) r n p Hb E) as [Ho [(buf & ->)| ->]]; [by exists p, (Some buf)|by exists p, None].
Qed.

Lemma recv_framed_empty s : incoming (sv_pipe s) = [] ->
  exists p, recv_framed s = Ret (set_pipe s p, None) /\ outgoing p = outgoing (sv_pipe s).
Proof.
  intros Hi. unfold recv_framed, arpc_recv_frame. destruct (read_exact 5 true (sv_pipe s) [] 4) as [r h] eqn:E.
  apply read_exact_spec in E as [Ho Hr]; [|lia|cbn; lia]. destruct Hr as [(bs & _ & Hl & Hin)| ->]; [|by exists h].
  rewrite Hi in Hin. symmetry in Hin. apply app_eq_nil in Hin as [-> _]. done.
Qed.
End Frames.

(** ** [--stdio] ends *)

Lemma fgets_loop_spec n inp l rest :
  fgets_loop n inp = (l, rest) -> (length l <= n)%nat /\ (length l + length rest = length inp)%nat /\
    (n <> 0%nat -> inp <> [] -> l <> []).
Proof.
  revert inp l rest. induction n as [|n IH]; intros inp l rest.
  { cbn. destruct inp; intros [= <- <-]; cbn [length]; split_and!; lia || done. }
  destruct inp as [|c inp]; cbn [fgets_loop]; [by intros [= <- <-]; split_and!; [cbn; lia|done|]|].
  destruct (c =? 10); [intros [= <- <-]; cbn [length]; split_and!; [lia|done|done]|].
  destruct (fgets_loop n inp) as [l1 r1] eqn:E. intros [= <- <-]. destruct (IH inp l1 r1 E) as (Hl & Hs & _).
  cbn [length]. split_and!; [lia|lia|done].
Qed.

Lemma strip_eol_length l : (length (strip_eol l) <= length l)%nat.
Proof. induction l as [|c l IH]; cbn [strip_eol length]; [done|]. destruct (_ || _); cbn [length]; lia. Qed.

Section Stdio.
Context {A : Allocator} {T : Tags} {W H : Type}
  {HP : Gpgme W} {R : Archive W} {GEN : Generated W H} `{HS : Steady H} {SA : SmallArchive W H}.
Implicit Types s : server W H.

(** Every request on stdin is answered, and then the process ends: the rounds
    [main] gives it are enough. *)
Theorem stdio_ends fuel cfuel out : forall stdin s,
  installs_int (W:=W) (H:=H) -> generated_end (W:=W) (H:=H) -> sane s -> (left s < cfuel)%nat -> (length stdin < fuel)%nat ->
  ends (fun '(s', _) => next s s') (selftest_stdio fuel (arpc_conn_exchange cfuel) stdin out s).
Proof.
  revert out. induction fuel as [|fuel IH]; intros out stdin s Hi Hg Hs Hn Hf; [lia|]. cbn [selftest_stdio]. unfold fgets.
  destruct stdin as [|c0 inp]; [by apply next_refl|].
  destruct (fgets_loop (Z.to_nat (65536 - 1)) (c0 :: inp)) as [line rest] eqn:E.
  apply fgets_loop_spec in E as (Hl & Hsum & Hne).
  assert (Hl' : Z.of_nat (length line) <= 65535) by (clear - Hl; apply Nat2Z.inj_le in Hl; rewrite Z2Nat.id in Hl; lia).
  assert (Hne' : Z.to_nat (65536 - 1) <> 0%nat) by (intros Hz%(f_equal Z.of_nat); rewrite Z2Nat.id in Hz; lia).
  assert (Hr : (length rest < fuel)%nat).
  { clear - Hne Hne' Hsum Hf. destruct line; [by destruct (Hne Hne' ltac:(done))|]. cbn [length] in *. lia. }
  cbn zeta. destruct (_ =? 0); [by apply IH|].
  apply (ends_bind (fun '(s', _) => next s s')).
  - apply (handle_frame_ends cfuel); [done|done|by apply exchange_loop_ends|done|done|].
    rewrite length_reverse. pose proof (strip_eol_length (reverse (cstr line))) as Hstrip. rewrite length_reverse in Hstrip.
    pose proof (cstr_length line) as Hc. unfold ARPC_MAX_FRAME. clear - Hl' Hstrip Hc. lia.
  - intros [s1 rsp] [Hs1 Hl1]. eapply ends_weaken; [apply IH; [done|done|done|lia|done]|].
    intros [s2 o2] [Hs2 Hl2]. split; [done|lia].
Qed.
End Stdio.

(** ** Stopping *)

Section Stop.
Context {A : Allocator} {T : Tags} {W H : Type}
  {HP : Gpgme W} {R : Archive W} {GEN : Generated W H} `{HH : Handle H} {WS : WinServer W H}.
Implicit Types s : server W H.

Definition shutdown_reply : list Z := qlit "{`id`:1,`result`:{`@ret`:0}}".

(** Nothing of the process but its world and its pipe. *)
Definition same_but_io s s' : Prop := exists w p, s' = set_pipe (set_world s w) p.

Lemma same_but_io_trans s1 s2 s3 : same_but_io s1 s2 -> same_but_io s2 s3 -> same_but_io s1 s3.
Proof. intros (w1 & p1 & ->) (w2 & p2 & ->). by exists w2, p2. Qed.

Lemma stop_one_run timeout waited p s :
  is_bytes (incoming p) -> exists s' go, stop_one timeout waited p s = Ret (s', go) /\ same_but_io s s'.
Proof.
  intros Hb. unfold stop_one. destruct (GetNamedPipeServerProcessId (sv_world s) p) as [pid w1].
  destruct (match pid with Some pid => OpenProcess w1 pid | None => (None, w1) end) as [proc w2].
  destruct (send_framed_run stop_request (set_pipe (set_world s w2) p)) as (p1 & ok & -> & Hi). cbn [mbind outcome_bind].
  assert (Hr : exists p2 f, (if ok then recv_framed (set_pipe (set_pipe (set_world s w2) p) p1)
                             else Ret (set_pipe (set_pipe (set_world s w2) p) p1, None)) = Ret (set_pipe (set_world s w2) p2, f)).
  { destruct ok; [|by exists p1, None]. destruct (recv_framed_run (set_pipe (set_pipe (set_world s w2) p) p1)) as (p2 & f & -> & _).
    - cbn [sv_pipe set_pipe]. rewrite Hi. exact Hb.
    - by exists p2, f. }
  destruct Hr as (p2 & f & ->). cbn [mbind outcome_bind].
  destruct ok; cbn [negb]; [|eexists _, _; split; [reflexivity|by eexists _, _]]. destruct proc as [h|].
  - destruct (WaitForProcess _ _ _) as [r w3]. eexists _, _. split; [reflexivity|by eexists _, _].
  - eexists _, _. split; [reflexivity|by eexists _, _].
Qed.

Definition opens_bytes : Prop := forall w name p w', srv_CreateFileA (W:=W) w name = (Some p, w') -> is_bytes (incoming p).

(** Nobody listens: what the last look at the endpoint said. *)
Definition nobody_listens (name : list Z) s : Prop :=
  exists w, srv_CreateFileA w name = (None, sv_world s) /\ GetLastError (sv_world s) = ERROR_FILE_NOT_FOUND.

Lemma stop_loop_run name timeout me fuel : forall waited s,
  opens_bytes -> timeout <= waited + 25 * (Z.of_nat fuel - 1) -> (0 < fuel)%nat ->
  exists s' ok, stop_loop fuel name timeout waited me s = Ret (s', ok) /\ same_but_io s s' /\
    (ok = true -> nobody_listens name s').
Proof.
  induction fuel as [|fuel IH]; intros waited s Hb Hf Hpos; [lia|]. cbn [stop_loop].
  assert (Hrefl : forall w, same_but_io s (set_world s w)) by (intros w; exists w, (sv_pipe s); done).
  destruct (Z.ltb_spec waited timeout) as [Hlt|]; cbn [negb].
  2: { exists s, false. split_and!; [done| |done]. exists (sv_world s), (sv_pipe s). by destruct s. }
  assert (Hnext : forall s1, same_but_io s s1 -> exists s' ok, stop_loop fuel name timeout (waited + 25) me s1 = Ret (s', ok) /\
    same_but_io s s' /\ (ok = true -> nobody_listens name s')).
  { intros s1 Hs1. destruct (IH (waited + 25) s1 Hb) as (s' & ok & E & Hs' & Hok); [lia|lia|]. exists s', ok.
    split_and!; [done|by eapply same_but_io_trans|done]. }
  destruct (srv_CreateFileA (sv_world s) name) as [[p|] w] eqn:Eo.
  - destruct (negb _); [exists (set_world s (srv_CloseHandle w p)), false; split_and!; [done|apply Hrefl|done]|].
    destruct (stop_one_run timeout waited p (set_world s w) (Hb _ _ _ _ Eo)) as (s1 & go & -> & Hs1). cbn [mbind outcome_bind].
    assert (Hs1' : same_but_io s s1) by (eapply same_but_io_trans; [apply Hrefl|exact Hs1]).
    destruct go; [by apply Hnext|by exists s1, false].
  - destruct (Z.eqb_spec (GetLastError w) ERROR_FILE_NOT_FOUND) as [He|].
    { exists (set_world s w), true. split_and!; [done|apply Hrefl|]. intros _. by exists (sv_world s). }
    destruct (negb _); [exists (set_world s w), false; split_and!; [done|apply Hrefl|done]|].
    apply (Hnext (set_world s (srv_Sleep w 25))), Hrefl.
Qed.

(** Asking every server to leave ends: within 200 looks at the endpoint
    it is told that there is no server, which is the only success, or it
    gives up.  A pipe of the name that another user's process holds, or one
    at another elevation, is closed and nothing is sent over it; and the
    process that asks keeps its own state. *)
Theorem stop_ends name me s :
  opens_bytes ->
  exists s' ok, stop_running_servers name 5000 me s = Ret (s', ok) /\ same_but_io s s' /\
    (ok = true -> nobody_listens name s') /\
    (forall p w, srv_CreateFileA (sv_world s) name = (Some p, w) -> arpc_peer_is (srv_peer_client w p) me = false ->
       ok = false /\ s' = set_world s (srv_CloseHandle w p)).
Proof.
  intros Hb. unfold stop_running_servers.
  destruct (stop_loop_run name 5000 me (S (Z.to_nat (5000 / 25 + 1))) 0 s Hb) as (s' & ok & E & Hs & Hok);
    [vm_compute; discriminate|lia|].
  exists s', ok. split_and!; [done|done|done|]. intros p w Eo Hp. cbn [stop_loop] in E.
  change (0 <? 5000) with true in E. cbn [negb] in E. rewrite Eo, Hp in E. cbn [negb] in E. by injection E as [= <- <-].
Qed.

Lemma stop_request_asks : ref_parse stop_request =
  Ret (JObj [(lit "id", JNum 1); (lit "method", JStr (lit "arpc.shutdown")); (lit "params", JArr [])]).
Proof. by vm_compute. Qed.

(** A server that reads the request, and then the end of the pipe. *)
Lemma serve_stop `{!Connected H} {HA : TotalAllocator A} fuel pipe s :
  (1 < fuel)%nat -> incoming pipe = frame stop_request ->
  exists s', serve_connection fuel pipe s = Ret s' /\ arpc_shutdown_requested s' = true /\ sv_world s' = sv_world s /\
    outgoing (sv_pipe s') = outgoing pipe ++ frame shutdown_reply.
Proof.
  intros Hf Hin. unfold serve_connection. set (s0 := arpc_paths_set _ false). destruct fuel as [|[|fuel]]; [lia..|].
  assert (Hp0 : sv_pipe s0 = pipe) by done. assert (Hw0 : sv_world s0 = sv_world s) by done. clearbody s0.
  rewrite <- (app_nil_r (frame _)) in Hin. cbn [serve_loop].
  destruct (recv_connected true pipe stop_request [] ltac:(by vm_compute) Hin) as (p1 & E1 & Hi1 & Ho1).
  assert (Er : recv_framed s0 = Ret (set_pipe s0 p1, Some stop_request)) by (unfold recv_framed; by rewrite Hp0, E1).
  rewrite Er. cbn [mbind outcome_bind]. rewrite (cstr_no_nul stop_request) by (by apply (bool_decide_unpack (no_nul _))).
  destruct (dispatch_shutdown (arpc_conn_exchange (S fuel)) stop_request _ (set_pipe s0 p1) HA ltac:(by vm_compute)
    stop_request_asks ltac:(by vm_compute)) as [Ed _]. rewrite Ed. cbn [mbind outcome_bind].
  replace (cstr _) with shutdown_reply by (by vm_compute).
  destruct (send_connected true p1 shutdown_reply ltac:(by vm_compute)) as (p2 & E2 & Ho2 & Hi2).
  assert (Es : send_framed shutdown_reply (set_shutdown (set_pipe s0 p1)) = Ret (set_pipe (set_shutdown (set_pipe s0 p1)) p2, true)).
  { unfold send_framed. change (sv_pipe (set_shutdown (set_pipe s0 p1))) with p1. by rewrite E2. }
  rewrite Es. cbn [mbind outcome_bind serve_loop].
  destruct (recv_framed_empty (set_pipe (set_shutdown (set_pipe s0 p1)) p2)) as (p3 & -> & Ho3); [cbn [sv_pipe set_pipe]; congruence|].
  cbn [mbind outcome_bind]. eexists. split; [reflexivity|]. split_and!; [done|done|].
  cbn [sv_pipe set_pipe arpc_cb_set_conn]. rewrite Ho3. cbn [sv_pipe set_pipe]. by rewrite Ho2, Ho1.
Qed.

(** A client comes to the pipe before the time to wait is over, in one of the
    ways Windows tells of it: it was there before it was waited for, or it came
    while it was.  TRUE at once is what a pipe that is not overlapped says. *)
Inductive arrives (idle_ms : Z) (w : W) (pipe : H) : W -> Prop :=
| arrives_before w' :
    ConnectNamedPipe w pipe = (false, w') -> GetLastError w' = ERROR_PIPE_CONNECTED -> arrives idle_ms w pipe w'
| arrives_later w1 r w2 w' :
    ConnectNamedPipe w pipe = (false, w1) -> GetLastError w1 = ERROR_IO_PENDING ->
    WaitForEvent w1 (u32 idle_ms) = (r, w2) -> r <> WAIT_TIMEOUT ->
    GetOverlappedResult w2 pipe = (true, w') -> arrives idle_ms w pipe w'
| arrives_at_once w' : ConnectNamedPipe w pipe = (true, w') -> arrives idle_ms w pipe w'.

(** A client that comes is looked at, and served if it is our own. *)
Lemma accept_round_arrives serve name sd idle me s pipe w1 w2 :
  ERROR_PIPE_CONNECTED <> ERROR_IO_PENDING ->
  CreateNamedPipeA (sv_world s) name sd = (Some pipe, w1) -> arrives idle w1 pipe w2 ->
  accept_round serve name sd idle me s =
    if arpc_peer_is (srv_peer w2 pipe) me then
      s ← serve pipe (set_world s w2);
      let pipe := sv_pipe s in
      let s := set_world s (srv_CloseHandle (DisconnectNamedPipe (FlushFileBuffers (sv_world s) pipe) pipe) pipe) in
      Ret (s, if arpc_shutdown_requested s then Break else Again)
    else Ret (set_world s (srv_CloseHandle (DisconnectNamedPipe w2 pipe) pipe), Again).
Proof.
  intros Hne Ecr Ha. unfold accept_round. rewrite Ecr.
  destruct Ha as [w' Ec Ee|w1' r w2' w' Ec Ee Ew Hr Eg|w' Ec]; rewrite Ec; cbn [negb andb]; cbn zeta; [| |by destruct (arpc_peer_is _ me)].
  - rewrite Ee. destruct (Z.eqb_spec ERROR_PIPE_CONNECTED ERROR_IO_PENDING); [done|]. rewrite Z.eqb_refl. cbn [negb].
    by destruct (arpc_peer_is _ me).
  - rewrite Ee, Z.eqb_refl, Ew. destruct (Z.eqb_spec r WAIT_TIMEOUT); [done|]. rewrite Eg. cbn [negb].
    by destruct (arpc_peer_is _ me).
Qed.

(** Nobody comes in time: the pipe is closed and the loop is left.  A wait
    that fails, or another error, closes it and starts the next round. *)
Lemma accept_round_nobody serve name sd idle me s pipe w1 w2 :
  CreateNamedPipeA (sv_world s) name sd = (Some pipe, w1) -> ConnectNamedPipe w1 pipe = (false, w2) ->
  (GetLastError w2 = ERROR_IO_PENDING -> forall w3, WaitForEvent w2 (u32 idle) = (WAIT_TIMEOUT, w3) ->
     accept_round serve name sd idle me s = Ret (set_world s (srv_CloseHandle (CancelIo w3 pipe) pipe), Break)) /\
  (GetLastError w2 = ERROR_IO_PENDING -> forall r w3 w4, WaitForEvent w2 (u32 idle) = (r, w3) -> r <> WAIT_TIMEOUT ->
     GetOverlappedResult w3 pipe = (false, w4) ->
     accept_round serve name sd idle me s = Ret (set_world s (srv_CloseHandle w4 pipe), Again)) /\
  (GetLastError w2 <> ERROR_IO_PENDING -> GetLastError w2 <> ERROR_PIPE_CONNECTED ->
     accept_round serve name sd idle me s = Ret (set_world s (srv_CloseHandle w2 pipe), Again)).
Proof.
  intros Ecr Ec. unfold accept_round. rewrite Ecr, Ec. cbn [negb andb]. cbn zeta. split_and!.
  - intros -> w3 Ew. by rewrite Z.eqb_refl, Ew, Z.eqb_refl.
  - intros -> r w3 w4 Ew Hr Eg. rewrite Z.eqb_refl, Ew. destruct (Z.eqb_spec r WAIT_TIMEOUT); [done|]. by rewrite Eg.
  - intros H1 H2. destruct (Z.eqb_spec (GetLastError w2) ERROR_IO_PENDING); [done|].
    by destruct (Z.eqb_spec (GetLastError w2) ERROR_PIPE_CONNECTED).
Qed.

(** C25. A server that is asked to stop leaves, and hands nothing on.  What
    [--stop] writes over a pipe is one frame, and nothing else; a server at
    whose pipe those bytes arrive, from a process of its own user, whether it
    came before the server waited or while it did, answers it, serves the
    connection to its end, closes the pipe, makes no other and returns 0, with
    every id forgotten and none of its table left.  The pipes stay connected
    and no memory is refused. *)
Theorem stop_composed `{!Connected H} fuel cfuel timeout waited p s name sd idle me pipe w1 w2 t :
  TotalAllocator A -> (1 < cfuel)%nat -> ERROR_PIPE_CONNECTED <> ERROR_IO_PENDING ->
  CreateNamedPipeA (sv_world t) name sd = (Some pipe, w1) -> arrives idle w1 pipe w2 ->
  arpc_peer_is (srv_peer w2 pipe) me = true -> is_bytes (incoming p) ->
  (forall s1 sent, send_framed stop_request (set_pipe s p) = Ret (s1, sent) ->
     incoming pipe = drop (length (outgoing p)) (outgoing (sv_pipe s1))) ->
  exists s1 go t', stop_one timeout waited p s = Ret (s1, go) /\ same_but_io s s1 /\
    outgoing (sv_pipe s1) = outgoing p ++ frame stop_request /\
    accept_loop (S fuel) (serve_connection cfuel) name sd idle me t = Ret (t', 0) /\
    outgoing (sv_pipe t') = outgoing pipe ++ frame shutdown_reply /\
    sv_world t' = srv_CloseHandle (DisconnectNamedPipe (FlushFileBuffers w2 (sv_pipe t')) (sv_pipe t')) (sv_pipe t') /\
    arpc_handle_live (sv_tab t') = 0 /\ forall id tag, arpc_handle_get (sv_tab t') id tag = Ret 0.
Proof.
  intros HA Hf Hne Ecr Eco Hpe Hb Hin.
  destruct (send_connected true p stop_request ltac:(by vm_compute)) as (p1 & Es & Ho & Hi).
  assert (Hsend : forall s0, sv_pipe s0 = p -> send_framed stop_request s0 = Ret (set_pipe s0 p1, true))
    by (intros s0 E0; unfold send_framed; by rewrite E0, Es).
  assert (Hpipe : incoming pipe = frame stop_request).
  { rewrite (Hin _ _ (Hsend (set_pipe s p) eq_refl)). cbn [sv_pipe set_pipe]. by rewrite Ho, drop_app_length. }
  destruct (stop_one_run timeout waited p s Hb) as (s1 & go & Estop & Hs1).
  assert (Hout : outgoing (sv_pipe s1) = outgoing p ++ frame stop_request).
  { unfold stop_one in Estop. destruct (GetNamedPipeServerProcessId _ _) as [pid w]. destruct (match pid with Some _ => _ | None => _ end) as [proc w'].
    rewrite (Hsend (set_pipe (set_world s w') p) eq_refl) in Estop. cbn [mbind outcome_bind] in Estop.
    destruct (recv_framed_run (set_pipe (set_pipe (set_world s w') p) p1)) as (p2 & f & Er & Hop); [by cbn [sv_pipe set_pipe]; rewrite Hi|].
    rewrite Er in Estop. cbn [mbind outcome_bind negb] in Estop. cbn [sv_pipe set_pipe] in Hop. rewrite <- Ho, <- Hop.
    destruct proc as [h|]; [destruct (WaitForProcess _ _ _) as [r w3]|]; by injection Estop as <- _. }
  destruct (serve_stop cfuel pipe (set_world t w2) Hf Hpipe) as (t1 & Eserve & Hsh & Hwt & Hot).
  exists s1, go. cbn [accept_loop].
  rewrite (accept_round_arrives _ name sd idle me t pipe w1 w2 Hne Ecr Eco), Hpe, Eserve. cbn [mbind outcome_bind].
  match goal with |- context [arpc_shutdown_requested ?x] => change (arpc_shutdown_requested x) with (arpc_shutdown_requested t1) end.
  rewrite Hsh. eexists. split_and!; [exact Estop|exact Hs1|exact Hout|reflexivity|exact Hot| |done|].
  { cbn [sv_world sv_pipe set_table set_world]. by rewrite Hwt. }
  intros id tag. cbn. unfold arpc_handle_get, find. cbn. by rewrite orb_true_r.
Qed.
End Stop.

(** ** Who is served *)

Section Accept.
Context {A : Allocator} {T : Tags} {W H : Type}
  {HP : Gpgme W} {R : Archive W} {GEN : Generated W H} {HO : HandleOps H} {WS : WinServer W H}.
Implicit Types s : server W H.

(** Two ways to serve that differ over the pipes of others only. *)
Definition agree_for (me : arpc_identity) (serve serve' : H -> server W H -> outcome (server W H)) : Prop :=
  forall p s, arpc_peer_is (srv_peer (sv_world s) p) me = true -> serve p s = serve' p s.

Lemma accept_round_agrees serve serve' name sd idle me s :
  agree_for me serve serve' -> accept_round serve name sd idle me s = accept_round serve' name sd idle me s.
Proof.
  intros Ha. unfold accept_round. destruct (CreateNamedPipeA _ _ _) as [[pipe|] w]; [|done].
  destruct (ConnectNamedPipe _ _) as [connected w1]. cbn zeta.
  destruct (if negb connected && (GetLastError w1 =? ERROR_IO_PENDING) then _ else _) as [w2 [r|]]; [done|].
  destruct (arpc_peer_is (srv_peer w2 pipe) me) eqn:Ep; cbn [negb]; [|done]. by rewrite (Ha pipe (set_world s w2) Ep).
Qed.

Lemma accept_loop_agrees serve serve' name sd idle me fuel : agree_for me serve serve' -> forall s,
  accept_loop fuel serve name sd idle me s = accept_loop fuel serve' name sd idle me s.
Proof.
  intros Ha. induction fuel as [|fuel IH]; intros s; [done|]. cbn [accept_loop].
  rewrite (accept_round_agrees serve serve') by done. destruct (accept_round _ _ _ _ _ _) as [[s1 r]| | |]; [|done..].
  cbn [mbind outcome_bind]. by destruct r.
Qed.

Definition nonzero (l : list Z) : Prop := Forall (fun c => c <> 0) l.

Lemma cstr_nonzero l : nonzero (cstr l).
Proof. induction l as [|c l IH]; cbn [cstr]; [constructor|]. destruct (Z.eqb_spec c 0); [constructor|by constructor]. Qed.

Lemma cstr_of_nonzero l : nonzero l -> cstr l = l.
Proof. induction 1 as [|c l Hc _ IH]; [done|]. cbn [cstr]. destruct (Z.eqb_spec c 0); [done|]. by rewrite IH. Qed.

Lemma digits_nonzero n u : nonzero (digits n u).
Proof.
  unfold nonzero. eapply Forall_impl; [apply digits_digit|]. intros c Hc ->. by vm_compute in Hc.
Qed.

(** The descriptor's text is not cut off. *)
Lemma sddl_whole tok me :
  arpc_process_identity tok = Some me ->
  sddl me = lit "D:(A;;GA;;;" ++ id_sid me ++ lit ")S:(ML;;NW;;;S-1-16-" ++ render_num (id_integrity me) ++ lit ")".
Proof.
  unfold arpc_process_identity. destruct tok as [t|]; [|done]. destruct (tok_user t) as [sid|]; [|done].
  destruct (Z.ltb_spec (strlen sid) 256) as [Hl|]; [|done]. destruct (tok_label t) as [rid|]; [|done].
  intros [= <-]. unfold sddl, snprintf_s. cbn [id_sid id_integrity]. rewrite cstr_idemp.
  assert (Hr : 0 <= u32 rid) by (unfold u32; apply Z.mod_pos_bound; lia).
  assert (En : render_num (u32 rid) = digits 20 (u32 rid)).
  { unfold render_num. destruct (Z.ltb_spec (u32 rid) 0); [lia|]. by rewrite Z.abs_eq. }
  rewrite En. pose proof (digits_length 20 (u32 rid)) as Hd. rewrite cstr_of_nonzero.
  - rewrite take_ge; [done|]. rewrite !length_app. unfold strlen in Hl. change (Z.to_nat (512 - 1)) with 511%nat. cbn [length lit]. lia.
  - unfold nonzero. rewrite !Forall_app. split_and!; [|apply cstr_nonzero| |apply digits_nonzero|];
      by apply (bool_decide_unpack (Forall (fun c => c <> 0) _)).
Qed.

(** The same Windows, but for the pipes it makes. *)
Definition with_pipes (make : W -> list Z -> list Z -> option H * W) : WinServer W H := {|
  srv_module := srv_module;
  srv_self := srv_self;
  srv_peer := srv_peer;
  srv_peer_client := srv_peer_client;
  GetLastError := GetLastError;
  ERROR_FILE_NOT_FOUND := ERROR_FILE_NOT_FOUND;
  ERROR_PIPE_BUSY := ERROR_PIPE_BUSY;
  ERROR_IO_PENDING := ERROR_IO_PENDING;
  ERROR_PIPE_CONNECTED := ERROR_PIPE_CONNECTED;
  WAIT_OBJECT_0 := WAIT_OBJECT_0;
  WAIT_TIMEOUT := WAIT_TIMEOUT;
  ConvertStringSecurityDescriptor := ConvertStringSecurityDescriptor;
  CreateEventA := CreateEventA;
  CreateNamedPipeA := make;
  ConnectNamedPipe := ConnectNamedPipe;
  WaitForEvent := WaitForEvent;
  GetOverlappedResult := GetOverlappedResult;
  CancelIo := CancelIo;
  FlushFileBuffers := FlushFileBuffers;
  DisconnectNamedPipe := DisconnectNamedPipe;
  srv_CreateFileA := srv_CreateFileA;
  srv_CloseHandle := srv_CloseHandle;
  srv_Sleep := srv_Sleep;
  GetNamedPipeServerProcessId := GetNamedPipeServerProcessId;
  OpenProcess := OpenProcess;
  WaitForProcess := WaitForProcess;
  CloseProcess := CloseProcess
|}.

Lemma accept_loop_pipes make fuel serve name sd idle me s :
  (forall w, make w name sd = CreateNamedPipeA w name sd) ->
  accept_loop (WS:=with_pipes make) fuel serve name sd idle me s = accept_loop fuel serve name sd idle me s.
Proof.
  intros Hm. revert s. induction fuel as [|fuel IH]; intros s; [done|]. cbn [accept_loop].
  assert (Hr : accept_round (WS:=with_pipes make) serve name sd idle me s = accept_round serve name sd idle me s).
  { unfold accept_round at 1. cbn [CreateNamedPipeA with_pipes]. by rewrite Hm. }
  rewrite Hr. clear Hr. destruct (accept_round (WS:=WS) serve name sd idle me s) as [[s1 r]| | |]; [|done..].
  cbn [mbind outcome_bind]. destruct r; [apply IH|done..].
Qed.

(** The name of the endpoint: of the root the options give, or of the
    program's own, and of this process. *)
Definition its_endpoint (o : options) s (name : list Z) : Prop :=
  exists root,
    match op_root o with Some v => Some (snprintf_s MAX_PATH v) | None => derive_root (sv_world s) MAX_PATH end = Some root /\
    arpc_pipe_name (Some root) (arpc_process_identity (srv_self (sv_world s))) 256 = (Some name, true).

(** C16. A server serves its own user at its own elevation, and nobody else.
    What [main] does is the same whatever serving would do to a pipe whose
    other end is not the process's own identity.  Every pipe is made under the
    endpoint's name with the descriptor that names that user alone and that
    integrity, not cut off: what [main] does is the same whatever Windows
    would make for any other name or descriptor.  And without the descriptor
    no pipe is made at all. *)
Theorem serves_own fuel o s me :
  arpc_process_identity (srv_self (sv_world s)) = Some me ->
  (forall serve serve', agree_for me serve serve' -> run_server fuel serve o s = run_server fuel serve' o s) /\
  sddl me = lit "D:(A;;GA;;;" ++ id_sid me ++ lit ")S:(ML;;NW;;;S-1-16-" ++ render_num (id_integrity me) ++ lit ")" /\
  (forall make, (forall w name, its_endpoint o s name -> make w name (sddl me) = CreateNamedPipeA w name (sddl me)) ->
   forall serve, run_server (WS:=with_pipes make) fuel serve o s = run_server fuel serve o s) /\
  (op_stop o = false -> (forall w, (ConvertStringSecurityDescriptor w (sddl me)).1 = false) ->
   forall serve, exists w, run_server fuel serve o s = Ret (set_world s w, 1)).
Proof.
  intros Eme. split_and!; [|by eapply sddl_whole| |].
  - intros serve serve' Ha. unfold run_server. destruct (match op_root o with Some _ => _ | None => _ end) as [root|]; [|done].
    rewrite Eme. destruct (arpc_pipe_name _ _ _) as [[name|] [|]]; [|done..]. destruct (CreateEventA _) as [io_ev w]. cbn zeta.
    destruct io_ev; cbn [negb]; [|done]. destruct (op_stop o); [done|].
    destruct (owner_only_sa me w) as [[sd|] w1]; [|done]. destruct (CreateEventA w1) as [ev w2]. cbn zeta.
    destruct ev; cbn [negb]; [|done]. by apply accept_loop_agrees.
  - intros make Hm serve. unfold run_server. cbn [srv_self CreateEventA with_pipes].
    change (derive_root (WS:=with_pipes make) (sv_world s) MAX_PATH) with (derive_root (sv_world s) MAX_PATH).
    destruct (match op_root o with Some _ => _ | None => _ end) as [root|] eqn:Er; [|done].
    rewrite Eme. destruct (arpc_pipe_name _ _ _) as [[name|] [|]] eqn:En; [|done..].
    destruct (CreateEventA _) as [io_ev w]. cbn zeta. destruct io_ev; cbn [negb]; [|done]. destruct (op_stop o); [done|].
    change (owner_only_sa (WS:=with_pipes make) me w) with (owner_only_sa me w).
    destruct (owner_only_sa me w) as [[sd|] w1] eqn:Esd; [|done].
    assert (sd = sddl me) as ->.
    { unfold owner_only_sa in Esd. destruct (ConvertStringSecurityDescriptor _ _) as [[] ?]; by injection Esd. }
    destruct (CreateEventA w1) as [ev w2]. cbn zeta. destruct ev; cbn [negb]; [|done].
    apply accept_loop_pipes. intros w'. apply Hm. exists root. by rewrite Eme.
  - intros Ho Hc serve. assert (Hs : s = set_world s (sv_world s)) by (by destruct s). unfold run_server, owner_only_sa.
    destruct (match op_root o with Some _ => _ | None => _ end) as [root|]; [|exists (sv_world s); by rewrite <- Hs].
    rewrite Eme. destruct (arpc_pipe_name _ _ _) as [[name|] [|]]; try (exists (sv_world s); by rewrite <- Hs).
    destruct (CreateEventA _) as [io_ev w]. cbn zeta. destruct io_ev; cbn [negb]; [|by exists w]. rewrite Ho.
    specialize (Hc w). destruct (ConvertStringSecurityDescriptor w (sddl me)) as [ok w1]. cbn [fst] in Hc. subst ok. by exists w1.
Qed.
End Accept.

(** The value of [--idle] is multiplied in an [int]. *)
Lemma idle_overflow o : parse_args [lit "--idle"; lit "2147484"] o = Undef /\
  exists o', parse_args [lit "--idle"; lit "2147483"] o = Ret (Run o') /\ op_idle o' = 2147483000.
Proof. split; [by vm_compute|]. eexists. split; [reflexivity|done]. Qed.

(** ** The properties at work *)

Section Toy.
#[local] Existing Instance DispatchTheorems.toy_tags.
#[local] Existing Instance unit_gpgme.
#[local] Existing Instance unit_archive.
#[local] Existing Instance Trickle.ops.
#[local] Existing Instance Trickle.handle.
#[local] Existing Instance Trickle.connected.
#[local] Existing Instance asking_generated.

Definition toy_me : token := Token (Some (lit "S-1-5-21")) (Some 8192).
Definition toy_id : arpc_identity := Identity (lit "S-1-5-21") 8192.

(** The pipe a server accepts, on which a request to stop has arrived. *)
Definition stop_pipe : Trickle.pipe := Trickle.Pipe (frame stop_request) [] 0 [].
(** The pipe of the process that asks. *)
Definition asking_pipe : Trickle.pipe := Trickle.Pipe (frame shutdown_reply) [] 0 [].

(** A Windows with one client, who asks to stop, and nobody else listening;
    the error that a call leaves behind is [err]. *)
Definition windows (err : Z) : WinServer unit Trickle.pipe := {|
  srv_module _ := Some (lit "C:\msys64\usr\bin\alpmrpcd.exe");
  srv_self _ := Some toy_me;
  srv_peer _ _ := Some (Some toy_me);
  srv_peer_client _ _ := Some (Some toy_me);
  GetLastError _ := err;
  ERROR_FILE_NOT_FOUND := 2;
  ERROR_PIPE_BUSY := 231;
  ERROR_IO_PENDING := 997;
  ERROR_PIPE_CONNECTED := 535;
  WAIT_OBJECT_0 := 0;
  WAIT_TIMEOUT := 258;
  ConvertStringSecurityDescriptor w _ := (true, w);
  CreateEventA w := (true, w);
  CreateNamedPipeA w _ _ := (Some stop_pipe, w);
  ConnectNamedPipe w _ := (false, w);
  WaitForEvent w _ := (0, w);
  GetOverlappedResult w _ := (true, w);
  CancelIo w _ := w;
  FlushFileBuffers w _ := w;
  DisconnectNamedPipe w _ := w;
  srv_CreateFileA w _ := (None, w);
  srv_CloseHandle w _ := w;
  srv_Sleep w _ := w;
  GetNamedPipeServerProcessId w _ := (Some 7, w);
  OpenProcess w _ := (None, w);
  WaitForProcess w _ _ := (0, w);
  CloseProcess w _ := w
|}.

#[local] Instance toy_windows : WinServer unit Trickle.pipe := windows 2.

Lemma stop_ends_witness :
  exists s' ok, stop_running_servers (A:=ample) (lit "\\.\pipe\x") 5000 toy_id idle_server = Ret (s', ok) /\ same_but_io idle_server s'.
Proof.
  destruct (stop_ends (A:=ample) (lit "\\.\pipe\x") toy_id idle_server) as (s' & ok & E & Hs & _); [by intros w n p w' E|].
  exact (ex_intro _ s' (ex_intro _ ok (conj E Hs))).
Defined.

(** The client that was there before it was waited for, and the one that came
    while it was. *)
Lemma stop_composed_witness :
  (exists t', accept_loop (WS:=windows 535) 1 (serve_connection (A:=ample) 5) (lit "\\.\pipe\x") [] 30000 toy_id idle_server = Ret (t', 0) /\
     arpc_handle_live (sv_tab t') = 0) /\
  (exists t', accept_loop (WS:=windows 997) 1 (serve_connection (A:=ample) 5) (lit "\\.\pipe\x") [] 30000 toy_id idle_server = Ret (t', 0) /\
     outgoing (sv_pipe t') = frame shutdown_reply).
Proof.
  assert (Hb : is_bytes (incoming asking_pipe)).
  { apply (bool_decide_unpack (is_bytes (incoming asking_pipe))). vm_compute. exact I. }
  split.
  - destruct (stop_composed (A:=ample) (WS:=windows 535) 0 5 5000 0 asking_pipe idle_server (lit "\\.\pipe\x") [] 30000 toy_id stop_pipe tt tt
      idle_server ample_total) as (s1 & go & t' & _ & _ & _ & E & _ & _ & Hl & _).
    + lia.
    + discriminate.
    + reflexivity.
    + apply arrives_before; reflexivity.
    + vm_compute. reflexivity.
    + exact Hb.
    + intros s1 sent E. vm_compute in E. injection E as [= <- _]. by vm_compute.
    + exact (ex_intro _ t' (conj E Hl)).
  - destruct (stop_composed (A:=ample) (WS:=windows 997) 0 5 5000 0 asking_pipe idle_server (lit "\\.\pipe\x") [] 30000 toy_id stop_pipe tt tt
      idle_server ample_total) as (s1 & go & t' & _ & _ & _ & E & Ho & _).
    + lia.
    + discriminate.
    + reflexivity.
    + eapply (arrives_later _ _ _ tt 0 tt); [reflexivity|reflexivity|reflexivity|discriminate|reflexivity].
    + vm_compute. reflexivity.
    + exact Hb.
    + intros s1 sent E. vm_compute in E. injection E as [= <- _]. by vm_compute.
    + exact (ex_intro _ t' (conj E Ho)).
Defined.

(** Pipes of the one name, with the one descriptor, and no others. *)
Definition own_pipes : unit -> list Z -> list Z -> option Trickle.pipe * unit :=
  fun w name sd =>
    if bool_decide (sd = lit "D:(A;;GA;;;S-1-5-21)S:(ML;;NW;;;S-1-16-8192)") then (Some stop_pipe, w) else (None, w).

(** A server that serves itself once, is asked to stop and leaves; it does so
    as well where a pipe with another descriptor cannot be made. *)
Lemma serves_own_witness :
  sddl toy_id = lit "D:(A;;GA;;;S-1-5-21)S:(ML;;NW;;;S-1-16-8192)" /\
  run_server (A:=ample) 1 (serve_connection (A:=ample) 5) options0 idle_server =
  run_server (A:=ample) 1 (fun p s => if arpc_peer_is (srv_peer (sv_world s) p) toy_id then serve_connection (A:=ample) 5 p s else Undef)
    options0 idle_server /\
  run_server (A:=ample) (WS:=with_pipes (WS:=windows 535) own_pipes) 1 (serve_connection (A:=ample) 5) options0 idle_server =
    run_server (A:=ample) (WS:=windows 535) 1 (serve_connection (A:=ample) 5) options0 idle_server /\
  exists t', run_server (A:=ample) (WS:=windows 535) 1 (serve_connection (A:=ample) 5) options0 idle_server = Ret (t', 0).
Proof.
  destruct (serves_own (A:=ample) 1 options0 idle_server toy_id) as (Ha & Hs & _); [by vm_compute|].
  destruct (serves_own (A:=ample) (WS:=windows 535) 1 options0 idle_server toy_id) as (_ & _ & Hp & _); [by vm_compute|].
  split_and!.
  - rewrite Hs. by vm_compute.
  - apply Ha. intros p s Hps. by rewrite Hps.
  - apply Hp. intros w name _. unfold own_pipes. rewrite bool_decide_true; [by destruct w|by vm_compute].
  - eexists. vm_compute. reflexivity.
Defined.
End Toy.
