(* ===== verification/Session.v ===== *)
(** * A conversation: both ends, over the pipe

    The two processes call each other while they wait for each other: a
    request makes the server call back, the function called back makes
    requests, and so on to any depth.  [calls], [handles], [calls_back] and
    [makes] say what such a conversation does when each end is handed to the
    other as a function: no pipe, no frames, no order of messages to agree
    on.  The theorem is that the two loops of src/client/arpc_client.c and
    src/server/main.c, each with its end of a pipe on which the other's frames
    arrive, do the same: the states, the results, and on either side exactly
    the frames the other end waits for, in the order in which it waits for
    them. *)

From S2P Require Import Prelude Json JsonWriter JsonReader JsonRef JsonArena JsonAccess JsonBytes.
From S2P Require Import Base64 Wire CbRegistry HandleTable HandleSpec Paths Gpgdir Lookup Server.
From S2P Require Import Mtree Dispatch DispatchTheorems Connection ConnectionTheorems Ends Uthash.
From S2P Require Import Cache Groups ClientState Client ClientCalls ClientTheorems Process.

(** A text one frame can carry. *)
Definition carried_text (t : list Z) : Prop := no_nul t /\ 0 < len t <= ARPC_MAX_FRAME.

Section Session.
Context {A : Allocator} {T : Tags} {P : Placement} {U : Uthash}.
Context {W H : Type} {HP : Gpgme W} {R : Archive W} {GEN : Generated W H} `{HH : Handle H}.
Context {W' H' : Type} `{HH' : Handle H'} {WN : Win W' H'} {ST : Stubs W' H'}.
Implicit Types (s : server W H) (c : client W' H').

(** ** The two ends as functions of each other

    What runs on the server, given its pipe and the exchange of a callback for
    an answer; what runs on the client, given its pipe and the exchange of a
    request for a reply. *)
Definition server_code : Type := H -> exchanger W H -> outcome (server W H * option (list Z)).
Definition client_code (X : Type) : Type := H' -> transactor W' H' -> outcome (client W' H' * X).

(** [calls s c req s' c' rsp up down]: the client makes this request and gets
    this reply; [handles]: the server's code runs to this reply; [calls_back]:
    the server calls back and gets this answer; [makes]: the client's code
    runs to this result.  Meanwhile the client has sent the texts [up], the
    server [down], the first of each exchange and its last one not counted. *)
Inductive calls : server W H -> client W' H' -> list Z -> server W H -> client W' H' -> list Z -> list (list Z) -> list (list Z) -> Prop :=
| calls_made s c req d s' c' rsp up down :
    as_request req = Ret (Some d) ->
    handles (fun p x => arpc_handle_parsed x d (set_pipe s p)) c s' c' rsp up down ->
    is_reply rsp -> carried_text rsp -> calls s c req s' c' rsp up down
with handles : server_code -> client W' H' -> server W H -> client W' H' -> list Z -> list (list Z) -> list (list Z) -> Prop :=
| handles_reply (f : server_code) s c rsp :
    (forall p x, f p x = Ret (set_pipe s p, Some rsp)) -> handles f c s c rsp [] []
| handles_ask (f : server_code) g s c cb s1 c1 ans up down s2 c2 rsp up' down' :
    (forall p x, f p x = ('(s, a) ← x cb (set_pipe s p); g x s a)) ->
    sv_conn s = Some true ->
    calls_back s c cb s1 c1 ans up down ->
    handles (fun p x => g x (set_pipe s1 p) (Some ans)) c1 s2 c2 rsp up' down' ->
    handles f c s2 c2 rsp (up ++ ans :: up') (cb :: down ++ down')
with calls_back : server W H -> client W' H' -> list Z -> server W H -> client W' H' -> list Z -> list (list Z) -> list (list Z) -> Prop :=
| calls_back_made s c cb d n s' c' w up down :
    carried_text cb -> aj_parse cb = Ret d -> aj_member d 0 (lit "cb") = Ret n -> 0 <= n ->
    makes (fun p x => arpc_dispatch_callback x d (cl_set_pipe c (Some p))) s s' c' w up down ->
    w_err w = false -> carried_text (w_buf w) -> as_request (w_buf w) = Ret None ->
    calls_back s c cb s' c' (w_buf w) up down
with makes : forall {X}, client_code X -> server W H -> server W H -> client W' H' -> X -> list (list Z) -> list (list Z) -> Prop :=
| makes_result X (f : client_code X) s c r :
    (forall p x, f p x = Ret (cl_set_pipe c (Some p), r)) -> makes f s s c r [] []
| makes_call X (f : client_code X) g c req s s1 c1 rsp up down s2 c2 r up' down' :
    (forall p x, f p x = ('(c, a) ← x req (cl_set_pipe c (Some p)); g x c a)) ->
    carried_text req ->
    calls s c req s1 c1 rsp up down ->
    makes (fun p x => g x (cl_set_pipe c1 (Some p)) (Some rsp)) s1 s2 c2 r up' down' ->
    makes f s s2 c2 r (req :: up ++ up') (down ++ rsp :: down').

Scheme calls_rec := Minimality for calls Sort Prop
with handles_rec := Minimality for handles Sort Prop
with calls_back_rec := Minimality for calls_back Sort Prop
with makes_rec := Minimality for makes Sort Prop.
Combined Scheme conversation_rec from calls_rec, handles_rec, calls_back_rec, makes_rec.

(** ** Each end with its pipe *)

Definition frames (ts : list (list Z)) : list Z := concat (frame <$> ts).

Lemma frames_app a b : frames (a ++ b) = frames a ++ frames b.
Proof. unfold frames. by rewrite fmap_app, concat_app. Qed.

(** A loop of the server's that has these texts to come sends those and
    comes to this, and what is after them stays on the pipe. *)
Definition server_does (f : H -> nat -> outcome (server W H * option (list Z))) s' rsp (up down : list (list Z)) : Prop :=
  forall fuel p rest, (length up < fuel)%nat -> incoming p = frames up ++ rest ->
    exists p', f p fuel = Ret (set_pipe s' p', Some rsp) /\ incoming p' = rest /\ outgoing p' = outgoing p ++ frames down.
Definition client_does {X} (f : H' -> nat -> outcome (client W' H' * X)) c' (r : X) (up down : list (list Z)) : Prop :=
  forall fuel p rest, (length down < fuel)%nat -> incoming p = frames down ++ rest ->
    exists p', f p fuel = Ret (cl_set_pipe c' (Some p'), r) /\ incoming p' = rest /\ outgoing p' = outgoing p ++ frames up.

Definition server_runs (f : server_code) s' rsp up down : Prop :=
  server_does (fun p fuel => f p (arpc_conn_exchange fuel)) s' rsp up down.
Definition client_runs {X} (f : client_code X) c' (r : X) up down : Prop :=
  client_does (fun p fuel => f p (transact fuel)) c' r up down.

(** The loop that waits: for the answer on the server, the reply on the
    client. *)
Definition server_waits s s' ans up down : Prop :=
  server_does (fun p fuel => exchange_loop fuel (set_pipe s p)) s' ans (up ++ [ans]) down.
Definition client_waits c c' rsp up down : Prop :=
  client_does (fun p fuel => transact_loop fuel (cl_set_pipe c (Some p))) c' (Some rsp) up (down ++ [rsp]).
Context {HA : TotalAllocator A} {HC : Connected H} {HS : Steady H} {HC' : Connected H'}.

Lemma carried_cstr t : carried_text t -> cstr t = t.
Proof. intros [Hn _]. by apply cstr_no_nul. Qed.

(** Frames over a connected pipe, as the two ends receive and send them. *)
Lemma server_receives s p t rest :
  carried_text t -> incoming p = frame t ++ rest ->
  exists p', recv_framed (set_pipe s p) = Ret (set_pipe s p', Some t) /\ incoming p' = rest /\ outgoing p' = outgoing p.
Proof.
  intros [_ Hl] Hin. destruct (recv_connected true p t rest Hl Hin) as (p' & E & Hi & Ho). exists p'.
  unfold recv_framed. cbn [sv_pipe set_pipe]. by rewrite E.
Qed.

Lemma server_sends s p t :
  carried_text t -> exists p', send_framed t (set_pipe s p) = Ret (set_pipe s p', true) /\ incoming p' = incoming p /\
    outgoing p' = outgoing p ++ frame t.
Proof.
  intros [_ Hl]. destruct (send_connected true p t) as (p' & E & Ho & Hi); [unfold ARPC_MAX_FRAME in Hl; lia|]. exists p'.
  unfold send_framed. cbn [sv_pipe set_pipe]. by rewrite E.
Qed.

Lemma client_receives c p t rest :
  carried_text t -> incoming p = frame t ++ rest ->
  exists p', recv_frame (cl_set_pipe c (Some p)) = Ret (cl_set_pipe c (Some p'), Some t) /\ incoming p' = rest /\
    outgoing p' = outgoing p.
Proof.
  intros [_ Hl] Hin. destruct (recv_connected false p t rest Hl Hin) as (p' & E & Hi & Ho). exists p'.
  unfold recv_frame. cbn [cl_pipe cl_set_pipe]. by rewrite E.
Qed.

Lemma client_sends c p t :
  carried_text t -> exists p', send_frame t (cl_set_pipe c (Some p)) = Ret (cl_set_pipe c (Some p'), true) /\
    incoming p' = incoming p /\ outgoing p' = outgoing p ++ frame t.
Proof.
  intros [_ Hl]. destruct (send_connected false p t) as (p' & E & Ho & Hi); [unfold ARPC_MAX_FRAME in Hl; lia|]. exists p'.
  unfold send_frame. cbn [cl_pipe cl_set_pipe]. by rewrite E.
Qed.

(** ** One rule each *)

Lemma waits_reply c rsp : is_reply rsp -> carried_text rsp -> client_waits c c rsp [] [].
Proof.
  intros (j & Ej & Hj) Hc fuel p rest Hf Hin. destruct fuel as [|fuel]; [cbn in Hf; lia|]. cbn [transact_loop].
  unfold frames in Hin. cbn [fmap list_fmap concat app] in Hin. rewrite app_nil_r in Hin.
  destruct (client_receives c p rsp rest Hc Hin) as (p' & -> & Hi & Ho). cbn [mbind outcome_bind].
  destruct Hc as [_ Hl]. destruct (frame_parses rsp j) as (d & n & -> & Hd & -> & Hn); [lia|done|]. cbn [mbind outcome_bind].
  rewrite Hj in Hn. rewrite Hn. exists p'. unfold frames. cbn. by rewrite app_nil_r.
Qed.

Lemma waits_answer s ans : carried_text ans -> as_request ans = Ret None -> server_waits s s ans [] [].
Proof.
  intros Hc Ha fuel p rest Hf Hin. destruct fuel as [|fuel]; [cbn in Hf; lia|]. cbn [exchange_loop].
  unfold frames in Hin. cbn [fmap list_fmap concat app] in Hin. rewrite app_nil_r in Hin.
  destruct (server_receives s p ans rest Hc Hin) as (p' & -> & Hi & Ho). cbn [mbind outcome_bind]. rewrite Ha.
  exists p'. unfold frames. cbn. by rewrite app_nil_r.
Qed.

(** What either end does to wait: its text goes out first. *)
Lemma exchange_waits s cb s1 ans up down fuel p rest :
  sv_conn s = Some true -> carried_text cb -> server_waits s s1 ans up down ->
  (length up + 1 < fuel)%nat -> incoming p = frames up ++ frame ans ++ rest ->
  exists p', arpc_conn_exchange fuel cb (set_pipe s p) = Ret (set_pipe s1 p', Some ans) /\ incoming p' = rest /\
    outgoing p' = outgoing p ++ frame cb ++ frames down.
Proof.
  intros Hconn Hcb Hw Hlen Hin. unfold arpc_conn_exchange, conn_exchange. rewrite bool_decide_true by done. cbn [negb].
  destruct (server_sends s p cb Hcb) as (p1 & -> & Hi1 & Ho1). cbn [mbind outcome_bind].
  destruct (Hw fuel p1 rest) as (p2 & E2 & Hi2 & Ho2); [rewrite length_app; cbn; lia| |].
  { rewrite Hi1, Hin, frames_app, <- app_assoc. unfold frames at 3. cbn. by rewrite app_nil_r. }
  exists p2. split_and!; [exact E2|done|]. by rewrite Ho2, Ho1, app_assoc.
Qed.

Lemma transact_waits c req c1 rsp up down fuel p rest :
  carried_text req -> client_waits c c1 rsp up down ->
  (length down + 1 < fuel)%nat -> incoming p = frames down ++ frame rsp ++ rest ->
  exists p', transact fuel req (cl_set_pipe c (Some p)) = Ret (cl_set_pipe c1 (Some p'), Some rsp) /\ incoming p' = rest /\
    outgoing p' = outgoing p ++ frame req ++ frames up.
Proof.
  intros Hreq Hw Hlen Hin. unfold transact, transact_with.
  destruct (client_sends c p req Hreq) as (p1 & -> & Hi1 & Ho1). cbn [mbind outcome_bind].
  destruct (Hw fuel p1 rest) as (p2 & E2 & Hi2 & Ho2); [rewrite length_app; cbn; lia| |].
  { rewrite Hi1, Hin, frames_app, <- app_assoc. unfold frames at 3. cbn. by rewrite app_nil_r. }
  exists p2. split_and!; [exact E2|done|]. by rewrite Ho2, Ho1, app_assoc.
Qed.

(** The server raises a callback and goes on with the answer. *)
Lemma ask_runs (f : server_code) g s cb s1 ans up down s2 rsp up' down' :
  (forall p x, f p x = ('(s, a) ← x cb (set_pipe s p); g x s a)) -> sv_conn s = Some true -> carried_text cb ->
  server_waits s s1 ans up down -> server_runs (fun p x => g x (set_pipe s1 p) (Some ans)) s2 rsp up' down' ->
  server_runs f s2 rsp (up ++ ans :: up') (cb :: down ++ down').
Proof.
  intros Hf Hconn Hcb Hw Hr fuel p rest Hlen Hin. rewrite length_app in Hlen. cbn [length] in Hlen.
  rewrite frames_app in Hin. unfold frames at 2 in Hin. cbn [fmap list_fmap concat] in Hin. rewrite <- !app_assoc in Hin.
  destruct (exchange_waits s cb s1 ans up down fuel p _ Hconn Hcb Hw ltac:(lia) Hin) as (p2 & E2 & Hi2 & Ho2).
  destruct (Hr fuel p2 rest ltac:(lia) Hi2) as (p3 & E3 & Hi3 & Ho3). exists p3. rewrite Hf, E2. split_and!; [exact E3|done|].
  rewrite Ho3, Ho2. unfold frames. cbn [fmap list_fmap concat]. by rewrite fmap_app, concat_app, !app_assoc.
Qed.

(** The client serves it and goes on waiting. *)
Lemma ask_waits c cb d n w c1 up down c2 rsp up' down' :
  carried_text cb -> aj_parse cb = Ret d -> aj_member d 0 (lit "cb") = Ret n -> 0 <= n -> w_err w = false -> carried_text (w_buf w) ->
  client_runs (fun p x => arpc_dispatch_callback x d (cl_set_pipe c (Some p))) c1 w up down ->
  client_waits c1 c2 rsp up' down' ->
  client_waits c c2 rsp (up ++ w_buf w :: up') (cb :: down ++ down').
Proof.
  intros Hcb Hd Hm Hn He Hans Hr Hw fuel p rest Hlen Hin. cbn [length app] in Hlen. rewrite !length_app in Hlen. cbn [length] in Hlen.
  destruct fuel as [|fuel]; [lia|]. cbn [transact_loop]. unfold frames in Hin. cbn [app fmap list_fmap concat] in Hin.
  rewrite <- app_assoc in Hin. destruct (client_receives c p cb _ Hcb Hin) as (p1 & -> & Hi1 & Ho1). cbn [mbind outcome_bind].
  rewrite (carried_cstr cb Hcb), Hd, Hm. cbn [mbind outcome_bind]. rewrite (proj2 (Z.ltb_ge n 0) Hn).
  fold (frames ((down ++ down') ++ [rsp])) in Hi1. rewrite <- app_assoc, frames_app, <- app_assoc in Hi1.
  destruct (Hr fuel p1 _ ltac:(lia) Hi1) as (p2 & E2 & Hi2 & Ho2). cbn beta in E2. unfold transact in E2. rewrite E2.
  cbn [mbind outcome_bind]. rewrite He. destruct (client_sends c1 p2 (w_buf w) Hans) as (p3 & -> & Hi3 & Ho3).
  cbn [mbind outcome_bind]. destruct (Hw fuel p3 rest ltac:(rewrite length_app; cbn; lia) ltac:(congruence)) as (p4 & E4 & Hi4 & Ho4).
  exists p4. split_and!; [exact E4|done|]. rewrite Ho4, Ho3, Ho2, Ho1. unfold frames. rewrite fmap_app, concat_app.
  cbn [fmap list_fmap concat]. by rewrite !app_assoc.
Qed.

(** The client makes a request and goes on with the reply. *)
Lemma request_runs {X} (f : client_code X) g c req c1 rsp up down c2 r up' down' :
  (forall p x, f p x = ('(c, a) ← x req (cl_set_pipe c (Some p)); g x c a)) -> carried_text req ->
  client_waits c c1 rsp up down -> client_runs (fun p x => g x (cl_set_pipe c1 (Some p)) (Some rsp)) c2 r up' down' ->
  client_runs f c2 r (req :: up ++ up') (down ++ rsp :: down').
Proof.
  intros Hf Hreq Hw Hr fuel p rest Hlen Hin. rewrite length_app in Hlen. cbn [length] in Hlen.
  rewrite frames_app in Hin. unfold frames at 2 in Hin. cbn [fmap list_fmap concat] in Hin. rewrite <- !app_assoc in Hin.
  destruct (transact_waits c req c1 rsp up down fuel p _ Hreq Hw ltac:(lia) Hin) as (p2 & E2 & Hi2 & Ho2).
  destruct (Hr fuel p2 rest ltac:(lia) Hi2) as (p3 & E3 & Hi3 & Ho3). exists p3. rewrite Hf, E2. split_and!; [exact E3|done|].
  rewrite Ho3, Ho2. unfold frames. cbn [fmap list_fmap concat]. by rewrite fmap_app, concat_app, !app_assoc.
Qed.

(** The server serves it and goes on waiting for an answer. *)
Lemma call_waits s req d s1 rsp up down s2 ans up' down' :
  carried_text req -> as_request req = Ret (Some d) -> carried_text rsp ->
  server_runs (fun p x => arpc_handle_parsed x d (set_pipe s p)) s1 rsp up down ->
  server_waits s1 s2 ans up' down' ->
  server_waits s s2 ans (req :: up ++ up') (down ++ rsp :: down').
Proof.
  intros Hreq Hd Hrsp Hr Hw fuel p rest Hlen Hin. cbn [length app] in Hlen. rewrite !length_app in Hlen. cbn [length] in Hlen.
  destruct fuel as [|fuel]; [lia|]. cbn [exchange_loop]. unfold frames in Hin. cbn [app fmap list_fmap concat] in Hin.
  rewrite <- app_assoc in Hin. destruct (server_receives s p req _ Hreq Hin) as (p1 & -> & Hi1 & Ho1). cbn [mbind outcome_bind].
  rewrite Hd. cbn [mbind outcome_bind]. fold (frames ((up ++ up') ++ [ans])) in Hi1. rewrite <- app_assoc, frames_app, <- app_assoc in Hi1.
  destruct (Hr fuel p1 _ ltac:(lia) Hi1) as (p2 & E2 & Hi2 & Ho2). cbn beta in E2. unfold arpc_conn_exchange in E2. rewrite E2.
  cbn [mbind outcome_bind]. rewrite (carried_cstr rsp Hrsp). destruct (server_sends s1 p2 rsp Hrsp) as (p3 & -> & Hi3 & Ho3).
  cbn [mbind outcome_bind]. destruct (Hw fuel p3 rest ltac:(rewrite length_app; cbn; lia) ltac:(congruence)) as (p4 & E4 & Hi4 & Ho4).
  exists p4. split_and!; [exact E4|done|]. rewrite Ho4, Ho3, Ho2, Ho1. unfold frames. rewrite fmap_app, concat_app.
  cbn [fmap list_fmap concat]. by rewrite !app_assoc.
Qed.
(** The loop of a connection, to its end. *)
Definition server_serves s s' (up down : list (list Z)) : Prop :=
  forall fuel p, (length up < fuel)%nat -> incoming p = frames up ->
    exists p', serve_loop fuel (set_pipe s p) = Ret (set_pipe s' p') /\ incoming p' = [] /\ outgoing p' = outgoing p ++ frames down.

Lemma serves_nothing s : server_serves s s [] [].
Proof.
  intros fuel p Hf Hin. destruct fuel as [|fuel]; [cbn in Hf; lia|]. cbn [serve_loop].
  destruct (recv_framed_empty (set_pipe s p) Hin) as (p' & E & Ho). cbn [sv_pipe set_pipe] in *. rewrite E.
  cbn [mbind outcome_bind]. exists p'. split_and!; [done| |by rewrite app_nil_r].
  unfold recv_framed in E. cbn [sv_pipe set_pipe] in E. destruct (arpc_recv_frame true p) as [[r n] h] eqn:Er.
  apply recv_frame_suffix in Er as [Hs _]; [|by rewrite Hin]. rewrite Hin in Hs. destruct Hs as [k Hk]. symmetry in Hk.
  apply app_eq_nil in Hk as [_ Hk]. destruct r as [[b l]| | |]; simplify_eq. done.
Qed.

Lemma call_serves s req d s1 rsp up down s2 up' down' :
  carried_text req -> as_request req = Ret (Some d) -> carried_text rsp ->
  server_runs (fun p x => arpc_handle_parsed x d (set_pipe s p)) s1 rsp up down ->
  server_serves s1 s2 up' down' -> server_serves s s2 (req :: up ++ up') (down ++ rsp :: down').
Proof.
  intros Hreq Hd Hrsp Hr Hw fuel p Hlen Hin. cbn [length] in Hlen. rewrite length_app in Hlen.
  destruct fuel as [|fuel]; [lia|]. cbn [serve_loop]. unfold frames in Hin. cbn [fmap list_fmap concat] in Hin.
  destruct (server_receives s p req _ Hreq Hin) as (p1 & -> & Hi1 & Ho1). cbn [mbind outcome_bind].
  fold (frames (up ++ up')) in Hi1. rewrite frames_app in Hi1.
  destruct (Hr fuel p1 _ ltac:(lia) Hi1) as (p2 & E2 & Hi2 & Ho2). cbn beta in E2.
  assert (Ep : aj_parse (cstr req) = Ret d).
  { unfold as_request in Hd. destruct (aj_parse (cstr req)) as [d'| | |]; [|done..].
    destruct (aj_member d' 0 (lit "method")) as [m| | |]; [|done..]. cbn in Hd. case_match; congruence. }
  unfold arpc_handle_frame. rewrite Ep, E2. cbn [mbind outcome_bind]. rewrite (carried_cstr rsp Hrsp).
  destruct (server_sends s1 p2 rsp Hrsp) as (p3 & -> & Hi3 & Ho3). cbn [mbind outcome_bind].
  destruct (Hw fuel p3 ltac:(lia) ltac:(congruence)) as (p4 & E4 & Hi4 & Ho4). exists p4. split_and!; [exact E4|done|].
  rewrite Ho4, Ho3, Ho2, Ho1. unfold frames. rewrite fmap_app, concat_app. cbn [fmap list_fmap concat]. by rewrite !app_assoc.
Qed.

(** ** The whole of it *)

Lemma conversation :
  (forall s c req s' c' rsp up down, calls s c req s' c' rsp up down ->
     exists d, as_request req = Ret (Some d) /\ carried_text rsp /\
       server_runs (fun p x => arpc_handle_parsed x d (set_pipe s p)) s' rsp up down /\ client_waits c c' rsp up down) /\
  (forall f c s' c' rsp up down, handles f c s' c' rsp up down -> is_reply rsp -> carried_text rsp ->
     server_runs f s' rsp up down /\ client_waits c c' rsp up down) /\
  (forall s c cb s' c' ans up down, calls_back s c cb s' c' ans up down ->
     carried_text cb /\ server_waits s s' ans up down /\
     exists d n w, aj_parse cb = Ret d /\ aj_member d 0 (lit "cb") = Ret n /\ 0 <= n /\ w_err w = false /\ w_buf w = ans /\
       carried_text ans /\ client_runs (fun p x => arpc_dispatch_callback x d (cl_set_pipe c (Some p))) c' w up down) /\
  (forall X (f : client_code X) s s' c' r up down, makes f s s' c' r up down ->
     client_runs f c' r up down /\ server_serves s s' up down /\
     forall ans, carried_text ans -> as_request ans = Ret None -> server_waits s s' ans up down).
Proof.
  apply conversation_rec.
  - intros s c req d s' c' rsp up down Hd _ IH Hrep Hc. destruct (IH Hrep Hc) as [Hs Hw]. by exists d.
  - intros f s c rsp Hf Hrep Hc. split; [|by apply waits_reply]. intros fuel p rest _ Hin. exists p. rewrite Hf.
    split_and!; [done|done|]. by rewrite app_nil_r.
  - intros f g s c cb s1 c1 ans up down s2 c2 rsp up' down' Hf Hconn _ (Hcb & Hw & d & n & w & Hd & Hm & Hn & He & <- & Hans & Hr) _ IH Hrep Hc.
    destruct (IH Hrep Hc) as [Hs Hw']. split; [by eapply ask_runs|by eapply ask_waits].
  - intros s c cb d n s' c' w up down Hcb Hd Hm Hn _ (Hr & _ & Hw) He Hans Hreq. split_and!; [done|by apply Hw|]. by exists d, n, w.
  - intros X f s c r Hf. split_and!; [|apply serves_nothing|by apply waits_answer]. intros fuel p rest _ Hin. exists p. rewrite Hf.
    split_and!; [done|done|]. by rewrite app_nil_r.
  - intros X f g c req s s1 c1 rsp up down s2 c2 r up' down' Hf Hreq _ (d & Hd & Hrsp & Hs & Hw) _ (IHr & IHs & IHw).
    split_and!; [by eapply request_runs|by eapply call_serves|]. intros ans Hans Ha. eapply call_waits; eauto.
Qed.

(** C2. A conversation of any length and depth. What a client's code and the
    handlers do when each end is handed to the other as a function, the two
    processes do over the pipe: the client's code, in which each request
    goes through [transact], gets the same results and leaves the same
    state, and the server's connection, served to its end, leaves the same
    state; either end reads what the other has sent, all of it, and no end
    waits for a frame the other does not send. This is so as long as no
    memory is refused. *)
Theorem conversation_composed {X} (f : client_code X) s0 s' c' (r : X) up down :
  let s := arpc_paths_set (arpc_cb_set_conn s0 (Some true)) false in
  makes f s s' c' r up down ->
  (forall fuel p, (length down < fuel)%nat -> incoming p = frames down ->
     exists p', f p (transact fuel) = Ret (cl_set_pipe c' (Some p'), r) /\ incoming p' = [] /\
       outgoing p' = outgoing p ++ frames up) /\
  (forall fuel p, (length up < fuel)%nat -> incoming p = frames up ->
     exists p', serve_connection fuel p s0 = Ret (arpc_cb_set_conn (set_pipe s' p') None) /\ incoming p' = [] /\
       outgoing p' = outgoing p ++ frames down).
Proof.
  intros s Hm. destruct conversation as (_ & _ & _ & Hall). destruct (Hall _ _ _ _ _ _ _ _ Hm) as (Hc & Hs & _). split.
  - intros fuel p Hf Hin. destruct (Hc fuel p [] Hf) as (p' & E & Hi & Ho); [by rewrite app_nil_r|]. by exists p'.
  - intros fuel p Hf Hin. destruct (Hs fuel p Hf Hin) as (p' & E & Hi & Ho). exists p'. unfold serve_connection.
    change (arpc_paths_set (arpc_cb_set_conn (set_pipe s0 p) (Some true)) false) with (set_pipe s p). by rewrite E.
Qed.
End Session.

(** ** A conversation at work

    The client asks; the server, in the middle of its answer, calls back; the
    function called back asks the server something else, and answers with what
    it was told. *)

Section Toy.
#[local] Existing Instance DispatchTheorems.toy_tags.
#[local] Existing Instance unit_gpgme.
#[local] Existing Instance unit_archive.
#[local] Existing Instance Chain.chain.
#[local] Existing Instance Chain.above.
#[local] Existing Instance Trickle.ops.
#[local] Existing Instance Trickle.handle.
#[local] Existing Instance Trickle.connected.
#[local] Existing Instance trickle_steady.
#[local] Existing Instance ToyClient.win.

Definition called_handle : Z := 1099511627777.

Definition ask_handler : handler unit Trickle.pipe := fun send rq rs s =>
  '(s, r) ← send 0 called_handle None 0 s; rs ← Server.arpc_ret_i64 (A:=ample) rs r; Ret (s, rq, rs).
Definition one_handler : handler unit Trickle.pipe := fun _ rq rs s =>
  rs ← Server.arpc_ret_i64 (A:=ample) rs 41; Ret (s, rq, rs).

#[local] Instance talking_generated : Generated unit Trickle.pipe := {
  arpc_methods := [(lit "alpm_ask", ask_handler); (lit "alpm_one", one_handler)];
  arpc_cb_kinds := [lit "log"];
  cb_install w _ _ _ _ := (0, w);
  mtree_fuel := 1%nat
}.

(** A build that takes POSIX paths. *)
#[local] Instance posix_stubs : Stubs (H:=Chain.chain) ToyClient.world Trickle.pipe := { cb_kinds := []; win32_paths := false }.

(** A stub that returns a number. *)
Definition number_stub (method : list Z) (x : transactor ToyClient.world Trickle.pipe) (c : client ToyClient.world Trickle.pipe)
  : outcome (client ToyClient.world Trickle.pipe * Z) :=
  '(c, r) ← stub_call (A:=ample) x method [] c;
  match r with
  | Some (ca, true) => v ← arpc_ret_i64 ca; Ret (c, v)
  | _ => Ret (c, 0)
  end.

Definition ask_back : cb_call ToyClient.world Trickle.pipe := fun x _ _ _ _ c => number_stub (lit "alpm_one") x c.

#[local] Instance talking_stubs : Stubs (H:=Chain.chain) ToyClient.world Trickle.pipe := {
  cb_kinds := [(lit "log", ask_back)];
  win32_paths := false
}.

Definition talking_client : client ToyClient.world Trickle.pipe :=
  cl_set_regs toy_client (set_reg [new_reg called_handle] called_handle 0 4096 9).
Definition talking_server : server unit Trickle.pipe :=
  Server htab0 [] 1 (Some true) false false gpg0 tt (Trickle.Pipe [] [] 0 []).

(** What goes over the wire. *)
Definition ask_req : list Z := qlit "{`id`:1,`method`:`alpm_ask`,`params`:[]}".
Definition one_req : list Z := qlit "{`id`:2,`method`:`alpm_one`,`params`:[]}".
Definition one_rsp : list Z := qlit "{`id`:2,`result`:{`@ret`:41}}".
Definition ask_rsp : list Z := qlit "{`id`:1,`result`:{`@ret`:41}}".
Definition log_cb : list Z := qlit "{`cb`:`log`,`seq`:1,`handle`:1099511627777,`args`:null}".
Definition log_ans : list Z := qlit "{`cbseq`:1,`@ret`:41}".

Definition asks_once : client_code (W':=ToyClient.world) (H':=Trickle.pipe) Z :=
  fun p x => number_stub (lit "alpm_ask") x (cl_set_pipe talking_client (Some p)).

(** A text that parses. *)
Definition doc_of (text : list Z) : aj_doc := match aj_parse (A:=ample) text with Ret d => d | _ => doc0 end.

(** What is left of each piece of code when its exchange is over. *)
Definition number_rest (method : list Z) (id : Z) (c : client ToyClient.world Trickle.pipe) (rsp : option (list Z))
  : outcome (client ToyClient.world Trickle.pipe * Z) :=
  let ca := match wrun (A:=ample) (request_ops id method []) ajw_init with
            | Ret w => Call w doc0 id (-1) false
            | _ => Call ajw_init doc0 id (-1) false
            end in
  '(c, ca, ok) ← match rsp with None => Ret (c, ca, false) | Some rsp => check_reply (A:=ample) ca rsp c end;
  if ok : bool then v ← arpc_ret_i64 ca; Ret (c, v) else Ret (c, 0).
Definition ask_rest (s : server unit Trickle.pipe) (a : option (list Z)) : outcome (server unit Trickle.pipe * option (list Z)) :=
  '(s, r) ← match a with None => Ret (s, 0) | Some reply => r ← cb_value (A:=ample) reply 1 0; Ret (s, r) end;
  rs ← Server.arpc_ret_i64 (A:=ample) res0 r; r ← reply_of (A:=ample) 1 rs; Ret (s, r).
Definition answer_rest (c : client ToyClient.world Trickle.pipe) (rsp : option (list Z)) : outcome (client ToyClient.world Trickle.pipe * aj_w) :=
  '(c, v) ← number_rest (lit "alpm_one") 2 c rsp;
  w ← ajw_obj_begin (A:=ample) ajw_init;
  w ← ajw_key (A:=ample) w (lit "cbseq"); w ← ajw_i64 (A:=ample) w 1;
  w ← ajw_key (A:=ample) w ARPC_RET_KEY; w ← ajw_i64 (A:=ample) w v;
  w ← ajw_obj_end (A:=ample) w;
  Ret (c, w).

(** The client with so many requests made. *)
Definition talked (n : Z) : client ToyClient.world Trickle.pipe := cl_set_next_id talking_client n.

Ltac stub_runs x :=
  cbv -[check_reply arpc_ret_i64]; destruct (x _ _) as [[? [?|]]| | |]; try reflexivity;
  destruct (check_reply _ _ _) as [[[? ?] []]| | |]; reflexivity.

Lemma asks_once_makes p x :
  asks_once p x = ('(c, a) ← x ask_req (cl_set_pipe (talked 2) (Some p)); number_rest (lit "alpm_ask") 1 c a).
Proof. stub_runs x. Qed.

Lemma ask_handler_asks p x :
  arpc_handle_parsed (A:=ample) x (doc_of ask_req) (set_pipe talking_server p) =
    ('(s, a) ← x log_cb (set_pipe (set_seq talking_server 2) p); ask_rest s a).
Proof.
  cbv -[cb_value Server.arpc_ret_i64 reply_of]. destruct (x _ _) as [[s [reply|]]| | |]; try reflexivity.
  destruct (cb_value reply 1 0); try reflexivity. by destruct (Server.arpc_ret_i64 _ _).
Qed.

Lemma one_makes p x :
  number_stub (lit "alpm_one") x (cl_set_pipe (talked 2) (Some p)) =
    ('(c, a) ← x one_req (cl_set_pipe (talked 3) (Some p)); number_rest (lit "alpm_one") 2 c a).
Proof. stub_runs x. Qed.

Lemma ask_back_makes p x :
  arpc_dispatch_callback (A:=ample) x (doc_of log_cb) (cl_set_pipe (talked 2) (Some p)) =
    ('(c, a) ← x one_req (cl_set_pipe (talked 3) (Some p)); answer_rest c a).
Proof.
  pose proof (one_makes p x) as E. cbv -[number_stub number_rest ajw_obj_begin ajw_key ajw_i64 ajw_obj_end] in E |- *.
  rewrite E. by destruct (x _ _) as [[c a]| | |].
Qed.

Lemma talk_text t : no_nul t -> 0 < len t <= 1000 -> carried_text t.
Proof. intros Hn Hl. split; [done|]. unfold ARPC_MAX_FRAME. lia. Qed.

Ltac small_text := apply talk_text; [by apply (bool_decide_unpack (no_nul _))|by vm_compute].

(** What the stub in the callback does, and what it answers. *)
Lemma talk_nested : calls (A:=ample) (set_seq talking_server 2) (talked 3) one_req (set_seq talking_server 2) (talked 3) one_rsp [] [].
Proof.
  apply (calls_made _ _ _ (doc_of one_req)); [by vm_compute| | |small_text].
  - apply handles_reply. intros p x. vm_compute. reflexivity.
  - eexists. split; [vm_compute; reflexivity|reflexivity].
Qed.

(** The answer as it is written. *)
Definition log_writer : aj_w := match answer_rest (talked 3) (Some one_rsp) with Ret (_, w) => w | _ => ajw_init end.

Lemma answer_rest_log p : answer_rest (cl_set_pipe (talked 3) (Some p)) (Some one_rsp) = Ret (cl_set_pipe (talked 3) (Some p), log_writer).
Proof. vm_compute. reflexivity. Qed.

Lemma log_writer_text : w_buf log_writer = log_ans.
Proof. vm_compute. reflexivity. Qed.

Lemma talk_back : calls_back (A:=ample) (set_seq talking_server 2) (talked 2) log_cb (set_seq talking_server 2) (talked 3) log_ans [one_req] [one_rsp].
Proof.
  rewrite <- log_writer_text. apply (calls_back_made _ _ _ (doc_of log_cb) 1).
  - small_text.
  - by vm_compute.
  - by vm_compute.
  - done.
  - eapply (makes_call _ _ _ _ _ _ _ _ one_rsp [] [] _ _ _ [] [] ask_back_makes); [small_text|exact talk_nested|].
    apply makes_result. intros p _. apply answer_rest_log.
  - by vm_compute.
  - rewrite log_writer_text. small_text.
  - rewrite log_writer_text. by vm_compute.
Qed.

Lemma talk_ask : calls (A:=ample) talking_server (talked 2) ask_req (set_seq talking_server 2) (talked 3) ask_rsp [one_req; log_ans] [log_cb; one_rsp].
Proof.
  apply (calls_made _ _ _ (doc_of ask_req)); [by vm_compute| | |small_text].
  - eapply (handles_ask _ _ _ _ _ _ _ log_ans [one_req] [one_rsp] _ _ _ [] [] ask_handler_asks); [reflexivity|exact talk_back|].
    apply handles_reply. intros p _. vm_compute. reflexivity.
  - eexists. split; [vm_compute; reflexivity|reflexivity].
Qed.

Lemma talk_makes : makes (A:=ample) asks_once talking_server (set_seq talking_server 2) (talked 3) 41 [ask_req; one_req; log_ans] [log_cb; one_rsp; ask_rsp].
Proof.
  eapply (makes_call _ _ _ _ _ _ _ _ ask_rsp [one_req; log_ans] [log_cb; one_rsp] _ _ _ [] [] asks_once_makes); [small_text|exact talk_ask|].
  apply makes_result. intros p _. vm_compute. reflexivity.
Qed.

(** The client's end before it starts, and the server's before it accepts. *)
Definition client_end : Trickle.pipe := Trickle.Pipe (frames [log_cb; one_rsp; ask_rsp]) [] 0 [].
Definition server_end : Trickle.pipe := Trickle.Pipe (frames [ask_req; one_req; log_ans]) [] 0 [].

Lemma conversation_composed_witness :
  (exists p, asks_once client_end (transact (A:=ample) 4) = Ret (cl_set_pipe (talked 3) (Some p), 41) /\
     outgoing p = frames [ask_req; one_req; log_ans]) /\
  (exists s, serve_connection (A:=ample) 4 server_end talking_server = Ret s /\
     outgoing (sv_pipe s) = frames [log_cb; one_rsp; ask_rsp]).
Proof.
  destruct (conversation_composed (A:=ample) asks_once talking_server (set_seq talking_server 2) (talked 3) 41
    [ask_req; one_req; log_ans] [log_cb; one_rsp; ask_rsp] talk_makes) as [Hc Hs]. split.
  - destruct (Hc 4%nat client_end) as (p & E & _ & Ho); [apply Nat.ltb_lt; reflexivity|reflexivity|].
    exact (ex_intro _ p (conj E Ho)).
  - destruct (Hs 4%nat server_end) as (p & E & _ & Ho); [apply Nat.ltb_lt; reflexivity|reflexivity|].
    exact (ex_intro _ _ (conj E Ho)).
Defined.
End Toy.
